(** * TypeForge logic engine: a shallow embedding and its verified properties

    The development follows the TypeScript sources:
    - [types/syntax.ts]: the metamodel, the function engine, the formula
      kernel and the tactic engine;
    - [components/rule-canvas/helpers.ts]: pattern matching and substitution;
    - [components/RuleCanvas.tsx]: backward derivation search;
    - [store/useStore.ts]: the registry and its deletion cascades.

    Conventions of the embedding.
    - Identifiers are JavaScript strings; an optional field is an [option];
      a JavaScript truthiness test on an optional string is [truthy].
    - A JavaScript [Map] keeps its entries in insertion order and the code
      depends on that order ([Array.from(m.values())] fixes the order in
      which rules are tried and in which subgoals are produced), so a map is
      an association list, see [JsMap].
    - JavaScript numbers that hold integers are [Z].
    - The [id] fields of terms and patterns are never read by the functions
      embedded here (equality of terms is structural), so they are left out.
    - [uuidv4()] draws from an arbitrary supply [uuid : nat -> string]; the
      number of identifiers drawn so far is threaded as state.
    - Texts for display only (the [message] of a successful tactic or
      simplification, the [description] of an overlap) are left out; the
      error texts of failures are kept. *)

From Stdlib Require Import String List ZArith Bool Arith Lia.
From Stdlib Require Import DecimalString DecimalNat.
Import ListNotations.

Local Open Scope string_scope.
Local Open Scope list_scope.

Set Warnings "-register-all".

(* ================================================================== *)
(** ** JavaScript values *)

(** [if (s)] on an optional string: [undefined] and [""] are falsy. *)
Definition truthy (o : option string) : bool :=
  match o with
  | Some s => negb (String.eqb s "")
  | None => false
  end.

(** [s || d] on an optional string. *)
Definition orElse (o : option string) (d : string) : string :=
  match o with
  | Some s => if String.eqb s "" then d else s
  | None => d
  end.

(** [a === b] on optional strings. *)
Definition optStrEq (a b : option string) : bool :=
  match a, b with
  | Some x, Some y => String.eqb x y
  | None, None => true
  | _, _ => false
  end.

(** [a === b] on optional booleans. *)
Definition optBoolEq (a b : option bool) : bool :=
  match a, b with
  | Some x, Some y => Bool.eqb x y
  | None, None => true
  | _, _ => false
  end.

(** Truthiness of an optional boolean flag. *)
Definition flag (o : option bool) : bool :=
  match o with
  | Some b => b
  | None => false
  end.

(* ================================================================== *)
(** ** JavaScript [Map] with string keys, in insertion order *)

Module JsMap.

Definition t (V : Type) : Type := list (string * V).

Definition empty {V : Type} : t V := [].

Fixpoint get {V : Type} (k : string) (m : t V) : option V :=
  match m with
  | [] => None
  | (k', v) :: r => if String.eqb k' k then Some v else get k r
  end.

Definition has {V : Type} (k : string) (m : t V) : bool :=
  match get k m with
  | Some _ => true
  | None => false
  end.

(** [m.set(k, v)]: an existing key keeps its position. *)
Fixpoint set {V : Type} (k : string) (v : V) (m : t V) : t V :=
  match m with
  | [] => [(k, v)]
  | (k', v') :: r =>
      if String.eqb k' k then (k', v) :: r else (k', v') :: set k v r
  end.

Definition delete {V : Type} (k : string) (m : t V) : t V :=
  filter (fun e => negb (String.eqb (fst e) k)) m.

Definition keys {V : Type} (m : t V) : list string := map fst m.

Definition values {V : Type} (m : t V) : list V := map snd m.

Definition size {V : Type} (m : t V) : nat := length m.

(** Keys of a JavaScript [Map] are unique. *)
Definition wf {V : Type} (m : t V) : Prop := NoDup (keys m).

End JsMap.

(* ================================================================== *)
(** ** Core syntax types ([types/syntax.ts]) *)

Inductive SortKind : Type := inductive | atom.

Record Sort : Type := mkSort {
  sort_id : string;
  sort_name : string;
  sort_kind : SortKind;
  sort_isBinderSort : bool;
  sort_color : string;
  sort_atomPrefix : option string
}.

Record ConstructorArg : Type := mkConstructorArg {
  arg_id : string;
  arg_sortId : string;
  arg_label : option string;
  arg_isBinder : option bool;
  arg_bindsIn : option (list string)
}.

Record Constructor : Type := mkConstructor {
  c_id : string;
  c_sortId : string;
  c_name : string;
  c_args : list ConstructorArg;
  c_isTerminal : bool
}.

(** A concrete term.  An atom occurrence has [t_isVariable = Some true], a
    [t_variableName] and the empty constructor id. *)
Inductive Term : Type :=
  mkTerm {
    t_constructorId : string;
    t_args : list Term;
    t_variableName : option string;
    t_isVariable : option bool
  }.

(** A pattern: a meta-variable, a constructor pattern or an empty hole. *)
Inductive Pattern : Type :=
  mkPattern {
    p_constructorId : option string;
    p_metaVariableId : option string;
    p_args : list Pattern
  }.

Record MetaVariable : Type := mkMetaVariable {
  mv_id : string;
  mv_name : string;
  mv_sortId : string
}.

Record Judgment : Type := mkJudgment {
  j_id : string;
  j_name : string;
  j_symbol : string;
  j_separators : list string;
  j_argSorts : list (string * string);
  j_color : string
}.

Record JudgmentInstance : Type := mkJudgmentInstance {
  ji_id : string;
  ji_judgmentId : string;
  ji_args : list Pattern
}.

(** Induction principles that reach the arguments. *)
Section TermInd.
Variable P : Term -> Prop.
Hypothesis step : forall c args v i, Forall P args -> P (mkTerm c args v i).

Fixpoint Term_ind' (t : Term) : P t :=
  match t with
  | mkTerm c args v i =>
      step c args v i
        ((fix go (l : list Term) : Forall P l :=
            match l with
            | [] => Forall_nil P
            | x :: r => @Forall_cons _ P x r (Term_ind' x) (go r)
            end) args)
  end.
End TermInd.

Section PatternInd.
Variable P : Pattern -> Prop.
Hypothesis step : forall c m args, Forall P args -> P (mkPattern c m args).

Fixpoint Pattern_ind' (p : Pattern) : P p :=
  match p with
  | mkPattern c m args =>
      step c m args
        ((fix go (l : list Pattern) : Forall P l :=
            match l with
            | [] => Forall_nil P
            | x :: r => @Forall_cons _ P x r (Pattern_ind' x) (go r)
            end) args)
  end.
End PatternInd.

(* ================================================================== *)
(** ** Pattern engine ([rule-canvas/helpers.ts]) *)

Fixpoint isPatternComplete (pattern : Pattern) : bool :=
  if negb (truthy (p_constructorId pattern)) && negb (truthy (p_metaVariableId pattern))
  then false
  else forallb isPatternComplete (p_args pattern).

Definition isJudgmentInstanceComplete (instance : JudgmentInstance) : bool :=
  forallb isPatternComplete (ji_args instance).

(** Structural equality of terms. *)
Fixpoint termsEqual (t1 t2 : Term) {struct t1} : bool :=
  if flag (t_isVariable t1) || flag (t_isVariable t2) then
    optBoolEq (t_isVariable t1) (t_isVariable t2)
    && optStrEq (t_variableName t1) (t_variableName t2)
  else if negb (String.eqb (t_constructorId t1) (t_constructorId t2)) then false
  else if negb (Nat.eqb (length (t_args t1)) (length (t_args t2))) then false
  else
    (fix every (l1 l2 : list Term) {struct l1} : bool :=
       match l1, l2 with
       | [], _ => true
       | x :: r1, y :: r2 => termsEqual x y && every r1 r2
       | _ :: _, [] => false
       end) (t_args t1) (t_args t2).

(** The inner loop of [matchPattern]: add the bindings of one argument to
    the accumulated ones, failing on a conflicting binding. *)
Fixpoint mergeBindings (allBindings : JsMap.t Term) (argBindings : list (string * Term))
  : option (JsMap.t Term) :=
  match argBindings with
  | [] => Some allBindings
  | (key, value) :: rest =>
      match JsMap.get key allBindings with
      | Some existing =>
          if negb (termsEqual existing value) then None
          else mergeBindings (JsMap.set key value allBindings) rest
      | None => mergeBindings (JsMap.set key value allBindings) rest
      end
  end.

Fixpoint matchPattern (term : Term) (pattern : Pattern) {struct pattern}
  : option (JsMap.t Term) :=
  match pattern with
  | mkPattern pc pm pargs =>
      if truthy pm then Some (JsMap.set (orElse pm "") term JsMap.empty)
      else if truthy pc then
        if flag (t_isVariable term) then None
        else if negb (String.eqb (t_constructorId term) (orElse pc "")) then None
        else if negb (Nat.eqb (length (t_args term)) (length pargs)) then None
        else
          (fix loop (ts : list Term) (ps : list Pattern) (allBindings : JsMap.t Term)
             {struct ps} : option (JsMap.t Term) :=
             match ps with
             | [] => Some allBindings
             | p :: ps' =>
                 match ts with
                 | [] => None
                 | t :: ts' =>
                     match matchPattern t p with
                     | None => None
                     | Some argBindings =>
                         match mergeBindings allBindings argBindings with
                         | None => None
                         | Some merged => loop ts' ps' merged
                         end
                     end
                 end
             end) (t_args term) pargs JsMap.empty
      else None
  end.

Fixpoint substitutePattern (pattern : Pattern) (bindings : JsMap.t Term) {struct pattern}
  : option Term :=
  match pattern with
  | mkPattern pc pm pargs =>
      if truthy pm then JsMap.get (orElse pm "") bindings
      else if truthy pc then
        match
          (fix loop (ps : list Pattern) : option (list Term) :=
             match ps with
             | [] => Some []
             | argPattern :: ps' =>
                 match substitutePattern argPattern bindings with
                 | None => None
                 | Some argTerm =>
                     match loop ps' with
                     | None => None
                     | Some rest => Some (argTerm :: rest)
                     end
                 end
             end) pargs
        with
        | None => None
        | Some args => Some (mkTerm (orElse pc "") args None None)
        end
      else None
  end.

(* ================================================================== *)
(** ** Recursive functions over syntax: expressions ([types/syntax.ts]) *)

(** The [kind] tag of the binary nodes [{kind, left, right}] of [FuncExpr]. *)
Inductive FuncBinKind : Type :=
  fb_add | fb_sub | fb_mul | fb_max | fb_min | fb_union | fb_intersect | fb_diff.

(** The [kind] tag of the comparison nodes [{kind, left, right}] of
    [FuncPredicate]. *)
Inductive FuncCmpKind : Type :=
  fc_eq | fc_neq | fc_lt | fc_leq | fc_gt | fc_geq | fc_atomEq | fc_atomNeq | fc_subset.

Inductive FuncConnKind : Type := fk_and | fk_or.

Inductive FuncExpr : Type :=
| FE_int (value : Z)
| FE_empty
| FE_singleton (element : FuncExpr)
| FE_var (name : string)
| FE_call (funcId : string) (arg : FuncExpr)
| FE_callMulti (funcId : string) (args : list FuncExpr)
| FE_construct (constructorId : string) (args : list FuncExpr)
| FE_bin (kind : FuncBinKind) (left right : FuncExpr)
| FE_if (cond : FuncPredicate) (thenE elseE : FuncExpr)
with FuncPredicate : Type :=
| FP_cmp (kind : FuncCmpKind) (left right : FuncExpr)
| FP_in (element set : FuncExpr)
| FP_isEmpty (set : FuncExpr)
| FP_conn (kind : FuncConnKind) (left right : FuncPredicate)
| FP_not (pred : FuncPredicate).

Inductive FuncReturnType : Type :=
| RT_int
| RT_set (elementSortId : string)
| RT_inductive (sortId : string).

Record FuncArg : Type := mkFuncArg {
  fa_name : string;
  fa_sortId : string;
  fa_isPrincipal : bool
}.

Record FuncCase : Type := mkFuncCase {
  fc_constructorId : string;
  fc_boundVars : list string;
  fc_body : FuncExpr
}.

Record RecursiveFunc : Type := mkRecursiveFunc {
  f_id : string;
  f_name : string;
  f_inputSortId : string;
  f_extraArgs : list FuncArg;
  f_returnType : FuncReturnType;
  f_cases : list FuncCase;
  f_terminates : option bool;
  f_terminationError : option string
}.

(* ================================================================== *)
(** ** Inference rules and derivations *)

Inductive RuleCmpKind : Type := rc_eq | rc_neq | rc_lt | rc_leq | rc_gt | rc_geq.

Inductive RuleFuncPredicate : Type :=
| RP_cmp (kind : RuleCmpKind) (funcId : string) (arg : Pattern) (value : FuncExpr)
| RP_isEmpty (funcId : string) (arg : Pattern)
| RP_notEmpty (funcId : string) (arg : Pattern)
| RP_in (element : Pattern) (funcId : string) (arg : Pattern)
| RP_notIn (element : Pattern) (funcId : string) (arg : Pattern).

Record SideCondition : Type := mkSideCondition {
  sc_id : string;
  sc_predicate : RuleFuncPredicate
}.

Record InferenceRule : Type := mkInferenceRule {
  r_id : string;
  r_name : string;
  r_premises : list JudgmentInstance;
  r_sideConditions : list SideCondition;
  r_conclusion : JudgmentInstance;
  r_position : Z * Z
}.

Inductive Derivation : Type :=
  mkDerivation {
    d_ruleName : string;
    d_ruleId : string;
    d_conclusion : string * list Term;
    d_premises : list Derivation
  }.

Definition isRuleComplete (rule : InferenceRule) : bool :=
  let conclusionComplete := isJudgmentInstanceComplete (r_conclusion rule) in
  let premisesComplete := forallb isJudgmentInstanceComplete (r_premises rule) in
  conclusionComplete && premisesComplete.

(* ------------------------------------------------------------------ *)
(** *** Backward derivation search ([RuleCanvas.tsx]) *)

Definition getRulesForJudgment (rules : JsMap.t InferenceRule) (judgmentId : string)
  : list InferenceRule :=
  filter (fun r => String.eqb (ji_judgmentId (r_conclusion r)) judgmentId && isRuleComplete r)
         (JsMap.values rules).

(** The loop that matches the conclusion patterns against the input terms,
    position by position, merging the bindings. *)
Fixpoint matchConclusion (terms : list Term) (patterns : list Pattern)
  (allBindings : JsMap.t Term) : option (JsMap.t Term) :=
  match terms with
  | [] => Some allBindings
  | t :: terms' =>
      match patterns with
      | [] => None
      | p :: patterns' =>
          match matchPattern t p with
          | None => None
          | Some bindings =>
              match mergeBindings allBindings bindings with
              | None => None
              | Some merged => matchConclusion terms' patterns' merged
              end
          end
      end
  end.

(** The terms of one premise: every argument pattern instantiated. *)
Fixpoint substituteAll (patterns : list Pattern) (bindings : JsMap.t Term)
  : option (list Term) :=
  match patterns with
  | [] => Some []
  | argPattern :: rest =>
      match substitutePattern argPattern bindings with
      | None => None
      | Some term =>
          match substituteAll rest bindings with
          | None => None
          | Some terms => Some (term :: terms)
          end
      end
  end.

Section DerivationStep.
(** The recursive call [buildDerivation(premise.judgmentId, premiseTerms,
    depth + 1)]. *)
Variable recur : string -> list Term -> option Derivation.

Fixpoint derivePremises (premises : list JudgmentInstance) (allBindings : JsMap.t Term)
  : option (list Derivation) :=
  match premises with
  | [] => Some []
  | premise :: rest =>
      match substituteAll (ji_args premise) allBindings with
      | None => None
      | Some premiseTerms =>
          match recur (ji_judgmentId premise) premiseTerms with
          | None => None
          | Some premiseDerivation =>
              match derivePremises rest allBindings with
              | None => None
              | Some ds => Some (premiseDerivation :: ds)
              end
          end
      end
  end.

Fixpoint tryRules (judgmentId : string) (terms : list Term)
  (rulesForJudgment : list InferenceRule) : option Derivation :=
  match rulesForJudgment with
  | [] => None
  | rule :: rest =>
      let conclusion := r_conclusion rule in
      if negb (Nat.eqb (length (ji_args conclusion)) (length terms))
      then tryRules judgmentId terms rest
      else
        match matchConclusion terms (ji_args conclusion) JsMap.empty with
        | None => tryRules judgmentId terms rest
        | Some allBindings =>
            match derivePremises (r_premises rule) allBindings with
            | Some premiseDerivations =>
                Some (mkDerivation (r_name rule) (r_id rule) (judgmentId, terms)
                                   premiseDerivations)
            | None => tryRules judgmentId terms rest
            end
        end
  end.
End DerivationStep.

(** [buildDerivation] at a given [depth]; [fuel] bounds the nesting of the
    recursive calls, and [buildDerivationAux_fuel] shows that the depth test
    always fires first when [12 <= fuel + depth]. *)
Fixpoint buildDerivationAux (fuel : nat) (rules : JsMap.t InferenceRule)
  (judgmentId : string) (terms : list Term) (depth : nat) : option Derivation :=
  match fuel with
  | 0 => None
  | S fuel' =>
      if Nat.ltb 10 depth then None
      else
        tryRules (fun j ts => buildDerivationAux fuel' rules j ts (depth + 1))
                 judgmentId terms (getRulesForJudgment rules judgmentId)
  end.

Definition buildDerivation (rules : JsMap.t InferenceRule) (judgmentId : string)
  (terms : list Term) : option Derivation :=
  buildDerivationAux 12 rules judgmentId terms 0.

(* ------------------------------------------------------------------ *)
(** *** Syntax-directed analysis ([types/syntax.ts]) *)

Record OverlapInfo : Type := mkOverlapInfo {
  ov_rule1Id : string;
  ov_rule2Id : string;
  ov_overlappingPosition : nat
}.

Record SyntaxDirectedAnalysis : Type := mkSyntaxDirectedAnalysis {
  isSyntaxDirected : bool;
  overlaps : list OverlapInfo
}.

Fixpoint patternsCanOverlap (p1 p2 : Pattern) {struct p1} : bool :=
  if truthy (p_metaVariableId p1) || truthy (p_metaVariableId p2) then true
  else if truthy (p_constructorId p1) && truthy (p_constructorId p2)
          && negb (optStrEq (p_constructorId p1) (p_constructorId p2)) then false
  else if optStrEq (p_constructorId p1) (p_constructorId p2) then
    (fix args (l1 l2 : list Pattern) {struct l1} : bool :=
       match l1, l2 with
       | a :: r1, b :: r2 => if negb (patternsCanOverlap a b) then false else args r1 r2
       | _, _ => true
       end) (p_args p1) (p_args p2)
  else true.

(** [patternsCanOverlap(pattern1, pattern2)] where [pattern2] may be
    [undefined] (the second rule has fewer conclusion arguments): reading
    [p2.metaVariableId] then throws, which is [None]. *)
Definition patternsCanOverlapAt (pattern1 : Pattern) (pattern2 : option Pattern)
  : option bool :=
  match pattern2 with
  | Some p2 => Some (patternsCanOverlap pattern1 p2)
  | None => if truthy (p_metaVariableId pattern1) then Some true else None
  end.

(** The innermost loop: the positions [pos, pos+1, ...] of one pair. *)
Fixpoint overlapsOfPair (rule1 rule2 : InferenceRule) (pos : nat)
  (args1 : list Pattern) : option (list OverlapInfo) :=
  match args1 with
  | [] => Some []
  | pattern1 :: rest =>
      match patternsCanOverlapAt pattern1 (nth_error (ji_args (r_conclusion rule2)) pos) with
      | None => None
      | Some b =>
          match overlapsOfPair rule1 rule2 (S pos) rest with
          | None => None
          | Some more =>
              Some (if b then mkOverlapInfo (r_id rule1) (r_id rule2) pos :: more else more)
          end
      end
  end.

(** The loop over [j > i] for a fixed [rule1]. *)
Fixpoint overlapsWith (rule1 : InferenceRule) (later : list InferenceRule)
  : option (list OverlapInfo) :=
  match later with
  | [] => Some []
  | rule2 :: rest =>
      match overlapsOfPair rule1 rule2 0 (ji_args (r_conclusion rule1)) with
      | None => None
      | Some here =>
          match overlapsWith rule1 rest with
          | None => None
          | Some more => Some (here ++ more)
          end
      end
  end.

Fixpoint overlapsOfRules (relevantRules : list InferenceRule) : option (list OverlapInfo) :=
  match relevantRules with
  | [] => Some []
  | rule1 :: rest =>
      match overlapsWith rule1 rest with
      | None => None
      | Some here =>
          match overlapsOfRules rest with
          | None => None
          | Some more => Some (here ++ more)
          end
      end
  end.

(** [None] is the [TypeError] of reading a field of [undefined]. *)
Definition analyzesSyntaxDirected (judgment : Judgment) (rules : list InferenceRule)
  : option SyntaxDirectedAnalysis :=
  let relevantRules :=
    filter (fun r => String.eqb (ji_judgmentId (r_conclusion r)) (j_id judgment)) rules in
  match overlapsOfRules relevantRules with
  | None => None
  | Some ovs => Some (mkSyntaxDirectedAnalysis (Nat.eqb (length ovs) 0) ovs)
  end.

(* ================================================================== *)
(** ** Termination checking ([types/syntax.ts]) *)

Definition isVarExpr (e : FuncExpr) : option string :=
  match e with
  | FE_var name => Some name
  | _ => None
  end.

Definition setHas (x : string) (s : list string) : bool :=
  existsb (String.eqb x) s.

Section CheckTermination.
Variable selfId : string.
Variable structuralVars : list string.
Variable allFunctions : JsMap.t RecursiveFunc.

(** The check of a (self-)recursive call on its principal argument. *)
Definition checkPrincipal (arg : FuncExpr) (notVar : string) : option string :=
  match isVarExpr arg with
  | None => Some notVar
  | Some name =>
      if negb (setHas name structuralVars)
      then Some ("Recursive call on '" ++ name ++ "' which is not a structural subterm")%string
      else None
  end.

Fixpoint checkExprTermination (expr : FuncExpr) : option string :=
  match expr with
  | FE_int _ | FE_empty => None
  | FE_var _ => None
  | FE_singleton element => checkExprTermination element
  | FE_call funcId arg =>
      if String.eqb funcId selfId then
        checkPrincipal arg "Recursive call must be on a variable, not a complex expression"
      else checkExprTermination arg
  | FE_callMulti funcId args =>
      match JsMap.get funcId allFunctions with
      | None => None
      | Some _ =>
          let checkAll :=
            fix checkAll (l : list FuncExpr) : option string :=
              match l with
              | [] => None
              | a :: r =>
                  match checkExprTermination a with
                  | Some argErr => Some argErr
                  | None => checkAll r
                  end
              end in
          if String.eqb funcId selfId then
            match args with
            | [] => Some "Recursive call has no arguments"
            | principalArg :: others =>
                match checkPrincipal principalArg
                        "Recursive call's principal argument must be a variable, not a complex expression" with
                | Some e => Some e
                | None => checkAll others
                end
            end
          else checkAll args
      end
  | FE_construct _ args =>
      (fix checkAll (l : list FuncExpr) : option string :=
         match l with
         | [] => None
         | a :: r =>
             match checkExprTermination a with
             | Some argErr => Some argErr
             | None => checkAll r
             end
         end) args
  | FE_bin _ lhs rhs =>
      match checkExprTermination lhs with
      | Some leftErr => Some leftErr
      | None => checkExprTermination rhs
      end
  | FE_if cond thenE elseE =>
      match checkPredicateTermination cond with
      | Some condErr => Some condErr
      | None =>
          match checkExprTermination thenE with
          | Some thenErr => Some thenErr
          | None => checkExprTermination elseE
          end
      end
  end
with checkPredicateTermination (pred : FuncPredicate) : option string :=
  match pred with
  | FP_cmp _ lhs rhs =>
      match checkExprTermination lhs with
      | Some leftErr => Some leftErr
      | None => checkExprTermination rhs
      end
  | FP_in element set =>
      match checkExprTermination element with
      | Some elemErr => Some elemErr
      | None => checkExprTermination set
      end
  | FP_isEmpty set => checkExprTermination set
  | FP_conn _ lhs rhs =>
      match checkPredicateTermination lhs with
      | Some lErr => Some lErr
      | None => checkPredicateTermination rhs
      end
  | FP_not p => checkPredicateTermination p
  end.
End CheckTermination.

(** The structural variables of a case: the bound variables whose
    constructor argument has the sort of the principal argument. *)
Fixpoint structuralVarsOf (inputSortId : string) (args : list ConstructorArg)
  (boundVars : list string) : list string :=
  match args with
  | [] => []
  | arg :: args' =>
      let here :=
        match boundVars with
        | v :: _ =>
            if String.eqb (arg_sortId arg) inputSortId && negb (String.eqb v "")
            then [v] else []
        | [] => []
        end in
      here ++ structuralVarsOf inputSortId args' (tl boundVars)
  end.

Fixpoint checkCases (func : RecursiveFunc) (constructors : JsMap.t Constructor)
  (allFunctions : JsMap.t RecursiveFunc) (cases : list FuncCase) : bool * option string :=
  match cases with
  | [] => (true, None)
  | funcCase :: rest =>
      match JsMap.get (fc_constructorId funcCase) constructors with
      | None => (false, Some "Unknown constructor in case")
      | Some constructor =>
          let structuralVars :=
            structuralVarsOf (f_inputSortId func) (c_args constructor) (fc_boundVars funcCase) in
          match checkExprTermination (f_id func) structuralVars allFunctions (fc_body funcCase) with
          | Some error =>
              (false, Some ("In case " ++ c_name constructor ++ ": " ++ error)%string)
          | None => checkCases func constructors allFunctions rest
          end
      end
  end.

Definition checkTermination (func : RecursiveFunc) (constructors : JsMap.t Constructor)
  (allFunctions : JsMap.t RecursiveFunc) : bool * option string :=
  checkCases func constructors allFunctions (f_cases func).

(* ================================================================== *)
(** ** Function evaluation ([types/syntax.ts]) *)

(** [FuncValue = number | Set<string> | Term].  A JavaScript [Set] keeps
    insertion order and has no duplicates. *)
Inductive FuncValue : Type :=
| V_num (n : Z)
| V_set (s : list string)
| V_term (t : Term).

(** The result of an evaluation: the outer [None] is an evaluation that did
    not finish within the fuel, the inner [None] is the [null] of the code. *)
Definition Res (A : Type) : Type := option (option A).

Definition bindRes {A B : Type} (r : Res A) (k : option A -> Res B) : Res B :=
  match r with
  | None => None
  | Some v => k v
  end.

Notation "'let*' x ':=' r 'in' k" := (bindRes r (fun x => k))
  (at level 10, x name, r at level 100, k at level 200).

Definition setAdd (x : string) (s : list string) : list string :=
  if setHas x s then s else s ++ [x].

(** [new Set([...lhs, ...rhs])] *)
Definition setUnion (l r : list string) : list string :=
  fold_left (fun acc x => setAdd x acc) r l.

(** A term of the environment that is an atom occurrence with a name. *)
Definition atomNameOf (t : option Term) : option string :=
  match t with
  | Some term =>
      if flag (t_isVariable term) && truthy (t_variableName term)
      then t_variableName term else None
  | None => None
  end.

(** The numbers of the engine are JavaScript numbers with an integer value:
    the integers written in function bodies and formulas, and what [+], [-],
    [*], [Math.max] and [Math.min] make of them.  Such a number is
    represented by its value.  The sum, difference or product of two of
    them is the double nearest to the exact result, a tie going to the even
    significand of 53 bits: [roundDouble z] for the exact result [z], which
    is [z] itself up to 2^53 in magnitude.  (A magnitude of 2^1024 or more
    has no double, JavaScript returns [Infinity] there; the embedding has no
    such number and rounds these results like the others.) *)
Definition roundDouble (z : Z) : Z :=
  let a := Z.abs z in
  let shift := (Z.log2 a - 52)%Z in
  if (shift <=? 0)%Z then z
  else
    let q := Z.shiftr a shift in
    let rest := (a - Z.shiftl q shift)%Z in
    let half := Z.shiftl 1 (shift - 1) in
    let q' := if (half <? rest)%Z || ((rest =? half)%Z && Z.odd q) then (q + 1)%Z else q in
    (Z.sgn z * Z.shiftl q' shift)%Z.

Definition evalBin (kind : FuncBinKind) (lhs rhs : option FuncValue) : option FuncValue :=
  match kind, lhs, rhs with
  | fb_add, Some (V_num l), Some (V_num r) => Some (V_num (roundDouble (l + r)))
  | fb_sub, Some (V_num l), Some (V_num r) => Some (V_num (roundDouble (l - r)))
  | fb_mul, Some (V_num l), Some (V_num r) => Some (V_num (roundDouble (l * r)))
  | fb_max, Some (V_num l), Some (V_num r) => Some (V_num (Z.max l r))
  | fb_min, Some (V_num l), Some (V_num r) => Some (V_num (Z.min l r))
  | fb_union, Some (V_set l), Some (V_set r) => Some (V_set (setUnion l r))
  | fb_intersect, Some (V_set l), Some (V_set r) =>
      Some (V_set (filter (fun x => setHas x r) l))
  | fb_diff, Some (V_set l), Some (V_set r) =>
      Some (V_set (filter (fun x => negb (setHas x r)) l))
  | _, _, _ => None
  end.

(** [lhs === rhs] on two values that are not both sets: numbers compare
    by value, two term objects are never the same object. *)
Definition evalEq (lhs rhs : option FuncValue) : option bool :=
  match lhs, rhs with
  | None, _ | _, None => None
  | Some (V_set l), Some (V_set r) =>
      Some (Nat.eqb (length l) (length r) && forallb (fun x => setHas x r) l)
  | Some (V_num l), Some (V_num r) => Some (Z.eqb l r)
  | Some _, Some _ => Some false
  end.

Definition evalNumCmp (op : Z -> Z -> bool) (lhs rhs : option FuncValue) : option bool :=
  match lhs, rhs with
  | Some (V_num l), Some (V_num r) => Some (op l r)
  | _, _ => None
  end.

Definition isVariableTerm (t : option Term) : bool :=
  match t with
  | Some term => flag (t_isVariable term)
  | None => false
  end.

Definition evalAtomEq (lhs rhs : FuncExpr) (termEnv : JsMap.t Term) : option bool :=
  match isVarExpr lhs, isVarExpr rhs with
  | Some ln, Some rn =>
      let leftTerm := JsMap.get ln termEnv in
      let rightTerm := JsMap.get rn termEnv in
      if negb (isVariableTerm leftTerm) || negb (isVariableTerm rightTerm) then None
      else
        match leftTerm, rightTerm with
        | Some lt, Some rt => Some (optStrEq (t_variableName lt) (t_variableName rt))
        | _, _ => None
        end
  | _, _ => None
  end.

Section EvaluateExpr.
Variable functions : JsMap.t RecursiveFunc.
Variable constructors : JsMap.t Constructor.
(** The calls back into [evaluateFunc] and [evaluateFuncMulti]. *)
Variable callFunc : RecursiveFunc -> Term -> Res FuncValue.
Variable callFuncMulti : RecursiveFunc -> Term -> JsMap.t Term -> Res FuncValue.

(** The loop of [callMulti] that binds the extra argument names. *)
Fixpoint bindExtraArgs (extraArgs : list FuncArg) (argExprs : list FuncExpr)
  (termEnv extraTermEnv : JsMap.t Term) : JsMap.t Term :=
  match extraArgs, argExprs with
  | argDef :: extraArgs', argExpr :: argExprs' =>
      let env' :=
        match isVarExpr argExpr with
        | Some name =>
            match JsMap.get name termEnv with
            | Some t => JsMap.set (fa_name argDef) t extraTermEnv
            | None => extraTermEnv
            end
        | None => extraTermEnv
        end in
      bindExtraArgs extraArgs' argExprs' termEnv env'
  | _, _ => extraTermEnv
  end.

(** [evaluateExpr] and [evaluatePredicate]; the parameter [currentFunc] of
    the code is passed along and never read, so it is left out. *)
Fixpoint evaluateExpr (expr : FuncExpr) (termEnv : JsMap.t Term) {struct expr}
  : Res FuncValue :=
  match expr with
  | FE_int value => Some (Some (V_num value))
  | FE_empty => Some (Some (V_set []))
  | FE_var _ => Some None
  | FE_singleton element =>
      let* _elem := evaluateExpr element termEnv in
      match isVarExpr element with
      | Some name =>
          match atomNameOf (JsMap.get name termEnv) with
          | Some variableName => Some (Some (V_set [variableName]))
          | None => Some None
          end
      | None => Some None
      end
  | FE_call funcId arg =>
      match JsMap.get funcId functions with
      | None => Some None
      | Some func =>
          match isVarExpr arg with
          | None => Some None
          | Some name =>
              match JsMap.get name termEnv with
              | None => Some None
              | Some argTerm => callFunc func argTerm
              end
          end
      end
  | FE_callMulti funcId args =>
      match JsMap.get funcId functions with
      | None => Some None
      | Some func =>
          match args with
          | [] => Some None
          | principalArgExpr :: others =>
              match isVarExpr principalArgExpr with
              | None => Some None
              | Some name =>
                  match JsMap.get name termEnv with
                  | None => Some None
                  | Some principalTerm =>
                      callFuncMulti func principalTerm
                        (bindExtraArgs (f_extraArgs func) others termEnv termEnv)
                  end
              end
          end
      end
  | FE_construct constructorId args =>
      match JsMap.get constructorId constructors with
      | None => Some None
      | Some _ =>
          let* evaluatedArgs :=
            (fix loop (l : list FuncExpr) : Res (list Term) :=
               match l with
               | [] => Some (Some [])
               | argExpr :: rest =>
                   let* argVal := evaluateExpr argExpr termEnv in
                   let next (t : Term) : Res (list Term) :=
                     let* more := loop rest in
                     Some (option_map (cons t) more) in
                   match argVal with
                   | Some (V_term t) => next t
                   | _ =>
                       match isVarExpr argExpr with
                       | Some name =>
                           match JsMap.get name termEnv with
                           | Some t => next t
                           | None => Some None
                           end
                       | None => Some None
                       end
                   end
               end) args in
          Some (option_map (fun ts => V_term (mkTerm constructorId ts None None))
                           evaluatedArgs)
      end
  | FE_bin kind lhs rhs =>
      let* l := evaluateExpr lhs termEnv in
      let* r := evaluateExpr rhs termEnv in
      Some (evalBin kind l r)
  | FE_if cond thenE elseE =>
      let* condResult := evaluatePredicate cond termEnv in
      match condResult with
      | None => Some None
      | Some true => evaluateExpr thenE termEnv
      | Some false => evaluateExpr elseE termEnv
      end
  end
with evaluatePredicate (pred : FuncPredicate) (termEnv : JsMap.t Term) {struct pred}
  : Res bool :=
  match pred with
  | FP_cmp fc_atomEq lhs rhs => Some (evalAtomEq lhs rhs termEnv)
  | FP_cmp fc_atomNeq lhs rhs => Some (option_map negb (evalAtomEq lhs rhs termEnv))
  | FP_cmp kind lhs rhs =>
      let* l := evaluateExpr lhs termEnv in
      let* r := evaluateExpr rhs termEnv in
      Some
        match kind with
        | fc_eq => evalEq l r
        | fc_neq => option_map negb (evalEq l r)
        | fc_lt => evalNumCmp Z.ltb l r
        | fc_leq => evalNumCmp Z.leb l r
        | fc_gt => evalNumCmp Z.gtb l r
        | fc_geq => evalNumCmp Z.geb l r
        | fc_subset =>
            match l, r with
            | Some (V_set ls), Some (V_set rs) => Some (forallb (fun x => setHas x rs) ls)
            | _, _ => None
            end
        | fc_atomEq | fc_atomNeq => None
        end
  | FP_in element set =>
      let* s := evaluateExpr set termEnv in
      match s with
      | Some (V_set xs) =>
          match isVarExpr element with
          | Some name =>
              match atomNameOf (JsMap.get name termEnv) with
              | Some variableName => Some (Some (setHas variableName xs))
              | None => Some None
              end
          | None => Some None
          end
      | _ => Some None
      end
  | FP_isEmpty set =>
      let* s := evaluateExpr set termEnv in
      match s with
      | Some (V_set xs) => Some (Some (Nat.eqb (length xs) 0))
      | _ => Some None
      end
  | FP_conn kind lhs rhs =>
      let* l := evaluatePredicate lhs termEnv in
      let* r := evaluatePredicate rhs termEnv in
      match l, r with
      | Some a, Some b =>
          Some (Some match kind with fk_and => a && b | fk_or => a || b end)
      | _, _ => Some None
      end
  | FP_not p =>
      let* inner := evaluatePredicate p termEnv in
      Some (option_map negb inner)
  end.
End EvaluateExpr.

(** [matchingCase.boundVars.forEach((varName, i) => ...)]: bind the named
    pattern variables to the arguments of the term that exist. *)
Fixpoint bindBoundVars (boundVars : list string) (args : list Term)
  (termEnv : JsMap.t Term) : JsMap.t Term :=
  match boundVars with
  | [] => termEnv
  | varName :: boundVars' =>
      match args with
      | [] => termEnv
      | a :: args' =>
          bindBoundVars boundVars' args'
            (if negb (String.eqb varName "") then JsMap.set varName a termEnv else termEnv)
      end
  end.

(** [term.isVariable && term.variableName] *)
Definition isAtomOccurrence (term : Term) : bool :=
  flag (t_isVariable term) && truthy (t_variableName term).

Definition findCase (func : RecursiveFunc) (term : Term) : option FuncCase :=
  find (fun c => String.eqb (fc_constructorId c) (t_constructorId term)) (f_cases func).

(** [evaluateFunc] and [evaluateFuncMulti]; [fuel] bounds the nesting depth
    of the calls, which in the code is bounded by the call stack only. *)
Fixpoint evaluateFuncFuel (fuel : nat) (functions : JsMap.t RecursiveFunc)
  (constructors : JsMap.t Constructor) (func : RecursiveFunc) (term : Term)
  {struct fuel} : Res FuncValue :=
  match fuel with
  | 0 => None
  | S fuel' =>
      if isAtomOccurrence term then Some None
      else
        match findCase func term with
        | None => Some None
        | Some matchingCase =>
            match JsMap.get (t_constructorId term) constructors with
            | None => Some None
            | Some _ =>
                let termEnv :=
                  bindBoundVars (fc_boundVars matchingCase) (t_args term) JsMap.empty in
                evaluateExpr functions constructors
                  (evaluateFuncFuel fuel' functions constructors)
                  (evaluateFuncMultiFuel fuel' functions constructors)
                  (fc_body matchingCase) termEnv
            end
        end
  end
with evaluateFuncMultiFuel (fuel : nat) (functions : JsMap.t RecursiveFunc)
  (constructors : JsMap.t Constructor) (func : RecursiveFunc) (principalTerm : Term)
  (extraEnv : JsMap.t Term) {struct fuel} : Res FuncValue :=
  match fuel with
  | 0 => None
  | S fuel' =>
      if isAtomOccurrence principalTerm then Some None
      else
        match findCase func principalTerm with
        | None => Some None
        | Some matchingCase =>
            match JsMap.get (t_constructorId principalTerm) constructors with
            | None => Some None
            | Some _ =>
                let termEnv :=
                  bindBoundVars (fc_boundVars matchingCase) (t_args principalTerm) extraEnv in
                evaluateExpr functions constructors
                  (evaluateFuncFuel fuel' functions constructors)
                  (evaluateFuncMultiFuel fuel' functions constructors)
                  (fc_body matchingCase) termEnv
            end
        end
  end.

(* ================================================================== *)
(** ** First-order formulas ([types/syntax.ts]) *)

(** The [kind] tag of the arithmetic nodes [{kind, left, right}]. *)
Inductive ArithKind : Type := ak_add | ak_sub | ak_mul | ak_max | ak_min.

Inductive FormulaExpr : Type :=
| X_var (name : string)
| X_constructor (constructorId : string) (args : list FormulaExpr)
| X_funcApp (funcId : string) (arg : FormulaExpr)
| X_int (value : Z)
| X_emptySet
| X_arith (kind : ArithKind) (left right : FormulaExpr).

Inductive QuantKind : Type := forall_ | exists_.
Inductive ConnKind : Type := implies | and_ | or_.
Inductive TermCmpKind : Type := termEq | termNeq.
Inductive FuncPredKind : Type := funcEq | funcLeq | funcLt.
Inductive NumCmpKind : Type := numEq | numNeq | numLeq | numLt | numGeq | numGt.

Inductive Formula : Type :=
| F_quant (kind : QuantKind) (varName sortId : string) (body : Formula)
| F_conn (kind : ConnKind) (left right : Formula)
| F_not (body : Formula)
| F_judgment (judgmentId : string) (args : list FormulaExpr)
| F_termCmp (kind : TermCmpKind) (left right : FormulaExpr)
| F_func (kind : FuncPredKind) (funcId : string) (arg value : FormulaExpr)
| F_num (kind : NumCmpKind) (left right : FormulaExpr)
| F_setEmpty (funcId : string) (arg : FormulaExpr)
| F_setIn (element : FormulaExpr) (funcId : string) (arg : FormulaExpr)
| F_true
| F_false.

Record ProofVariable : Type := mkProofVariable {
  pv_name : string;
  pv_sortId : string
}.

Record ProofHypothesis : Type := mkProofHypothesis {
  h_id : string;
  h_name : string;
  h_formula : Formula
}.

Record ProofContext : Type := mkProofContext {
  variables : list ProofVariable;
  hypotheses : list ProofHypothesis
}.

Record ProofGoal : Type := mkProofGoal {
  g_id : string;
  g_context : ProofContext;
  g_goal : Formula
}.

Inductive Direction : Type := ltr | rtl.
Inductive Side : Type := side_left | side_right.

Inductive Tactic : Type :=
| T_intro (varName : option string)
| T_intro_hyp (hypName : option string)
| T_exists_witness (witness : FormulaExpr)
| T_split
| T_left
| T_right
| T_induction (varName : string)
| T_derivation_induction (hypName : string)
| T_apply (hypName : string)
| T_apply_rule (ruleId : string)
| T_reflexivity
| T_contradiction
| T_compute
| T_case_analysis (varName : string)
| T_discriminate (hypName : string)
| T_rewrite (hypName : string) (direction : option Direction)
| T_unfold (funcId : string) (side : Side)
| T_simplify
| T_trivial
| T_exact (hypName : string).

Record ProofStep : Type := mkProofStep {
  st_goalId : string;
  st_tactic : Tactic;
  st_resultingGoals : list string
}.

Record Property : Type := mkProperty {
  prop_id : string;
  prop_name : string;
  prop_formula : Formula;
  prop_description : option string
}.

Inductive ProofStatus : Type := incomplete | complete | invalid.

Record Proof : Type := mkProof {
  pf_id : string;
  pf_propertyId : string;
  pf_goals : JsMap.t ProofGoal;
  pf_steps : list ProofStep;
  pf_rootGoalId : string;
  pf_openGoals : list string;
  pf_status : ProofStatus
}.

Section FormulaExprInd.
Variable P : FormulaExpr -> Prop.
Hypothesis Hvar : forall name, P (X_var name).
Hypothesis Hcon : forall c args, Forall P args -> P (X_constructor c args).
Hypothesis Happ : forall f arg, P arg -> P (X_funcApp f arg).
Hypothesis Hint : forall v, P (X_int v).
Hypothesis Hempty : P X_emptySet.
Hypothesis Harith : forall k l r, P l -> P r -> P (X_arith k l r).

Fixpoint FormulaExpr_ind' (e : FormulaExpr) : P e :=
  match e with
  | X_var name => Hvar name
  | X_constructor c args =>
      Hcon c args
        ((fix go (l : list FormulaExpr) : Forall P l :=
            match l with
            | [] => Forall_nil P
            | x :: r => @Forall_cons _ P x r (FormulaExpr_ind' x) (go r)
            end) args)
  | X_funcApp f arg => Happ f arg (FormulaExpr_ind' arg)
  | X_int v => Hint v
  | X_emptySet => Hempty
  | X_arith k l r => Harith k l r (FormulaExpr_ind' l) (FormulaExpr_ind' r)
  end.
End FormulaExprInd.

(* ------------------------------------------------------------------ *)
(** *** Substitution and syntactic equality *)

Fixpoint substituteFormulaExpr (expr : FormulaExpr) (varName : string)
  (replacement : FormulaExpr) : FormulaExpr :=
  match expr with
  | X_var name => if String.eqb name varName then replacement else expr
  | X_constructor c args =>
      X_constructor c (map (fun a => substituteFormulaExpr a varName replacement) args)
  | X_funcApp f arg => X_funcApp f (substituteFormulaExpr arg varName replacement)
  | X_arith k l r =>
      X_arith k (substituteFormulaExpr l varName replacement)
                (substituteFormulaExpr r varName replacement)
  | X_int _ | X_emptySet => expr
  end.

Fixpoint substituteFormula (formula : Formula) (varName : string)
  (replacement : FormulaExpr) : Formula :=
  let sub e := substituteFormulaExpr e varName replacement in
  match formula with
  | F_quant k v s body =>
      if String.eqb v varName then formula
      else F_quant k v s (substituteFormula body varName replacement)
  | F_conn k l r =>
      F_conn k (substituteFormula l varName replacement)
               (substituteFormula r varName replacement)
  | F_not body => F_not (substituteFormula body varName replacement)
  | F_judgment j args => F_judgment j (map sub args)
  | F_termCmp k l r => F_termCmp k (sub l) (sub r)
  | F_func k f arg value => F_func k f (sub arg) (sub value)
  | F_setEmpty f arg => F_setEmpty f (sub arg)
  | F_setIn element f arg => F_setIn (sub element) f (sub arg)
  | F_num k l r => F_num k (sub l) (sub r)
  | F_true | F_false => formula
  end.

Definition arithKindEq (a b : ArithKind) : bool :=
  match a, b with
  | ak_add, ak_add | ak_sub, ak_sub | ak_mul, ak_mul | ak_max, ak_max | ak_min, ak_min => true
  | _, _ => false
  end.

Fixpoint formulaExprEqual (a b : FormulaExpr) {struct a} : bool :=
  match a, b with
  | X_var n, X_var m => String.eqb m n
  | X_constructor c args, X_constructor bc bargs =>
      String.eqb c bc && Nat.eqb (length args) (length bargs)
      && (fix every (l1 l2 : list FormulaExpr) {struct l1} : bool :=
            match l1, l2 with
            | [], _ => true
            | x :: r1, y :: r2 => formulaExprEqual x y && every r1 r2
            | _ :: _, [] => false
            end) args bargs
  | X_funcApp f arg, X_funcApp bf barg => String.eqb f bf && formulaExprEqual arg barg
  | X_int v, X_int w => Z.eqb w v
  | X_emptySet, X_emptySet => true
  | X_arith k l r, X_arith bk bl br =>
      arithKindEq k bk && (formulaExprEqual l bl && formulaExprEqual r br)
  | _, _ => false
  end.

(** [a.args.every((arg, i) => formulaExprEqual(arg, b.args[i]))] after the
    test of the lengths. *)
Fixpoint exprListEqual (l1 l2 : list FormulaExpr) : bool :=
  match l1, l2 with
  | [], _ => true
  | x :: r1, y :: r2 => formulaExprEqual x y && exprListEqual r1 r2
  | _ :: _, [] => false
  end.

Definition quantKindEq (a b : QuantKind) : bool :=
  match a, b with
  | forall_, forall_ | exists_, exists_ => true
  | _, _ => false
  end.

Definition connKindEq (a b : ConnKind) : bool :=
  match a, b with
  | implies, implies | and_, and_ | or_, or_ => true
  | _, _ => false
  end.

Definition termCmpKindEq (a b : TermCmpKind) : bool :=
  match a, b with
  | termEq, termEq | termNeq, termNeq => true
  | _, _ => false
  end.

Definition funcPredKindEq (a b : FuncPredKind) : bool :=
  match a, b with
  | funcEq, funcEq | funcLeq, funcLeq | funcLt, funcLt => true
  | _, _ => false
  end.

Definition numCmpKindEq (a b : NumCmpKind) : bool :=
  match a, b with
  | numEq, numEq | numNeq, numNeq | numLeq, numLeq
  | numLt, numLt | numGeq, numGeq | numGt, numGt => true
  | _, _ => false
  end.

Fixpoint formulaEqual (a b : Formula) {struct a} : bool :=
  match a, b with
  | F_quant k v s body, F_quant bk bv bs bbody =>
      quantKindEq k bk && (String.eqb v bv && String.eqb s bs && formulaEqual body bbody)
  | F_conn k l r, F_conn bk bl br =>
      connKindEq k bk && (formulaEqual l bl && formulaEqual r br)
  | F_not body, F_not bbody => formulaEqual body bbody
  | F_judgment j args, F_judgment bj bargs =>
      String.eqb j bj && Nat.eqb (length args) (length bargs) && exprListEqual args bargs
  | F_termCmp k l r, F_termCmp bk bl br =>
      termCmpKindEq k bk && (formulaExprEqual l bl && formulaExprEqual r br)
  | F_func k f arg value, F_func bk bf barg bvalue =>
      funcPredKindEq k bk
      && (String.eqb f bf && formulaExprEqual arg barg && formulaExprEqual value bvalue)
  | F_setEmpty f arg, F_setEmpty bf barg => String.eqb f bf && formulaExprEqual arg barg
  | F_setIn element f arg, F_setIn belement bf barg =>
      String.eqb f bf && formulaExprEqual element belement && formulaExprEqual arg barg
  | F_num k l r, F_num bk bl br =>
      numCmpKindEq k bk && (formulaExprEqual l bl && formulaExprEqual r br)
  | F_true, F_true => true
  | F_false, F_false => true
  | _, _ => false
  end.

(* ------------------------------------------------------------------ *)
(** *** Arithmetic evaluation and simplification *)

(** [l + r], [l - r], [l * r], [Math.max(l, r)] and [Math.min(l, r)] on
    numbers. *)
Definition arithOp (k : ArithKind) : Z -> Z -> Z :=
  match k with
  | ak_add => fun l r => roundDouble (l + r)
  | ak_sub => fun l r => roundDouble (l - r)
  | ak_mul => fun l r => roundDouble (l * r)
  | ak_max => Z.max
  | ak_min => Z.min
  end.

Fixpoint evalExprToNumber (expr : FormulaExpr) : option Z :=
  match expr with
  | X_int value => Some value
  | X_arith k l r =>
      match evalExprToNumber l, evalExprToNumber r with
      | Some lv, Some rv => Some (arithOp k lv rv)
      | _, _ => None
      end
  | _ => None
  end.

(** [e.kind === 'int' && e.value === n] *)
Definition isIntLit (e : FormulaExpr) (n : Z) : bool :=
  match e with
  | X_int v => Z.eqb v n
  | _ => false
  end.

(** The recombination of the two simplified sides, one case per operator. *)
Definition simplifyArith (k : ArithKind) (lhs rhs : FormulaExpr) : FormulaExpr :=
  let evaluated :=
    match evalExprToNumber lhs, evalExprToNumber rhs with
    | Some lv, Some rv => X_int (arithOp k lv rv)
    | _, _ => X_arith k lhs rhs
    end in
  match k with
  | ak_add =>
      if isIntLit lhs 0 then rhs
      else if isIntLit rhs 0 then lhs
      else evaluated
  | ak_sub =>
      if isIntLit rhs 0 then lhs
      else if formulaExprEqual lhs rhs then X_int 0
      else evaluated
  | ak_mul =>
      if isIntLit lhs 0 then X_int 0
      else if isIntLit rhs 0 then X_int 0
      else if isIntLit lhs 1 then rhs
      else if isIntLit rhs 1 then lhs
      else evaluated
  | ak_max | ak_min =>
      if formulaExprEqual lhs rhs then lhs
      else evaluated
  end.

Fixpoint simplifyExpr (expr : FormulaExpr) : FormulaExpr :=
  match evalExprToNumber expr with
  | Some val => X_int val
  | None =>
      match expr with
      | X_arith k l r => simplifyArith k (simplifyExpr l) (simplifyExpr r)
      | X_funcApp f arg => X_funcApp f (simplifyExpr arg)
      | X_constructor c args => X_constructor c (map simplifyExpr args)
      | _ => expr
      end
  end.

(* ------------------------------------------------------------------ *)
(** *** The linear-arithmetic decider *)

(** The loops over the hypotheses: is there a hypothesis [expr >= c] or
    [expr > c], with [c] a constant accepted by [okGeq], respectively
    [okGt]? *)
Definition hypBound (okGeq okGt : Z -> bool) (expr : FormulaExpr)
  (hyps : list ProofHypothesis) : bool :=
  existsb
    (fun h =>
       match h_formula h with
       | F_num numGeq hl hr =>
           formulaExprEqual hl expr
           && match evalExprToNumber hr with Some rv => okGeq rv | None => false end
       | F_num numGt hl hr =>
           formulaExprEqual hl expr
           && match evalExprToNumber hr with Some rv => okGt rv | None => false end
       | _ => false
       end) hyps.

Fixpoint isNonNegative (expr : FormulaExpr) (hyps : list ProofHypothesis) : bool :=
  match evalExprToNumber expr with
  | Some val => Z.geb val 0
  | None =>
      if hypBound (fun rv => Z.leb rv 0) (fun rv => Z.ltb rv 0) expr hyps then true
      else
        match expr with
        | X_arith ak_add l r => isNonNegative l hyps && isNonNegative r hyps
        | X_arith ak_mul l r => isNonNegative l hyps && isNonNegative r hyps
        | X_arith ak_max l r => isNonNegative l hyps || isNonNegative r hyps
        | X_arith ak_min l r => isNonNegative l hyps && isNonNegative r hyps
        | _ => false
        end
  end.

Fixpoint isPositive (expr : FormulaExpr) (hyps : list ProofHypothesis) : bool :=
  match evalExprToNumber expr with
  | Some val => Z.gtb val 0
  | None =>
      if hypBound (fun rv => Z.gtb rv 0) (fun rv => Z.geb rv 0) expr hyps then true
      else
        match expr with
        | X_arith ak_add l r =>
            (isPositive l hyps && isNonNegative r hyps)
            || (isNonNegative l hyps && isPositive r hyps)
        | _ => false
        end
  end.

Fixpoint canProveGeq (lhs rhs : FormulaExpr) (hyps : list ProofHypothesis) {struct lhs}
  : bool :=
  if existsb
       (fun h =>
          match h_formula h with
          | F_num numGeq hl hr | F_num numGt hl hr =>
              formulaExprEqual hl lhs && formulaExprEqual hr rhs
          | _ => false
          end) hyps
  then true
  else if formulaExprEqual lhs rhs then true
  else
    match evalExprToNumber lhs, evalExprToNumber rhs with
    | Some lv, Some rv => Z.geb lv rv
    | _, Some 0%Z => isNonNegative lhs hyps
    | _, _ =>
        match lhs with
        | X_arith ak_add ll lr =>
            (canProveGeq ll rhs hyps && isNonNegative lr hyps)
            || (canProveGeq lr rhs hyps && isNonNegative ll hyps)
        | _ => false
        end
    end.

(** [tryLinearArithmetic(formula, hypotheses).solved] *)
Definition tryLinearArithmetic (formula : Formula) (hyps : list ProofHypothesis) : bool :=
  match formula with
  | F_num numGeq l r => canProveGeq l r hyps
  | F_num numGt l r =>
      match evalExprToNumber r with
      | Some 0%Z => isPositive l hyps
      | _ => false
      end
  | F_num numLeq l r => canProveGeq r l hyps
  | F_num numLt l r =>
      match evalExprToNumber l with
      | Some 0%Z => isPositive r hyps
      | _ => false
      end
  | _ => false
  end.

Definition checkTrivialComparison (lhs rhs : FormulaExpr) (kind : NumCmpKind)
  : option bool :=
  match evalExprToNumber lhs, evalExprToNumber rhs with
  | Some lv, Some rv =>
      Some match kind with
           | numEq => Z.eqb lv rv
           | numNeq => negb (Z.eqb lv rv)
           | numLeq => Z.leb lv rv
           | numLt => Z.ltb lv rv
           | numGeq => Z.geb lv rv
           | numGt => Z.gtb lv rv
           end
  | _, _ =>
      if formulaExprEqual lhs rhs then
        Some match kind with
             | numEq | numLeq | numGeq => true
             | numLt | numGt | numNeq => false
             end
      else None
  end.

(** [SimplifyResult], without its informational message. *)
Record SimplifyResult : Type := mkSimplifyResult {
  solved : bool;
  newFormula : option Formula
}.

Fixpoint simplifyFormula (formula : Formula) : SimplifyResult :=
  match formula with
  | F_true => mkSimplifyResult true None
  | F_false => mkSimplifyResult false (Some formula)
  | F_num kind l r =>
      let lhs := simplifyExpr l in
      let rhs := simplifyExpr r in
      match checkTrivialComparison lhs rhs kind with
      | Some true => mkSimplifyResult true None
      | Some false => mkSimplifyResult false (Some F_false)
      | None =>
          if negb (formulaExprEqual lhs l) || negb (formulaExprEqual rhs r)
          then mkSimplifyResult false (Some (F_num kind lhs rhs))
          else mkSimplifyResult false (Some formula)
      end
  | F_conn and_ l r =>
      let leftResult := simplifyFormula l in
      let rightResult := simplifyFormula r in
      if solved leftResult && solved rightResult then mkSimplifyResult true None
      else if solved leftResult then
        mkSimplifyResult false
          (Some match newFormula rightResult with Some f => f | None => r end)
      else if solved rightResult then
        mkSimplifyResult false
          (Some match newFormula leftResult with Some f => f | None => l end)
      else mkSimplifyResult false (Some formula)
  | F_conn or_ l r =>
      let leftResult := simplifyFormula l in
      let rightResult := simplifyFormula r in
      if solved leftResult || solved rightResult then mkSimplifyResult true None
      else mkSimplifyResult false (Some formula)
  | F_conn implies l r =>
      let rightResult := simplifyFormula r in
      if solved rightResult then mkSimplifyResult true None
      else mkSimplifyResult false (Some formula)
  | _ => mkSimplifyResult false (Some formula)
  end.

(* ------------------------------------------------------------------ *)
(** *** Function unfolding *)

(** [bindings.set(boundVars[i], expr.args[i])] for every [i]; the lengths
    are equal when this is called. *)
Fixpoint bindArgs (boundVars : list string) (args : list FormulaExpr)
  (bindings : JsMap.t FormulaExpr) : JsMap.t FormulaExpr :=
  match boundVars, args with
  | v :: boundVars', a :: args' => bindArgs boundVars' args' (JsMap.set v a bindings)
  | _, _ => bindings
  end.

Definition matchAgainstConstructor (expr : FormulaExpr) (constructorId : string)
  (boundVars : list string) (constructors : JsMap.t Constructor)
  : option (JsMap.t FormulaExpr) :=
  match expr with
  | X_constructor c args =>
      if negb (String.eqb c constructorId) then None
      else
        match JsMap.get constructorId constructors with
        | None => None
        | Some _ =>
            if negb (Nat.eqb (length args) (length boundVars)) then None
            else Some (bindArgs boundVars args JsMap.empty)
        end
  | _ => None
  end.

Fixpoint funcExprToFormulaExpr (expr : FuncExpr) (bindings : JsMap.t FormulaExpr)
  : FormulaExpr :=
  match expr with
  | FE_int value => X_int value
  | FE_var name =>
      match JsMap.get name bindings with
      | Some bound => bound
      | None => X_var name
      end
  | FE_call funcId arg => X_funcApp funcId (funcExprToFormulaExpr arg bindings)
  | FE_bin fb_add l r =>
      X_arith ak_add (funcExprToFormulaExpr l bindings) (funcExprToFormulaExpr r bindings)
  | FE_bin fb_sub l r =>
      X_arith ak_sub (funcExprToFormulaExpr l bindings) (funcExprToFormulaExpr r bindings)
  | FE_empty => X_emptySet
  | _ => X_int 0
  end.

(** The loop over the cases of the target function. *)
Fixpoint unfoldCases (arg : FormulaExpr) (cases : list FuncCase)
  (constructors : JsMap.t Constructor) : option FormulaExpr :=
  match cases with
  | [] => None
  | funcCase :: rest =>
      match matchAgainstConstructor arg (fc_constructorId funcCase)
                                    (fc_boundVars funcCase) constructors with
      | Some bindings => Some (funcExprToFormulaExpr (fc_body funcCase) bindings)
      | None => unfoldCases arg rest constructors
      end
  end.

Fixpoint unfoldFuncApp (expr : FormulaExpr) (targetFunc : RecursiveFunc)
  (constructors : JsMap.t Constructor) {struct expr} : option FormulaExpr :=
  let unfoldBin k l r :=
    match unfoldFuncApp l targetFunc constructors with
    | Some leftUnfold => Some (X_arith k leftUnfold r)
    | None =>
        match unfoldFuncApp r targetFunc constructors with
        | Some rightUnfold => Some (X_arith k l rightUnfold)
        | None => None
        end
    end in
  match expr with
  | X_funcApp funcId arg =>
      if String.eqb funcId (f_id targetFunc)
      then unfoldCases arg (f_cases targetFunc) constructors
      else
        match unfoldFuncApp arg targetFunc constructors with
        | Some argUnfold => Some (X_funcApp funcId argUnfold)
        | None => None
        end
  | X_arith ak_add l r => unfoldBin ak_add l r
  | X_arith ak_sub l r => unfoldBin ak_sub l r
  | X_constructor c args =>
      match
        (fix loop (l : list FormulaExpr) : option (list FormulaExpr) :=
           match l with
           | [] => None
           | a :: rest =>
               match unfoldFuncApp a targetFunc constructors with
               | Some unfoldedArg => Some (unfoldedArg :: rest)
               | None =>
                   match loop rest with
                   | Some rest' => Some (a :: rest')
                   | None => None
                   end
               end
           end) args
      with
      | Some newArgs => Some (X_constructor c newArgs)
      | None => None
      end
  | _ => None
  end.

(* ================================================================== *)
(** ** Tactic application ([types/syntax.ts]) *)

(** Computations that draw identifiers: the state is the number of
    identifiers drawn so far. *)
Definition Gen (A : Type) : Type := nat -> A * nat.

Definition retGen {A : Type} (a : A) : Gen A := fun n => (a, n).

Definition bindGen {A B : Type} (m : Gen A) (k : A -> Gen B) : Gen B :=
  fun n => let (a, n') := m n in k a n'.

Notation "x <- m ;; k" := (bindGen m (fun x => k))
  (at level 61, m at next level, right associativity).

Fixpoint mapGen {A B : Type} (f : A -> Gen B) (l : list A) : Gen (list B) :=
  match l with
  | [] => retGen []
  | a :: r => b <- f a ;; bs <- mapGen f r ;; retGen (b :: bs)
  end.

(** Decimal rendering of an index, as in a template string. *)
Definition natToString (n : nat) : string := NilEmpty.string_of_uint (Nat.to_uint n).

(** [TacticResult], without the informational message of a success. *)
Inductive TacticResult : Type :=
| success (newGoals : list ProofGoal)
| failure (error : string).

Definition tacticKind (tactic : Tactic) : string :=
  match tactic with
  | T_intro _ => "intro"
  | T_intro_hyp _ => "intro_hyp"
  | T_exists_witness _ => "exists_witness"
  | T_split => "split"
  | T_left => "left"
  | T_right => "right"
  | T_induction _ => "induction"
  | T_derivation_induction _ => "derivation_induction"
  | T_apply _ => "apply"
  | T_apply_rule _ => "apply_rule"
  | T_reflexivity => "reflexivity"
  | T_contradiction => "contradiction"
  | T_compute => "compute"
  | T_case_analysis _ => "case_analysis"
  | T_discriminate _ => "discriminate"
  | T_rewrite _ _ => "rewrite"
  | T_unfold _ _ => "unfold"
  | T_simplify => "simplify"
  | T_trivial => "trivial"
  | T_exact _ => "exact"
  end.

(** [Array.from(constructors.values()).filter(c => c.sortId === sortId)] *)
Definition constructorsOfSort (constructors : JsMap.t Constructor) (sortId : string)
  : list Constructor :=
  filter (fun c => String.eqb (c_sortId c) sortId) (JsMap.values constructors).

(** [c.args.map((arg, i) => ({ name: arg.label || `x${i}`, sortId: arg.sortId }))] *)
Fixpoint freshVarsFrom (i : nat) (args : list ConstructorArg) : list ProofVariable :=
  match args with
  | [] => []
  | arg :: rest =>
      mkProofVariable (orElse (arg_label arg) ("x" ++ natToString i)%string) (arg_sortId arg)
      :: freshVarsFrom (S i) rest
  end.

Definition freshVarsOf (c : Constructor) : list ProofVariable := freshVarsFrom 0 (c_args c).

Definition constructorExprOf (c : Constructor) : FormulaExpr :=
  X_constructor (c_id c) (map (fun v => X_var (pv_name v)) (freshVarsOf c)).

Definition withoutVar (vars : list ProofVariable) (varName : string) : list ProofVariable :=
  filter (fun v => negb (String.eqb (pv_name v) varName)) vars.

Definition findVar (vars : list ProofVariable) (varName : string) : option ProofVariable :=
  find (fun v => String.eqb (pv_name v) varName) vars.

Definition findHyp (hyps : list ProofHypothesis) (hypName : string)
  : option ProofHypothesis :=
  find (fun h => String.eqb (h_name h) hypName) hyps.

Section Tactics.
(** The supply of [uuidv4()]. *)
Variable uuid : nat -> string.

Definition uuidv4 : Gen string := fun n => (uuid n, S n).

(** The induction hypotheses of one constructor case, in argument order:
    one for each argument of the sort of the induction variable. *)
Fixpoint inductionHypothesesOf (formula : Formula) (varName sortId : string)
  (args : list ConstructorArg) (freshVars : list ProofVariable)
  : Gen (list ProofHypothesis) :=
  match args, freshVars with
  | arg :: args', v :: freshVars' =>
      if String.eqb (arg_sortId arg) sortId then
        id <- uuidv4 ;;
        rest <- inductionHypothesesOf formula varName sortId args' freshVars' ;;
        retGen (mkProofHypothesis id ("IH_" ++ pv_name v)%string
                  (substituteFormula formula varName (X_var (pv_name v))) :: rest)
      else inductionHypothesesOf formula varName sortId args' freshVars'
  | _, _ => retGen []
  end.

Definition inductionGoal (context : ProofContext) (formula : Formula)
  (varName sortId : string) (c : Constructor) : Gen ProofGoal :=
  let freshVars := freshVarsOf c in
  let substitutedGoal := substituteFormula formula varName (constructorExprOf c) in
  inductionHypotheses <-
    inductionHypothesesOf formula varName sortId (c_args c) freshVars ;;
  let newVars := withoutVar (variables context) varName ++ freshVars in
  id <- uuidv4 ;;
  retGen (mkProofGoal id
            (mkProofContext newVars (hypotheses context ++ inductionHypotheses))
            substitutedGoal).

Definition caseGoal (context : ProofContext) (formula : Formula)
  (varName : string) (c : Constructor) : Gen ProofGoal :=
  let freshVars := freshVarsOf c in
  let substitutedGoal := substituteFormula formula varName (constructorExprOf c) in
  let newVars := withoutVar (variables context) varName ++ freshVars in
  id <- uuidv4 ;;
  retGen (mkProofGoal id (mkProofContext newVars (hypotheses context)) substitutedGoal).

(** A goal with the same context and a new formula. *)
Definition sameContextGoal (context : ProofContext) (formula : Formula) : Gen ProofGoal :=
  id <- uuidv4 ;; retGen (mkProofGoal id context formula).

Definition applyTactic (goal : ProofGoal) (tactic : Tactic)
  (constructors : JsMap.t Constructor) (sorts : JsMap.t Sort)
  (functions : JsMap.t RecursiveFunc) (rules : JsMap.t InferenceRule)
  : Gen TacticResult :=
  let context := g_context goal in
  let formula := g_goal goal in
  match tactic with
  | T_intro tacticVarName =>
      match formula with
      | F_quant forall_ fVarName fSortId body =>
          let varName := orElse tacticVarName fVarName in
          if existsb (fun v => String.eqb (pv_name v) varName) (variables context)
          then retGen (failure ("Variable " ++ varName ++ " already in context")%string)
          else
            id <- uuidv4 ;;
            retGen (success
              [mkProofGoal id
                 (mkProofContext (variables context ++ [mkProofVariable varName fSortId])
                                 (hypotheses context))
                 (if String.eqb varName fVarName then body
                  else substituteFormula body fVarName (X_var varName))])
      | _ => retGen (failure "intro requires a ∀ goal")
      end
  | T_intro_hyp tacticHypName =>
      match formula with
      | F_conn implies l r =>
          let hypName :=
            orElse tacticHypName ("H" ++ natToString (length (hypotheses context)))%string in
          if existsb (fun h => String.eqb (h_name h) hypName) (hypotheses context)
          then retGen (failure ("Hypothesis " ++ hypName ++ " already in context")%string)
          else
            id <- uuidv4 ;;
            hid <- uuidv4 ;;
            retGen (success
              [mkProofGoal id
                 (mkProofContext (variables context)
                                 (hypotheses context ++ [mkProofHypothesis hid hypName l]))
                 r])
      | _ => retGen (failure "intro_hyp requires a → goal")
      end
  | T_exists_witness witness =>
      match formula with
      | F_quant exists_ fVarName _ body =>
          g <- sameContextGoal context (substituteFormula body fVarName witness) ;;
          retGen (success [g])
      | _ => retGen (failure "exists_witness requires a ∃ goal")
      end
  | T_split =>
      match formula with
      | F_conn and_ l r =>
          leftGoal <- sameContextGoal context l ;;
          rightGoal <- sameContextGoal context r ;;
          retGen (success [leftGoal; rightGoal])
      | _ => retGen (failure "split requires a ∧ goal")
      end
  | T_left =>
      match formula with
      | F_conn or_ l _ =>
          g <- sameContextGoal context l ;; retGen (success [g])
      | _ => retGen (failure "left requires a ∨ goal")
      end
  | T_right =>
      match formula with
      | F_conn or_ _ r =>
          g <- sameContextGoal context r ;; retGen (success [g])
      | _ => retGen (failure "right requires a ∨ goal")
      end
  | T_induction varName =>
      match findVar (variables context) varName with
      | None => retGen (failure ("Variable " ++ varName ++ " not in context")%string)
      | Some varInfo =>
          match JsMap.get (pv_sortId varInfo) sorts with
          | Some (mkSort _ _ inductive _ _ _) =>
              let sortConstructors := constructorsOfSort constructors (pv_sortId varInfo) in
              if Nat.eqb (length sortConstructors) 0
              then retGen (failure "No constructors found for sort")
              else
                newGoals <-
                  mapGen (inductionGoal context formula varName (pv_sortId varInfo))
                         sortConstructors ;;
                retGen (success newGoals)
          | _ =>
              retGen (failure ("Cannot do induction on " ++ varName
                               ++ ": not an inductive type")%string)
          end
      end
  | T_reflexivity =>
      let check l r :=
        if negb (formulaExprEqual l r) then
          if formulaExprEqual (simplifyExpr l) (simplifyExpr r)
          then retGen (success [])
          else retGen (failure "Terms are not equal")
        else retGen (success []) in
      match formula with
      | F_termCmp termEq l r => check l r
      | F_num numEq l r => check l r
      | F_num numLeq l r => check l r
      | F_num numGeq l r => check l r
      | _ => retGen (failure "reflexivity requires =, ≤, or ≥ goal")
      end
  | T_trivial =>
      match formula with
      | F_true => retGen (success [])
      | _ =>
          match find (fun h => formulaEqual (h_formula h) formula) (hypotheses context) with
          | Some _ => retGen (success [])
          | None => retGen (failure "Goal is not trivially true")
          end
      end
  | T_exact hypName =>
      match findHyp (hypotheses context) hypName with
      | None => retGen (failure ("Hypothesis " ++ hypName ++ " not found")%string)
      | Some hyp =>
          if negb (formulaEqual (h_formula hyp) formula)
          then retGen (failure ("Hypothesis " ++ hypName ++ " does not match goal")%string)
          else retGen (success [])
      end
  | T_case_analysis varName =>
      match findVar (variables context) varName with
      | None => retGen (failure ("Variable " ++ varName ++ " not in context")%string)
      | Some varInfo =>
          match JsMap.get (pv_sortId varInfo) sorts with
          | Some (mkSort _ _ inductive _ _ _) =>
              let sortConstructors := constructorsOfSort constructors (pv_sortId varInfo) in
              newGoals <- mapGen (caseGoal context formula varName) sortConstructors ;;
              retGen (success newGoals)
          | _ =>
              retGen (failure ("Cannot do case analysis on " ++ varName
                               ++ ": not an inductive type")%string)
          end
      end
  | T_discriminate hypName =>
      match findHyp (hypotheses context) hypName with
      | None => retGen (failure ("Hypothesis " ++ hypName ++ " not found")%string)
      | Some hyp =>
          match h_formula hyp with
          | F_termCmp termEq (X_constructor lc _) (X_constructor rc _) =>
              if negb (String.eqb lc rc) then retGen (success [])
              else retGen (failure "Cannot discriminate: constructors are not different")
          | F_termCmp termEq _ _ =>
              retGen (failure "Cannot discriminate: constructors are not different")
          | _ => retGen (failure ("Hypothesis " ++ hypName ++ " is not an equality")%string)
          end
      end
  | T_apply hypName =>
      match findHyp (hypotheses context) hypName with
      | None => retGen (failure ("Hypothesis " ++ hypName ++ " not found")%string)
      | Some hyp =>
          let otherwise :=
            match h_formula hyp with
            | F_quant forall_ _ _ _ =>
                retGen (failure "Direct application of ∀ hypotheses not yet supported")
            | _ => retGen (failure ("Cannot apply " ++ hypName ++ " to this goal")%string)
            end in
          match h_formula hyp with
          | F_conn implies hl hr =>
              if formulaEqual hr formula
              then g <- sameContextGoal context hl ;; retGen (success [g])
              else otherwise
          | _ => otherwise
          end
      end
  | T_unfold funcId side =>
      match JsMap.get funcId functions with
      | None => retGen (failure "Function not found")
      | Some func =>
          let unfoldIn (l r : FormulaExpr) (rebuild : FormulaExpr -> FormulaExpr -> Formula) :=
            let expr := match side with side_left => l | side_right => r end in
            match unfoldFuncApp expr func constructors with
            | None =>
                retGen (failure ("Could not unfold " ++ f_name func
                                 ++ " - no matching case found")%string)
            | Some unfoldedExpr =>
                let newFormula :=
                  match side with
                  | side_left => rebuild unfoldedExpr r
                  | side_right => rebuild l unfoldedExpr
                  end in
                g <- sameContextGoal context newFormula ;; retGen (success [g])
            end in
          match formula with
          | F_num k l r => unfoldIn l r (F_num k)
          | F_termCmp k l r => unfoldIn l r (F_termCmp k)
          | _ => retGen (failure "Unfold only works on equality/comparison goals")
          end
      end
  | T_simplify =>
      if tryLinearArithmetic formula (hypotheses context) then retGen (success [])
      else
        let simplified := simplifyFormula formula in
        if solved simplified then retGen (success [])
        else
          match newFormula simplified with
          | Some nf =>
              if negb (formulaEqual nf formula)
              then g <- sameContextGoal context nf ;; retGen (success [g])
              else retGen (failure "Cannot simplify further")
          | None => retGen (failure "Cannot simplify further")
          end
  | T_derivation_induction _ | T_apply_rule _ | T_contradiction | T_compute
  | T_rewrite _ _ =>
      retGen (failure ("Tactic " ++ tacticKind tactic ++ " not implemented")%string)
  end.

Definition createProof (property : Property) : Gen Proof :=
  rootId <- uuidv4 ;;
  let rootGoal := mkProofGoal rootId (mkProofContext [] []) (prop_formula property) in
  id <- uuidv4 ;;
  retGen (mkProof id (prop_id property)
            (JsMap.set (g_id rootGoal) rootGoal JsMap.empty)
            [] (g_id rootGoal) [g_id rootGoal] incomplete).

(** [for (const newGoal of result.newGoals) newGoalsMap.set(newGoal.id, newGoal)] *)
Definition addGoals (goals : JsMap.t ProofGoal) (newGoals : list ProofGoal)
  : JsMap.t ProofGoal :=
  fold_left (fun m g => JsMap.set (g_id g) g m) newGoals goals.

Definition applyTacticToProof (proof : Proof) (goalId : string) (tactic : Tactic)
  (constructors : JsMap.t Constructor) (sorts : JsMap.t Sort)
  (functions : JsMap.t RecursiveFunc) (rules : JsMap.t InferenceRule)
  : Gen (Proof * TacticResult) :=
  match JsMap.get goalId (pf_goals proof) with
  | None => retGen (proof, failure "Goal not found")
  | Some goal =>
      if negb (existsb (String.eqb goalId) (pf_openGoals proof))
      then retGen (proof, failure "Goal already proved")
      else
        result <- applyTactic goal tactic constructors sorts functions rules ;;
        match result with
        | failure _ => retGen (proof, result)
        | success newGoals =>
            let newGoalsMap := addGoals (pf_goals proof) newGoals in
            let newOpenGoals :=
              filter (fun id => negb (String.eqb id goalId)) (pf_openGoals proof)
              ++ map g_id newGoals in
            let step := mkProofStep goalId tactic (map g_id newGoals) in
            retGen
              (mkProof (pf_id proof) (pf_propertyId proof) newGoalsMap
                       (pf_steps proof ++ [step]) (pf_rootGoalId proof) newOpenGoals
                       (if Nat.eqb (length newOpenGoals) 0 then complete else incomplete),
               result)
        end
  end.
End Tactics.

(* ================================================================== *)
(** ** The registry ([store/useStore.ts]) *)

Module Store.

Record StoreState : Type := mkStoreState {
  sorts : JsMap.t Sort;
  constructors : JsMap.t Constructor;
  judgments : JsMap.t Judgment;
  rules : JsMap.t InferenceRule;
  metaVariables : JsMap.t MetaVariable;
  recursiveFunctions : JsMap.t RecursiveFunc;
  properties : JsMap.t Property;
  proofs : JsMap.t Proof;
  selectedSortId : option string;
  selectedJudgmentId : option string;
  selectedRuleId : option string;
  selectedFuncId : option string;
  selectedPropertyId : option string;
  selectedProofId : option string;
  selectedGoalId : option string
}.

Definition initial : StoreState :=
  mkStoreState JsMap.empty JsMap.empty JsMap.empty JsMap.empty JsMap.empty
               JsMap.empty JsMap.empty JsMap.empty None None None None None None None.

(** The partial states handed to [set]. *)
Definition withSorts (s : StoreState) (v : JsMap.t Sort) : StoreState :=
  mkStoreState v (constructors s) (judgments s) (rules s) (metaVariables s)
    (recursiveFunctions s) (properties s) (proofs s) (selectedSortId s)
    (selectedJudgmentId s) (selectedRuleId s) (selectedFuncId s)
    (selectedPropertyId s) (selectedProofId s) (selectedGoalId s).

Definition withConstructors (s : StoreState) (v : JsMap.t Constructor) : StoreState :=
  mkStoreState (sorts s) v (judgments s) (rules s) (metaVariables s)
    (recursiveFunctions s) (properties s) (proofs s) (selectedSortId s)
    (selectedJudgmentId s) (selectedRuleId s) (selectedFuncId s)
    (selectedPropertyId s) (selectedProofId s) (selectedGoalId s).

Definition withJudgments (s : StoreState) (v : JsMap.t Judgment) : StoreState :=
  mkStoreState (sorts s) (constructors s) v (rules s) (metaVariables s)
    (recursiveFunctions s) (properties s) (proofs s) (selectedSortId s)
    (selectedJudgmentId s) (selectedRuleId s) (selectedFuncId s)
    (selectedPropertyId s) (selectedProofId s) (selectedGoalId s).

Definition withRules (s : StoreState) (v : JsMap.t InferenceRule) : StoreState :=
  mkStoreState (sorts s) (constructors s) (judgments s) v (metaVariables s)
    (recursiveFunctions s) (properties s) (proofs s) (selectedSortId s)
    (selectedJudgmentId s) (selectedRuleId s) (selectedFuncId s)
    (selectedPropertyId s) (selectedProofId s) (selectedGoalId s).

Definition withMetaVariables (s : StoreState) (v : JsMap.t MetaVariable) : StoreState :=
  mkStoreState (sorts s) (constructors s) (judgments s) (rules s) v
    (recursiveFunctions s) (properties s) (proofs s) (selectedSortId s)
    (selectedJudgmentId s) (selectedRuleId s) (selectedFuncId s)
    (selectedPropertyId s) (selectedProofId s) (selectedGoalId s).

Definition withRecursiveFunctions (s : StoreState) (v : JsMap.t RecursiveFunc)
  : StoreState :=
  mkStoreState (sorts s) (constructors s) (judgments s) (rules s) (metaVariables s)
    v (properties s) (proofs s) (selectedSortId s)
    (selectedJudgmentId s) (selectedRuleId s) (selectedFuncId s)
    (selectedPropertyId s) (selectedProofId s) (selectedGoalId s).

Definition withProperties (s : StoreState) (v : JsMap.t Property) : StoreState :=
  mkStoreState (sorts s) (constructors s) (judgments s) (rules s) (metaVariables s)
    (recursiveFunctions s) v (proofs s) (selectedSortId s)
    (selectedJudgmentId s) (selectedRuleId s) (selectedFuncId s)
    (selectedPropertyId s) (selectedProofId s) (selectedGoalId s).

Definition withProofs (s : StoreState) (v : JsMap.t Proof) : StoreState :=
  mkStoreState (sorts s) (constructors s) (judgments s) (rules s) (metaVariables s)
    (recursiveFunctions s) (properties s) v (selectedSortId s)
    (selectedJudgmentId s) (selectedRuleId s) (selectedFuncId s)
    (selectedPropertyId s) (selectedProofId s) (selectedGoalId s).

Definition withSelectedSortId (s : StoreState) (v : option string) : StoreState :=
  mkStoreState (sorts s) (constructors s) (judgments s) (rules s) (metaVariables s)
    (recursiveFunctions s) (properties s) (proofs s) v
    (selectedJudgmentId s) (selectedRuleId s) (selectedFuncId s)
    (selectedPropertyId s) (selectedProofId s) (selectedGoalId s).

Definition withSelectedJudgmentId (s : StoreState) (v : option string) : StoreState :=
  mkStoreState (sorts s) (constructors s) (judgments s) (rules s) (metaVariables s)
    (recursiveFunctions s) (properties s) (proofs s) (selectedSortId s)
    v (selectedRuleId s) (selectedFuncId s)
    (selectedPropertyId s) (selectedProofId s) (selectedGoalId s).

Definition withSelectedPropertyId (s : StoreState) (v : option string) : StoreState :=
  mkStoreState (sorts s) (constructors s) (judgments s) (rules s) (metaVariables s)
    (recursiveFunctions s) (properties s) (proofs s) (selectedSortId s)
    (selectedJudgmentId s) (selectedRuleId s) (selectedFuncId s)
    v (selectedProofId s) (selectedGoalId s).

(** [state.selectedXId === id ? null : state.selectedXId] *)
Definition deselect (selected : option string) (id : string) : option string :=
  match selected with
  | Some s => if String.eqb s id then None else selected
  | None => None
  end.

(* ---------------------------------------------------------------- *)
(** *** Deletion cascades *)

(** [for (const [k, v] of m) { if (p(v)) m.delete(k) }]: the loop visits
    the entries of the map in order; an entry deleted before it is reached
    is not visited. *)
Fixpoint deleteWhere {V : Type} (p : V -> bool) (pending : list (string * V))
  (m : JsMap.t V) : JsMap.t V :=
  match pending with
  | [] => m
  | (k, v) :: rest =>
      if JsMap.has k m
      then deleteWhere p rest (if p v then JsMap.delete k m else m)
      else deleteWhere p rest m
  end.

Definition deleteSort (id : string) (state : StoreState) : StoreState :=
  let newSorts := JsMap.delete id (sorts state) in
  let newConstructors :=
    deleteWhere (fun c => String.eqb (c_sortId c) id)
                (constructors state) (constructors state) in
  withSelectedSortId
    (withConstructors (withSorts state newSorts) newConstructors)
    (deselect (selectedSortId state) id).

Definition withPremises (r : InferenceRule) (premises : list JudgmentInstance)
  : InferenceRule :=
  mkInferenceRule (r_id r) (r_name r) premises (r_sideConditions r) (r_conclusion r)
                  (r_position r).

(** The loop of [deleteJudgment] over the rules. *)
Fixpoint cleanRules (id : string) (pending : list (string * InferenceRule))
  (newRules : JsMap.t InferenceRule) : JsMap.t InferenceRule :=
  match pending with
  | [] => newRules
  | (rid, r) :: rest =>
      if JsMap.has rid newRules then
        if String.eqb (ji_judgmentId (r_conclusion r)) id
        then cleanRules id rest (JsMap.delete rid newRules)
        else
          let filteredPremises :=
            filter (fun p => negb (String.eqb (ji_judgmentId p) id)) (r_premises r) in
          if negb (Nat.eqb (length filteredPremises) (length (r_premises r)))
          then cleanRules id rest (JsMap.set rid (withPremises r filteredPremises) newRules)
          else cleanRules id rest newRules
      else cleanRules id rest newRules
  end.

Definition deleteJudgment (id : string) (state : StoreState) : StoreState :=
  let newJudgments := JsMap.delete id (judgments state) in
  let newRules := cleanRules id (rules state) (rules state) in
  withSelectedJudgmentId
    (withRules (withJudgments state newJudgments) newRules)
    (deselect (selectedJudgmentId state) id).

Definition deleteProperty (id : string) (state : StoreState) : StoreState :=
  let newProps := JsMap.delete id (properties state) in
  let newProofs :=
    deleteWhere (fun proof => String.eqb (pf_propertyId proof) id)
                (proofs state) (proofs state) in
  withSelectedPropertyId
    (withProofs (withProperties state newProps) newProofs)
    (deselect (selectedPropertyId state) id).

(* ---------------------------------------------------------------- *)
(** *** Factory functions ([types/syntax.ts]) and the actions that seed
    the registry *)

(** An action of the store: it reads and replaces the state, draws
    identifiers, and may throw ([None]). *)
Definition Act (A : Type) : Type := StoreState -> nat -> option (A * StoreState * nat).

Definition retAct {A : Type} (a : A) : Act A := fun s n => Some (a, s, n).

Definition bindAct {A B : Type} (m : Act A) (k : A -> Act B) : Act B :=
  fun s n =>
    match m s n with
    | None => None
    | Some (a, s', n') => k a s' n'
    end.

Notation "x <~ m ;; k" := (bindAct m (fun x => k))
  (at level 61, m at next level, right associativity).

(** [get()] and [set(state => ...)] *)
Definition getState : Act StoreState := fun s n => Some (s, s, n).
Definition setState (f : StoreState -> StoreState) : Act unit :=
  fun s n => Some (tt, f s, n).
Definition throw {A : Type} : Act A := fun _ _ => None.

(** [Omit<ConstructorArg, 'id'>] *)
Record ConstructorArgSpec : Type := mkConstructorArgSpec {
  as_sortId : string;
  as_label : option string;
  as_isBinder : option bool;
  as_bindsIn : option (list string)
}.

(** [Partial<InferenceRule>] and [Partial<FuncCase>] *)
Record RuleUpdates : Type := mkRuleUpdates {
  ru_name : option string;
  ru_premises : option (list JudgmentInstance);
  ru_sideConditions : option (list SideCondition);
  ru_conclusion : option JudgmentInstance;
  ru_position : option (Z * Z)
}.

Record FuncCaseUpdates : Type := mkFuncCaseUpdates {
  cu_constructorId : option string;
  cu_boundVars : option (list string);
  cu_body : option FuncExpr
}.

Definition orDefault {A : Type} (o : option A) (d : A) : A :=
  match o with
  | Some a => a
  | None => d
  end.

(** [{ ...existing, ...updates }] *)
Definition applyRuleUpdates (r : InferenceRule) (u : RuleUpdates) : InferenceRule :=
  mkInferenceRule (r_id r) (orDefault (ru_name u) (r_name r))
    (orDefault (ru_premises u) (r_premises r))
    (orDefault (ru_sideConditions u) (r_sideConditions r))
    (orDefault (ru_conclusion u) (r_conclusion r))
    (orDefault (ru_position u) (r_position r)).

Definition applyFuncCaseUpdates (c : FuncCase) (u : FuncCaseUpdates) : FuncCase :=
  mkFuncCase (orDefault (cu_constructorId u) (fc_constructorId c))
    (orDefault (cu_boundVars u) (fc_boundVars c))
    (orDefault (cu_body u) (fc_body c)).

Definition generateDefaultSeparators (argCount : nat) (symbol : string) : list string :=
  match argCount with
  | 1 => [""; " " ++ symbol]%string
  | 2 => [""; " " ++ symbol ++ " "; ""]%string
  | 3 => [""; " " ++ symbol ++ " "; " : "; ""]%string
  | _ => ([""; " " ++ symbol ++ " "]%string ++ repeat ", " (argCount - 2)) ++ [""]
  end.

Section Actions.
(** The supply of [uuidv4()]. *)
Variable uuid : nat -> string.
(** [name.toLowerCase().charAt(0)] *)
Variable lowerInitial : string -> string.

Definition freshId : Act string := fun s n => Some (uuid n, s, S n).

Fixpoint mapAct {A B : Type} (f : A -> Act B) (l : list A) : Act (list B) :=
  match l with
  | [] => retAct []
  | a :: r => b <~ f a ;; bs <~ mapAct f r ;; retAct (b :: bs)
  end.

Definition createSort (name : string) (kind : SortKind) (isBinderSort : bool)
  (atomPrefix : option string) : Act Sort :=
  let prefix :=
    match kind with
    | atom => Some (orElse atomPrefix (lowerInitial name))
    | inductive => None
    end in
  let color :=
    match kind with
    | atom => if isBinderSort then "#a78bfa" else "#f59e0b"
    | inductive => if isBinderSort then "#a78bfa" else "#60a5fa"
    end in
  id <~ freshId ;;
  retAct (mkSort id name kind isBinderSort color prefix).

Definition createConstructor (sortId name : string) (args : list ConstructorArgSpec)
  : Act Constructor :=
  fullArgs <~
    mapAct (fun arg =>
              id <~ freshId ;;
              retAct (mkConstructorArg id (as_sortId arg) (as_label arg)
                                       (as_isBinder arg) (as_bindsIn arg))) args ;;
  let isTerminal := negb (existsb (fun arg => String.eqb (arg_sortId arg) sortId) fullArgs) in
  id <~ freshId ;;
  retAct (mkConstructor id sortId name fullArgs isTerminal).

Definition createJudgment (name symbol : string) (argSorts : list (string * string))
  (separators : option (list string)) : Act Judgment :=
  let defaultSeparators := generateDefaultSeparators (length argSorts) symbol in
  id <~ freshId ;;
  retAct (mkJudgment id name symbol (orDefault separators defaultSeparators) argSorts
                     "#f472b6").

Definition createMetaVariable (name sortId : string) : Act MetaVariable :=
  id <~ freshId ;;
  retAct (mkMetaVariable id name sortId).

Definition addSort (name : string) (kind : SortKind) (isBinderSort : bool)
  (atomPrefix : option string) : Act Sort :=
  sort <~ createSort name kind isBinderSort atomPrefix ;;
  _ <~ setState (fun state => withSorts state (JsMap.set (sort_id sort) sort (sorts state))) ;;
  retAct sort.

Definition addConstructor (sortId name : string) (args : list ConstructorArgSpec)
  : Act Constructor :=
  constructor <~ createConstructor sortId name args ;;
  _ <~ setState (fun state =>
         withConstructors state
           (JsMap.set (c_id constructor) constructor (constructors state))) ;;
  retAct constructor.

Definition addJudgment (name symbol : string) (argSorts : list (string * string))
  (separators : option (list string)) : Act Judgment :=
  judgment <~ createJudgment name symbol argSorts separators ;;
  _ <~ setState (fun state =>
         withJudgments state (JsMap.set (j_id judgment) judgment (judgments state))) ;;
  retAct judgment.

Definition addMetaVariable (name sortId : string) : Act MetaVariable :=
  mv <~ createMetaVariable name sortId ;;
  _ <~ setState (fun state =>
         withMetaVariables state (JsMap.set (mv_id mv) mv (metaVariables state))) ;;
  retAct mv.

(** [judgment.argSorts.map(() => ({ id: uuidv4(), args: [] }))]: one empty
    hole per argument; the identifier of each hole is drawn and dropped. *)
Definition emptyHoles (argSorts : list (string * string)) : Act (list Pattern) :=
  mapAct (fun _ => _id <~ freshId ;; retAct (mkPattern None None [])) argSorts.

Definition addRule (name judgmentId : string) : Act InferenceRule :=
  state <~ getState ;;
  match JsMap.get judgmentId (judgments state) with
  | None => throw
  | Some judgment =>
      conclusionArgs <~ emptyHoles (j_argSorts judgment) ;;
      state' <~ getState ;;
      let existingRulesCount :=
        length (filter (fun r => String.eqb (ji_judgmentId (r_conclusion r)) judgmentId)
                       (JsMap.values (rules state'))) in
      id <~ freshId ;;
      cid <~ freshId ;;
      let rule :=
        mkInferenceRule id name [] [] (mkJudgmentInstance cid judgmentId conclusionArgs)
          (50 + Z.of_nat (existingRulesCount mod 3) * 220,
           50 + Z.of_nat (existingRulesCount / 3) * 180)%Z in
      _ <~ setState (fun state => withRules state (JsMap.set (r_id rule) rule (rules state))) ;;
      retAct rule
  end.

Definition updateRule (id : string) (updates : RuleUpdates) : Act unit :=
  setState (fun state =>
    match JsMap.get id (rules state) with
    | Some existing =>
        withRules state (JsMap.set id (applyRuleUpdates existing updates) (rules state))
    | None => state
    end).

Definition addPremiseToRule (ruleId judgmentId : string) : Act unit :=
  state <~ getState ;;
  match JsMap.get judgmentId (judgments state) with
  | None => retAct tt
  | Some judgment =>
      premiseArgs <~ emptyHoles (j_argSorts judgment) ;;
      pid <~ freshId ;;
      let premise := mkJudgmentInstance pid judgmentId premiseArgs in
      setState (fun state =>
        match JsMap.get ruleId (rules state) with
        | Some rule =>
            withRules state
              (JsMap.set ruleId (withPremises rule (r_premises rule ++ [premise]))
                         (rules state))
        | None => state
        end)
  end.

Definition withTermination (f : RecursiveFunc) (result : bool * option string)
  : RecursiveFunc :=
  mkRecursiveFunc (f_id f) (f_name f) (f_inputSortId f) (f_extraArgs f) (f_returnType f)
                  (f_cases f) (Some (fst result)) (snd result).

Definition withCases (f : RecursiveFunc) (cases : list FuncCase) : RecursiveFunc :=
  mkRecursiveFunc (f_id f) (f_name f) (f_inputSortId f) (f_extraArgs f) (f_returnType f)
                  cases (f_terminates f) (f_terminationError f).

(** [c.args.map((arg, i) => arg.label || `x${i}`)] *)
Fixpoint defaultBoundVars (i : nat) (args : list ConstructorArg) : list string :=
  match args with
  | [] => []
  | arg :: rest =>
      orElse (arg_label arg) ("x" ++ natToString i)%string :: defaultBoundVars (S i) rest
  end.

Definition defaultBodyFor (state : StoreState) (returnType : FuncReturnType) : FuncExpr :=
  match returnType with
  | RT_int => FE_int 0
  | RT_set _ => FE_empty
  | RT_inductive sortId =>
      let returnConstructors := constructorsOfSort (constructors state) sortId in
      match find (fun c => Nat.eqb (length (c_args c)) 0) returnConstructors with
      | Some terminalConstr => FE_construct (c_id terminalConstr) []
      | None =>
          match returnConstructors with
          | firstConstr :: _ =>
              FE_construct (c_id firstConstr) (map (fun _ => FE_var "_") (c_args firstConstr))
          | [] => FE_var "_"
          end
      end
  end.

Definition addRecursiveFunc (name inputSortId : string) (returnType : FuncReturnType)
  : Act RecursiveFunc :=
  state <~ getState ;;
  let sortConstructors := constructorsOfSort (constructors state) inputSortId in
  let defaultBody := defaultBodyFor state returnType in
  let cases :=
    map (fun c => mkFuncCase (c_id c) (defaultBoundVars 0 (c_args c)) defaultBody)
        sortConstructors in
  id <~ freshId ;;
  let func0 :=
    mkRecursiveFunc id name inputSortId [] returnType cases (Some true) None in
  let func :=
    withTermination func0
      (checkTermination func0 (constructors state) (recursiveFunctions state)) in
  _ <~ setState (fun state =>
         withRecursiveFunctions state
           (JsMap.set (f_id func) func (recursiveFunctions state))) ;;
  retAct func.

Definition updateFuncCase (funcId constructorId : string) (caseUpdate : FuncCaseUpdates)
  : Act unit :=
  setState (fun state =>
    let newFuncs := recursiveFunctions state in
    match JsMap.get funcId newFuncs with
    | Some func =>
        let newCases :=
          map (fun c =>
                 if String.eqb (fc_constructorId c) constructorId
                 then applyFuncCaseUpdates c caseUpdate else c) (f_cases func) in
        let updated := withCases func newCases in
        let updated' :=
          withTermination updated (checkTermination updated (constructors state) newFuncs) in
        withRecursiveFunctions state (JsMap.set funcId updated' newFuncs)
    | None => state
    end).

Definition selectSort (id : option string) : Act unit :=
  setState (fun state => withSelectedSortId state id).

Definition selectJudgment (id : option string) : Act unit :=
  setState (fun state => withSelectedJudgmentId state id).

(** The rule [name]: [premiseJudgment(n)] entails [judgment(S(n))], built as
    the seeding code builds E-Succ and O-Succ. *)
Definition addSuccRule (name judgmentId premiseJudgmentId succId nVarId : string)
  (position : Z * Z) : Act InferenceRule :=
  rule <~ addRule name judgmentId ;;
  _ <~ updateRule (r_id rule) (mkRuleUpdates None None None None (Some position)) ;;
  _ <~ addPremiseToRule (r_id rule) premiseJudgmentId ;;
  state <~ getState ;;
  _ <~ match JsMap.get (r_id rule) (rules state) with
       | Some ruleData =>
           match r_premises ruleData with
           | premise0 :: _ =>
               updateRule (r_id rule)
                 (mkRuleUpdates None
                    (Some [mkJudgmentInstance (ji_id premise0) (ji_judgmentId premise0)
                             [mkPattern None (Some nVarId) []]])
                    None
                    (Some (mkJudgmentInstance (ji_id (r_conclusion ruleData))
                             (ji_judgmentId (r_conclusion ruleData))
                             [mkPattern (Some succId) None
                                        [mkPattern None (Some nVarId) []]]))
                    None)
           | [] => retAct tt
           end
       | None => retAct tt
       end ;;
  retAct rule.

Definition initializeWithExamples : Act unit :=
  state <~ getState ;;
  if negb (Nat.eqb (JsMap.size (sorts state)) 0) then retAct tt
  else
    nat <~ addSort "ℕ" inductive false None ;;
    zeroC <~ addConstructor (sort_id nat) "Z" [] ;;
    succC <~ addConstructor (sort_id nat) "S"
               [mkConstructorArgSpec (sort_id nat) (Some "n") None None] ;;
    evenJudgment <~ addJudgment "even" "even" [(sort_id nat, "n")] None ;;
    oddJudgment <~ addJudgment "odd" "odd" [(sort_id nat, "n")] None ;;
    nVar <~ addMetaVariable "n" (sort_id nat) ;;
    zeroEvenRule <~ addRule "E-Zero" (j_id evenJudgment) ;;
    _ <~ updateRule (r_id zeroEvenRule)
           (mkRuleUpdates None None None None (Some (50, 50)%Z)) ;;
    state1 <~ getState ;;
    _ <~ match JsMap.get (r_id zeroEvenRule) (rules state1) with
         | Some ruleData =>
             updateRule (r_id zeroEvenRule)
               (mkRuleUpdates None None None
                  (Some (mkJudgmentInstance (ji_id (r_conclusion ruleData))
                           (ji_judgmentId (r_conclusion ruleData))
                           [mkPattern (Some (c_id zeroC)) None []]))
                  None)
         | None => retAct tt
         end ;;
    _succEvenRule <~ addSuccRule "E-Succ" (j_id evenJudgment) (j_id oddJudgment)
                       (c_id succC) (mv_id nVar) (300, 50)%Z ;;
    _succOddRule <~ addSuccRule "O-Succ" (j_id oddJudgment) (j_id evenJudgment)
                      (c_id succC) (mv_id nVar) (50, 50)%Z ;;
    sizeFunc <~ addRecursiveFunc "size" (sort_id nat) RT_int ;;
    _ <~ updateFuncCase (f_id sizeFunc) (c_id zeroC)
           (mkFuncCaseUpdates None (Some []) (Some (FE_int 0))) ;;
    _ <~ updateFuncCase (f_id sizeFunc) (c_id succC)
           (mkFuncCaseUpdates None (Some ["n"])
              (Some (FE_bin fb_add (FE_int 1)
                            (FE_call (f_id sizeFunc) (FE_var "n"))))) ;;
    _ <~ selectSort (Some (sort_id nat)) ;;
    selectJudgment (Some (j_id evenJudgment)).
End Actions.

End Store.

(* ================================================================== *)
(** ** Auxiliary notions used to state the properties *)

(** The meta-variables a pattern binds, in the order in which
    [matchPattern] reaches them. *)
Fixpoint patternMetaVars (pattern : Pattern) : list string :=
  match pattern with
  | mkPattern pc pm pargs =>
      if truthy pm then [orElse pm ""]
      else if truthy pc then flat_map patternMetaVars pargs
      else []
  end.

(** Equality of two binding maps: the same keys, bound to structurally
    equal terms. *)
Definition bindingsEquiv (m b : JsMap.t Term) : Prop :=
  forall k,
    match JsMap.get k m, JsMap.get k b with
    | Some t1, Some t2 => termsEqual t1 t2 = true
    | None, None => True
    | _, _ => False
    end.

(** Syntax-directedness in the words of the specification: no pair of rules
    overlaps in every conclusion argument position. *)
Fixpoint overlapInEveryPosition (args1 args2 : list Pattern) : bool :=
  match args1, args2 with
  | p1 :: r1, p2 :: r2 => patternsCanOverlap p1 p2 && overlapInEveryPosition r1 r2
  | _, _ => true
  end.

Fixpoint syntaxDirectedBySpec (relevantRules : list InferenceRule) : bool :=
  match relevantRules with
  | [] => true
  | rule1 :: rest =>
      forallb
        (fun rule2 =>
           negb (overlapInEveryPosition (ji_args (r_conclusion rule1))
                                        (ji_args (r_conclusion rule2)))) rest
      && syntaxDirectedBySpec rest
  end.

(** The proof states reachable from [createProof] by [applyTacticToProof]. *)
Inductive reachableProof (uuid : nat -> string) : Proof -> Prop :=
| reach_create (property : Property) (n : nat) :
    reachableProof uuid (fst (createProof uuid property n))
| reach_step (proof : Proof) (goalId : string) (tactic : Tactic)
    (constructors : JsMap.t Constructor) (sorts : JsMap.t Sort)
    (functions : JsMap.t RecursiveFunc) (rules : JsMap.t InferenceRule) (n : nat) :
    reachableProof uuid proof ->
    reachableProof uuid
      (fst (fst (applyTacticToProof uuid proof goalId tactic constructors sorts
                                    functions rules n))).

(** The invariants of a proof state. *)
Definition proofInvariant (proof : Proof) : Prop :=
  (forall g, In g (pf_openGoals proof) -> In g (JsMap.keys (pf_goals proof)))
  /\ In (pf_rootGoalId proof) (JsMap.keys (pf_goals proof))
  /\ (pf_status proof = complete <-> pf_openGoals proof = []).

(** The induction hypotheses of the case of constructor [c], by name and
    formula: one for each variable of the case that has the sort of the
    induction variable. *)
Definition expectedInductionHyps (formula : Formula) (varName sortId : string)
  (c : Constructor) : list (string * Formula) :=
  map (fun v => (("IH_" ++ pv_name v)%string,
                 substituteFormula formula varName (X_var (pv_name v))))
      (filter (fun v => String.eqb (pv_sortId v) sortId) (freshVarsOf c)).

(** What the goal produced for constructor [c] must be. *)
Definition inductionCaseOf (context : ProofContext) (formula : Formula)
  (varName sortId : string) (c : Constructor) (g : ProofGoal) : Prop :=
  variables (g_context g) = withoutVar (variables context) varName ++ freshVarsOf c
  /\ g_goal g = substituteFormula formula varName (constructorExprOf c)
  /\ exists ihs,
       hypotheses (g_context g) = hypotheses context ++ ihs
       /\ map (fun h => (h_name h, h_formula h)) ihs
          = expectedInductionHyps formula varName sortId c.

(** The Peano even/odd metamodel over given identifiers: the constructor
    terms, the three rules in registry order, as [initializeWithExamples]
    leaves them. *)
Section PeanoMetamodel.
Variables zeroId succId evenId oddId nVarId : string.
Variables zeroRuleId succEvenRuleId succOddRuleId : string.
Variables c1 c2 c3 p2 p3 : string.

Definition peanoZero : Term := mkTerm zeroId [] None None.
Definition peanoSucc (t : Term) : Term := mkTerm succId [t] None None.

Definition peanoN : Pattern := mkPattern None (Some nVarId) [].
Definition peanoSuccN : Pattern := mkPattern (Some succId) None [peanoN].

Definition peanoZeroPat : Pattern := mkPattern (Some zeroId) None [].

Definition peanoEZero : InferenceRule :=
  mkInferenceRule zeroRuleId "E-Zero" [] []
    (mkJudgmentInstance c1 evenId [peanoZeroPat]) (50, 50)%Z.

Definition peanoESucc : InferenceRule :=
  mkInferenceRule succEvenRuleId "E-Succ"
    [mkJudgmentInstance p2 oddId [peanoN]] []
    (mkJudgmentInstance c2 evenId [peanoSuccN]) (300, 50)%Z.

Definition peanoOSucc : InferenceRule :=
  mkInferenceRule succOddRuleId "O-Succ"
    [mkJudgmentInstance p3 evenId [peanoN]] []
    (mkJudgmentInstance c3 oddId [peanoSuccN]) (50, 50)%Z.

Definition peanoRules : JsMap.t InferenceRule :=
  [(zeroRuleId, peanoEZero); (succEvenRuleId, peanoESucc); (succOddRuleId, peanoOSucc)].

(** The tree E-Succ(O-Succ(E-Zero)) that derives [S(S(Z)) even]. *)
Definition peanoEvenTwo : Derivation :=
  mkDerivation "E-Succ" succEvenRuleId (evenId, [peanoSucc (peanoSucc peanoZero)])
    [mkDerivation "O-Succ" succOddRuleId (oddId, [peanoSucc peanoZero])
       [mkDerivation "E-Zero" zeroRuleId (evenId, [peanoZero]) []]].
End PeanoMetamodel.

(** Every entry of [m] is an entry of [b]. *)
Definition consistentWith (m b : JsMap.t Term) : Prop :=
  forall k v, In (k, v) m -> JsMap.get k b = Some v.

(** The rules and the constructors that [initializeWithExamples] leaves in
    the registry, in terms of the identifiers it draws. *)
Definition seededRules (uuid : nat -> string) : JsMap.t InferenceRule :=
  peanoRules (uuid 1) (uuid 3) (uuid 4) (uuid 5) (uuid 6) (uuid 8) (uuid 11) (uuid 16)
             (uuid 9) (uuid 12) (uuid 17) (uuid 14) (uuid 19).

Definition seededConstructors (uuid : nat -> string) : JsMap.t Constructor :=
  [(uuid 1, mkConstructor (uuid 1) (uuid 0) "Z" [] true);
   (uuid 3, mkConstructor (uuid 3) (uuid 0) "S"
              [mkConstructorArg (uuid 2) (uuid 0) (Some "n") None None] false)].

(** A rule without its premises on judgment [id]; everything else is kept. *)
Definition withoutPremisesOn (id : string) (r : InferenceRule) : InferenceRule :=
  Store.withPremises r
    (filter (fun p => negb (String.eqb (ji_judgmentId p) id)) (r_premises r)).

(* ------------------------------------------------------------------ *)
(** *** Notions for the termination of evaluation *)

Section FuncExprInd.
Variable P : FuncExpr -> Prop.
Variable Q : FuncPredicate -> Prop.
Hypothesis Hint : forall v, P (FE_int v).
Hypothesis Hempty : P FE_empty.
Hypothesis Hsingleton : forall e, P e -> P (FE_singleton e).
Hypothesis Hvar : forall n, P (FE_var n).
Hypothesis Hcall : forall f a, P a -> P (FE_call f a).
Hypothesis HcallMulti : forall f args, Forall P args -> P (FE_callMulti f args).
Hypothesis Hconstruct : forall c args, Forall P args -> P (FE_construct c args).
Hypothesis Hbin : forall k l r, P l -> P r -> P (FE_bin k l r).
Hypothesis Hif : forall c t e, Q c -> P t -> P e -> P (FE_if c t e).
Hypothesis Hcmp : forall k l r, P l -> P r -> Q (FP_cmp k l r).
Hypothesis Hin : forall e s, P e -> P s -> Q (FP_in e s).
Hypothesis HisEmpty : forall s, P s -> Q (FP_isEmpty s).
Hypothesis Hconn : forall k l r, Q l -> Q r -> Q (FP_conn k l r).
Hypothesis Hnot : forall p, Q p -> Q (FP_not p).

Fixpoint FuncExpr_ind' (e : FuncExpr) : P e :=
  let all :=
    fix all (l : list FuncExpr) : Forall P l :=
      match l with
      | [] => Forall_nil P
      | x :: r => @Forall_cons _ P x r (FuncExpr_ind' x) (all r)
      end in
  match e with
  | FE_int v => Hint v
  | FE_empty => Hempty
  | FE_singleton e1 => Hsingleton e1 (FuncExpr_ind' e1)
  | FE_var n => Hvar n
  | FE_call f a => Hcall f a (FuncExpr_ind' a)
  | FE_callMulti f args => HcallMulti f args (all args)
  | FE_construct c args => Hconstruct c args (all args)
  | FE_bin k l r => Hbin k l r (FuncExpr_ind' l) (FuncExpr_ind' r)
  | FE_if c t e1 => Hif c t e1 (FuncPredicate_ind' c) (FuncExpr_ind' t) (FuncExpr_ind' e1)
  end
with FuncPredicate_ind' (p : FuncPredicate) : Q p :=
  match p with
  | FP_cmp k l r => Hcmp k l r (FuncExpr_ind' l) (FuncExpr_ind' r)
  | FP_in e s => Hin e s (FuncExpr_ind' e) (FuncExpr_ind' s)
  | FP_isEmpty s => HisEmpty s (FuncExpr_ind' s)
  | FP_conn k l r => Hconn k l r (FuncPredicate_ind' l) (FuncPredicate_ind' r)
  | FP_not q => Hnot q (FuncPredicate_ind' q)
  end.
End FuncExprInd.

(** The number of constructor applications and atoms of a term. *)
Fixpoint termSize (t : Term) : nat :=
  match t with
  | mkTerm _ args _ _ => S (list_sum (map termSize args))
  end.

(** Every application of a registered constructor has as many arguments as
    the constructor declares. *)
Fixpoint termArityOk (constructors : JsMap.t Constructor) (t : Term) : bool :=
  match t with
  | mkTerm c args _ _ =>
      match JsMap.get c constructors with
      | Some constructor => Nat.eqb (length args) (length (c_args constructor))
      | None => true
      end
      && forallb (termArityOk constructors) args
  end.

(** Every multi-argument call of an expression is a call of [selfId]. *)
Fixpoint multiCallsOnlyTo (selfId : string) (e : FuncExpr) : bool :=
  match e with
  | FE_int _ | FE_empty | FE_var _ => true
  | FE_singleton element => multiCallsOnlyTo selfId element
  | FE_call _ arg => multiCallsOnlyTo selfId arg
  | FE_callMulti funcId args =>
      String.eqb funcId selfId && forallb (multiCallsOnlyTo selfId) args
  | FE_construct _ args => forallb (multiCallsOnlyTo selfId) args
  | FE_bin _ l r => multiCallsOnlyTo selfId l && multiCallsOnlyTo selfId r
  | FE_if cond thenE elseE =>
      predMultiCallsOnlyTo selfId cond
      && (multiCallsOnlyTo selfId thenE && multiCallsOnlyTo selfId elseE)
  end
with predMultiCallsOnlyTo (selfId : string) (p : FuncPredicate) : bool :=
  match p with
  | FP_cmp _ l r => multiCallsOnlyTo selfId l && multiCallsOnlyTo selfId r
  | FP_in element set => multiCallsOnlyTo selfId element && multiCallsOnlyTo selfId set
  | FP_isEmpty set => multiCallsOnlyTo selfId set
  | FP_conn _ l r => predMultiCallsOnlyTo selfId l && predMultiCallsOnlyTo selfId r
  | FP_not q => predMultiCallsOnlyTo selfId q
  end.

(** A registry of functions that are stored under their own identifier,
    pass [checkTermination], and make multi-argument calls to themselves
    only. *)
Definition selfContainedRegistry (constructors : JsMap.t Constructor)
  (functions : JsMap.t RecursiveFunc) : Prop :=
  forall k g,
    JsMap.get k functions = Some g ->
    f_id g = k
    /\ fst (checkTermination g constructors functions) = true
    /\ forallb (fun c => multiCallsOnlyTo (f_id g) (fc_body c)) (f_cases g) = true.

(** Every term of an environment has size at most [n] and respects the
    arities. *)
Definition envWithin (constructors : JsMap.t Constructor) (n : nat)
  (env : JsMap.t Term) : Prop :=
  forall k v, In (k, v) env -> termSize v <= n /\ termArityOk constructors v = true.

(** A nesting depth of calls that suffices for a term of size [n]:
    [n (n + 1) / 2]. *)
Fixpoint callDepthBound (n : nat) : nat :=
  match n with
  | 0 => 0
  | S m => S (callDepthBound m + m)
  end.

(* ------------------------------------------------------------------ *)
(** *** The calls of an evaluation, site by site *)

(** A call site is a call expression in the body of a case: it is given by
    the function, the constructor of the case, and the path from the body to
    the expression (the index of the child taken at each node: the
    arguments of a constructor application, the two sides of an operator or
    a comparison, the condition and the two branches of a conditional). *)
Definition CallSite : Type := (string * string * list nat)%type.

Definition callSiteEqb (a b : CallSite) : bool :=
  String.eqb (fst (fst a)) (fst (fst b))
  && String.eqb (snd (fst a)) (snd (fst b))
  && if list_eq_dec Nat.eq_dec (snd a) (snd b) then true else false.

(** The number of calls that [log] records for [site]. *)
Definition callsFrom (site : CallSite) (log : list CallSite) : nat :=
  length (filter (callSiteEqb site) log).

(** A result together with the sites of the calls made on the way, in the
    order of the calls. *)
Definition Logged (A : Type) : Type := option (option A * list CallSite).

Definition retLogged {A : Type} (v : option A) : Logged A := Some (v, []).

Definition bindLogged {A B : Type} (r : Logged A) (k : option A -> Logged B) : Logged B :=
  match r with
  | None => None
  | Some (v, log) =>
      match k v with
      | None => None
      | Some (w, log') => Some (w, log ++ log')
      end
  end.

(** The call made at [site]. *)
Definition logCall {A : Type} (site : CallSite) (r : Logged A) : Logged A :=
  match r with
  | None => None
  | Some (v, log) => Some (v, site :: log)
  end.

(** The result without the log. *)
Definition eraseLog {A : Type} (r : Logged A) : Res A := option_map fst r.

Notation "'let**' x ':=' r 'in' k" := (bindLogged r (fun x => k))
  (at level 10, x name, r at level 100, k at level 200).

Section EvaluateExprLogged.
Variable functions : JsMap.t RecursiveFunc.
Variable constructors : JsMap.t Constructor.
Variable callFunc : RecursiveFunc -> Term -> Logged FuncValue.
Variable callFuncMulti : RecursiveFunc -> Term -> JsMap.t Term -> Logged FuncValue.
(** The function and the constructor of the case whose body is evaluated. *)
Variable funcId caseId : string.

(** [evaluateExpr] and [evaluatePredicate], step for step, with the log of
    the calls; [path] leads from the body of the case to [expr]. *)
Fixpoint evaluateExprLogged (expr : FuncExpr) (termEnv : JsMap.t Term) (path : list nat)
  {struct expr} : Logged FuncValue :=
  match expr with
  | FE_int value => retLogged (Some (V_num value))
  | FE_empty => retLogged (Some (V_set []))
  | FE_var _ => retLogged None
  | FE_singleton element =>
      let** _elem := evaluateExprLogged element termEnv (path ++ [0]) in
      match isVarExpr element with
      | Some name =>
          match atomNameOf (JsMap.get name termEnv) with
          | Some variableName => retLogged (Some (V_set [variableName]))
          | None => retLogged None
          end
      | None => retLogged None
      end
  | FE_call calleeId arg =>
      match JsMap.get calleeId functions with
      | None => retLogged None
      | Some func =>
          match isVarExpr arg with
          | None => retLogged None
          | Some name =>
              match JsMap.get name termEnv with
              | None => retLogged None
              | Some argTerm => logCall (funcId, caseId, path) (callFunc func argTerm)
              end
          end
      end
  | FE_callMulti calleeId args =>
      match JsMap.get calleeId functions with
      | None => retLogged None
      | Some func =>
          match args with
          | [] => retLogged None
          | principalArgExpr :: others =>
              match isVarExpr principalArgExpr with
              | None => retLogged None
              | Some name =>
                  match JsMap.get name termEnv with
                  | None => retLogged None
                  | Some principalTerm =>
                      logCall (funcId, caseId, path)
                        (callFuncMulti func principalTerm
                           (bindExtraArgs (f_extraArgs func) others termEnv termEnv))
                  end
              end
          end
      end
  | FE_construct constructorId args =>
      match JsMap.get constructorId constructors with
      | None => retLogged None
      | Some _ =>
          let** evaluatedArgs :=
            (fix loop (l : list FuncExpr) (i : nat) : Logged (list Term) :=
               match l with
               | [] => retLogged (Some [])
               | argExpr :: rest =>
                   let** argVal := evaluateExprLogged argExpr termEnv (path ++ [i]) in
                   let next (t : Term) : Logged (list Term) :=
                     let** more := loop rest (S i) in
                     retLogged (option_map (cons t) more) in
                   match argVal with
                   | Some (V_term t) => next t
                   | _ =>
                       match isVarExpr argExpr with
                       | Some name =>
                           match JsMap.get name termEnv with
                           | Some t => next t
                           | None => retLogged None
                           end
                       | None => retLogged None
                       end
                   end
               end) args 0 in
          retLogged (option_map (fun ts => V_term (mkTerm constructorId ts None None))
                                evaluatedArgs)
      end
  | FE_bin kind lhs rhs =>
      let** l := evaluateExprLogged lhs termEnv (path ++ [0]) in
      let** r := evaluateExprLogged rhs termEnv (path ++ [1]) in
      retLogged (evalBin kind l r)
  | FE_if cond thenE elseE =>
      let** condResult := evaluatePredicateLogged cond termEnv (path ++ [0]) in
      match condResult with
      | None => retLogged None
      | Some true => evaluateExprLogged thenE termEnv (path ++ [1])
      | Some false => evaluateExprLogged elseE termEnv (path ++ [2])
      end
  end
with evaluatePredicateLogged (pred : FuncPredicate) (termEnv : JsMap.t Term)
  (path : list nat) {struct pred} : Logged bool :=
  match pred with
  | FP_cmp fc_atomEq lhs rhs => retLogged (evalAtomEq lhs rhs termEnv)
  | FP_cmp fc_atomNeq lhs rhs => retLogged (option_map negb (evalAtomEq lhs rhs termEnv))
  | FP_cmp kind lhs rhs =>
      let** l := evaluateExprLogged lhs termEnv (path ++ [0]) in
      let** r := evaluateExprLogged rhs termEnv (path ++ [1]) in
      retLogged
        match kind with
        | fc_eq => evalEq l r
        | fc_neq => option_map negb (evalEq l r)
        | fc_lt => evalNumCmp Z.ltb l r
        | fc_leq => evalNumCmp Z.leb l r
        | fc_gt => evalNumCmp Z.gtb l r
        | fc_geq => evalNumCmp Z.geb l r
        | fc_subset =>
            match l, r with
            | Some (V_set ls), Some (V_set rs) => Some (forallb (fun x => setHas x rs) ls)
            | _, _ => None
            end
        | fc_atomEq | fc_atomNeq => None
        end
  | FP_in element set =>
      let** s := evaluateExprLogged set termEnv (path ++ [1]) in
      match s with
      | Some (V_set xs) =>
          match isVarExpr element with
          | Some name =>
              match atomNameOf (JsMap.get name termEnv) with
              | Some variableName => retLogged (Some (setHas variableName xs))
              | None => retLogged None
              end
          | None => retLogged None
          end
      | _ => retLogged None
      end
  | FP_isEmpty set =>
      let** s := evaluateExprLogged set termEnv (path ++ [0]) in
      match s with
      | Some (V_set xs) => retLogged (Some (Nat.eqb (length xs) 0))
      | _ => retLogged None
      end
  | FP_conn kind lhs rhs =>
      let** l := evaluatePredicateLogged lhs termEnv (path ++ [0]) in
      let** r := evaluatePredicateLogged rhs termEnv (path ++ [1]) in
      match l, r with
      | Some a, Some b =>
          retLogged (Some match kind with fk_and => a && b | fk_or => a || b end)
      | _, _ => retLogged None
      end
  | FP_not p =>
      let** inner := evaluatePredicateLogged p termEnv (path ++ [0]) in
      retLogged (option_map negb inner)
  end.
End EvaluateExprLogged.

(** [evaluateFunc] and [evaluateFuncMulti] with the log of the calls made
    in the bodies. *)
Fixpoint evaluateFuncLogged (fuel : nat) (functions : JsMap.t RecursiveFunc)
  (constructors : JsMap.t Constructor) (func : RecursiveFunc) (term : Term)
  {struct fuel} : Logged FuncValue :=
  match fuel with
  | 0 => None
  | S fuel' =>
      if isAtomOccurrence term then retLogged None
      else
        match findCase func term with
        | None => retLogged None
        | Some matchingCase =>
            match JsMap.get (t_constructorId term) constructors with
            | None => retLogged None
            | Some _ =>
                let termEnv :=
                  bindBoundVars (fc_boundVars matchingCase) (t_args term) JsMap.empty in
                evaluateExprLogged functions constructors
                  (evaluateFuncLogged fuel' functions constructors)
                  (evaluateFuncMultiLogged fuel' functions constructors)
                  (f_id func) (fc_constructorId matchingCase)
                  (fc_body matchingCase) termEnv []
            end
        end
  end
with evaluateFuncMultiLogged (fuel : nat) (functions : JsMap.t RecursiveFunc)
  (constructors : JsMap.t Constructor) (func : RecursiveFunc) (principalTerm : Term)
  (extraEnv : JsMap.t Term) {struct fuel} : Logged FuncValue :=
  match fuel with
  | 0 => None
  | S fuel' =>
      if isAtomOccurrence principalTerm then retLogged None
      else
        match findCase func principalTerm with
        | None => retLogged None
        | Some matchingCase =>
            match JsMap.get (t_constructorId principalTerm) constructors with
            | None => retLogged None
            | Some _ =>
                let termEnv :=
                  bindBoundVars (fc_boundVars matchingCase) (t_args principalTerm) extraEnv in
                evaluateExprLogged functions constructors
                  (evaluateFuncLogged fuel' functions constructors)
                  (evaluateFuncMultiLogged fuel' functions constructors)
                  (f_id func) (fc_constructorId matchingCase)
                  (fc_body matchingCase) termEnv []
            end
        end
  end.

(* ================================================================== *)
(** ** Auxiliary notions for the further properties *)

(** [m'] binds every key of [m] to a structurally equal term. *)
Definition bindingsExtend (m m' : JsMap.t Term) : Prop :=
  forall k v, JsMap.get k m = Some v ->
              exists v', JsMap.get k m' = Some v' /\ termsEqual v v' = true.

(** The height of a derivation tree: 1 for a leaf. *)
Fixpoint derivationHeight (d : Derivation) : nat :=
  match d with
  | mkDerivation _ _ _ premises => S (list_max (map derivationHeight premises))
  end.

(** A derivation tree that the rules justify: every node names a complete
    rule of the registry whose conclusion is for the judgment of the node and
    matches its terms, and the children derive, in order, the premises of the
    rule instantiated by the bindings of that match. *)
Inductive validDerivation (rules : JsMap.t InferenceRule) : Derivation -> Prop :=
| valid_node (rule : InferenceRule) (judgmentId : string) (terms : list Term)
    (allBindings : JsMap.t Term) (premises : list Derivation) :
    In rule (JsMap.values rules) ->
    isRuleComplete rule = true ->
    ji_judgmentId (r_conclusion rule) = judgmentId ->
    length (ji_args (r_conclusion rule)) = length terms ->
    matchConclusion terms (ji_args (r_conclusion rule)) JsMap.empty = Some allBindings ->
    Forall2 (fun premise d =>
               exists premiseTerms,
                 substituteAll (ji_args premise) allBindings = Some premiseTerms
                 /\ d_conclusion d = (ji_judgmentId premise, premiseTerms)
                 /\ validDerivation rules d)
            (r_premises rule) premises ->
    validDerivation rules
      (mkDerivation (r_name rule) (r_id rule) (judgmentId, terms) premises).

(** *** The derivability test of the examples ([RuleCanvas.tsx]) *)

(** [{ derivable: boolean; ruleName?: string }] *)
Record CanDeriveResult : Type := mkCanDeriveResult {
  derivable : bool;
  ruleName : option string
}.

Section CanDeriveStep.
(** The recursive call [canDerive(premise.judgmentId, premiseTerms,
    depth + 1)]. *)
Variable recur : string -> list Term -> CanDeriveResult.

Fixpoint premisesSatisfied (premises : list JudgmentInstance) (allBindings : JsMap.t Term)
  : bool :=
  match premises with
  | [] => true
  | premise :: rest =>
      match substituteAll (ji_args premise) allBindings with
      | None => false
      | Some premiseTerms =>
          if negb (derivable (recur (ji_judgmentId premise) premiseTerms)) then false
          else premisesSatisfied rest allBindings
      end
  end.

Fixpoint canDeriveRules (terms : list Term) (rulesForJudgment : list InferenceRule)
  : CanDeriveResult :=
  match rulesForJudgment with
  | [] => mkCanDeriveResult false None
  | rule :: rest =>
      let conclusion := r_conclusion rule in
      if negb (Nat.eqb (length (ji_args conclusion)) (length terms))
      then canDeriveRules terms rest
      else
        match matchConclusion terms (ji_args conclusion) JsMap.empty with
        | None => canDeriveRules terms rest
        | Some allBindings =>
            if premisesSatisfied (r_premises rule) allBindings
            then mkCanDeriveResult true (Some (r_name rule))
            else canDeriveRules terms rest
        end
  end.
End CanDeriveStep.

(** [canDerive] at a given [depth]; as for [buildDerivationAux], [fuel]
    bounds the nesting of the calls and the depth test fires first when
    [7 <= fuel + depth]. *)
Fixpoint canDeriveAux (fuel : nat) (rules : JsMap.t InferenceRule)
  (judgmentId : string) (terms : list Term) (depth : nat) : CanDeriveResult :=
  match fuel with
  | 0 => mkCanDeriveResult false None
  | S fuel' =>
      if Nat.ltb 5 depth then mkCanDeriveResult false None
      else
        canDeriveRules (fun j ts => canDeriveAux fuel' rules j ts (depth + 1))
                       terms (getRulesForJudgment rules judgmentId)
  end.

Definition canDerive (rules : JsMap.t InferenceRule) (judgmentId : string)
  (terms : list Term) : CanDeriveResult :=
  canDeriveAux 7 rules judgmentId terms 0.

(** An expression without multi-argument calls. *)
Fixpoint noCallMulti (e : FuncExpr) : bool :=
  match e with
  | FE_int _ | FE_empty | FE_var _ => true
  | FE_singleton element => noCallMulti element
  | FE_call _ arg => noCallMulti arg
  | FE_callMulti _ _ => false
  | FE_construct _ args => forallb noCallMulti args
  | FE_bin _ l r => noCallMulti l && noCallMulti r
  | FE_if cond thenE elseE =>
      predNoCallMulti cond && (noCallMulti thenE && noCallMulti elseE)
  end
with predNoCallMulti (p : FuncPredicate) : bool :=
  match p with
  | FP_cmp _ l r => noCallMulti l && noCallMulti r
  | FP_in element set => noCallMulti element && noCallMulti set
  | FP_isEmpty set => noCallMulti set
  | FP_conn _ l r => predNoCallMulti l && predNoCallMulti r
  | FP_not q => predNoCallMulti q
  end.

Definition casesNoCallMulti (func : RecursiveFunc) : bool :=
  forallb (fun c => noCallMulti (fc_body c)) (f_cases func).

(** Does the variable [x] occur in an expression, respectively occur free in
    a formula? *)
Fixpoint occursInExpr (x : string) (e : FormulaExpr) : bool :=
  match e with
  | X_var name => String.eqb name x
  | X_constructor _ args => existsb (occursInExpr x) args
  | X_funcApp _ arg => occursInExpr x arg
  | X_arith _ l r => occursInExpr x l || occursInExpr x r
  | X_int _ | X_emptySet => false
  end.

Fixpoint occursFree (x : string) (f : Formula) : bool :=
  match f with
  | F_quant _ v _ body => if String.eqb v x then false else occursFree x body
  | F_conn _ l r => occursFree x l || occursFree x r
  | F_not body => occursFree x body
  | F_judgment _ args => existsb (occursInExpr x) args
  | F_termCmp _ l r | F_num _ l r => occursInExpr x l || occursInExpr x r
  | F_func _ _ arg value => occursInExpr x arg || occursInExpr x value
  | F_setEmpty _ arg => occursInExpr x arg
  | F_setIn element _ arg => occursInExpr x element || occursInExpr x arg
  | F_true | F_false => false
  end.

(** An interpretation of formulas over the integers: values for the
    variables, the constructors, the functions and the empty set, and a truth
    value for every formula that is not built from comparisons and
    connectives (quantified formulas, judgments, function and set
    predicates). *)
Record Interpretation : Type := mkInterpretation {
  i_var : string -> Z;
  i_constructor : string -> list Z -> Z;
  i_func : string -> Z -> Z;
  i_emptySet : Z;
  i_atom : Formula -> Prop
}.

(** The operation on the integers that an arithmetic operator stands for. *)
Definition integerOp (k : ArithKind) : Z -> Z -> Z :=
  match k with
  | ak_add => Z.add
  | ak_sub => Z.sub
  | ak_mul => Z.mul
  | ak_max => Z.max
  | ak_min => Z.min
  end.

Fixpoint denote (I : Interpretation) (e : FormulaExpr) : Z :=
  match e with
  | X_var name => i_var I name
  | X_constructor c args => i_constructor I c (map (denote I) args)
  | X_funcApp f arg => i_func I f (denote I arg)
  | X_int value => value
  | X_emptySet => i_emptySet I
  | X_arith k l r => integerOp k (denote I l) (denote I r)
  end.

Definition numCmpHolds (k : NumCmpKind) (a b : Z) : Prop :=
  match k with
  | numEq => a = b
  | numNeq => a <> b
  | numLeq => (a <= b)%Z
  | numLt => (a < b)%Z
  | numGeq => (a >= b)%Z
  | numGt => (a > b)%Z
  end.

Fixpoint holds (I : Interpretation) (f : Formula) : Prop :=
  match f with
  | F_true => True
  | F_false => False
  | F_conn implies l r => holds I l -> holds I r
  | F_conn and_ l r => holds I l /\ holds I r
  | F_conn or_ l r => holds I l \/ holds I r
  | F_not body => ~ holds I body
  | F_num k l r => numCmpHolds k (denote I l) (denote I r)
  | F_termCmp termEq l r => denote I l = denote I r
  | F_termCmp termNeq l r => denote I l <> denote I r
  | F_quant _ _ _ _ | F_judgment _ _ | F_func _ _ _ _ | F_setEmpty _ _ | F_setIn _ _ _ =>
      i_atom I f
  end.

(** A goal is valid under an interpretation when its formula holds if all
    its hypotheses do. *)
Definition goalValid (I : Interpretation) (g : ProofGoal) : Prop :=
  (forall h, In h (hypotheses (g_context g)) -> holds I (h_formula h)) ->
  holds I (g_goal g).

(** The constant lower bounds among the hypotheses are bounds by a
    non-negative number: a hypothesis [e >= c] with a constant [c] has
    [0 <= c], a hypothesis [e > c] has [-1 <= c]. *)
Definition lowerBoundsNonNegative (hyps : list ProofHypothesis) : Prop :=
  forall h, In h hyps ->
    match h_formula h with
    | F_num numGeq _ hr => forall c, evalExprToNumber hr = Some c -> (0 <= c)%Z
    | F_num numGt _ hr => forall c, evalExprToNumber hr = Some c -> (-1 <= c)%Z
    | _ => True
    end.

(** A bound on the magnitude of the constants that the evaluation and the
    simplification of an expression can compute. *)
Definition magnitudeOp (k : ArithKind) : Z -> Z -> Z :=
  match k with
  | ak_add | ak_sub => Z.add
  | ak_mul => Z.mul
  | ak_max | ak_min => Z.max
  end.

Fixpoint magnitude (e : FormulaExpr) : Z :=
  match e with
  | X_int value => Z.abs value
  | X_arith k l r => magnitudeOp k (magnitude l) (magnitude r)
  | _ => 0%Z
  end.

(** The arithmetic of an expression stays within the integers that
    JavaScript numbers represent exactly: the bound of every arithmetic
    subexpression is at most 2^53. *)
Fixpoint safeExpr (e : FormulaExpr) : bool :=
  match e with
  | X_arith k l r =>
      safeExpr l && safeExpr r
      && (magnitudeOp k (magnitude l) (magnitude r) <=? 9007199254740992)%Z
  | X_constructor _ args => forallb safeExpr args
  | X_funcApp _ arg => safeExpr arg
  | X_var _ | X_int _ | X_emptySet => true
  end.

(** The same for the comparisons of a formula, through its connectives. *)
Fixpoint safeFormula (f : Formula) : bool :=
  match f with
  | F_conn _ l r => safeFormula l && safeFormula r
  | F_not body => safeFormula body
  | F_num _ l r | F_termCmp _ l r => safeExpr l && safeExpr r
  | _ => true
  end.

Definition safeGoal (g : ProofGoal) : Prop :=
  safeFormula (g_goal g) = true
  /\ forall h, In h (hypotheses (g_context g)) -> safeFormula (h_formula h) = true.

(** The tactics that work on the connectives, the comparisons and the
    hypotheses of a goal, without touching its variables. *)
Definition isPropositionalTactic (tactic : Tactic) : bool :=
  match tactic with
  | T_intro_hyp _ | T_split | T_left | T_right | T_apply _ | T_reflexivity
  | T_trivial | T_exact _ | T_discriminate _ | T_simplify => true
  | _ => false
  end.

(** Different constructors build different values. *)
Definition constructorsDistinct (I : Interpretation) : Prop :=
  forall c1 c2 args1 args2,
    c1 <> c2 -> i_constructor I c1 args1 <> i_constructor I c2 args2.

(** What the goal produced by [case_analysis] for constructor [c] must be. *)
Definition caseAnalysisCaseOf (context : ProofContext) (formula : Formula)
  (varName : string) (c : Constructor) (g : ProofGoal) : Prop :=
  variables (g_context g) = withoutVar (variables context) varName ++ freshVarsOf c
  /\ hypotheses (g_context g) = hypotheses context
  /\ g_goal g = substituteFormula formula varName (constructorExprOf c).

(** The goals [gs] carry identifiers drawn from the supply at increasing
    indices between [n] and [n']. *)
Fixpoint drawnBetween (uuid : nat -> string) (n : nat) (gs : list ProofGoal) (n' : nat)
  : Prop :=
  match gs with
  | [] => n <= n'
  | g :: rest => exists k, g_id g = uuid k /\ n <= k /\ drawnBetween uuid (S k) rest n'
  end.

(** *** Hints for goals that can be closed at once *)

(** The result of [isGoalTrivial], without its informational message. *)
Record TrivialResult : Type := mkTrivialResult {
  tr_trivial : bool;
  tr_tactic : option string
}.

(** [formula.kind === 'numEq' || ... === 'numLeq' || ... === 'numGeq' ||
    ... === 'termEq'], with the two sides. *)
Definition reflexiveSides (formula : Formula) : option (FormulaExpr * FormulaExpr) :=
  match formula with
  | F_num numEq l r | F_num numLeq l r | F_num numGeq l r | F_termCmp termEq l r =>
      Some (l, r)
  | _ => None
  end.

Definition isGoalTrivial (formula : Formula) (hypotheses : list ProofHypothesis)
  : TrivialResult :=
  match formula with
  | F_true => mkTrivialResult true (Some "trivial")
  | _ =>
      if existsb (fun h => formulaEqual (h_formula h) formula) hypotheses
      then mkTrivialResult true (Some "trivial")
      else
        let decide :=
          if solved (simplifyFormula formula) then mkTrivialResult true (Some "simplify")
          else if tryLinearArithmetic formula hypotheses
               then mkTrivialResult true (Some "simplify")
               else mkTrivialResult false None in
        match reflexiveSides formula with
        | Some (l, r) =>
            if formulaExprEqual l r then mkTrivialResult true (Some "reflexivity")
            else if formulaExprEqual (simplifyExpr l) (simplifyExpr r)
                 then mkTrivialResult true (Some "simplify")
                 else decide
        | None => decide
        end
  end.

(** The tactic that [GoalActions] and the button that solves all trivial
    goals ([components/ProofPanel.tsx]) build from the hint. *)
Definition hintTactic (tactic : string) : Tactic :=
  if String.eqb tactic "simplify" then T_simplify
  else if String.eqb tactic "reflexivity" then T_reflexivity
  else T_trivial.

(** The three tactics a hint can name draw no identifier, so closing a goal
    leaves the supply where it was. *)
Definition closes (uuid : nat -> string) (goal : ProofGoal) (tactic : Tactic) : Prop :=
  forall constructors sorts functions rules n,
    applyTactic uuid goal tactic constructors sorts functions rules n = (success [], n).

(** The registry stores every constructor under its own id. *)
Definition keyedById (constructors : JsMap.t Constructor) : Prop :=
  forall k c, In (k, c) constructors -> c_id c = k.

(** An expression without any function call. *)
Fixpoint callFree (e : FuncExpr) : bool :=
  match e with
  | FE_int _ | FE_empty | FE_var _ => true
  | FE_singleton element => callFree element
  | FE_call _ _ | FE_callMulti _ _ => false
  | FE_construct _ args => forallb callFree args
  | FE_bin _ l r => callFree l && callFree r
  | FE_if cond thenE elseE => predCallFree cond && (callFree thenE && callFree elseE)
  end
with predCallFree (p : FuncPredicate) : bool :=
  match p with
  | FP_cmp _ l r => callFree l && callFree r
  | FP_in element set => callFree element && callFree set
  | FP_isEmpty set => callFree set
  | FP_conn _ l r => predCallFree l && predCallFree r
  | FP_not q => predCallFree q
  end.

(** The proof states built for [property] by [createProof] and then by
    [applyTacticToProof] with tactics on connectives, comparisons and
    hypotheses, all identifiers being drawn from one supply; the number is
    the position of the supply after the last draw.  [simplify] is used on
    goals whose constant lower bounds are non-negative, [simplify] and
    [reflexivity] on goals whose arithmetic stays within the integers that
    JavaScript numbers represent exactly, [discriminate] when the
    interpretation gives different constructors different values. *)
Inductive propositionalRun (uuid : nat -> string) (I : Interpretation)
  (property : Property) : Proof -> nat -> Prop :=
| run_create (n : nat) :
    propositionalRun uuid I property
      (fst (createProof uuid property n)) (snd (createProof uuid property n))
| run_draw (proof : Proof) (n m : nat) :
    propositionalRun uuid I property proof n -> n <= m ->
    propositionalRun uuid I property proof m
| run_step (proof : Proof) (n : nat) (goalId : string) (tactic : Tactic)
    (constructors : JsMap.t Constructor) (sorts : JsMap.t Sort)
    (functions : JsMap.t RecursiveFunc) (rules : JsMap.t InferenceRule) :
    propositionalRun uuid I property proof n ->
    isPropositionalTactic tactic = true ->
    (tactic = T_simplify ->
     forall goal, JsMap.get goalId (pf_goals proof) = Some goal ->
                  lowerBoundsNonNegative (hypotheses (g_context goal))) ->
    (tactic = T_simplify \/ tactic = T_reflexivity ->
     forall goal, JsMap.get goalId (pf_goals proof) = Some goal -> safeGoal goal) ->
    (forall hypName, tactic = T_discriminate hypName -> constructorsDistinct I) ->
    propositionalRun uuid I property
      (fst (fst (applyTacticToProof uuid proof goalId tactic constructors sorts
                                    functions rules n)))
      (snd (applyTacticToProof uuid proof goalId tactic constructors sorts
                               functions rules n)).

(** What such a run keeps: the goals have identifiers drawn so far, the root
    goal states the property without hypotheses, the status records whether
    a goal is open, and the property holds once all open goals are valid. *)
Definition runInvariant (uuid : nat -> string) (I : Interpretation) (property : Property)
  (proof : Proof) (n : nat) : Prop :=
  (forall k, In k (JsMap.keys (pf_goals proof)) -> exists i, k = uuid i /\ i < n)
  /\ (exists root,
        JsMap.get (pf_rootGoalId proof) (pf_goals proof) = Some root
        /\ hypotheses (g_context root) = []
        /\ g_goal root = prop_formula property)
  /\ (pf_status proof = complete <-> pf_openGoals proof = [])
  /\ ((forall gid g, In gid (pf_openGoals proof) ->
                     JsMap.get gid (pf_goals proof) = Some g -> goalValid I g) ->
      holds I (prop_formula property)).

(* ================================================================== *)
(** ** Identifiers ([utils/uuid.ts]) *)

Module Uuid.

(** What [uuidv4] reads from its environment: [window.crypto] with its two
    optional methods, given by what they return ([getRandomValues] by the
    content of the 16-byte array after the call), the clock and the
    hexadecimal rendering of [Math.random()]. *)
Record Crypto : Type := mkCrypto {
  randomUUID : option string;
  getRandomValues : option (list Z)
}.

Record Env : Type := mkEnv {
  crypto : option Crypto;
  dateNow : Z;
  mathRandomHex : string
}.

Definition hexDigit (d : Z) : string :=
  match d with
  | 0 => "0" | 1 => "1" | 2 => "2" | 3 => "3" | 4 => "4" | 5 => "5" | 6 => "6" | 7 => "7"
  | 8 => "8" | 9 => "9" | 10 => "a" | 11 => "b" | 12 => "c" | 13 => "d" | 14 => "e"
  | _ => "f"
  end%Z.

(** [n.toString(16)] on a non-negative integer. *)
Fixpoint toHex (fuel : nat) (n : Z) : string :=
  match fuel with
  | 0%nat => ""
  | S fuel' =>
      if (n <? 16)%Z then hexDigit n
      else toHex fuel' (n / 16) ++ hexDigit (n mod 16)
  end.

Definition toString16 (n : Z) : string := toHex (S (Z.to_nat (Z.log2 n))) n.

(** [s.padStart(targetLength, pad)] with a one-character [pad]. *)
Fixpoint replicate (n : nat) (pad : string) : string :=
  match n with
  | 0%nat => ""
  | S n' => pad ++ replicate n' pad
  end.

Definition padStart (targetLength : nat) (pad : string) (s : string) : string :=
  replicate (targetLength - String.length s) pad ++ s.

(** [s.slice(from, to)] and [s.slice(from)] with indices inside the string. *)
Definition slice (from to : nat) (s : string) : string := substring from (to - from) s.
Definition sliceFrom (from : nat) (s : string) : string :=
  substring from (String.length s - from) s.

(** [bytes[i] = v] on a [Uint8Array]: the value is stored modulo 256, and an
    index out of range is ignored. *)
Fixpoint setByte (i : nat) (v : Z) (bytes : list Z) : list Z :=
  match bytes, i with
  | [], _ => []
  | _ :: rest, 0%nat => (v mod 256)%Z :: rest
  | b :: rest, S i' => b :: setByte i' v rest
  end.

(** [b => b.toString(16).padStart(2, "0")] *)
Definition byteHex (b : Z) : string := padStart 2 "0" (toString16 b).

Definition uuidv4 (env : Env) : string :=
  match crypto env with
  | Some c =>
      match randomUUID c with
      | Some id => id
      | None =>
          match getRandomValues c with
          | Some bytes0 =>
              let bytes1 := setByte 6 (Z.lor (Z.land (nth 6 bytes0 0%Z) 15) 64) bytes0 in
              let bytes := setByte 8 (Z.lor (Z.land (nth 8 bytes1 0%Z) 63) 128) bytes1 in
              let hex := String.concat "" (map byteHex bytes) in
              (slice 0 8 hex ++ "-" ++ slice 8 12 hex ++ "-" ++ slice 12 16 hex ++ "-"
               ++ slice 16 20 hex ++ "-" ++ sliceFrom 20 hex)%string
          | None =>
              ("id-" ++ toString16 (dateNow env) ++ "-" ++ sliceFrom 2 (mathRandomHex env))%string
          end
      end
  | None =>
      ("id-" ++ toString16 (dateNow env) ++ "-" ++ sliceFrom 2 (mathRandomHex env))%string
  end.

(** The textual form of a version 4 UUID of RFC 4122: 8-4-4-4-12 lower-case
    hexadecimal digits, the version digit [4] and a variant digit among
    [8], [9], [a] and [b]. *)
Definition isHexDigit (c : string) : bool :=
  existsb (String.eqb c)
    ["0"; "1"; "2"; "3"; "4"; "5"; "6"; "7"; "8"; "9"; "a"; "b"; "c"; "d"; "e"; "f"].

Definition isVariantDigit (c : string) : bool :=
  existsb (String.eqb c) ["8"; "9"; "a"; "b"].

Definition isUuidV4 (s : string) : bool :=
  Nat.eqb (String.length s) 36
  && forallb (fun i =>
                let c := substring i 1 s in
                if Nat.eqb i 8 || Nat.eqb i 13 || Nat.eqb i 18 || Nat.eqb i 23
                then String.eqb c "-"
                else if Nat.eqb i 14 then String.eqb c "4"
                else if Nat.eqb i 19 then isVariantDigit c
                else isHexDigit c)
             (seq 0 36).

(** A string of two characters, the first accepted by [first] and the second
    a hexadecimal digit. *)
Definition hexPair (first : string -> bool) (s : string) : bool :=
  match s with
  | String c (String d EmptyString) =>
      first (String c EmptyString) && isHexDigit (String d EmptyString)
  | _ => false
  end.

End Uuid.

(* ================================================================== *)
(** ** Concrete registries and inputs used by the examples below *)

(** A nullary constructor term [Z] and the pattern of a meta-variable. *)
Definition exZero : Term := mkTerm "Z" [] None None.
Definition exSucc (t : Term) : Term := mkTerm "S" [t] None None.
Definition exMeta (x : string) : Pattern := mkPattern None (Some x) [].
Definition exSuccPat (p : Pattern) : Pattern := mkPattern (Some "S") None [p].

(** Bindings with a key that the pattern [x] does not mention. *)
Definition exBindingsXY : JsMap.t Term := [("x", exZero); ("y", exZero)].
Definition exBindingsX : JsMap.t Term := [("x", exZero)].

(** A binary judgment [J] with two rules whose conclusions are [J(Z, x)] and
    [J(S(n), y)]: disjoint in position 0, both meta-variables in position 1. *)
Definition exJudgment2 : Judgment :=
  mkJudgment "J" "J" "J" [""; " J "; ""] [("N", "a"); ("N", "b")] "#f472b6".

Definition exZeroPat : Pattern := mkPattern (Some "Z") None [].

Definition exRuleZ : InferenceRule :=
  mkInferenceRule "r1" "R-Zero" [] []
    (mkJudgmentInstance "c1" "J" [exZeroPat; exMeta "x"]) (0, 0)%Z.

Definition exRuleS : InferenceRule :=
  mkInferenceRule "r2" "R-Succ" [] []
    (mkJudgmentInstance "c2" "J" [exSuccPat (exMeta "n"); exMeta "y"]) (0, 0)%Z.

(** A supply of identifiers: ["g0"], ["g1"], ... *)
Definition exUuid (n : nat) : string := ("g" ++ natToString n)%string.

(** The Peano registry with literal identifiers. *)
Definition exSorts : JsMap.t Sort :=
  [("nat", mkSort "nat" "N" inductive false "#60a5fa" None)].

Definition exConstructors : JsMap.t Constructor :=
  [("Z", mkConstructor "Z" "nat" "Z" [] true);
   ("S", mkConstructor "S" "nat" "S"
           [mkConstructorArg "a0" "nat" (Some "n") None None] false)].

(** [size(Z) = 0], [size(S(n)) = 1 + size(n)] *)
Definition exSize : RecursiveFunc :=
  mkRecursiveFunc "size" "size" "nat" [] RT_int
    [mkFuncCase "Z" [] (FE_int 0);
     mkFuncCase "S" ["n"] (FE_bin fb_add (FE_int 1) (FE_call "size" (FE_var "n")))]
    (Some true) None.

Definition exFunctions : JsMap.t RecursiveFunc := [("size", exSize)].

(** The goal [size(n) >= 0] in the context [n : N]. *)
Definition exSizeGoal : ProofGoal :=
  mkProofGoal "root" (mkProofContext [mkProofVariable "n" "nat"] [])
              (F_num numGeq (X_funcApp "size" (X_var "n")) (X_int 0)).

(** A property [T /\ T] and the proof state created for it. *)
Definition exProperty : Property :=
  mkProperty "p" "both" (F_conn and_ F_true F_true) None.

Definition exProof : Proof := fst (createProof exUuid exProperty 0).



(** A function whose case for [S] is the bare bound variable:
    [pred(S(n)) = n]. *)
Definition exPred : RecursiveFunc :=
  mkRecursiveFunc "pred" "pred" "nat" [] (RT_inductive "nat")
    [mkFuncCase "Z" [] (FE_construct "Z" []); mkFuncCase "S" ["n"] (FE_var "n")]
    (Some true) None.

(** Three functions without self-calls: [h(S(n)) = f(n, n)],
    [f(S(n), y) = g(y, y)], [g(S(m), y) = f(y, y)]. *)
Definition exYArg : FuncArg := mkFuncArg "y" "nat" false.

Definition exLoopH : RecursiveFunc :=
  mkRecursiveFunc "h" "h" "nat" [] RT_int
    [mkFuncCase "Z" [] (FE_int 0);
     mkFuncCase "S" ["n"] (FE_callMulti "f" [FE_var "n"; FE_var "n"])]
    (Some true) None.

Definition exLoopF : RecursiveFunc :=
  mkRecursiveFunc "f" "f" "nat" [exYArg] RT_int
    [mkFuncCase "Z" [] (FE_int 0);
     mkFuncCase "S" ["n"] (FE_callMulti "g" [FE_var "y"; FE_var "y"])]
    (Some true) None.

Definition exLoopG : RecursiveFunc :=
  mkRecursiveFunc "g" "g" "nat" [exYArg] RT_int
    [mkFuncCase "Z" [] (FE_int 0);
     mkFuncCase "S" ["m"] (FE_callMulti "f" [FE_var "y"; FE_var "y"])]
    (Some true) None.

Definition exLoopFunctions : JsMap.t RecursiveFunc :=
  [("h", exLoopH); ("f", exLoopF); ("g", exLoopG)].

(** Two functions whose calls nest deeper than the size of the term: [f]
    keeps the argument [x] of [A] in the environment while it descends, and
    hands it to [g] at [Z]. *)
Definition exWrapConstructors : JsMap.t Constructor :=
  exConstructors
  ++ [("A", mkConstructor "A" "nat" "A"
              [mkConstructorArg "a1" "nat" (Some "x") None None] false)].

Definition exDeepF : RecursiveFunc :=
  mkRecursiveFunc "f" "f" "nat" [] RT_int
    [mkFuncCase "A" ["x"] (FE_callMulti "f" [FE_var "x"]);
     mkFuncCase "S" ["n"] (FE_callMulti "f" [FE_var "n"]);
     mkFuncCase "Z" [] (FE_call "g" (FE_var "x"))]
    (Some true) None.

Definition exDeepG : RecursiveFunc :=
  mkRecursiveFunc "g" "g" "nat" [] RT_int
    [mkFuncCase "S" ["n"] (FE_callMulti "g" [FE_var "n"]);
     mkFuncCase "Z" [] (FE_int 0)]
    (Some true) None.

Definition exDeepFunctions : JsMap.t RecursiveFunc := [("f", exDeepF); ("g", exDeepG)].

Definition exWrapped : Term := mkTerm "A" [exSucc exZero] None None.

(** A registry with the Peano sort, the even/odd rules, the [size] function
    and one property with its proof state. *)
Definition exJudgments : JsMap.t Judgment :=
  [("even", mkJudgment "even" "even" "even" [""; " even"] [("nat", "n")] "#f472b6");
   ("odd", mkJudgment "odd" "odd" "odd" [""; " odd"] [("nat", "n")] "#f472b6")].

Definition exRules : JsMap.t InferenceRule :=
  peanoRules "Z" "S" "even" "odd" "n" "r1" "r2" "r3" "c1" "c2" "c3" "p2" "p3".

Definition exStore : Store.StoreState :=
  Store.mkStoreState exSorts exConstructors exJudgments exRules
    [("n", mkMetaVariable "n" "n" "nat")] exFunctions
    [("p", exProperty)] [("g1", exProof)]
    (Some "nat") (Some "even") None None (Some "p") None None.

(** The ground expression [(1 + 2) * 1 - 0]. *)
Definition exSum : FormulaExpr :=
  X_arith ak_sub (X_arith ak_mul (X_arith ak_add (X_int 1) (X_int 2)) (X_int 1)) (X_int 0).

(** A function with two calls on the same variable:
    [double(Z) = 1], [double(S(n)) = double(n) + double(n)]. *)
Definition exDouble : RecursiveFunc :=
  mkRecursiveFunc "double" "double" "nat" [] RT_int
    [mkFuncCase "Z" [] (FE_int 1);
     mkFuncCase "S" ["n"]
       (FE_bin fb_add (FE_call "double" (FE_var "n")) (FE_call "double" (FE_var "n")))]
    (Some true) None.

Definition exDoubleFunctions : JsMap.t RecursiveFunc := [("double", exDouble)].

(** The goal [1 + 1 = 2] between terms, with no hypothesis. *)
Definition exTermEqGoal : ProofGoal :=
  mkProofGoal "g0" (mkProofContext [] [])
    (F_termCmp termEq (X_arith ak_add (X_int 1) (X_int 1)) (X_int 2)).

(** The goal [1 + 1 = 2] between numbers, with no hypothesis. *)
Definition exNumEqGoal : ProofGoal :=
  mkProofGoal "g0" (mkProofContext [] [])
    (F_num numEq (X_arith ak_add (X_int 1) (X_int 1)) (X_int 2)).

(** The property [1 + 1 = 2 /\ true]. *)
Definition exConjProperty : Property :=
  mkProperty "q" "conj"
    (F_conn and_ (F_num numEq (X_arith ak_add (X_int 1) (X_int 1)) (X_int 2)) F_true) None.

(** An interpretation that gives every variable and constructor the value 0. *)
Definition exInterpretation : Interpretation :=
  mkInterpretation (fun _ => 0%Z) (fun _ _ => 0%Z) (fun _ z => z) 0%Z (fun _ => True).

(** The goal [forall x. forall y. x = y], with an empty context. *)
Definition exAllEqualGoal : ProofGoal :=
  mkProofGoal "g0" (mkProofContext [] [])
    (F_quant forall_ "x" "nat"
       (F_quant forall_ "y" "nat" (F_num numEq (X_var "x") (X_var "y")))).

(** An environment without [crypto.randomUUID] in which [getRandomValues]
    writes sixteen bytes 255. *)
Definition exEnv : Uuid.Env :=
  Uuid.mkEnv (Some (Uuid.mkCrypto None (Some (repeat 255%Z 16)))) 0 "0.8".

(** The goal [size(m) >= size(n)] with the variables [n] and [m]. *)
Definition exTwoVarsGoal : ProofGoal :=
  mkProofGoal "g" (mkProofContext [mkProofVariable "n" "nat"; mkProofVariable "m" "nat"] [])
    (F_num numGeq (X_funcApp "size" (X_var "m")) (X_funcApp "size" (X_var "n"))).

(* ================================================================== *)
(** * Properties *)

(** ** Association-list maps *)

Module JsMapFacts.
Import JsMap.

Section Facts.
Context {V : Type}.
Implicit Types (m : t V) (k : string) (v : V).

Lemma get_set_eq k v m : get k (set k v m) = Some v.
Proof.
  induction m as [|[k' v'] m IH]; simpl.
  - now rewrite String.eqb_refl.
  - destruct (String.eqb k' k) eqn:E; simpl; rewrite E; auto.
Qed.

Lemma get_set_neq k k' v m : k <> k' -> get k' (set k v m) = get k' m.
Proof.
  intros Hne. induction m as [|[k0 v0] m IH]; simpl.
  - destruct (String.eqb k k') eqn:E; auto.
    apply String.eqb_eq in E. contradiction.
  - destruct (String.eqb k0 k) eqn:E; simpl.
    + apply String.eqb_eq in E. subst k0.
      destruct (String.eqb k k') eqn:E'; auto.
      apply String.eqb_eq in E'. contradiction.
    + now rewrite IH.
Qed.

Lemma get_In k v m : get k m = Some v -> In (k, v) m.
Proof.
  induction m as [|[k' v'] m IH]; simpl; [discriminate|].
  destruct (String.eqb k' k) eqn:E.
  - apply String.eqb_eq in E. intros [= ->]. subst. now left.
  - intros H. right. auto.
Qed.

Lemma get_None_keys k m : get k m = None <-> ~ In k (keys m).
Proof.
  induction m as [|[k' v'] m IH]; simpl.
  - tauto.
  - destruct (String.eqb k' k) eqn:E.
    + apply String.eqb_eq in E. split; [discriminate | intros H; exfalso; auto].
    + apply String.eqb_neq in E. rewrite IH. tauto.
Qed.

Lemma In_keys_get k m : In k (keys m) -> exists v, get k m = Some v.
Proof.
  intros H. destruct (get k m) eqn:E; eauto.
  apply get_None_keys in E. contradiction.
Qed.

Lemma In_set k v k' v' m :
  In (k', v') (set k v m) -> (k' = k /\ v' = v) \/ In (k', v') m.
Proof.
  induction m as [|[k0 v0] m IH]; simpl.
  - intros [[= <- <-]|[]]. now left.
  - destruct (String.eqb k0 k) eqn:E; simpl.
    + apply String.eqb_eq in E. subst k0.
      intros [[= <- <-]|H]; auto.
    + intros [H|H]; auto. destruct (IH H); auto.
Qed.

Lemma keys_set k v k' m :
  In k' (keys (set k v m)) <-> k' = k \/ In k' (keys m).
Proof.
  induction m as [|[k0 v0] m IH]; simpl.
  - intuition.
  - destruct (String.eqb k0 k) eqn:E; simpl.
    + apply String.eqb_eq in E. subst k0. intuition.
    + rewrite IH. intuition.
Qed.

Lemma wf_set k v m : wf m -> wf (set k v m).
Proof.
  unfold wf. induction m as [|[k0 v0] m IH]; simpl; intros H.
  - constructor; [intros []|constructor].
  - inversion H as [|? ? Hn Hd]; subst.
    destruct (String.eqb k0 k) eqn:E; simpl.
    + now constructor.
    + constructor; auto.
      intros Hin. apply (keys_set k v k0 m) in Hin.
      apply String.eqb_neq in E. destruct Hin; congruence.
Qed.

Lemma get_delete_eq k m : get k (delete k m) = None.
Proof.
  induction m as [|[k0 v0] m IH]; simpl; auto.
  destruct (String.eqb k0 k) eqn:E; simpl; auto. now rewrite E.
Qed.

Lemma get_delete_neq k k' m : k <> k' -> get k' (delete k m) = get k' m.
Proof.
  intros Hne. induction m as [|[k0 v0] m IH]; simpl; auto.
  destruct (String.eqb k0 k) eqn:E; simpl.
  - apply String.eqb_eq in E. subst k0.
    destruct (String.eqb k k') eqn:E'; auto.
    apply String.eqb_eq in E'. contradiction.
  - now rewrite IH.
Qed.
End Facts.
End JsMapFacts.

(** ** Pattern engine *)

Lemma optStrEq_refl (a : option string) : optStrEq a a = true.
Proof. destruct a; simpl; auto using String.eqb_refl. Qed.

Lemma optBoolEq_refl (a : option bool) : optBoolEq a a = true.
Proof. destruct a as [[]|]; reflexivity. Qed.

Lemma termsEqual_refl (t : Term) : termsEqual t t = true.
Proof.
  induction t as [c args v i IH] using Term_ind'.
  simpl. rewrite optStrEq_refl, optBoolEq_refl, String.eqb_refl, Nat.eqb_refl. simpl.
  destruct (flag i || flag i); auto.
  induction IH as [|x l Hx _ IHl]; auto.
  now rewrite Hx, IHl.
Qed.

Lemma mergeBindings_consistent (b : JsMap.t Term) (argB : list (string * Term)) :
  forall acc,
    consistentWith acc b -> consistentWith argB b ->
    exists m, mergeBindings acc argB = Some m
              /\ consistentWith m b
              /\ forall k, In k (JsMap.keys m) <-> In k (JsMap.keys acc) \/ In k (JsMap.keys argB).
Proof.
  induction argB as [|[key value] rest IH]; intros acc Hacc Harg; simpl.
  - exists acc. intuition.
  - assert (Hkv : JsMap.get key b = Some value) by (apply Harg; now left).
    assert (Hset : consistentWith (JsMap.set key value acc) b).
    { intros k v Hin. apply JsMapFacts.In_set in Hin as [[-> ->]|Hin]; auto. }
    assert (Hrest : consistentWith rest b).
    { intros k v Hin. apply Harg. now right. }
    destruct (IH _ Hset Hrest) as (m & Hm & Hc & Hk).
    assert (Hkeys : forall k, In k (JsMap.keys m) <->
                      In k (JsMap.keys acc) \/ key = k \/ In k (JsMap.keys rest)).
    { intros k. rewrite Hk, JsMapFacts.keys_set. intuition. }
    destruct (JsMap.get key acc) as [existing|] eqn:E.
    + apply JsMapFacts.get_In in E. apply Hacc in E.
      assert (existing = value) by congruence. subst existing.
      rewrite termsEqual_refl. simpl. eauto.
    + eauto.
Qed.

Lemma substitutePattern_matchPattern_consistent (b : JsMap.t Term) (p : Pattern) :
  forall t,
    substitutePattern p b = Some t ->
    exists m, matchPattern t p = Some m
              /\ consistentWith m b
              /\ forall k, In k (JsMap.keys m) <-> In k (patternMetaVars p).
Proof.
  induction p as [pc pm pargs IH] using Pattern_ind'. intros t.
  simpl. destruct (truthy pm) eqn:Epm.
  - intros Hget. exists [(orElse pm "", t)]. repeat split.
    + intros k v [[= <- <-]|[]]. exact Hget.
    + simpl. tauto.
    + simpl. tauto.
  - destruct (truthy pc) eqn:Epc; [|discriminate].
    match goal with
    | |- context [match ?L pargs with _ => _ end] => set (subLoop := L)
    end.
    destruct (subLoop pargs) as [args|] eqn:Eargs; [|discriminate].
    intros [= <-]. simpl. rewrite String.eqb_refl. simpl.
    assert (Hlen : length args = length pargs).
    { clear IH. revert args Eargs. induction pargs as [|q qs IHq]; simpl; intros args.
      - now intros [= <-].
      - destruct (substitutePattern q b); [|discriminate].
        destruct (subLoop qs); [|discriminate]. intros [= <-]. simpl. f_equal. eauto. }
    rewrite Hlen, Nat.eqb_refl. simpl.
    match goal with
    | |- context [?L args pargs JsMap.empty] => set (matchLoop := L)
    end.
    assert (Hloop : forall acc,
               consistentWith acc b ->
               exists m, matchLoop args pargs acc = Some m
                         /\ consistentWith m b
                         /\ forall k, In k (JsMap.keys m) <->
                              In k (JsMap.keys acc) \/ In k (flat_map patternMetaVars pargs)).
    { clear Hlen. revert args Eargs.
      induction IH as [|q qs Hq _ IHqs]; intros args Eargs acc Hacc; simpl in *.
      - exists acc. intuition.
      - destruct (substitutePattern q b) as [tq|] eqn:Eq; [|discriminate].
        destruct (subLoop qs) as [tqs|] eqn:Eqs; [|discriminate].
        injection Eargs as <-.
        destruct (Hq _ eq_refl) as (mq & Hmq & Hcq & Hkq). rewrite Hmq.
        destruct (mergeBindings_consistent b mq acc Hacc Hcq) as (mm & Hmm & Hcm & Hkm).
        rewrite Hmm.
        destruct (IHqs _ eq_refl _ Hcm) as (m & Hm & Hc & Hk).
        exists m. repeat split; auto.
        + intros Hin. apply Hk in Hin. rewrite Hkm, Hkq in Hin.
          rewrite in_app_iff. tauto.
        + intros Hin. apply Hk. rewrite Hkm, Hkq.
          rewrite in_app_iff in Hin. tauto. }
    destruct (Hloop JsMap.empty) as (m & Hm & Hc & Hk).
    { intros k v []. }
    exists m. repeat split; auto.
    + intros Hin. apply Hk in Hin as [[]|Hin]. exact Hin.
    + intros Hin. apply Hk. now right.
Qed.

Lemma setHas_In (x : string) (s : list string) : setHas x s = true <-> In x s.
Proof.
  unfold setHas. rewrite existsb_exists. split.
  - intros (y & Hy & E). apply String.eqb_eq in E. now subst.
  - intros H. exists x. split; auto. apply String.eqb_refl.
Qed.

(** C5 (as amended): substituting bindings [b] into a complete pattern [p]
    and matching the resulting term against [p] succeeds, and the bindings
    returned are [b] restricted to the meta-variables of [p]; they are equal
    to [b] as a map whenever every key of [b] occurs in [p]. *)
Theorem matchPattern_substitutePattern_restrict (p : Pattern) (b : JsMap.t Term) (t : Term) :
  isPatternComplete p = true ->
  substitutePattern p b = Some t ->
  exists m,
    matchPattern t p = Some m
    /\ (forall k, JsMap.get k m
                  = if setHas k (patternMetaVars p) then JsMap.get k b else None)
    /\ ((forall k, In k (JsMap.keys b) -> In k (patternMetaVars p)) -> bindingsEquiv m b).
Proof.
  intros _ Hsub.
  destruct (substitutePattern_matchPattern_consistent b p t Hsub) as (m & Hm & Hc & Hk).
  assert (Hget : forall k, JsMap.get k m
                           = if setHas k (patternMetaVars p) then JsMap.get k b else None).
  { intros k. destruct (setHas k (patternMetaVars p)) eqn:E.
    - apply setHas_In, Hk, JsMapFacts.In_keys_get in E as [v Hv].
      rewrite Hv. symmetry. apply Hc. now apply JsMapFacts.get_In.
    - apply JsMapFacts.get_None_keys. intros Hin. apply Hk, setHas_In in Hin. congruence. }
  exists m. repeat split; auto.
  intros Hdom k. rewrite Hget.
  destruct (setHas k (patternMetaVars p)) eqn:E.
  - destruct (JsMap.get k b); auto using termsEqual_refl.
  - destruct (JsMap.get k b) eqn:Eb; auto.
    apply JsMapFacts.get_In in Eb.
    assert (In k (JsMap.keys b)) by (apply in_map_iff; now exists (k, t0)).
    apply Hdom, setHas_In in H. congruence.
Qed.

Lemma matchPattern_substitutePattern_restrict_witness :
  exists m,
    matchPattern (exSucc exZero) (exSuccPat (exMeta "x")) = Some m
    /\ (forall k, JsMap.get k m
                  = if setHas k (patternMetaVars (exSuccPat (exMeta "x")))
                    then JsMap.get k exBindingsX else None)
    /\ ((forall k, In k (JsMap.keys exBindingsX) ->
                   In k (patternMetaVars (exSuccPat (exMeta "x")))) ->
        bindingsEquiv m exBindingsX).
Proof.
  apply (matchPattern_substitutePattern_restrict
           (exSuccPat (exMeta "x")) exBindingsX (exSucc exZero)); reflexivity.
Defined.

(** C5 (as stated) fails: with bindings that have a key the pattern does not
    mention, the round trip succeeds but returns a different map. *)
Lemma matchPattern_substitutePattern_extra_key :
  isPatternComplete (exMeta "x") = true
  /\ substitutePattern (exMeta "x") exBindingsXY = Some exZero
  /\ exists m, matchPattern exZero (exMeta "x") = Some m /\ ~ bindingsEquiv m exBindingsXY.
Proof.
  split; [reflexivity|]. split; [reflexivity|].
  eexists. split; [reflexivity|].
  intros H. specialize (H "y"). exact H.
Qed.

(** ** Syntax-directed analysis *)

(** C4 (the code departs from the claim): for the rules [J(Z, x)] and
    [J(S(n), y)], whose conclusions cannot overlap in position 0, the
    analysis records the overlap of position 1 and reports the judgment as not
    syntax-directed, although no pair of rules overlaps in every position. *)
Theorem analyzesSyntaxDirected_one_position :
  patternsCanOverlap exZeroPat (exSuccPat (exMeta "n")) = false
  /\ syntaxDirectedBySpec [exRuleZ; exRuleS] = true
  /\ analyzesSyntaxDirected exJudgment2 [exRuleZ; exRuleS]
     = Some (mkSyntaxDirectedAnalysis false [mkOverlapInfo "r1" "r2" 1]).
Proof. repeat split. Qed.

(** ** Arithmetic simplification *)

Lemma simplifyExpr_unfold (e : FormulaExpr) :
  simplifyExpr e =
  match evalExprToNumber e with
  | Some val => X_int val
  | None =>
      match e with
      | X_arith k l r => simplifyArith k (simplifyExpr l) (simplifyExpr r)
      | X_funcApp f arg => X_funcApp f (simplifyExpr arg)
      | X_constructor c args => X_constructor c (map simplifyExpr args)
      | _ => e
      end
  end.
Proof. destruct e; reflexivity. Qed.

Lemma simplifyExpr_ground (e : FormulaExpr) (v : Z) :
  evalExprToNumber e = Some v -> simplifyExpr e = X_int v.
Proof. intros H. rewrite simplifyExpr_unfold, H. reflexivity. Qed.

(** The shapes [simplifyArith] can return. *)
Lemma simplifyArith_shape (k : ArithKind) (l r : FormulaExpr) :
  simplifyArith k l r = l
  \/ simplifyArith k l r = r
  \/ (exists v, simplifyArith k l r = X_int v)
  \/ (simplifyArith k l r = X_arith k l r /\ evalExprToNumber (X_arith k l r) = None).
Proof.
  assert (Hev :
    (exists v, match evalExprToNumber l, evalExprToNumber r with
               | Some lv, Some rv => X_int (arithOp k lv rv)
               | _, _ => X_arith k l r
               end = X_int v)
    \/ (match evalExprToNumber l, evalExprToNumber r with
        | Some lv, Some rv => X_int (arithOp k lv rv)
        | _, _ => X_arith k l r
        end = X_arith k l r /\ evalExprToNumber (X_arith k l r) = None)).
  { simpl. destruct (evalExprToNumber l), (evalExprToNumber r); eauto. }
  unfold simplifyArith.
  destruct k;
    repeat match goal with
           | |- context [if ?c then _ else _] => destruct c
           end; eauto; destruct Hev as [Hev|Hev]; eauto.
Qed.

Lemma simplifyExpr_fixed_arith (k : ArithKind) (l r : FormulaExpr) :
  simplifyExpr l = l -> simplifyExpr r = r ->
  simplifyExpr (simplifyArith k l r) = simplifyArith k l r.
Proof.
  intros Hl Hr.
  destruct (simplifyArith_shape k l r) as [E|[E|[[v E]|[E Hn]]]].
  - now rewrite E.
  - now rewrite E.
  - now rewrite E.
  - rewrite E at 1. rewrite simplifyExpr_unfold, Hn, Hl, Hr. reflexivity.
Qed.

Lemma simplifyExpr_idempotent (e : FormulaExpr) :
  simplifyExpr (simplifyExpr e) = simplifyExpr e.
Proof.
  induction e as [name|c args IH|f arg IH|v| |k l r IHl IHr] using FormulaExpr_ind';
    try reflexivity.
  - simpl. f_equal. rewrite map_map.
    induction IH as [|x xs Hx _ IHxs]; simpl; congruence.
  - simpl. now rewrite IH.
  - rewrite (simplifyExpr_unfold (X_arith k l r)).
    destruct (evalExprToNumber (X_arith k l r)); [reflexivity|].
    now apply simplifyExpr_fixed_arith.
Qed.

(** C6: [simplifyExpr] is idempotent, and an expression that evaluates to an
    integer evaluates to the same integer after simplification. *)
Theorem simplifyExpr_idempotent_and_preserving (e : FormulaExpr) :
  simplifyExpr (simplifyExpr e) = simplifyExpr e
  /\ forall v, evalExprToNumber e = Some v -> evalExprToNumber (simplifyExpr e) = Some v.
Proof.
  split; [apply simplifyExpr_idempotent|].
  intros v H. now rewrite (simplifyExpr_ground e v H).
Qed.

Lemma simplifyExpr_idempotent_and_preserving_witness :
  simplifyExpr (simplifyExpr exSum) = simplifyExpr exSum
  /\ evalExprToNumber (simplifyExpr exSum) = Some 3%Z.
Proof.
  destruct (simplifyExpr_idempotent_and_preserving exSum) as [Hidem Hpres].
  split; [exact Hidem|]. apply Hpres. reflexivity.
Defined.

(** ** Proof states *)

Lemma get_addGoals_other (gs : list ProofGoal) :
  forall (m : JsMap.t ProofGoal) k,
    ~ In k (map g_id gs) -> JsMap.get k (addGoals m gs) = JsMap.get k m.
Proof.
  unfold addGoals. induction gs as [|g gs IH]; simpl; intros m k Hk; auto.
  rewrite IH by tauto. apply JsMapFacts.get_set_neq. tauto.
Qed.

Lemma get_addGoals_new (gs : list ProofGoal) :
  forall (m : JsMap.t ProofGoal) g,
    NoDup (map g_id gs) -> In g gs -> JsMap.get (g_id g) (addGoals m gs) = Some g.
Proof.
  induction gs as [|g0 gs IH]; simpl; intros m g Hnd Hin; [tauto|].
  inversion Hnd as [|? ? Hn Hd]; subst.
  change (addGoals m (g0 :: gs)) with (addGoals (JsMap.set (g_id g0) g0 m) gs).
  destruct Hin as [->|Hin].
  - rewrite (get_addGoals_other gs _ _ Hn). apply JsMapFacts.get_set_eq.
  - now apply IH.
Qed.

Lemma keys_addGoals (gs : list ProofGoal) :
  forall (m : JsMap.t ProofGoal) k,
    In k (JsMap.keys (addGoals m gs)) <-> In k (JsMap.keys m) \/ In k (map g_id gs).
Proof.
  unfold addGoals. induction gs as [|g gs IH]; simpl; intros m k.
  - tauto.
  - rewrite IH, JsMapFacts.keys_set. intuition.
Qed.

Lemma existsb_eqb_In (k : string) (l : list string) :
  existsb (String.eqb k) l = true <-> In k l.
Proof. apply setHas_In. Qed.

Lemma filter_neq_notin (k : string) (l : list string) :
  ~ In k (filter (fun id => negb (String.eqb id k)) l).
Proof.
  intros H. apply filter_In in H as [_ H].
  now rewrite String.eqb_refl in H.
Qed.

Lemma length_zero_nil {A : Type} (l : list A) : Nat.eqb (length l) 0 = true <-> l = [].
Proof. destruct l; simpl; split; congruence. Qed.

(** The two outcomes of [applyTacticToProof]. *)
Lemma applyTacticToProof_cases
  (uuid : nat -> string) (proof : Proof) (goalId : string) (tactic : Tactic)
  (constructors : JsMap.t Constructor) (sorts : JsMap.t Sort)
  (functions : JsMap.t RecursiveFunc) (rules : JsMap.t InferenceRule)
  (n n' : nat) (proof' : Proof) (result : TacticResult) :
  applyTacticToProof uuid proof goalId tactic constructors sorts functions rules n
  = (proof', result, n') ->
  ((exists error, result = failure error /\ proof' = proof)
   \/ (exists goal newGoals,
         result = success newGoals
         /\ In goalId (pf_openGoals proof)
         /\ JsMap.get goalId (pf_goals proof) = Some goal
         /\ applyTactic uuid goal tactic constructors sorts functions rules n
            = (success newGoals, n')
         /\ pf_openGoals proof'
            = filter (fun id => negb (String.eqb id goalId)) (pf_openGoals proof)
              ++ map g_id newGoals
         /\ ((forall g, In g newGoals -> g_id g <> goalId) ->
             ~ In goalId (pf_openGoals proof'))
         /\ (forall k, ~ In k (map g_id newGoals) ->
                       JsMap.get k (pf_goals proof') = JsMap.get k (pf_goals proof))
         /\ (forall g, In g newGoals -> In (g_id g) (JsMap.keys (pf_goals proof')))
         /\ (NoDup (map g_id newGoals) ->
             forall g, In g newGoals -> JsMap.get (g_id g) (pf_goals proof') = Some g)
         /\ pf_steps proof'
            = pf_steps proof ++ [mkProofStep goalId tactic (map g_id newGoals)]
         /\ (pf_status proof' = complete <-> pf_openGoals proof' = [])
         /\ (pf_status proof' = incomplete <-> pf_openGoals proof' <> [])
         /\ pf_id proof' = pf_id proof
         /\ pf_propertyId proof' = pf_propertyId proof
         /\ pf_rootGoalId proof' = pf_rootGoalId proof))
  /\ (~ In goalId (pf_openGoals proof) ->
      exists error, result = failure error /\ proof' = proof).
Proof.
  unfold applyTacticToProof, bindGen, retGen.
  destruct (JsMap.get goalId (pf_goals proof)) as [goal|] eqn:Eget.
  2:{ intros [= <- <- <-]. split; [left|intros _]; eauto. }
  destruct (existsb (String.eqb goalId) (pf_openGoals proof)) eqn:Eopen; simpl.
  2:{ intros [= <- <- <-]. split; [left|intros _]; eauto. }
  apply existsb_eqb_In in Eopen.
  destruct (applyTactic uuid goal tactic constructors sorts functions rules n)
    as [[newGoals|error] n1] eqn:Etac.
  2:{ intros [= <- <- <-]. split; [left|intros _]; eauto. }
  intros [= <- <- <-]. split; [right|tauto].
  exists goal, newGoals. simpl.
  repeat match goal with |- _ /\ _ => split end; auto.
  - intros Hfresh Hin. apply in_app_iff in Hin as [Hin|Hin].
    + now apply filter_neq_notin in Hin.
    + apply in_map_iff in Hin as (g & Hg & Hin). now apply (Hfresh g).
  - intros k Hk. now apply get_addGoals_other.
  - intros g Hg. apply keys_addGoals. right. now apply in_map.
  - intros Hnd g Hg. now apply get_addGoals_new.
  - destruct (Nat.eqb _ 0) eqn:E.
    + apply length_zero_nil in E. rewrite E. tauto.
    + split; [discriminate|]. intros Hnil. rewrite Hnil in E. discriminate E.
  - destruct (Nat.eqb _ 0) eqn:E.
    + apply length_zero_nil in E. rewrite E. split; [discriminate|congruence].
    + split; auto. intros _ Hnil. rewrite Hnil in E. discriminate E.
Qed.

(** C1: [applyTacticToProof] either fails and returns the proof unchanged, or
    it succeeds on a goal of [openGoals] and removes it, appends the produced
    goals in order, adds them to the goals map, logs the step and sets the
    status to [complete] exactly when no goal is left open; on a goal that is
    not open it fails. *)
Theorem applyTacticToProof_transition
  (uuid : nat -> string) (proof : Proof) (goalId : string) (tactic : Tactic)
  (constructors : JsMap.t Constructor) (sorts : JsMap.t Sort)
  (functions : JsMap.t RecursiveFunc) (rules : JsMap.t InferenceRule)
  (n n' : nat) (proof' : Proof) (result : TacticResult) :
  applyTacticToProof uuid proof goalId tactic constructors sorts functions rules n
  = (proof', result, n') ->
  ((exists error, result = failure error /\ proof' = proof)
   \/ (exists goal newGoals,
         result = success newGoals
         /\ In goalId (pf_openGoals proof)
         /\ JsMap.get goalId (pf_goals proof) = Some goal
         /\ applyTactic uuid goal tactic constructors sorts functions rules n
            = (success newGoals, n')
         /\ pf_openGoals proof'
            = filter (fun id => negb (String.eqb id goalId)) (pf_openGoals proof)
              ++ map g_id newGoals
         /\ ((forall g, In g newGoals -> g_id g <> goalId) ->
             ~ In goalId (pf_openGoals proof'))
         /\ (forall k, ~ In k (map g_id newGoals) ->
                       JsMap.get k (pf_goals proof') = JsMap.get k (pf_goals proof))
         /\ (forall g, In g newGoals -> In (g_id g) (JsMap.keys (pf_goals proof')))
         /\ (NoDup (map g_id newGoals) ->
             forall g, In g newGoals -> JsMap.get (g_id g) (pf_goals proof') = Some g)
         /\ pf_steps proof'
            = pf_steps proof ++ [mkProofStep goalId tactic (map g_id newGoals)]
         /\ (pf_status proof' = complete <-> pf_openGoals proof' = [])
         /\ (pf_status proof' = incomplete <-> pf_openGoals proof' <> [])
         /\ pf_id proof' = pf_id proof
         /\ pf_propertyId proof' = pf_propertyId proof
         /\ pf_rootGoalId proof' = pf_rootGoalId proof))
  /\ (~ In goalId (pf_openGoals proof) ->
      exists error, result = failure error /\ proof' = proof).
Proof.
  apply applyTacticToProof_cases.
Qed.

Lemma applyTacticToProof_transition_witness :
  exists goal newGoals,
    applyTactic exUuid goal T_split exConstructors exSorts exFunctions [] 2
    = (success newGoals, 4)
    /\ pf_openGoals (fst (fst (applyTacticToProof exUuid exProof "g0" T_split
                                 exConstructors exSorts exFunctions [] 2)))
       = map g_id newGoals
    /\ map g_id newGoals = ["g2"; "g3"].
Proof.
  destruct (applyTacticToProof_transition exUuid exProof "g0" T_split
              exConstructors exSorts exFunctions [] 2 4 _ _ eq_refl)
    as [[(error & Herr & _)|(goal & newGoals & Hres & _ & _ & Htac & Hopen & _)] _].
  - discriminate Herr.
  - exists goal, newGoals. injection Hres as <-.
    split; [exact Htac|]. split; [exact Hopen|reflexivity].
Defined.

Lemma createProof_invariant (uuid : nat -> string) (property : Property) (n : nat) :
  proofInvariant (fst (createProof uuid property n)).
Proof.
  unfold proofInvariant. simpl. repeat split; auto; discriminate.
Qed.

Lemma applyTacticToProof_invariant
  (uuid : nat -> string) (proof : Proof) (goalId : string) (tactic : Tactic)
  (constructors : JsMap.t Constructor) (sorts : JsMap.t Sort)
  (functions : JsMap.t RecursiveFunc) (rules : JsMap.t InferenceRule) (n : nat) :
  proofInvariant proof ->
  proofInvariant
    (fst (fst (applyTacticToProof uuid proof goalId tactic constructors sorts
                                  functions rules n))).
Proof.
  intros (Hopen & Hroot & Hstatus).
  destruct (applyTacticToProof uuid proof goalId tactic constructors sorts
                               functions rules n) as [[proof' result] n'] eqn:E.
  destruct (applyTacticToProof_cases _ _ _ _ _ _ _ _ _ _ _ _ E) as [Hstep _].
  simpl. destruct Hstep as [(error & _ & ->)|(goal & newGoals & Hstep)].
  - repeat split; auto; apply Hstatus.
  - destruct Hstep as (_ & _ & _ & _ & Hopen' & _ & Hold & Hnew & _ & _ & Hst & _ & _ & _ & Hr).
    assert (Hkeys : forall k, In k (JsMap.keys (pf_goals proof)) ->
                              In k (JsMap.keys (pf_goals proof'))).
    { intros k Hk. destruct (in_dec string_dec k (map g_id newGoals)) as [Hin|Hnin].
      - apply in_map_iff in Hin as (g & <- & Hg). now apply Hnew.
      - apply JsMapFacts.In_keys_get in Hk as [v Hv].
        destruct (JsMap.get k (pf_goals proof')) eqn:E'.
        + apply JsMapFacts.get_In in E'. apply in_map_iff. now exists (k, p).
        + rewrite (Hold k Hnin) in E'. congruence. }
    repeat split; try apply Hst.
    + intros g Hg. rewrite Hopen' in Hg. apply in_app_iff in Hg as [Hg|Hg].
      * apply filter_In in Hg as [Hg _]. auto.
      * apply in_map_iff in Hg as (g0 & <- & Hg0). now apply Hnew.
    + rewrite Hr. auto.
Qed.

(** C8: every proof state reachable from [createProof] by
    [applyTacticToProof] keeps its open goals and its root goal among the keys
    of the goals map, and is complete exactly when no goal is open. *)
Theorem reachableProof_invariant (uuid : nat -> string) (proof : Proof) :
  reachableProof uuid proof -> proofInvariant proof.
Proof.
  induction 1.
  - apply createProof_invariant.
  - now apply applyTacticToProof_invariant.
Qed.

Lemma reachableProof_invariant_witness :
  proofInvariant
    (fst (fst (applyTacticToProof exUuid exProof "g0" T_split
                 exConstructors exSorts exFunctions [] 2))).
Proof.
  apply (reachableProof_invariant exUuid).
  apply (reach_step exUuid exProof "g0" T_split exConstructors exSorts exFunctions [] 2).
  apply (reach_create exUuid exProperty 0).
Defined.

(** ** The induction tactic *)

Lemma mapGen_Forall2 {A B : Type} (f : A -> Gen B) (R : A -> B -> Prop) :
  (forall a n, exists b n', f a n = (b, n') /\ R a b) ->
  forall l n, exists bs n', mapGen f l n = (bs, n') /\ Forall2 R l bs.
Proof.
  intros Hf. induction l as [|a l IH]; intros n; simpl.
  - exists [], n. split; [reflexivity|constructor].
  - unfold bindGen, retGen.
    destruct (Hf a n) as (b & n1 & Hb & HR). rewrite Hb.
    destruct (IH n1) as (bs & n2 & Hbs & HRs). rewrite Hbs.
    exists (b :: bs), n2. split; [reflexivity|now constructor].
Qed.

Lemma inductionHypothesesOf_spec (uuid : nat -> string) (formula : Formula)
  (varName sortId : string) (args : list ConstructorArg) :
  forall i n,
  exists ihs n',
    inductionHypothesesOf uuid formula varName sortId args (freshVarsFrom i args) n
    = (ihs, n')
    /\ map (fun h => (h_name h, h_formula h)) ihs
       = map (fun v => (("IH_" ++ pv_name v)%string,
                        substituteFormula formula varName (X_var (pv_name v))))
             (filter (fun v => String.eqb (pv_sortId v) sortId) (freshVarsFrom i args)).
Proof.
  induction args as [|arg args IH]; intros i n; simpl.
  - exists [], n. split; reflexivity.
  - destruct (String.eqb (arg_sortId arg) sortId) eqn:E.
    + unfold bindGen, retGen, uuidv4.
      destruct (IH (S i) (S n)) as (ihs & n' & Hihs & Hmap). rewrite Hihs.
      eexists _, n'. split; [reflexivity|]. simpl. now rewrite Hmap.
    + apply IH.
Qed.

Lemma inductionGoal_spec (uuid : nat -> string) (context : ProofContext)
  (formula : Formula) (varName sortId : string) (c : Constructor) (n : nat) :
  exists g n',
    inductionGoal uuid context formula varName sortId c n = (g, n')
    /\ inductionCaseOf context formula varName sortId c g.
Proof.
  unfold inductionGoal, bindGen, retGen, uuidv4, freshVarsOf.
  destruct (inductionHypothesesOf_spec uuid formula varName sortId (c_args c) 0 n)
    as (ihs & n' & Hihs & Hmap).
  rewrite Hihs. eexists _, _. split; [reflexivity|].
  unfold inductionCaseOf. simpl. repeat split. exists ihs. split; [reflexivity|exact Hmap].
Qed.





(** The subgoals of [induction(n)] on [size(n) >= 0] over the Peano
    registry: the case [Z] and the case [S(n)] with its hypothesis [IH_n]. *)
Example applyTactic_induction_size :
  applyTactic exUuid exSizeGoal (T_induction "n") exConstructors exSorts exFunctions [] 0
  = (success
       [mkProofGoal "g0" (mkProofContext [] [])
          (F_num numGeq (X_funcApp "size" (X_constructor "Z" [])) (X_int 0));
        mkProofGoal "g2"
          (mkProofContext [mkProofVariable "n" "nat"]
             [mkProofHypothesis "g1" "IH_n"
                (F_num numGeq (X_funcApp "size" (X_var "n")) (X_int 0))])
          (F_num numGeq (X_funcApp "size" (X_constructor "S" [X_var "n"])) (X_int 0))],
     3).
Proof. reflexivity. Qed.

(** ** Backward derivation *)

Lemma derivePremises_ext (r1 r2 : string -> list Term -> option Derivation)
  (premises : list JudgmentInstance) (b : JsMap.t Term) :
  (forall j ts, r1 j ts = r2 j ts) ->
  derivePremises r1 premises b = derivePremises r2 premises b.
Proof.
  intros H. induction premises as [|p ps IH]; simpl; auto.
  destruct (substituteAll (ji_args p) b); auto.
  rewrite H, IH. reflexivity.
Qed.

Lemma tryRules_ext (r1 r2 : string -> list Term -> option Derivation)
  (j : string) (ts : list Term) (rs : list InferenceRule) :
  (forall j ts, r1 j ts = r2 j ts) -> tryRules r1 j ts rs = tryRules r2 j ts rs.
Proof.
  intros H. induction rs as [|r rs IH]; simpl; auto.
  rewrite IH. destruct (negb _); auto.
  destruct (matchConclusion _ _ _); auto.
  now rewrite (derivePremises_ext r1 r2 _ _ H).
Qed.

(** The fuel of [buildDerivationAux] is never the reason of a failure once
    it covers the depth bound: [buildDerivation] runs with fuel 12 at depth
    0. *)
Lemma buildDerivationAux_fuel (rules : JsMap.t InferenceRule) (fuel1 : nat) :
  forall fuel2 j ts depth,
    11 < fuel1 + depth -> 11 < fuel2 + depth ->
    buildDerivationAux fuel1 rules j ts depth = buildDerivationAux fuel2 rules j ts depth.
Proof.
  induction fuel1 as [|f1 IH]; intros [|f2] j ts depth H1 H2; simpl; auto.
  - assert (E : Nat.ltb 10 depth = true) by (apply Nat.ltb_lt; lia). now rewrite E.
  - assert (E : Nat.ltb 10 depth = true) by (apply Nat.ltb_lt; lia). now rewrite E.
  - destruct (Nat.ltb 10 depth) eqn:E; auto.
    apply tryRules_ext. intros j' ts'. apply IH; lia.
Qed.

Lemma buildDerivationAux_step (fuel : nat) (rules : JsMap.t InferenceRule)
  (judgmentId : string) (terms : list Term) (depth : nat) :
  buildDerivationAux (S fuel) rules judgmentId terms depth
  = if Nat.ltb 10 depth then None
    else tryRules (fun j ts => buildDerivationAux fuel rules j ts (depth + 1))
                  judgmentId terms (getRulesForJudgment rules judgmentId).
Proof. reflexivity. Qed.

(** Derivations over the Peano even/odd rules, for any identifiers. *)
Section PeanoDerivations.
Variables zeroId succId evenId oddId nVarId : string.
Variables zeroRuleId succEvenRuleId succOddRuleId : string.
Variables c1 c2 c3 p2 p3 : string.
Hypothesis zero_succ : zeroId <> succId.
Hypothesis even_odd : evenId <> oddId.
Hypothesis zero_nonempty : zeroId <> "".
Hypothesis succ_nonempty : succId <> "".
Hypothesis nVar_nonempty : nVarId <> "".

Let Z := peanoZero zeroId.
Let Sc := peanoSucc succId.
Let N := peanoN nVarId.
Let SN := peanoSuccN succId nVarId.
Let ZP := peanoZeroPat zeroId.
Let EZero := peanoEZero zeroId evenId zeroRuleId c1.
Let ESucc := peanoESucc succId evenId oddId nVarId succEvenRuleId c2 p2.
Let OSucc := peanoOSucc succId evenId oddId nVarId succOddRuleId c3 p3.
Let R := peanoRules zeroId succId evenId oddId nVarId zeroRuleId succEvenRuleId
                    succOddRuleId c1 c2 c3 p2 p3.

Let zero_eqb : String.eqb zeroId "" = false.
Proof. now apply String.eqb_neq. Qed.
Let succ_eqb : String.eqb succId "" = false.
Proof. now apply String.eqb_neq. Qed.
Let nVar_eqb : String.eqb nVarId "" = false.
Proof. now apply String.eqb_neq. Qed.
Let zero_succ_eqb : String.eqb zeroId succId = false.
Proof. now apply String.eqb_neq. Qed.
Let succ_zero_eqb : String.eqb succId zeroId = false.
Proof. apply String.eqb_neq. congruence. Qed.
Let even_odd_eqb : String.eqb evenId oddId = false.
Proof. now apply String.eqb_neq. Qed.
Let odd_even_eqb : String.eqb oddId evenId = false.
Proof. apply String.eqb_neq. congruence. Qed.

Ltac ids :=
  rewrite ?zero_eqb, ?succ_eqb, ?nVar_eqb, ?zero_succ_eqb, ?succ_zero_eqb,
          ?even_odd_eqb, ?odd_even_eqb, ?String.eqb_refl.

Lemma match_N (t : Term) : matchPattern t N = Some [(nVarId, t)].
Proof. simpl. ids. reflexivity. Qed.

Lemma match_ZP_Z : matchPattern Z ZP = Some [].
Proof. simpl. ids. simpl. ids. reflexivity. Qed.

Lemma match_ZP_S (t : Term) : matchPattern (Sc t) ZP = None.
Proof. simpl. ids. simpl. ids. reflexivity. Qed.

Lemma match_SN_Z : matchPattern Z SN = None.
Proof. simpl. ids. simpl. ids. reflexivity. Qed.

Lemma match_SN_S (t : Term) : matchPattern (Sc t) SN = Some [(nVarId, t)].
Proof. simpl. ids. simpl. ids. simpl. ids. reflexivity. Qed.

Lemma subst_N (t : Term) : substitutePattern N [(nVarId, t)] = Some t.
Proof. simpl. ids. simpl. ids. reflexivity. Qed.

Lemma complete_rules :
  isRuleComplete EZero = true /\ isRuleComplete ESucc = true /\ isRuleComplete OSucc = true.
Proof.
  unfold isRuleComplete, isJudgmentInstanceComplete. simpl. ids. auto.
Qed.

Lemma rules_even : getRulesForJudgment R evenId = [EZero; ESucc].
Proof.
  destruct complete_rules as (H1 & H2 & H3).
  unfold getRulesForJudgment, R, peanoRules. simpl JsMap.values. 
  cbn [filter]. fold EZero ESucc OSucc. rewrite H1, H2, H3.
  unfold EZero, ESucc, OSucc, peanoEZero, peanoESucc, peanoOSucc. cbn [r_conclusion ji_judgmentId].
  assert (E : String.eqb oddId evenId = false) by (apply String.eqb_neq; congruence).
  rewrite String.eqb_refl, E. reflexivity.
Qed.

Lemma rules_odd : getRulesForJudgment R oddId = [OSucc].
Proof.
  destruct complete_rules as (H1 & H2 & H3).
  unfold getRulesForJudgment, R, peanoRules. simpl JsMap.values. 
  cbn [filter]. fold EZero ESucc OSucc. rewrite H1, H2, H3.
  unfold EZero, ESucc, OSucc, peanoEZero, peanoESucc, peanoOSucc. cbn [r_conclusion ji_judgmentId].
  assert (E : String.eqb evenId oddId = false) by now apply String.eqb_neq.
  rewrite String.eqb_refl, E. reflexivity.
Qed.

Lemma even_Z (fuel depth : nat) :
  depth <= 10 ->
  buildDerivationAux (S fuel) R evenId [Z] depth
  = Some (mkDerivation "E-Zero" zeroRuleId (evenId, [Z]) []).
Proof.
  intros Hd. rewrite buildDerivationAux_step.
  assert (E : Nat.ltb 10 depth = false) by (apply Nat.ltb_ge; lia).
  rewrite E, rules_even.
  unfold EZero at 1. unfold peanoEZero. cbn [tryRules r_conclusion ji_args length Nat.eqb negb matchConclusion].
  fold ZP. rewrite match_ZP_Z. reflexivity.
Qed.

Lemma odd_SZ (fuel depth : nat) :
  depth <= 9 ->
  buildDerivationAux (S (S fuel)) R oddId [Sc Z] depth
  = Some (mkDerivation "O-Succ" succOddRuleId (oddId, [Sc Z])
            [mkDerivation "E-Zero" zeroRuleId (evenId, [Z]) []]).
Proof.
  intros Hd. rewrite buildDerivationAux_step.
  assert (E : Nat.ltb 10 depth = false) by (apply Nat.ltb_ge; lia).
  rewrite E, rules_odd.
  unfold OSucc, peanoOSucc.
  cbn [tryRules r_conclusion r_premises r_name r_id ji_args ji_judgmentId length Nat.eqb negb matchConclusion].
  fold SN N. rewrite match_SN_S. cbn [mergeBindings JsMap.get JsMap.set JsMap.empty matchConclusion].
  cbn [derivePremises ji_args ji_judgmentId substituteAll]. rewrite subst_N.
  rewrite even_Z by lia. reflexivity.
Qed.

Lemma even_SSZ (fuel depth : nat) :
  depth <= 8 ->
  buildDerivationAux (S (S (S fuel))) R evenId [Sc (Sc Z)] depth
  = Some (peanoEvenTwo zeroId succId evenId oddId zeroRuleId succEvenRuleId succOddRuleId).
Proof.
  intros Hd. rewrite buildDerivationAux_step.
  assert (E : Nat.ltb 10 depth = false) by (apply Nat.ltb_ge; lia).
  rewrite E, rules_even.
  unfold EZero, peanoEZero.
  cbn [tryRules r_conclusion r_premises r_name r_id ji_args ji_judgmentId length Nat.eqb negb matchConclusion].
  fold ZP. rewrite match_ZP_S.
  unfold ESucc, peanoESucc.
  cbn [tryRules r_conclusion r_premises r_name r_id ji_args ji_judgmentId length Nat.eqb negb matchConclusion].
  fold SN N. rewrite match_SN_S. cbn [mergeBindings JsMap.get JsMap.set JsMap.empty matchConclusion].
  cbn [derivePremises ji_args ji_judgmentId substituteAll]. rewrite subst_N.
  rewrite odd_SZ by lia. reflexivity.
Qed.

Lemma odd_Z (fuel depth : nat) : buildDerivationAux fuel R oddId [Z] depth = None.
Proof.
  destruct fuel as [|fuel]; [reflexivity|]. rewrite buildDerivationAux_step.
  destruct (Nat.ltb 10 depth); [reflexivity|]. rewrite rules_odd.
  unfold OSucc, peanoOSucc.
  cbn [tryRules r_conclusion r_premises r_name r_id ji_args ji_judgmentId length Nat.eqb negb matchConclusion].
  fold SN. rewrite match_SN_Z. reflexivity.
Qed.

Lemma even_SZ (fuel depth : nat) : buildDerivationAux fuel R evenId [Sc Z] depth = None.
Proof.
  destruct fuel as [|fuel]; [reflexivity|]. rewrite buildDerivationAux_step.
  destruct (Nat.ltb 10 depth); [reflexivity|]. rewrite rules_even.
  unfold EZero, peanoEZero.
  cbn [tryRules r_conclusion r_premises r_name r_id ji_args ji_judgmentId length Nat.eqb negb matchConclusion].
  fold ZP. rewrite match_ZP_S.
  unfold ESucc, peanoESucc.
  cbn [tryRules r_conclusion r_premises r_name r_id ji_args ji_judgmentId length Nat.eqb negb matchConclusion].
  fold SN N. rewrite match_SN_S. cbn [mergeBindings JsMap.get JsMap.set JsMap.empty matchConclusion].
  cbn [derivePremises ji_args ji_judgmentId substituteAll]. rewrite subst_N.
  rewrite odd_Z. reflexivity.
Qed.
End PeanoDerivations.

(** Seeding the registry with a supply of distinct, non-empty identifiers. *)
Section Seed.
Variable uuid : nat -> string.
Variable lowerInitial : string -> string.
Hypothesis uuid_inj : forall i j, uuid i = uuid j -> i = j.
Hypothesis uuid_nonempty : forall i, uuid i <> "".

Lemma uuid_eqb (i j : nat) : String.eqb (uuid i) (uuid j) = Nat.eqb i j.
Proof.
  destruct (Nat.eqb i j) eqn:E.
  - apply Nat.eqb_eq in E. subst. apply String.eqb_refl.
  - apply String.eqb_neq. intros H. apply uuid_inj in H. subst.
    now rewrite Nat.eqb_refl in E.
Qed.

Lemma uuid_eqb_empty (i : nat) : String.eqb (uuid i) "" = false.
Proof. apply String.eqb_neq, uuid_nonempty. Qed.

Lemma bindAct_ok {A B : Type} (m : Store.Act A) (k : A -> Store.Act B)
  (s : Store.StoreState) (n : nat) (a : A) (s' : Store.StoreState) (n' : nat) :
  m s n = Some (a, s', n') -> Store.bindAct m k s n = k a s' n'.
Proof. unfold Store.bindAct. now intros ->. Qed.

Lemma bindAct_assoc {A B C : Type} (m : Store.Act A) (k1 : A -> Store.Act B)
  (k2 : B -> Store.Act C) (s : Store.StoreState) (n : nat) :
  Store.bindAct (Store.bindAct m k1) k2 s n
  = Store.bindAct m (fun a => Store.bindAct (k1 a) k2) s n.
Proof. unfold Store.bindAct. destruct (m s n) as [[[a s'] n']|]; reflexivity. Qed.

(** Run one action on an explicit state: compute, decide the comparisons of
    identifiers by their indices, and read off the result. *)
Ltac runAction :=
  repeat (progress (cbv -[String.eqb uuid]; rewrite ?uuid_eqb, ?uuid_eqb_empty));
  simpl; reflexivity.

Ltac stepAct := erewrite bindAct_ok; [cbv beta | runAction].

Lemma initializeWithExamples_registry :
  exists s n,
    Store.initializeWithExamples uuid lowerInitial Store.initial 0 = Some (tt, s, n)
    /\ Store.rules s = seededRules uuid
    /\ Store.constructors s = seededConstructors uuid
    /\ map (fun j => (j_id j, j_name j)) (JsMap.values (Store.judgments s))
       = [(uuid 4, "even"); (uuid 5, "odd")].
Proof.
  eexists. eexists. split.
  - unfold Store.initializeWithExamples, Store.addSuccRule.
    rewrite ?bindAct_assoc.
    stepAct. cbn [Store.initial Store.sorts JsMap.size JsMap.empty length Nat.eqb negb].
    repeat stepAct. runAction.
  - repeat split.
Qed.

(** C7: for the registry seeded by [initializeWithExamples], backward
    derivation of [even] on [S(S(Z))] returns the tree E-Succ(O-Succ(E-Zero)),
    and backward derivation of [even] on [S(Z)] fails. *)
Theorem buildDerivation_peano_even :
  exists s n,
    Store.initializeWithExamples uuid lowerInitial Store.initial 0 = Some (tt, s, n)
    /\ map (fun c => (c_id c, c_name c, length (c_args c)))
           (JsMap.values (Store.constructors s))
       = [(uuid 1, "Z", 0); (uuid 3, "S", 1)]
    /\ map (fun j => (j_id j, j_name j)) (JsMap.values (Store.judgments s))
       = [(uuid 4, "even"); (uuid 5, "odd")]
    /\ map r_name (JsMap.values (Store.rules s)) = ["E-Zero"; "E-Succ"; "O-Succ"]
    /\ buildDerivation (Store.rules s) (uuid 4)
         [peanoSucc (uuid 3) (peanoSucc (uuid 3) (peanoZero (uuid 1)))]
       = Some (mkDerivation "E-Succ" (uuid 11)
                 (uuid 4, [peanoSucc (uuid 3) (peanoSucc (uuid 3) (peanoZero (uuid 1)))])
                 [mkDerivation "O-Succ" (uuid 16)
                    (uuid 5, [peanoSucc (uuid 3) (peanoZero (uuid 1))])
                    [mkDerivation "E-Zero" (uuid 8) (uuid 4, [peanoZero (uuid 1)]) []]])
    /\ buildDerivation (Store.rules s) (uuid 4) [peanoSucc (uuid 3) (peanoZero (uuid 1))]
       = None.
Proof.
  destruct initializeWithExamples_registry as (s & n & Hs & Hr & Hc & Hj).
  assert (H13 : uuid 1 <> uuid 3) by (intros H; apply uuid_inj in H; discriminate).
  assert (H45 : uuid 4 <> uuid 5) by (intros H; apply uuid_inj in H; discriminate).
  exists s, n. rewrite Hr, Hc, Hj. repeat split; auto.
  - unfold buildDerivation, seededRules.
    apply even_SSZ; auto; lia.
  - unfold buildDerivation, seededRules.
    apply even_SZ; auto.
Qed.
End Seed.

Lemma exUuid_inj (i j : nat) : exUuid i = exUuid j -> i = j.
Proof.
  unfold exUuid, natToString. simpl. intros [= H].
  apply (f_equal NilEmpty.uint_of_string) in H.
  rewrite !NilEmpty.usu in H. injection H as H.
  apply (f_equal Nat.of_uint) in H.
  now rewrite !DecimalNat.Unsigned.of_to in H.
Qed.

Lemma exUuid_nonempty (i : nat) : exUuid i <> "".
Proof. unfold exUuid. simpl. discriminate. Qed.

Lemma buildDerivation_peano_even_witness :
  exists s n,
    Store.initializeWithExamples exUuid (fun name => name) Store.initial 0 = Some (tt, s, n)
    /\ map (fun c => (c_id c, c_name c, length (c_args c)))
           (JsMap.values (Store.constructors s))
       = [("g1", "Z", 0); ("g3", "S", 1)]
    /\ map (fun j => (j_id j, j_name j)) (JsMap.values (Store.judgments s))
       = [("g4", "even"); ("g5", "odd")]
    /\ map r_name (JsMap.values (Store.rules s)) = ["E-Zero"; "E-Succ"; "O-Succ"]
    /\ buildDerivation (Store.rules s) "g4"
         [peanoSucc "g3" (peanoSucc "g3" (peanoZero "g1"))]
       = Some (mkDerivation "E-Succ" "g11"
                 ("g4", [peanoSucc "g3" (peanoSucc "g3" (peanoZero "g1"))])
                 [mkDerivation "O-Succ" "g16"
                    ("g5", [peanoSucc "g3" (peanoZero "g1")])
                    [mkDerivation "E-Zero" "g8" ("g4", [peanoZero "g1"]) []]])
    /\ buildDerivation (Store.rules s) "g4" [peanoSucc "g3" (peanoZero "g1")] = None.
Proof.
  exact (buildDerivation_peano_even exUuid (fun name => name) exUuid_inj exUuid_nonempty).
Defined.

(** ** Function evaluation *)

Lemma evaluateFuncFuel_step (fuel : nat) (functions : JsMap.t RecursiveFunc)
  (constructors : JsMap.t Constructor) (func : RecursiveFunc) (term : Term) :
  evaluateFuncFuel (S fuel) functions constructors func term
  = if isAtomOccurrence term then Some None
    else
      match findCase func term with
      | None => Some None
      | Some matchingCase =>
          match JsMap.get (t_constructorId term) constructors with
          | None => Some None
          | Some _ =>
              evaluateExpr functions constructors
                (evaluateFuncFuel fuel functions constructors)
                (evaluateFuncMultiFuel fuel functions constructors)
                (fc_body matchingCase)
                (bindBoundVars (fc_boundVars matchingCase) (t_args term) JsMap.empty)
          end
      end.
Proof. reflexivity. Qed.

Lemma evaluateFuncMultiFuel_step (fuel : nat) (functions : JsMap.t RecursiveFunc)
  (constructors : JsMap.t Constructor) (func : RecursiveFunc) (principalTerm : Term)
  (extraEnv : JsMap.t Term) :
  evaluateFuncMultiFuel (S fuel) functions constructors func principalTerm extraEnv
  = if isAtomOccurrence principalTerm then Some None
    else
      match findCase func principalTerm with
      | None => Some None
      | Some matchingCase =>
          match JsMap.get (t_constructorId principalTerm) constructors with
          | None => Some None
          | Some _ =>
              evaluateExpr functions constructors
                (evaluateFuncFuel fuel functions constructors)
                (evaluateFuncMultiFuel fuel functions constructors)
                (fc_body matchingCase)
                (bindBoundVars (fc_boundVars matchingCase) (t_args principalTerm) extraEnv)
          end
      end.
Proof. reflexivity. Qed.

(** C10: [evaluateFunc] returns [null] on an atom occurrence and on a term
    whose constructor has no case; a bare variable reference evaluates to
    [null] in every environment, so a function whose case for the constructor
    of the term is a bare variable returns [null]. *)
Theorem evaluateFunc_null (fuel : nat) (functions : JsMap.t RecursiveFunc)
  (constructors : JsMap.t Constructor) (func : RecursiveFunc) (term : Term) :
  (isAtomOccurrence term = true ->
   evaluateFuncFuel (S fuel) functions constructors func term = Some None)
  /\ (findCase func term = None ->
      evaluateFuncFuel (S fuel) functions constructors func term = Some None)
  /\ (forall callFunc callFuncMulti name termEnv,
        evaluateExpr functions constructors callFunc callFuncMulti (FE_var name) termEnv
        = Some None)
  /\ (forall matchingCase name,
        findCase func term = Some matchingCase ->
        fc_body matchingCase = FE_var name ->
        evaluateFuncFuel (S fuel) functions constructors func term = Some None).
Proof.
  rewrite evaluateFuncFuel_step. repeat split.
  - now intros ->.
  - intros ->. now destruct (isAtomOccurrence term).
  - intros c name -> ->. destruct (isAtomOccurrence term); auto.
    now destruct (JsMap.get (t_constructorId term) constructors).
Qed.

Lemma evaluateFunc_null_witness :
  JsMap.get "n" (bindBoundVars ["n"] (t_args (exSucc exZero)) JsMap.empty) = Some exZero
  /\ evaluateFuncFuel 1 [("pred", exPred)] exConstructors exPred (exSucc exZero) = Some None.
Proof.
  split; [reflexivity|].
  destruct (evaluateFunc_null 0 [("pred", exPred)] exConstructors exPred (exSucc exZero))
    as (_ & _ & _ & H).
  apply (H (mkFuncCase "S" ["n"] (FE_var "n")) "n"); reflexivity.
Defined.

(** The mutual calls of [f] and [g] never return: every call passes the
    same principal term on. *)
Lemma exLoop_no_result (fuel : nat) :
  forall env,
    JsMap.get "y" env = Some (exSucc exZero) ->
    evaluateFuncMultiFuel fuel exLoopFunctions exConstructors exLoopF (exSucc exZero) env = None
    /\ evaluateFuncMultiFuel fuel exLoopFunctions exConstructors exLoopG (exSucc exZero) env
       = None.
Proof.
  induction fuel as [|fuel IH]; intros env Hy; [split; reflexivity|].
  split.
  - rewrite evaluateFuncMultiFuel_step.
    cbn -[JsMap.get JsMap.set evaluateFuncMultiFuel evaluateFuncFuel].
    change (JsMap.get "S" exConstructors) with (Some (mkConstructor "S" "nat" "S"
           [mkConstructorArg "a0" "nat" (Some "n") None None] false)).
    change (JsMap.get "g" exLoopFunctions) with (Some exLoopG).
    rewrite (JsMapFacts.get_set_neq "n" "y") by discriminate. rewrite Hy.
    cbn [bindExtraArgs f_extraArgs exLoopG exYArg isVarExpr fa_name].
    rewrite (JsMapFacts.get_set_neq "n" "y") by discriminate. rewrite Hy.
    apply IH. apply JsMapFacts.get_set_eq.
  - rewrite evaluateFuncMultiFuel_step.
    cbn -[JsMap.get JsMap.set evaluateFuncMultiFuel evaluateFuncFuel].
    change (JsMap.get "S" exConstructors) with (Some (mkConstructor "S" "nat" "S"
           [mkConstructorArg "a0" "nat" (Some "n") None None] false)).
    change (JsMap.get "f" exLoopFunctions) with (Some exLoopF).
    rewrite (JsMapFacts.get_set_neq "m" "y") by discriminate. rewrite Hy.
    cbn [bindExtraArgs f_extraArgs exLoopF exYArg isVarExpr fa_name].
    rewrite (JsMapFacts.get_set_neq "m" "y") by discriminate. rewrite Hy.
    apply IH. apply JsMapFacts.get_set_eq.
Qed.

(** [h], [f] and [g] all pass [checkTermination], and the evaluation of
    [h] on [S(S(Z))] returns no result, whatever the depth of calls
    allowed. *)
Lemma evaluateFunc_mutual_calls_diverge :
  checkTermination exLoopH exConstructors exLoopFunctions = (true, None)
  /\ checkTermination exLoopF exConstructors exLoopFunctions = (true, None)
  /\ checkTermination exLoopG exConstructors exLoopFunctions = (true, None)
  /\ forall fuel,
       evaluateFuncFuel fuel exLoopFunctions exConstructors exLoopH (exSucc (exSucc exZero))
       = None.
Proof.
  repeat split. intros [|fuel]; [reflexivity|].
  rewrite evaluateFuncFuel_step.
  cbn -[evaluateFuncMultiFuel evaluateFuncFuel].
  now apply exLoop_no_result.
Qed.

(** ** Deletion cascades *)

Lemma delete_notin {V : Type} (k : string) (m : JsMap.t V) :
  ~ In k (JsMap.keys m) -> JsMap.delete k m = m.
Proof.
  induction m as [|[k0 v0] m IH]; simpl; intros H; auto.
  destruct (String.eqb k0 k) eqn:E; simpl.
  - apply String.eqb_eq in E. tauto.
  - f_equal. apply IH. tauto.
Qed.

Lemma delete_middle {V : Type} (k : string) (v : V) (a b : JsMap.t V) :
  ~ In k (JsMap.keys a) -> ~ In k (JsMap.keys b) ->
  JsMap.delete k (a ++ (k, v) :: b) = a ++ b.
Proof.
  intros Ha Hb. unfold JsMap.delete. rewrite filter_app. simpl.
  rewrite String.eqb_refl. simpl.
  fold (JsMap.delete k a) (JsMap.delete k b).
  now rewrite (delete_notin k a Ha), (delete_notin k b Hb).
Qed.

Lemma set_middle {V : Type} (k : string) (v v' : V) (a b : JsMap.t V) :
  ~ In k (JsMap.keys a) ->
  JsMap.set k v' (a ++ (k, v) :: b) = a ++ (k, v') :: b.
Proof.
  intros Ha. induction a as [|[k0 v0] a IH]; simpl.
  - now rewrite String.eqb_refl.
  - simpl in Ha. destruct (String.eqb k0 k) eqn:E.
    + apply String.eqb_eq in E. tauto.
    + f_equal. apply IH. tauto.
Qed.

Lemma has_middle {V : Type} (k : string) (v : V) (a b : JsMap.t V) :
  JsMap.has k (a ++ (k, v) :: b) = true.
Proof.
  unfold JsMap.has.
  destruct (JsMap.get k (a ++ (k, v) :: b)) eqn:E; auto.
  apply JsMapFacts.get_None_keys in E. exfalso. apply E.
  unfold JsMap.keys. rewrite map_app. apply in_or_app. right. now left.
Qed.

Lemma NoDup_keys_middle {V : Type} (k : string) (v : V) (a b : JsMap.t V) :
  NoDup (JsMap.keys (a ++ (k, v) :: b)) ->
  ~ In k (JsMap.keys a) /\ ~ In k (JsMap.keys b) /\ NoDup (JsMap.keys (a ++ b)).
Proof.
  unfold JsMap.keys. rewrite !map_app. simpl. intros H.
  pose proof (NoDup_remove_1 _ _ _ H) as H1.
  pose proof (NoDup_remove_2 _ _ _ H) as H2.
  rewrite in_app_iff in H2. tauto.
Qed.

Lemma deleteWhere_prefix {V : Type} (p : V -> bool) (pending : list (string * V)) :
  forall done,
    NoDup (JsMap.keys (done ++ pending)) ->
    Store.deleteWhere p pending (done ++ pending)
    = done ++ filter (fun e => negb (p (snd e))) pending.
Proof.
  induction pending as [|[k v] rest IH]; intros done Hnd; simpl; auto.
  rewrite has_middle.
  destruct (NoDup_keys_middle k v done rest Hnd) as (Ha & Hb & Hnd').
  destruct (p v) eqn:Ep; simpl.
  - rewrite (delete_middle k v done rest Ha Hb). now apply IH.
  - change (done ++ (k, v) :: rest) with (done ++ [(k, v)] ++ rest).
    rewrite app_assoc. rewrite IH.
    + now rewrite <- app_assoc.
    + now rewrite <- app_assoc.
Qed.

Lemma deleteWhere_filter {V : Type} (p : V -> bool) (m : JsMap.t V) :
  JsMap.wf m -> Store.deleteWhere p m m = filter (fun e => negb (p (snd e))) m.
Proof. intros H. apply (deleteWhere_prefix p m []). exact H. Qed.

Lemma filter_same_length {A : Type} (f : A -> bool) (l : list A) :
  length (filter f l) = length l -> filter f l = l.
Proof.
  induction l as [|a l IH]; simpl; auto.
  destruct (f a); simpl; intros H.
  - f_equal. apply IH. congruence.
  - pose proof (filter_length_le f l). lia.
Qed.

Lemma withPremises_same (r : InferenceRule) : Store.withPremises r (r_premises r) = r.
Proof. now destruct r. Qed.

Lemma cleanRules_prefix (id : string) (pending : list (string * InferenceRule)) :
  forall done,
    NoDup (JsMap.keys (done ++ pending)) ->
    Store.cleanRules id pending (done ++ pending)
    = done ++ map (fun e => (fst e, withoutPremisesOn id (snd e)))
                  (filter (fun e => negb (String.eqb (ji_judgmentId (r_conclusion (snd e))) id))
                          pending).
Proof.
  induction pending as [|[rid r] rest IH]; intros done Hnd; simpl; auto.
  rewrite has_middle.
  destruct (NoDup_keys_middle rid r done rest Hnd) as (Ha & Hb & Hnd').
  assert (Hnext : forall r',
             Store.cleanRules id rest (done ++ (rid, r') :: rest)
             = done ++ (rid, r') ::
                 map (fun e => (fst e, withoutPremisesOn id (snd e)))
                     (filter (fun e => negb (String.eqb (ji_judgmentId (r_conclusion (snd e))) id))
                             rest)).
  { intros r'. change (done ++ (rid, r') :: rest) with (done ++ [(rid, r')] ++ rest).
    rewrite app_assoc, IH.
    - now rewrite <- app_assoc.
    - rewrite <- app_assoc. simpl. unfold JsMap.keys in *. rewrite map_app in *. exact Hnd. }
  destruct (String.eqb (ji_judgmentId (r_conclusion r)) id) eqn:Ec; simpl.
  - rewrite (delete_middle rid r done rest Ha Hb). now apply IH.
  - destruct (Nat.eqb _ _) eqn:El; simpl.
    + apply Nat.eqb_eq, filter_same_length in El.
      rewrite Hnext. unfold withoutPremisesOn. rewrite El, withPremises_same. reflexivity.
    + rewrite (set_middle rid r _ done rest Ha). apply Hnext.
Qed.

Lemma cleanRules_filter (id : string) (m : JsMap.t InferenceRule) :
  JsMap.wf m ->
  Store.cleanRules id m m
  = map (fun e => (fst e, withoutPremisesOn id (snd e)))
        (filter (fun e => negb (String.eqb (ji_judgmentId (r_conclusion (snd e))) id)) m).
Proof. intros H. apply (cleanRules_prefix id m []). exact H. Qed.

Lemma get_delete (V : Type) (id k : string) (m : JsMap.t V) :
  JsMap.get k (JsMap.delete id m) = if String.eqb k id then None else JsMap.get k m.
Proof.
  destruct (String.eqb k id) eqn:E.
  - apply String.eqb_eq in E. subst. apply JsMapFacts.get_delete_eq.
  - apply String.eqb_neq in E. apply JsMapFacts.get_delete_neq. congruence.
Qed.

(** C9: [deleteSort] removes the sort and exactly the constructors of that
    sort; [deleteJudgment] removes the judgment, exactly the rules that
    conclude it, and the premises on it in the remaining rules;
    [deleteProperty] removes the property and exactly its proofs; every other
    registry is returned as it was. *)
Theorem delete_cascades (id : string) (s : Store.StoreState) :
  (JsMap.wf (Store.constructors s) ->
   let s' := Store.deleteSort id s in
   (forall k, JsMap.get k (Store.sorts s')
              = if String.eqb k id then None else JsMap.get k (Store.sorts s))
   /\ Store.constructors s'
      = filter (fun e => negb (String.eqb (c_sortId (snd e)) id)) (Store.constructors s)
   /\ Store.judgments s' = Store.judgments s
   /\ Store.rules s' = Store.rules s
   /\ Store.metaVariables s' = Store.metaVariables s
   /\ Store.recursiveFunctions s' = Store.recursiveFunctions s
   /\ Store.properties s' = Store.properties s
   /\ Store.proofs s' = Store.proofs s)
  /\ (JsMap.wf (Store.rules s) ->
      let s' := Store.deleteJudgment id s in
      (forall k, JsMap.get k (Store.judgments s')
                 = if String.eqb k id then None else JsMap.get k (Store.judgments s))
      /\ Store.rules s'
         = map (fun e => (fst e, withoutPremisesOn id (snd e)))
               (filter (fun e => negb (String.eqb (ji_judgmentId (r_conclusion (snd e))) id))
                       (Store.rules s))
      /\ Store.sorts s' = Store.sorts s
      /\ Store.constructors s' = Store.constructors s
      /\ Store.metaVariables s' = Store.metaVariables s
      /\ Store.recursiveFunctions s' = Store.recursiveFunctions s
      /\ Store.properties s' = Store.properties s
      /\ Store.proofs s' = Store.proofs s)
  /\ (JsMap.wf (Store.proofs s) ->
      let s' := Store.deleteProperty id s in
      (forall k, JsMap.get k (Store.properties s')
                 = if String.eqb k id then None else JsMap.get k (Store.properties s))
      /\ Store.proofs s'
         = filter (fun e => negb (String.eqb (pf_propertyId (snd e)) id)) (Store.proofs s)
      /\ Store.sorts s' = Store.sorts s
      /\ Store.constructors s' = Store.constructors s
      /\ Store.judgments s' = Store.judgments s
      /\ Store.rules s' = Store.rules s
      /\ Store.metaVariables s' = Store.metaVariables s
      /\ Store.recursiveFunctions s' = Store.recursiveFunctions s).
Proof.
  split; [|split]; intros Hwf; cbv zeta; simpl; repeat split.
  - intros k. apply get_delete.
  - now apply (deleteWhere_filter (fun c => String.eqb (c_sortId c) id)).
  - intros k. apply get_delete.
  - now apply cleanRules_filter.
  - intros k. apply get_delete.
  - now apply (deleteWhere_filter (fun proof => String.eqb (pf_propertyId proof) id)).
Qed.

Lemma delete_cascades_witness :
  JsMap.keys (Store.constructors (Store.deleteSort "nat" exStore)) = []
  /\ map (fun e => (fst e, map ji_judgmentId (r_premises (snd e))))
         (Store.rules (Store.deleteJudgment "even" exStore))
     = [("r3", [])]
  /\ Store.proofs (Store.deleteProperty "p" exStore) = [].
Proof.
  destruct (delete_cascades "nat" exStore) as [Hsort _].
  destruct (delete_cascades "even" exStore) as (_ & Hjudgment & _).
  destruct (delete_cascades "p" exStore) as (_ & _ & Hproperty).
  assert (Hc : JsMap.wf (Store.constructors exStore)).
  { repeat constructor; simpl; intuition discriminate. }
  assert (Hr : JsMap.wf (Store.rules exStore)).
  { repeat constructor; simpl; intuition discriminate. }
  assert (Hp : JsMap.wf (Store.proofs exStore)).
  { repeat constructor; simpl; intuition discriminate. }
  destruct (Hsort Hc) as (_ & -> & _).
  destruct (Hjudgment Hr) as (_ & -> & _).
  destruct (Hproperty Hp) as (_ & -> & _).
  repeat split.
Defined.

(** ** Termination of evaluation *)

Lemma envWithin_get (cs : JsMap.t Constructor) (n : nat) (env : JsMap.t Term)
  (k : string) (v : Term) :
  envWithin cs n env -> JsMap.get k env = Some v ->
  termSize v <= n /\ termArityOk cs v = true.
Proof. intros H Hg. apply (H k v). now apply JsMapFacts.get_In. Qed.

Lemma envWithin_set (cs : JsMap.t Constructor) (n : nat) (env : JsMap.t Term)
  (k : string) (v : Term) :
  envWithin cs n env -> termSize v <= n -> termArityOk cs v = true ->
  envWithin cs n (JsMap.set k v env).
Proof.
  intros H Hs Ha k' v' Hin.
  apply JsMapFacts.In_set in Hin as [[-> ->]|Hin]; [split; assumption|now apply (H k' v')].
Qed.

Lemma bindExtraArgs_within (cs : JsMap.t Constructor) (n : nat) (termEnv : JsMap.t Term)
  (extraArgs : list FuncArg) :
  envWithin cs n termEnv ->
  forall argExprs acc,
    envWithin cs n acc ->
    envWithin cs n (bindExtraArgs extraArgs argExprs termEnv acc).
Proof.
  intros Henv. induction extraArgs as [|argDef extraArgs IH]; intros argExprs acc Hacc;
    simpl; auto.
  destruct argExprs as [|argExpr argExprs]; auto.
  apply IH. destruct (isVarExpr argExpr) as [name|]; auto.
  destruct (JsMap.get name termEnv) as [t|] eqn:E; auto.
  destruct (envWithin_get cs n termEnv name t Henv E). now apply envWithin_set.
Qed.

Lemma bindBoundVars_within (cs : JsMap.t Constructor) (n : nat) (boundVars : list string) :
  forall args base,
    (forall a, In a args -> termSize a <= n /\ termArityOk cs a = true) ->
    envWithin cs n base ->
    envWithin cs n (bindBoundVars boundVars args base).
Proof.
  induction boundVars as [|v boundVars IH]; intros args base Hargs Hbase; simpl; auto.
  destruct args as [|a args]; auto.
  apply IH.
  - intros a' Ha'. apply Hargs. now right.
  - destruct (negb (String.eqb v "")); auto.
    destruct (Hargs a (or_introl eq_refl)). now apply envWithin_set.
Qed.

(** A variable is either bound by the pattern to an argument of the term or
    keeps its binding. *)
Lemma bindBoundVars_get (x : string) (boundVars : list string) :
  forall args base,
    JsMap.get x (bindBoundVars boundVars args base) = JsMap.get x base
    \/ exists u, In u args /\ JsMap.get x (bindBoundVars boundVars args base) = Some u.
Proof.
  induction boundVars as [|v boundVars IH]; intros args base; simpl; auto.
  destruct args as [|a args]; auto.
  destruct (IH args (if negb (String.eqb v "") then JsMap.set v a base else base))
    as [E|(u & Hu & E)].
  - rewrite E. destruct (negb (String.eqb v "")); auto.
    destruct (String.eqb v x) eqn:Evx.
    + apply String.eqb_eq in Evx. subst v. right. exists a. split; [now left|].
      apply JsMapFacts.get_set_eq.
    + left. apply JsMapFacts.get_set_neq. now apply String.eqb_neq.
  - right. exists u. split; [now right|exact E].
Qed.

Lemma bindBoundVars_bound (x : string) (boundVars : list string) :
  forall args base i,
    x <> "" -> nth_error boundVars i = Some x -> i < length args ->
    exists u, In u args /\ JsMap.get x (bindBoundVars boundVars args base) = Some u.
Proof.
  induction boundVars as [|v boundVars IH]; intros args base i Hx Hi Hlen.
  - destruct i; discriminate.
  - destruct args as [|a args]; [simpl in Hlen; lia|]. simpl.
    destruct i as [|i]; simpl in Hi.
    + injection Hi as ->. apply String.eqb_neq in Hx. rewrite Hx. simpl.
      destruct (bindBoundVars_get x boundVars args (JsMap.set x a base)) as [E|(u & Hu & E)].
      * exists a. split; [now left|]. rewrite E. apply JsMapFacts.get_set_eq.
      * exists u. split; [now right|exact E].
    + simpl in Hlen.
      destruct (IH args (if negb (String.eqb v "") then JsMap.set v a base else base)
                   i Hx Hi) as (u & Hu & E); [lia|].
      exists u. split; [now right|exact E].
Qed.

Lemma structuralVarsOf_In (x inputSortId : string) (cargs : list ConstructorArg) :
  forall boundVars,
    In x (structuralVarsOf inputSortId cargs boundVars) ->
    x <> "" /\ exists i, nth_error boundVars i = Some x /\ i < length cargs.
Proof.
  induction cargs as [|arg cargs IH]; intros boundVars; simpl; [tauto|].
  intros Hin. apply in_app_iff in Hin as [Hin|Hin].
  - destruct boundVars as [|v boundVars]; [destruct Hin|].
    destruct (String.eqb (arg_sortId arg) inputSortId && negb (String.eqb v "")) eqn:E;
      [|destruct Hin].
    destruct Hin as [->|[]]. apply andb_prop in E as [_ E].
    split.
    + intros ->. discriminate E.
    + exists 0. split; [reflexivity|lia].
  - destruct (IH _ Hin) as (Hx & i & Hi & Hlt). split; auto.
    destruct boundVars as [|v boundVars]; [destruct i; discriminate|].
    exists (S i). split; [exact Hi|lia].
Qed.

Lemma termSize_arg (t a : Term) : In a (t_args t) -> termSize a < termSize t.
Proof.
  destruct t as [c args v i]. simpl. intros Hin.
  induction args as [|x args IH]; [destruct Hin|].
  simpl. destruct Hin as [->|Hin]; [lia|]. specialize (IH Hin). lia.
Qed.

Lemma termArityOk_arg (cs : JsMap.t Constructor) (t a : Term) :
  termArityOk cs t = true -> In a (t_args t) -> termArityOk cs a = true.
Proof.
  destruct t as [c args v i]. simpl. intros H Hin.
  apply andb_prop in H as [_ H]. rewrite forallb_forall in H. auto.
Qed.

Lemma termArityOk_length (cs : JsMap.t Constructor) (t : Term) (c : Constructor) :
  termArityOk cs t = true -> JsMap.get (t_constructorId t) cs = Some c ->
  length (t_args t) = length (c_args c).
Proof.
  destruct t as [cid args v i]. simpl. intros H Hc. rewrite Hc in H.
  apply andb_prop in H as [H _]. now apply Nat.eqb_eq.
Qed.

Lemma checkCases_case (func : RecursiveFunc) (cs : JsMap.t Constructor)
  (fs : JsMap.t RecursiveFunc) (cases : list FuncCase) (funcCase : FuncCase) :
  fst (checkCases func cs fs cases) = true -> In funcCase cases ->
  exists c,
    JsMap.get (fc_constructorId funcCase) cs = Some c
    /\ checkExprTermination (f_id func)
         (structuralVarsOf (f_inputSortId func) (c_args c) (fc_boundVars funcCase))
         fs (fc_body funcCase) = None.
Proof.
  induction cases as [|c0 cases IH]; simpl; [tauto|].
  destruct (JsMap.get (fc_constructorId c0) cs) as [c|] eqn:Ec; [|discriminate].
  destruct (checkExprTermination _ _ _ (fc_body c0)) eqn:Eb; [discriminate|].
  intros H [->|Hin]; eauto.
Qed.

(** Evaluation of an expression returns, provided the calls it can make
    return. *)
Section ExprTotal.
Variable cs : JsMap.t Constructor.
Variable fs : JsMap.t RecursiveFunc.
Variable selfId : string.
Variable structuralVars : list string.
Variable callF : RecursiveFunc -> Term -> Res FuncValue.
Variable callM : RecursiveFunc -> Term -> JsMap.t Term -> Res FuncValue.
Variables n m : nat.

Hypothesis callF_total :
  forall k g u,
    JsMap.get k fs = Some g -> termSize u <= n -> termArityOk cs u = true ->
    exists r, callF g u = Some r.

Hypothesis callM_total :
  forall g u env,
    JsMap.get selfId fs = Some g -> termSize u <= m -> termArityOk cs u = true ->
    envWithin cs n env ->
    exists r, callM g u env = Some r.

Let goodEnv (env : JsMap.t Term) : Prop :=
  envWithin cs n env
  /\ forall x, In x structuralVars ->
               exists u, JsMap.get x env = Some u /\ termSize u <= m.

Let exprTotal (e : FuncExpr) : Prop :=
  forall env,
    goodEnv env ->
    checkExprTermination selfId structuralVars fs e = None ->
    multiCallsOnlyTo selfId e = true ->
    exists r, evaluateExpr fs cs callF callM e env = Some r.

Let predTotal (p : FuncPredicate) : Prop :=
  forall env,
    goodEnv env ->
    checkPredicateTermination selfId structuralVars fs p = None ->
    predMultiCallsOnlyTo selfId p = true ->
    exists r, evaluatePredicate fs cs callF callM p env = Some r.

Lemma checkAll_None (args : list FuncExpr) :
  (fix checkAll (l : list FuncExpr) : option string :=
     match l with
     | [] => None
     | a :: r =>
         match checkExprTermination selfId structuralVars fs a with
         | Some argErr => Some argErr
         | None => checkAll r
         end
     end) args = None ->
  Forall (fun a => checkExprTermination selfId structuralVars fs a = None) args.
Proof.
  induction args as [|a args IH]; intros H; constructor.
  - destruct (checkExprTermination selfId structuralVars fs a); [discriminate|reflexivity].
  - apply IH. destruct (checkExprTermination selfId structuralVars fs a); [discriminate|exact H].
Qed.

Lemma total_call (f : string) (a : FuncExpr) : exprTotal (FE_call f a).
Proof.
  intros env [Henv _] _ _. simpl.
  destruct (JsMap.get f fs) as [func|] eqn:Ef; [|eauto].
  destruct (isVarExpr a) as [name|]; [|eauto].
  destruct (JsMap.get name env) as [u|] eqn:Eu; [|eauto].
  destruct (envWithin_get cs n env name u Henv Eu).
  now apply (callF_total f).
Qed.

Lemma total_callMulti (f : string) (args : list FuncExpr) : exprTotal (FE_callMulti f args).
Proof.
  intros env [Henv Hsv] Hcheck Hmulti. simpl in *.
  destruct (JsMap.get f fs) as [func|] eqn:Ef; [|eauto].
  destruct args as [|principal others]; [eauto|].
  apply andb_prop in Hmulti as [Hself _].
  rewrite Hself in Hcheck. apply String.eqb_eq in Hself. subst f.
  unfold checkPrincipal in Hcheck.
  destruct (isVarExpr principal) as [name|]; [|discriminate].
  destruct (setHas name structuralVars) eqn:Es; [|discriminate].
  apply setHas_In in Es. destruct (Hsv name Es) as (u & Eu & Hu). rewrite Eu.
  destruct (envWithin_get cs n env name u Henv Eu) as [_ Ha].
  apply callM_total; auto.
  now apply bindExtraArgs_within.
Qed.

Lemma total_construct (c : string) (args : list FuncExpr) :
  Forall exprTotal args -> exprTotal (FE_construct c args).
Proof.
  intros IH env Henv Hcheck Hmulti. simpl in *.
  destruct (JsMap.get c cs) as [constr|]; [|eauto].
  apply checkAll_None in Hcheck. rewrite forallb_forall in Hmulti.
  match goal with
  | |- context [bindRes (?L args)] => set (loop := L)
  end.
  assert (Hloop : exists r, loop args = Some r).
  { induction IH as [|a args Ha _ IHargs]; [simpl; eauto|].
    inversion Hcheck as [|? ? Hca Hcargs]; subst.
    destruct (Ha env Henv Hca (Hmulti a (or_introl eq_refl))) as [ra Era].
    destruct IHargs as [rs Ers]; auto.
    { intros x Hx. apply Hmulti. now right. }
    simpl. rewrite Era. simpl.
    destruct ra as [[z|s|t]|]; try (destruct (isVarExpr a) as [name|]; [|eauto];
      destruct (JsMap.get name env); [|eauto]); rewrite Ers; simpl; eauto. }
  destruct Hloop as [r ->]. simpl. eauto.
Qed.

Lemma total_bin (k : FuncBinKind) (l r : FuncExpr) :
  exprTotal l -> exprTotal r -> exprTotal (FE_bin k l r).
Proof.
  intros IHl IHr env Henv Hcheck Hmulti. simpl in *.
  apply andb_prop in Hmulti as [Hml Hmr].
  destruct (checkExprTermination selfId structuralVars fs l) eqn:El; [discriminate|].
  destruct (IHl env Henv El Hml) as [rl ->].
  destruct (IHr env Henv Hcheck Hmr) as [rr ->].
  simpl. eauto.
Qed.

Lemma total_if (c : FuncPredicate) (t e : FuncExpr) :
  predTotal c -> exprTotal t -> exprTotal e -> exprTotal (FE_if c t e).
Proof.
  intros IHc IHt IHe env Henv Hcheck Hmulti. simpl in *.
  apply andb_prop in Hmulti as [Hmc Hm]. apply andb_prop in Hm as [Hmt Hme].
  destruct (checkPredicateTermination selfId structuralVars fs c) eqn:Ec; [discriminate|].
  destruct (checkExprTermination selfId structuralVars fs t) eqn:Et; [discriminate|].
  destruct (IHc env Henv Ec Hmc) as [rc ->]. simpl.
  destruct rc as [[|]|]; eauto.
Qed.

Lemma total_singleton (e : FuncExpr) : exprTotal e -> exprTotal (FE_singleton e).
Proof.
  intros IH env Henv Hcheck Hmulti. simpl in *.
  destruct (IH env Henv Hcheck Hmulti) as [r ->]. simpl.
  destruct (isVarExpr e) as [name|]; [|eauto].
  destruct (atomNameOf (JsMap.get name env)); eauto.
Qed.

Lemma total_cmp (k : FuncCmpKind) (l r : FuncExpr) :
  exprTotal l -> exprTotal r -> predTotal (FP_cmp k l r).
Proof.
  intros IHl IHr env Henv Hcheck Hmulti. simpl in *.
  apply andb_prop in Hmulti as [Hml Hmr].
  destruct (checkExprTermination selfId structuralVars fs l) eqn:El; [discriminate|].
  destruct (IHl env Henv El Hml) as [rl Erl].
  destruct (IHr env Henv Hcheck Hmr) as [rr Err].
  destruct k; rewrite ?Erl, ?Err; simpl; eauto.
Qed.

Lemma total_in (e s : FuncExpr) : exprTotal e -> exprTotal s -> predTotal (FP_in e s).
Proof.
  intros _ IHs env Henv Hcheck Hmulti. simpl in *.
  apply andb_prop in Hmulti as [_ Hms].
  destruct (checkExprTermination selfId structuralVars fs e) eqn:Ee; [discriminate|].
  destruct (IHs env Henv Hcheck Hms) as [rs ->]. simpl.
  destruct rs as [[z|xs|t]|]; eauto.
  destruct (isVarExpr e) as [name|]; [|eauto].
  destruct (atomNameOf (JsMap.get name env)); eauto.
Qed.

Lemma total_isEmpty (s : FuncExpr) : exprTotal s -> predTotal (FP_isEmpty s).
Proof.
  intros IHs env Henv Hcheck Hmulti. simpl in *.
  destruct (IHs env Henv Hcheck Hmulti) as [rs ->]. simpl.
  destruct rs as [[z|xs|t]|]; eauto.
Qed.

Lemma total_conn (k : FuncConnKind) (l r : FuncPredicate) :
  predTotal l -> predTotal r -> predTotal (FP_conn k l r).
Proof.
  intros IHl IHr env Henv Hcheck Hmulti. simpl in *.
  apply andb_prop in Hmulti as [Hml Hmr].
  destruct (checkPredicateTermination selfId structuralVars fs l) eqn:El; [discriminate|].
  destruct (IHl env Henv El Hml) as [rl ->].
  destruct (IHr env Henv Hcheck Hmr) as [rr ->].
  simpl. destruct rl, rr; eauto.
Qed.

Lemma total_not (p : FuncPredicate) : predTotal p -> predTotal (FP_not p).
Proof.
  intros IH env Henv Hcheck Hmulti. simpl in *.
  destruct (IH env Henv Hcheck Hmulti) as [r ->]. simpl. eauto.
Qed.

Lemma evaluateExpr_total (e : FuncExpr) (env : JsMap.t Term) :
  envWithin cs n env ->
  (forall x, In x structuralVars ->
             exists u, JsMap.get x env = Some u /\ termSize u <= m) ->
  checkExprTermination selfId structuralVars fs e = None ->
  multiCallsOnlyTo selfId e = true ->
  exists r, evaluateExpr fs cs callF callM e env = Some r.
Proof.
  intros Henv Hsv. revert env Henv Hsv.
  assert (H : exprTotal e).
  { apply (FuncExpr_ind' exprTotal predTotal).
    - intros v env _ _ _. simpl. eauto.
    - intros env _ _ _. simpl. eauto.
    - apply total_singleton.
    - intros name env _ _ _. simpl. eauto.
    - intros f a _. apply total_call.
    - intros f args _. apply total_callMulti.
    - apply total_construct.
    - apply total_bin.
    - apply total_if.
    - apply total_cmp.
    - apply total_in.
    - apply total_isEmpty.
    - apply total_conn.
    - apply total_not. }
  intros env Henv Hsv. apply H. now split.
Qed.
End ExprTotal.

Section FuncTotal.
Variable cs : JsMap.t Constructor.
Variable fs : JsMap.t RecursiveFunc.
Hypothesis registry : selfContainedRegistry cs fs.

Lemma termSize_pos (t : Term) : 0 < termSize t.
Proof. destruct t. simpl. lia. Qed.

(** The body of the matching case returns, provided the calls on terms of
    size at most [n] and the self-calls on principal terms of size at most
    [m] return. *)
Lemma caseBody_total (fuel n m : nat) (k : string) (g : RecursiveFunc) (u : Term)
  (c : FuncCase) (constr : Constructor) (base : JsMap.t Term) :
  (forall k' g' u',
      JsMap.get k' fs = Some g' -> termSize u' <= n -> termArityOk cs u' = true ->
      exists r, evaluateFuncFuel fuel fs cs g' u' = Some r) ->
  (forall g' u' env',
      JsMap.get (f_id g) fs = Some g' -> termSize u' <= m -> termArityOk cs u' = true ->
      envWithin cs n env' ->
      exists r, evaluateFuncMultiFuel fuel fs cs g' u' env' = Some r) ->
  JsMap.get k fs = Some g ->
  termArityOk cs u = true ->
  termSize u <= S m -> m <= n ->
  envWithin cs n base ->
  findCase g u = Some c ->
  JsMap.get (t_constructorId u) cs = Some constr ->
  exists r,
    evaluateExpr fs cs (evaluateFuncFuel fuel fs cs) (evaluateFuncMultiFuel fuel fs cs)
      (fc_body c) (bindBoundVars (fc_boundVars c) (t_args u) base) = Some r.
Proof.
  intros HF HM Hg Hu Hsize Hmn Hbase Hcase Hconstr.
  destruct (registry k g Hg) as (_ & Hcheck & Hmulti).
  apply find_some in Hcase as [Hin Hcid]. apply String.eqb_eq in Hcid.
  destruct (checkCases_case g cs fs (f_cases g) c Hcheck Hin) as (constr' & Hc' & Hbody).
  rewrite Hcid, Hconstr in Hc'. injection Hc' as <-.
  rewrite forallb_forall in Hmulti.
  assert (Hargs : forall a, In a (t_args u) -> termSize a <= m /\ termArityOk cs a = true).
  { intros a Ha. split.
    - pose proof (termSize_arg u a Ha). lia.
    - now apply (termArityOk_arg cs u). }
  apply (evaluateExpr_total cs fs (f_id g)
           (structuralVarsOf (f_inputSortId g) (c_args constr) (fc_boundVars c))
           _ _ n m HF HM); auto.
  - apply bindBoundVars_within; auto.
    intros a Ha. destruct (Hargs a Ha). split; [lia|assumption].
  - intros x Hx. apply structuralVarsOf_In in Hx as (Hne & i & Hi & Hlt).
    rewrite <- (termArityOk_length cs u constr Hu Hconstr) in Hlt.
    destruct (bindBoundVars_bound x (fc_boundVars c) (t_args u) base i Hne Hi Hlt)
      as (a & Ha & E).
    exists a. split; [exact E|]. now apply Hargs.
Qed.

Lemma evaluateFuncMultiFuel_total (n : nat) :
  (forall fuel, callDepthBound n <= fuel ->
     forall k g u,
       JsMap.get k fs = Some g -> termSize u <= n -> termArityOk cs u = true ->
       exists r, evaluateFuncFuel fuel fs cs g u = Some r) ->
  forall m, m <= n ->
    forall fuel, callDepthBound n + m <= fuel ->
      forall k g u env,
        JsMap.get k fs = Some g -> termSize u <= m -> termArityOk cs u = true ->
        envWithin cs n env ->
        exists r, evaluateFuncMultiFuel fuel fs cs g u env = Some r.
Proof.
  intros HF. induction m as [|m IH]; intros Hmn fuel Hfuel k g u env Hg Hsize Hu Henv.
  - pose proof (termSize_pos u). lia.
  - destruct fuel as [|fuel]; [lia|].
    rewrite evaluateFuncMultiFuel_step.
    destruct (isAtomOccurrence u); [eauto|].
    destruct (findCase g u) as [c|] eqn:Ec; [|eauto].
    destruct (JsMap.get (t_constructorId u) cs) as [constr|] eqn:Econstr; [|eauto].
    apply (caseBody_total fuel n m k g u c constr env); auto; try lia.
    + intros k' g' u'. apply HF. lia.
    + intros g' u' env' Hg'. apply (IH ltac:(lia) fuel ltac:(lia) (f_id g) g' u' env' Hg').
Qed.

Lemma evaluateFuncFuel_total (n : nat) :
  forall fuel, callDepthBound n <= fuel ->
    forall k g u,
      JsMap.get k fs = Some g -> termSize u <= n -> termArityOk cs u = true ->
      exists r, evaluateFuncFuel fuel fs cs g u = Some r.
Proof.
  induction n as [|n IH]; intros fuel Hfuel k g u Hg Hsize Hu.
  - pose proof (termSize_pos u). lia.
  - simpl in Hfuel. destruct fuel as [|fuel]; [lia|].
    rewrite evaluateFuncFuel_step.
    destruct (isAtomOccurrence u); [eauto|].
    destruct (findCase g u) as [c|] eqn:Ec; [|eauto].
    destruct (JsMap.get (t_constructorId u) cs) as [constr|] eqn:Econstr; [|eauto].
    apply (caseBody_total fuel n n k g u c constr JsMap.empty); auto.
    + intros k' g' u'. apply IH. lia.
    + intros g' u' env' Hg'.
      apply (evaluateFuncMultiFuel_total n IH n (le_n n) fuel ltac:(lia) (f_id g) g' u' env' Hg').
    + intros k' v' [].
Qed.
End FuncTotal.

Lemma callDepthBound_closed (n : nat) : 2 * callDepthBound n = n * (n + 1).
Proof. induction n as [|n IH]; simpl; lia. Qed.

(** C2 (as amended): in a registry whose functions all pass
    [checkTermination], are stored under their own identifier and make
    multi-argument calls to themselves only, the evaluation of a registered
    function on a term that respects the arities of the constructors returns,
    within a nesting of calls of at most [size(t) (size(t) + 1) / 2]. *)
Theorem evaluateFunc_terminates (constructors : JsMap.t Constructor)
  (functions : JsMap.t RecursiveFunc) (k : string) (f : RecursiveFunc) (t : Term) :
  selfContainedRegistry constructors functions ->
  JsMap.get k functions = Some f ->
  termArityOk constructors t = true ->
  2 * callDepthBound (termSize t) = termSize t * (termSize t + 1)
  /\ forall fuel,
       callDepthBound (termSize t) <= fuel ->
       exists r, evaluateFuncFuel fuel functions constructors f t = Some r.
Proof.
  intros Hreg Hf Ht. split; [apply callDepthBound_closed|].
  intros fuel Hfuel.
  now apply (evaluateFuncFuel_total constructors functions Hreg (termSize t) fuel Hfuel k f t).
Qed.

Lemma exFunctions_selfContained : selfContainedRegistry exConstructors exFunctions.
Proof.
  intros k g H.
  change (JsMap.get k exFunctions) with (if String.eqb "size" k then Some exSize else None) in H.
  destruct (String.eqb "size" k) eqn:E; [|discriminate].
  apply String.eqb_eq in E. subst k. injection H as <-.
  repeat split.
Qed.

Lemma evaluateFunc_terminates_witness :
  exists r,
    evaluateFuncFuel 10 exFunctions exConstructors exSize (exSucc (exSucc (exSucc exZero)))
    = Some r.
Proof.
  destruct (evaluateFunc_terminates exConstructors exFunctions "size" exSize
              (exSucc (exSucc (exSucc exZero)))
              exFunctions_selfContained eq_refl eq_refl) as [_ H].
  apply H. simpl. lia.
Defined.

(** [size(S(S(S(Z)))) = 3], and [size] passes the termination check. *)
Example evaluateFunc_size_three :
  checkTermination exSize exConstructors exFunctions = (true, None)
  /\ evaluateFuncFuel 4 exFunctions exConstructors exSize (exSucc (exSucc (exSucc exZero)))
     = Some (Some (V_num 3)).
Proof. split; reflexivity. Qed.

(** The nesting of calls can exceed the size of the term: on [A(S(Z))], of
    size 3, the functions [exDeepFunctions] nest five calls. *)
Example evaluateFunc_nesting_exceeds_size :
  selfContainedRegistry exWrapConstructors exDeepFunctions
  /\ termSize exWrapped = 3
  /\ evaluateFuncFuel 4 exDeepFunctions exWrapConstructors exDeepF exWrapped = None
  /\ evaluateFuncFuel 5 exDeepFunctions exWrapConstructors exDeepF exWrapped
     = Some (Some (V_num 0)).
Proof.
  split; [|repeat split].
  intros k g H.
  change (JsMap.get k exDeepFunctions)
    with (if String.eqb "f" k then Some exDeepF
          else if String.eqb "g" k then Some exDeepG else None) in H.
  destruct (String.eqb "f" k) eqn:Ef.
  - apply String.eqb_eq in Ef. subst k. injection H as <-. repeat split.
  - destruct (String.eqb "g" k) eqn:Eg; [|discriminate].
    apply String.eqb_eq in Eg. subst k. injection H as <-. repeat split.
Qed.

(** ** The calls of an evaluation *)

Lemma eraseLog_bind {A B : Type} (r : Logged A) (k : option A -> Logged B) :
  eraseLog (bindLogged r k) = bindRes (eraseLog r) (fun v => eraseLog (k v)).
Proof.
  destruct r as [[v log]|]; simpl; auto. destruct (k v) as [[w log']|]; reflexivity.
Qed.

Lemma eraseLog_logCall {A : Type} (site : CallSite) (r : Logged A) :
  eraseLog (logCall site r) = eraseLog r.
Proof. destruct r as [[v log]|]; reflexivity. Qed.

Lemma bindRes_ext {A B : Type} (r : Res A) (k1 k2 : option A -> Res B) :
  (forall v, k1 v = k2 v) -> bindRes r k1 = bindRes r k2.
Proof. intros H. destruct r; simpl; auto. Qed.

Ltac erase_bind :=
  rewrite eraseLog_bind;
  match goal with
  | IH : forall _ _, eraseLog _ = _ |- _ => rewrite IH
  end.

Section LoggedErasure.
Variable functions : JsMap.t RecursiveFunc.
Variable constructors : JsMap.t Constructor.
Variable callFunc : RecursiveFunc -> Term -> Res FuncValue.
Variable callFuncMulti : RecursiveFunc -> Term -> JsMap.t Term -> Res FuncValue.
Variable callFuncLogged : RecursiveFunc -> Term -> Logged FuncValue.
Variable callFuncMultiLogged : RecursiveFunc -> Term -> JsMap.t Term -> Logged FuncValue.
Variable funcId caseId : string.
Hypothesis callFunc_erase : forall g u, eraseLog (callFuncLogged g u) = callFunc g u.
Hypothesis callFuncMulti_erase :
  forall g u env, eraseLog (callFuncMultiLogged g u env) = callFuncMulti g u env.

(** Without its log the logged evaluation is the evaluation. *)
Lemma evaluateExprLogged_erase (e : FuncExpr) :
  forall termEnv path,
    eraseLog (evaluateExprLogged functions constructors callFuncLogged callFuncMultiLogged
                funcId caseId e termEnv path)
    = evaluateExpr functions constructors callFunc callFuncMulti e termEnv.
Proof.
  induction e using FuncExpr_ind'
    with (Q := fun p => forall termEnv path,
                 eraseLog (evaluatePredicateLogged functions constructors callFuncLogged
                             callFuncMultiLogged funcId caseId p termEnv path)
                 = evaluatePredicate functions constructors callFunc callFuncMulti
                     p termEnv);
    intros termEnv path; simpl; try reflexivity.
  - rewrite eraseLog_bind, IHe. apply bindRes_ext. intros _.
    destruct (isVarExpr e); auto. destruct (atomNameOf _); auto.
  - destruct (JsMap.get f functions); auto. destruct (isVarExpr e); auto.
    destruct (JsMap.get _ termEnv); auto. now rewrite eraseLog_logCall.
  - destruct (JsMap.get f functions); auto. destruct args as [|p others]; auto.
    destruct (isVarExpr p); auto. destruct (JsMap.get _ termEnv); auto.
    now rewrite eraseLog_logCall.
  - destruct (JsMap.get c constructors); auto.
    rewrite eraseLog_bind.
    assert (Hloop : forall i,
      eraseLog
        ((fix loop (l : list FuncExpr) (i : nat) : Logged (list Term) :=
            match l with
            | [] => retLogged (Some [])
            | argExpr :: rest =>
                let** argVal := evaluateExprLogged functions constructors callFuncLogged
                                  callFuncMultiLogged funcId caseId argExpr termEnv
                                  (path ++ [i]) in
                let next (t : Term) : Logged (list Term) :=
                  let** more := loop rest (S i) in
                  retLogged (option_map (cons t) more) in
                match argVal with
                | Some (V_term t) => next t
                | _ =>
                    match isVarExpr argExpr with
                    | Some name =>
                        match JsMap.get name termEnv with
                        | Some t => next t
                        | None => retLogged None
                        end
                    | None => retLogged None
                    end
                end
            end) args i)
      = (fix loop (l : list FuncExpr) : Res (list Term) :=
           match l with
           | [] => Some (Some [])
           | argExpr :: rest =>
               let* argVal := evaluateExpr functions constructors callFunc callFuncMulti
                                argExpr termEnv in
               let next (t : Term) : Res (list Term) :=
                 let* more := loop rest in
                 Some (option_map (cons t) more) in
               match argVal with
               | Some (V_term t) => next t
               | _ =>
                   match isVarExpr argExpr with
                   | Some name =>
                       match JsMap.get name termEnv with
                       | Some t => next t
                       | None => Some None
                       end
                   | None => Some None
                   end
               end
           end) args).
    { induction H as [|a args Ha _ IHargs]; intros i; [reflexivity|].
      rewrite eraseLog_bind, Ha. apply bindRes_ext. intros argVal.
      assert (Hnext : forall t,
        eraseLog
          (let** more :=
             (fix loop (l : list FuncExpr) (i : nat) : Logged (list Term) :=
                match l with
                | [] => retLogged (Some [])
                | argExpr :: rest =>
                    let** argVal := evaluateExprLogged functions constructors
                                      callFuncLogged callFuncMultiLogged funcId caseId
                                      argExpr termEnv (path ++ [i]) in
                    let next (t : Term) : Logged (list Term) :=
                      let** more := loop rest (S i) in
                      retLogged (option_map (cons t) more) in
                    match argVal with
                    | Some (V_term t) => next t
                    | _ =>
                        match isVarExpr argExpr with
                        | Some name =>
                            match JsMap.get name termEnv with
                            | Some t => next t
                            | None => retLogged None
                            end
                        | None => retLogged None
                        end
                    end
                end) args (S i) in
           retLogged (option_map (cons t) more))
        = bindRes
            ((fix loop (l : list FuncExpr) : Res (list Term) :=
                match l with
                | [] => Some (Some [])
                | argExpr :: rest =>
                    let* argVal := evaluateExpr functions constructors callFunc
                                     callFuncMulti argExpr termEnv in
                    let next (t : Term) : Res (list Term) :=
                      let* more := loop rest in
                      Some (option_map (cons t) more) in
                    match argVal with
                    | Some (V_term t) => next t
                    | _ =>
                        match isVarExpr argExpr with
                        | Some name =>
                            match JsMap.get name termEnv with
                            | Some t => next t
                            | None => Some None
                            end
                        | None => Some None
                        end
                    end
                end) args)
            (fun more => Some (option_map (cons t) more))).
      { intros t. rewrite eraseLog_bind, IHargs. reflexivity. }
      cbv zeta.
      destruct argVal as [[| |t]|]; try apply Hnext;
        destruct (isVarExpr a); auto; destruct (JsMap.get _ termEnv); auto;
        apply Hnext. }
    rewrite Hloop. reflexivity.
  - erase_bind. apply bindRes_ext. intros lv. erase_bind. reflexivity.
  - erase_bind. apply bindRes_ext. intros [[|]|]; auto.
  - destruct k; try reflexivity;
      erase_bind; apply bindRes_ext; intros lv; erase_bind; reflexivity.
  - erase_bind. apply bindRes_ext. intros [[| |]|]; auto.
    destruct (isVarExpr e1); auto. destruct (atomNameOf _); auto.
  - erase_bind. apply bindRes_ext. intros [[| |]|]; auto.
  - erase_bind. apply bindRes_ext. intros lv. erase_bind. apply bindRes_ext. intros rv.
    destruct lv, rv; reflexivity.
  - erase_bind. reflexivity.
Qed.
End LoggedErasure.

Lemma evaluateFuncLogged_erase (functions : JsMap.t RecursiveFunc)
  (constructors : JsMap.t Constructor) (fuel : nat) :
  (forall func term,
      eraseLog (evaluateFuncLogged fuel functions constructors func term)
      = evaluateFuncFuel fuel functions constructors func term)
  /\ (forall func term extraEnv,
        eraseLog (evaluateFuncMultiLogged fuel functions constructors func term extraEnv)
        = evaluateFuncMultiFuel fuel functions constructors func term extraEnv).
Proof.
  induction fuel as [|fuel [IHf IHm]]; [split; reflexivity|].
  split; intros; simpl;
    destruct (isAtomOccurrence _); auto;
    destruct (findCase _ _); auto;
    destruct (JsMap.get _ constructors); auto;
    now apply evaluateExprLogged_erase.
Qed.

Lemma exDoubleFunctions_selfContained :
  selfContainedRegistry exConstructors exDoubleFunctions.
Proof.
  intros k g H.
  change (JsMap.get k exDoubleFunctions)
    with (if String.eqb "double" k then Some exDouble else None) in H.
  destruct (String.eqb "double" k) eqn:E; [|discriminate].
  apply String.eqb_eq in E. subst k. injection H as <-.
  repeat split.
Qed.

(** C2 (as stated) fails in two ways.  [h], [f] and [g] all pass
    [checkTermination], and the evaluation of [h] on [S(S(Z))] returns no
    result, whatever the depth of calls allowed.  And [double], which calls
    itself twice on the same variable, passes [checkTermination] and makes
    seven calls from each of its two call sites on [S(S(S(Z)))], a term of
    size four. *)
Lemma evaluateFunc_bound_fails :
  (checkTermination exLoopH exConstructors exLoopFunctions = (true, None)
   /\ checkTermination exLoopF exConstructors exLoopFunctions = (true, None)
   /\ checkTermination exLoopG exConstructors exLoopFunctions = (true, None)
   /\ forall fuel,
        evaluateFuncFuel fuel exLoopFunctions exConstructors exLoopH (exSucc (exSucc exZero))
        = None)
  /\ (selfContainedRegistry exConstructors exDoubleFunctions
      /\ termArityOk exConstructors (exSucc (exSucc (exSucc exZero))) = true
      /\ termSize (exSucc (exSucc (exSucc exZero))) = 4
      /\ option_map
           (fun r => (fst r,
                      callsFrom ("double", "S", [0]) (snd r),
                      callsFrom ("double", "S", [1]) (snd r)))
           (evaluateFuncLogged 4 exDoubleFunctions exConstructors exDouble
              (exSucc (exSucc (exSucc exZero))))
         = Some (Some (V_num 8), 7, 7)).
Proof.
  split; [exact evaluateFunc_mutual_calls_diverge|].
  split; [exact exDoubleFunctions_selfContained|].
  repeat split.
Qed.

(* ================================================================== *)
(** * Further properties of the engine *)

(** ** Structural equality of terms *)

(** The loop of [termsEqual] over two argument lists of the same length. *)
Lemma termsEqual_unfold (t1 t2 : Term) :
  termsEqual t1 t2 =
  if flag (t_isVariable t1) || flag (t_isVariable t2) then
    optBoolEq (t_isVariable t1) (t_isVariable t2)
    && optStrEq (t_variableName t1) (t_variableName t2)
  else if negb (String.eqb (t_constructorId t1) (t_constructorId t2)) then false
  else if negb (Nat.eqb (length (t_args t1)) (length (t_args t2))) then false
  else forallb (fun xy => termsEqual (fst xy) (snd xy)) (combine (t_args t1) (t_args t2)).
Proof.
  destruct t1 as [c1 a1 v1 i1], t2 as [c2 a2 v2 i2]. simpl.
  destruct (flag i1 || flag i2); auto.
  destruct (negb (String.eqb c1 c2)); auto.
  destruct (negb (Nat.eqb (length a1) (length a2))) eqn:E; auto.
  apply negb_false_iff, Nat.eqb_eq in E.
  revert a2 E. induction a1 as [|x r1 IH]; intros [|y r2] E; simpl in *; try discriminate; auto.
  f_equal. apply IH. lia.
Qed.

Lemma optStrEq_eq (a b : option string) : optStrEq a b = true <-> a = b.
Proof.
  destruct a, b; simpl; split; try discriminate; auto.
  - intros H. apply String.eqb_eq in H. now subst.
  - intros [= ->]. apply String.eqb_refl.
Qed.

Lemma optBoolEq_eq (a b : option bool) : optBoolEq a b = true <-> a = b.
Proof. destruct a as [[]|], b as [[]|]; simpl; split; try discriminate; auto. Qed.

Lemma termsEqual_sym (t1 : Term) : forall t2, termsEqual t1 t2 = termsEqual t2 t1.
Proof.
  induction t1 as [c1 a1 v1 i1 IH] using Term_ind'. intros [c2 a2 v2 i2].
  rewrite !termsEqual_unfold. cbn [t_isVariable t_variableName t_constructorId t_args].
  rewrite (orb_comm (flag i2)).
  destruct (flag i1 || flag i2).
  - f_equal.
    + destruct i1 as [[]|], i2 as [[]|]; reflexivity.
    + destruct v1, v2; simpl; auto using String.eqb_sym.
  - rewrite (String.eqb_sym c2 c1), (Nat.eqb_sym (length a2)).
    destruct (negb (String.eqb c1 c2)); auto.
    destruct (negb (Nat.eqb (length a1) (length a2))); auto.
    clear - IH. revert a2. induction IH as [|x r Hx _ IHr]; intros [|y r2]; simpl; auto.
    now rewrite Hx, IHr.
Qed.

Lemma termsEqual_trans (t1 : Term) :
  forall t2 t3, termsEqual t1 t2 = true -> termsEqual t2 t3 = true -> termsEqual t1 t3 = true.
Proof.
  induction t1 as [c1 a1 v1 i1 IH] using Term_ind'. intros [c2 a2 v2 i2] [c3 a3 v3 i3].
  rewrite !termsEqual_unfold. cbn [t_isVariable t_variableName t_constructorId t_args].
  destruct (flag i1 || flag i2) eqn:E12.
  - intros H12. apply andb_true_iff in H12 as [Hi Hv].
    apply optBoolEq_eq in Hi. apply optStrEq_eq in Hv. subst i2 v2.
    rewrite orb_diag in E12.
    destruct (flag i1 || flag i3) eqn:E23; [auto|].
    rewrite E12 in E23. discriminate.
  - apply orb_false_iff in E12 as [E1 E2]. rewrite E1, E2. simpl.
    destruct (flag i3) eqn:E3.
    { intros _ H. apply andb_true_iff in H as [H _]. apply optBoolEq_eq in H. subst i3.
      congruence. }
    destruct (String.eqb c1 c2) eqn:Ec12; [|discriminate].
    destruct (Nat.eqb (length a1) (length a2)) eqn:El12; [|discriminate].
    destruct (String.eqb c2 c3) eqn:Ec23; [|discriminate].
    destruct (Nat.eqb (length a2) (length a3)) eqn:El23; [|discriminate].
    apply String.eqb_eq in Ec12, Ec23. apply Nat.eqb_eq in El12, El23. subst.
    rewrite String.eqb_refl, El12, El23, Nat.eqb_refl. simpl.
    revert a2 a3 El12 El23.
    induction IH as [|x r Hx _ IHr]; intros [|y r2] [|z r3]; simpl; auto; try discriminate.
    intros El12 El23 H1 H2. apply andb_true_iff in H1 as [H1 H1']. apply andb_true_iff in H2 as [H2 H2'].
    rewrite (Hx _ _ H1 H2). simpl. eauto.
Qed.

(** X1: [termsEqual] is an equivalence relation on terms: reflexive,
    symmetric and transitive. *)
Theorem termsEqual_equivalence :
  (forall t, termsEqual t t = true)
  /\ (forall t1 t2, termsEqual t1 t2 = true -> termsEqual t2 t1 = true)
  /\ (forall t1 t2 t3,
        termsEqual t1 t2 = true -> termsEqual t2 t3 = true -> termsEqual t1 t3 = true).
Proof.
  split; [apply termsEqual_refl|]. split.
  - intros t1 t2 H. now rewrite termsEqual_sym.
  - intros t1 t2 t3. apply termsEqual_trans.
Qed.

Lemma termsEqual_equivalence_witness :
  termsEqual (exSucc exZero) (exSucc exZero) = true.
Proof.
  apply (proj2 (proj2 termsEqual_equivalence) (exSucc exZero) (exSucc exZero) (exSucc exZero));
    reflexivity.
Defined.

(** ** Matching and substitution *)

Lemma substitutePattern_unfold (pc pm : option string) (pargs : list Pattern)
  (b : JsMap.t Term) :
  substitutePattern (mkPattern pc pm pargs) b =
  if truthy pm then JsMap.get (orElse pm "") b
  else if truthy pc then
    match substituteAll pargs b with
    | None => None
    | Some args => Some (mkTerm (orElse pc "") args None None)
    end
  else None.
Proof.
  simpl. destruct (truthy pm); auto. destruct (truthy pc); auto.
  match goal with
  | |- match ?L pargs with _ => _ end = _ => assert (E : L pargs = substituteAll pargs b)
  end.
  { induction pargs as [|q qs IH]; simpl; auto.
    destruct (substitutePattern q b); auto. now rewrite IH. }
  now rewrite E.
Qed.

Lemma matchPattern_unfold (term : Term) (pc pm : option string) (pargs : list Pattern) :
  matchPattern term (mkPattern pc pm pargs) =
  if truthy pm then Some (JsMap.set (orElse pm "") term JsMap.empty)
  else if truthy pc then
    if flag (t_isVariable term) then None
    else if negb (String.eqb (t_constructorId term) (orElse pc "")) then None
    else if negb (Nat.eqb (length (t_args term)) (length pargs)) then None
    else matchConclusion (t_args term) pargs JsMap.empty
  else None.
Proof.
  simpl. destruct (truthy pm); auto. destruct (truthy pc); auto.
  destruct (flag (t_isVariable term)); auto.
  destruct (negb (String.eqb (t_constructorId term) (orElse pc ""))); auto.
  destruct (negb (Nat.eqb (length (t_args term)) (length pargs))) eqn:E; auto.
  apply negb_false_iff, Nat.eqb_eq in E.
  generalize (@JsMap.empty Term). revert E. generalize (t_args term) as ts.
  induction pargs as [|q qs IH]; intros [|t ts] E acc; simpl in *; try discriminate; auto.
  destruct (matchPattern t q); auto.
  destruct (mergeBindings acc t0); auto.
Qed.

Lemma bindingsExtend_refl (m : JsMap.t Term) : bindingsExtend m m.
Proof. intros k v H. exists v. auto using termsEqual_refl. Qed.

Lemma bindingsExtend_trans (m1 m2 m3 : JsMap.t Term) :
  bindingsExtend m1 m2 -> bindingsExtend m2 m3 -> bindingsExtend m1 m3.
Proof.
  intros H12 H23 k v H. destruct (H12 _ _ H) as (v2 & H2 & E2).
  destruct (H23 _ _ H2) as (v3 & H3 & E3). exists v3. eauto using termsEqual_trans.
Qed.

Lemma mergeBindings_extends (argB : list (string * Term)) :
  forall acc merged,
    mergeBindings acc argB = Some merged ->
    bindingsExtend acc merged
    /\ forall k v, In (k, v) argB ->
                   exists v', JsMap.get k merged = Some v' /\ termsEqual v v' = true.
Proof.
  induction argB as [|[key value] rest IH]; intros acc merged; simpl.
  - intros [= <-]. split; [apply bindingsExtend_refl|]. intros k v [].
  - intros H.
    assert (Hstep : mergeBindings (JsMap.set key value acc) rest = Some merged
                    /\ bindingsExtend acc (JsMap.set key value acc)).
    { destruct (JsMap.get key acc) as [existing|] eqn:E.
      - destruct (termsEqual existing value) eqn:Eq; [|discriminate]. split; auto.
        intros k v Hk. destruct (String.eqb key k) eqn:Ek.
        + apply String.eqb_eq in Ek. subst k. rewrite JsMapFacts.get_set_eq.
          exists value. split; congruence.
        + apply String.eqb_neq in Ek. rewrite JsMapFacts.get_set_neq by auto.
          exists v. auto using termsEqual_refl.
      - split; auto. intros k v Hk. destruct (String.eqb key k) eqn:Ek.
        + apply String.eqb_eq in Ek. subst k. congruence.
        + apply String.eqb_neq in Ek. rewrite JsMapFacts.get_set_neq by auto.
          exists v. auto using termsEqual_refl. }
    destruct Hstep as [Hrest Hext].
    destruct (IH _ _ Hrest) as [Hacc Hin]. split.
    + eapply bindingsExtend_trans; eauto.
    + intros k v [[= <- <-]|Hkv]; auto.
      apply (Hacc key value). apply JsMapFacts.get_set_eq.
Qed.

Lemma termsEqual_mkTerm (c : string) (ts ts' : list Term) (t : Term) :
  flag (t_isVariable t) = false -> t_constructorId t = c -> t_args t = ts ->
  Forall2 (fun a b => termsEqual a b = true) ts ts' ->
  termsEqual t (mkTerm c ts' None None) = true.
Proof.
  intros Hf Hc Ha H. rewrite termsEqual_unfold. simpl. rewrite Hf, Hc, Ha. simpl.
  rewrite String.eqb_refl. simpl.
  rewrite (Forall2_length H), Nat.eqb_refl. simpl. clear Hf Hc Ha.
  induction H as [|x y xs ys Hxy _ IH]; simpl; auto. now rewrite Hxy.
Qed.

Lemma substitutePattern_extends (p : Pattern) :
  forall m m' t,
    substitutePattern p m = Some t -> bindingsExtend m m' ->
    exists t', substitutePattern p m' = Some t' /\ termsEqual t t' = true.
Proof.
  induction p as [pc pm pargs IH] using Pattern_ind'. intros m m' t.
  rewrite !substitutePattern_unfold. destruct (truthy pm).
  { intros H Hext. now apply Hext. }
  destruct (truthy pc); [|discriminate].
  destruct (substituteAll pargs m) as [args|] eqn:E; [|discriminate].
  intros [= <-] Hext.
  assert (Hall : exists args', substituteAll pargs m' = Some args'
                               /\ Forall2 (fun a b => termsEqual a b = true) args args').
  { revert args E. induction IH as [|q qs Hq _ IHqs]; intros args; simpl.
    - intros [= <-]. eauto.
    - destruct (substitutePattern q m) as [tq|] eqn:Eq; [|discriminate].
      destruct (substituteAll qs m) as [tqs|] eqn:Eqs; [|discriminate].
      intros [= <-]. destruct (Hq _ _ _ Eq Hext) as (tq' & -> & Htq).
      destruct (IHqs _ eq_refl) as (tqs' & -> & Htqs). eauto. }
  destruct Hall as (args' & -> & Hargs). eexists. split; [reflexivity|].
  now apply termsEqual_mkTerm with (ts := args).
Qed.

Lemma matchConclusion_substituteAll (ps : list Pattern) :
  Forall (fun p => forall t m, matchPattern t p = Some m ->
                     exists t', substitutePattern p m = Some t' /\ termsEqual t t' = true) ps ->
  forall ts acc m,
    length ts = length ps ->
    matchConclusion ts ps acc = Some m ->
    bindingsExtend acc m
    /\ exists ts', substituteAll ps m = Some ts'
                   /\ Forall2 (fun a b => termsEqual a b = true) ts ts'.
Proof.
  induction 1 as [|p ps Hp _ IH]; intros [|t ts] acc m Hlen; simpl in *; try discriminate.
  - intros [= <-]. split; [apply bindingsExtend_refl|]. eauto.
  - destruct (matchPattern t p) as [mb|] eqn:Emb; [|discriminate].
    destruct (mergeBindings acc mb) as [merged|] eqn:Emg; [|discriminate].
    intros Hm. destruct (IH ts merged m) as (Hext & ts' & Hts & Hall); auto.
    destruct (mergeBindings_extends _ _ _ Emg) as [Hacc Hin].
    split; [eapply bindingsExtend_trans; eauto|].
    destruct (Hp _ _ Emb) as (t0 & Ht0 & Et0).
    assert (Hmb : bindingsExtend mb m).
    { intros k v Hk. apply JsMapFacts.get_In, Hin in Hk as (v1 & Hv1 & E1).
      destruct (Hext _ _ Hv1) as (v2 & Hv2 & E2). eauto using termsEqual_trans. }
    destruct (substitutePattern_extends _ _ _ _ Ht0 Hmb) as (t1 & -> & Et1).
    rewrite Hts. eexists. split; [reflexivity|].
    constructor; eauto using termsEqual_trans.
Qed.

(** X2: when [matchPattern] succeeds, substituting the bindings it returns
    into the pattern succeeds and gives back a term structurally equal to
    the matched one. *)
Theorem matchPattern_substitutePattern (p : Pattern) (t : Term) (m : JsMap.t Term) :
  matchPattern t p = Some m ->
  exists t', substitutePattern p m = Some t' /\ termsEqual t t' = true.
Proof.
  revert t m. induction p as [pc pm pargs IH] using Pattern_ind'. intros t m.
  rewrite matchPattern_unfold, substitutePattern_unfold. destruct (truthy pm).
  { intros [= <-]. exists t. split; [simpl; now rewrite String.eqb_refl|apply termsEqual_refl]. }
  destruct (truthy pc); [|discriminate].
  destruct (flag (t_isVariable t)) eqn:Ef; [discriminate|].
  destruct (String.eqb (t_constructorId t) (orElse pc "")) eqn:Ec; [|discriminate].
  destruct (Nat.eqb (length (t_args t)) (length pargs)) eqn:El; [|discriminate].
  simpl. apply String.eqb_eq in Ec. apply Nat.eqb_eq in El. intros Hm.
  destruct (matchConclusion_substituteAll pargs IH _ _ _ El Hm) as (_ & ts' & -> & Hall).
  eexists. split; [reflexivity|].
  now apply termsEqual_mkTerm with (ts := t_args t).
Qed.

Lemma matchPattern_substitutePattern_witness :
  exists t', substitutePattern (exSuccPat (exMeta "x")) [("x", exZero)] = Some t'
             /\ termsEqual (exSucc exZero) t' = true.
Proof.
  apply (matchPattern_substitutePattern (exSuccPat (exMeta "x")) (exSucc exZero)).
  reflexivity.
Defined.

(** ** Derivation search *)

Lemma derivePremises_sound (recur : string -> list Term -> option Derivation)
  (P : string -> list Term -> Derivation -> Prop) (b : JsMap.t Term) :
  (forall j ts d, recur j ts = Some d -> P j ts d) ->
  forall premises ds,
    derivePremises recur premises b = Some ds ->
    Forall2 (fun premise d =>
               exists premiseTerms,
                 substituteAll (ji_args premise) b = Some premiseTerms
                 /\ P (ji_judgmentId premise) premiseTerms d)
            premises ds.
Proof.
  intros Hrec. induction premises as [|p ps IH]; intros ds; simpl.
  - intros [= <-]. constructor.
  - destruct (substituteAll (ji_args p) b) as [ts|] eqn:Ets; [|discriminate].
    destruct (recur (ji_judgmentId p) ts) as [d|] eqn:Ed; [|discriminate].
    destruct (derivePremises recur ps b) as [ds'|]; [|discriminate].
    intros [= <-]. constructor; eauto.
Qed.

Lemma tryRules_sound (recur : string -> list Term -> option Derivation)
  (j : string) (terms : list Term) (rs : list InferenceRule) (d : Derivation) :
  tryRules recur j terms rs = Some d ->
  exists rule b ds,
    In rule rs
    /\ length (ji_args (r_conclusion rule)) = length terms
    /\ matchConclusion terms (ji_args (r_conclusion rule)) JsMap.empty = Some b
    /\ derivePremises recur (r_premises rule) b = Some ds
    /\ d = mkDerivation (r_name rule) (r_id rule) (j, terms) ds.
Proof.
  induction rs as [|r rs IH]; simpl; [discriminate|].
  assert (Hrest : tryRules recur j terms rs = Some d ->
                  exists rule b ds,
                    (r = rule \/ In rule rs)
                    /\ length (ji_args (r_conclusion rule)) = length terms
                    /\ matchConclusion terms (ji_args (r_conclusion rule)) JsMap.empty = Some b
                    /\ derivePremises recur (r_premises rule) b = Some ds
                    /\ d = mkDerivation (r_name rule) (r_id rule) (j, terms) ds).
  { intros H. destruct (IH H) as (rule & b & ds & Hin & Hrule). exists rule, b, ds. tauto. }
  destruct (Nat.eqb (length (ji_args (r_conclusion r))) (length terms)) eqn:El; simpl; auto.
  destruct (matchConclusion terms (ji_args (r_conclusion r)) JsMap.empty) as [b|] eqn:Em; auto.
  destruct (derivePremises recur (r_premises r) b) as [ds|] eqn:Ed; auto.
  intros [= <-]. apply Nat.eqb_eq in El. exists r, b, ds. auto 10.
Qed.

Lemma getRulesForJudgment_In (rules : JsMap.t InferenceRule) (j : string)
  (rule : InferenceRule) :
  In rule (getRulesForJudgment rules j) <->
  In rule (JsMap.values rules)
  /\ ji_judgmentId (r_conclusion rule) = j /\ isRuleComplete rule = true.
Proof.
  unfold getRulesForJudgment. rewrite filter_In, andb_true_iff, String.eqb_eq. tauto.
Qed.

Lemma buildDerivationAux_sound (rules : JsMap.t InferenceRule) (fuel : nat) :
  forall j ts depth d,
    buildDerivationAux fuel rules j ts depth = Some d ->
    d_conclusion d = (j, ts)
    /\ validDerivation rules d
    /\ derivationHeight d + depth <= 11.
Proof.
  induction fuel as [|fuel IH]; intros j ts depth d; [discriminate|].
  rewrite buildDerivationAux_step.
  destruct (Nat.ltb 10 depth) eqn:Edepth; [discriminate|].
  apply Nat.ltb_ge in Edepth.
  intros H. apply tryRules_sound in H as (rule & b & ds & Hin & Hlen & Hm & Hds & ->).
  apply getRulesForJudgment_In in Hin as (Hin & Hj & Hc).
  apply (derivePremises_sound _
           (fun j ts d => d_conclusion d = (j, ts) /\ validDerivation rules d
                          /\ derivationHeight d + (depth + 1) <= 11)) in Hds;
    [|intros j' ts' d'; apply IH].
  split; [reflexivity|]. split.
  - apply valid_node with (allBindings := b); auto.
    eapply Forall2_impl; [|exact Hds]. cbv beta.
    intros p d (pts & Hp & Hd & Hv & _). eauto.
  - simpl. assert (Hmax : list_max (map derivationHeight ds) + (depth + 1) <= 11).
    { clear - Hds Edepth. induction Hds as [|p d ps ds (pts & _ & _ & _ & Hh) _ IHds]; simpl; lia. }
    lia.
Qed.

(** X3: a derivation returned by [buildDerivation] concludes the judgment
    and the terms asked for, and is justified by the rules: every node uses
    a complete rule of the registry whose conclusion matches the node, and
    its children derive the instantiated premises of that rule in order. *)
Theorem buildDerivation_sound (rules : JsMap.t InferenceRule) (judgmentId : string)
  (terms : list Term) (d : Derivation) :
  buildDerivation rules judgmentId terms = Some d ->
  d_conclusion d = (judgmentId, terms) /\ validDerivation rules d.
Proof.
  intros H. apply buildDerivationAux_sound in H. tauto.
Qed.

(** X4: the depth limit of [buildDerivation] bounds its results: a
    derivation it returns has height at most 11. *)
Theorem buildDerivation_height (rules : JsMap.t InferenceRule) (judgmentId : string)
  (terms : list Term) (d : Derivation) :
  buildDerivation rules judgmentId terms = Some d -> derivationHeight d <= 11.
Proof.
  intros H. apply buildDerivationAux_sound in H. lia.
Qed.

Lemma buildDerivation_sound_witness :
  d_conclusion (peanoEvenTwo "Z" "S" "even" "odd" "r1" "r2" "r3")
  = ("even", [exSucc (exSucc exZero)])
  /\ validDerivation exRules (peanoEvenTwo "Z" "S" "even" "odd" "r1" "r2" "r3").
Proof.
  apply (buildDerivation_sound exRules "even" [exSucc (exSucc exZero)]). reflexivity.
Defined.

Lemma buildDerivation_height_witness :
  derivationHeight (peanoEvenTwo "Z" "S" "even" "odd" "r1" "r2" "r3") <= 11.
Proof.
  apply (buildDerivation_height exRules "even" [exSucc (exSucc exZero)]). reflexivity.
Defined.

Lemma canDeriveAux_step (fuel : nat) (rules : JsMap.t InferenceRule)
  (judgmentId : string) (terms : list Term) (depth : nat) :
  canDeriveAux (S fuel) rules judgmentId terms depth
  = if Nat.ltb 5 depth then mkCanDeriveResult false None
    else canDeriveRules (fun j ts => canDeriveAux fuel rules j ts (depth + 1))
                        terms (getRulesForJudgment rules judgmentId).
Proof. reflexivity. Qed.

Lemma premisesSatisfied_ext (r1 r2 : string -> list Term -> CanDeriveResult)
  (premises : list JudgmentInstance) (b : JsMap.t Term) :
  (forall j ts, r1 j ts = r2 j ts) ->
  premisesSatisfied r1 premises b = premisesSatisfied r2 premises b.
Proof.
  intros H. induction premises as [|p ps IH]; simpl; auto.
  destruct (substituteAll (ji_args p) b); auto. now rewrite H, IH.
Qed.

Lemma canDeriveRules_ext (r1 r2 : string -> list Term -> CanDeriveResult)
  (ts : list Term) (rs : list InferenceRule) :
  (forall j ts, r1 j ts = r2 j ts) -> canDeriveRules r1 ts rs = canDeriveRules r2 ts rs.
Proof.
  intros H. induction rs as [|r rs IH]; simpl; auto.
  rewrite IH. destruct (negb _); auto.
  destruct (matchConclusion _ _ _); auto.
  now rewrite (premisesSatisfied_ext r1 r2 _ _ H).
Qed.

(** The fuel of [canDeriveAux] is never the reason of a failure once it
    covers the depth bound: [canDerive] runs with fuel 7 at depth 0. *)
Lemma canDeriveAux_fuel (rules : JsMap.t InferenceRule) (fuel1 : nat) :
  forall fuel2 j ts depth,
    6 < fuel1 + depth -> 6 < fuel2 + depth ->
    canDeriveAux fuel1 rules j ts depth = canDeriveAux fuel2 rules j ts depth.
Proof.
  induction fuel1 as [|f1 IH]; intros [|f2] j ts depth H1 H2; simpl; auto.
  - assert (E : Nat.ltb 5 depth = true) by (apply Nat.ltb_lt; lia). now rewrite E.
  - assert (E : Nat.ltb 5 depth = true) by (apply Nat.ltb_lt; lia). now rewrite E.
  - destruct (Nat.ltb 5 depth) eqn:E; auto.
    apply canDeriveRules_ext. intros j' ts'. apply IH; lia.
Qed.

Lemma premisesSatisfied_derivePremises
  (recurC : string -> list Term -> CanDeriveResult)
  (recurB : string -> list Term -> option Derivation) (b : JsMap.t Term) :
  (forall j ts, derivable (recurC j ts) = true -> exists d, recurB j ts = Some d) ->
  forall premises,
    premisesSatisfied recurC premises b = true ->
    exists ds, derivePremises recurB premises b = Some ds.
Proof.
  intros Hrec. induction premises as [|p ps IH]; simpl; eauto.
  destruct (substituteAll (ji_args p) b) as [ts|]; [|discriminate].
  destruct (derivable (recurC (ji_judgmentId p) ts)) eqn:Ed; [|discriminate]. simpl.
  intros H. destruct (Hrec _ _ Ed) as (d & ->). destruct (IH H) as (ds & ->). eauto.
Qed.

Lemma canDeriveRules_tryRules
  (recurC : string -> list Term -> CanDeriveResult)
  (recurB : string -> list Term -> option Derivation) (j : string) (terms : list Term) :
  (forall j ts, derivable (recurC j ts) = true -> exists d, recurB j ts = Some d) ->
  forall rs,
    derivable (canDeriveRules recurC terms rs) = true ->
    exists d, tryRules recurB j terms rs = Some d.
Proof.
  intros Hrec. induction rs as [|r rs IH]; simpl; [discriminate|].
  destruct (negb (Nat.eqb (length (ji_args (r_conclusion r))) (length terms))); auto.
  destruct (matchConclusion terms (ji_args (r_conclusion r)) JsMap.empty) as [b|]; auto.
  destruct (premisesSatisfied recurC (r_premises r) b) eqn:Ep.
  - intros _. destruct (premisesSatisfied_derivePremises _ _ _ Hrec _ Ep) as (ds & ->). eauto.
  - intros H. destruct (derivePremises recurB (r_premises r) b); eauto.
Qed.

Lemma canDeriveAux_buildDerivationAux (rules : JsMap.t InferenceRule) (fuelC : nat) :
  forall fuelB j ts depthC depthB,
    fuelC <= fuelB -> depthB <= depthC + 5 ->
    derivable (canDeriveAux fuelC rules j ts depthC) = true ->
    exists d, buildDerivationAux fuelB rules j ts depthB = Some d.
Proof.
  induction fuelC as [|fc IH]; intros fb j ts dc db Hf Hd; [discriminate|].
  destruct fb as [|fb]; [lia|].
  rewrite canDeriveAux_step, buildDerivationAux_step.
  destruct (Nat.ltb 5 dc) eqn:Edc; [discriminate|]. apply Nat.ltb_ge in Edc.
  assert (Edb : Nat.ltb 10 db = false) by (apply Nat.ltb_ge; lia). rewrite Edb.
  apply canDeriveRules_tryRules. intros j' ts'. apply IH; lia.
Qed.

Lemma derivePremises_premisesSatisfied
  (recurC : string -> list Term -> CanDeriveResult)
  (recurB : string -> list Term -> option Derivation) (b : JsMap.t Term) (h : nat) :
  (forall j ts d, recurB j ts = Some d -> derivationHeight d <= h ->
                  derivable (recurC j ts) = true) ->
  forall premises ds,
    derivePremises recurB premises b = Some ds ->
    list_max (map derivationHeight ds) <= h ->
    premisesSatisfied recurC premises b = true.
Proof.
  intros Hrec. induction premises as [|p ps IH]; intros ds; simpl; auto.
  destruct (substituteAll (ji_args p) b) as [ts|]; [|discriminate].
  destruct (recurB (ji_judgmentId p) ts) as [d|] eqn:Ed; [|discriminate].
  destruct (derivePremises recurB ps b) as [ds'|]; [|discriminate].
  intros [= <-]. simpl. intros Hh.
  rewrite (Hrec _ _ _ Ed) by lia. simpl. apply (IH ds'); auto. lia.
Qed.

Lemma tryRules_canDeriveRules
  (recurC : string -> list Term -> CanDeriveResult)
  (recurB : string -> list Term -> option Derivation) (j : string) (terms : list Term)
  (h : nat) :
  (forall j ts, derivable (recurC j ts) = true -> exists d, recurB j ts = Some d) ->
  (forall j ts d, recurB j ts = Some d -> derivationHeight d <= h ->
                  derivable (recurC j ts) = true) ->
  forall rs d,
    tryRules recurB j terms rs = Some d ->
    derivationHeight d <= S h ->
    canDeriveRules recurC terms rs = mkCanDeriveResult true (Some (d_ruleName d)).
Proof.
  intros Hfw Hbw. induction rs as [|r rs IH]; intros d; simpl; [discriminate|].
  destruct (negb (Nat.eqb (length (ji_args (r_conclusion r))) (length terms))); auto.
  destruct (matchConclusion terms (ji_args (r_conclusion r)) JsMap.empty) as [b|]; auto.
  destruct (derivePremises recurB (r_premises r) b) as [ds|] eqn:Eds.
  - intros [= <-]. simpl. intros Hh.
    rewrite (derivePremises_premisesSatisfied _ _ _ h Hbw _ _ Eds) by lia. reflexivity.
  - destruct (premisesSatisfied recurC (r_premises r) b) eqn:Ep; auto.
    destruct (premisesSatisfied_derivePremises _ _ _ Hfw _ Ep) as (ds & Hds). congruence.
Qed.

Lemma buildDerivationAux_canDeriveAux (rules : JsMap.t InferenceRule) (fuelB : nat) :
  forall fuelC j ts depthC depthB d,
    fuelC <= fuelB -> depthB <= depthC + 5 ->
    buildDerivationAux fuelB rules j ts depthB = Some d ->
    derivationHeight d <= fuelC -> derivationHeight d + depthC <= 6 ->
    canDeriveAux fuelC rules j ts depthC = mkCanDeriveResult true (Some (d_ruleName d)).
Proof.
  induction fuelB as [|fb IH]; intros fc j ts dc db d Hf Hd; [discriminate|].
  rewrite buildDerivationAux_step.
  destruct (Nat.ltb 10 db) eqn:Edb; [discriminate|].
  intros Hb Hfc Hh.
  assert (Hpos : 1 <= derivationHeight d) by (destruct d; simpl; lia).
  destruct fc as [|fc]; [lia|].
  rewrite canDeriveAux_step.
  assert (Edc : Nat.ltb 5 dc = false) by (apply Nat.ltb_ge; lia). rewrite Edc.
  apply (tryRules_canDeriveRules
           (fun j ts => canDeriveAux fc rules j ts (dc + 1))
           (fun j ts => buildDerivationAux fb rules j ts (db + 1))
           j ts (Nat.min fc (5 - dc))); auto.
  - intros j' ts'. apply canDeriveAux_buildDerivationAux; lia.
  - intros j' ts' d' Hd' Hh'.
    rewrite (IH fc j' ts' (dc + 1) (db + 1) d'); auto; lia.
  - lia.
Qed.

(** X5: the derivability test [canDerive] of the examples (depth limit 5)
    and the derivation search [buildDerivation] (depth limit 10) agree as far
    as the smaller limit allows: whenever [canDerive] answers yes,
    [buildDerivation] finds a derivation; and whenever [buildDerivation]
    returns a derivation of height at most 6, [canDerive] answers yes and
    names the rule at its root. *)
Theorem canDerive_buildDerivation (rules : JsMap.t InferenceRule) (judgmentId : string)
  (terms : list Term) :
  (derivable (canDerive rules judgmentId terms) = true ->
   exists d, buildDerivation rules judgmentId terms = Some d)
  /\ (forall d,
        buildDerivation rules judgmentId terms = Some d ->
        derivationHeight d <= 6 ->
        canDerive rules judgmentId terms = mkCanDeriveResult true (Some (d_ruleName d))).
Proof.
  split.
  - apply canDeriveAux_buildDerivationAux; lia.
  - intros d Hd Hh. apply (buildDerivationAux_canDeriveAux rules 12 7 _ _ 0 0 d); auto; lia.
Qed.

Lemma canDerive_buildDerivation_witness :
  (exists d, buildDerivation exRules "even" [exSucc (exSucc exZero)] = Some d)
  /\ canDerive exRules "even" [exSucc (exSucc exZero)]
     = mkCanDeriveResult true (Some "E-Succ").
Proof.
  destruct (canDerive_buildDerivation exRules "even" [exSucc (exSucc exZero)]) as [H1 H2].
  split.
  - apply H1. reflexivity.
  - apply (H2 (peanoEvenTwo "Z" "S" "even" "odd" "r1" "r2" "r3")); [reflexivity|simpl; lia].
Defined.

(** ** Overlap of patterns and syntax-directedness *)

Lemma patternsCanOverlap_unfold (p1 p2 : Pattern) :
  patternsCanOverlap p1 p2 =
  if truthy (p_metaVariableId p1) || truthy (p_metaVariableId p2) then true
  else if truthy (p_constructorId p1) && truthy (p_constructorId p2)
          && negb (optStrEq (p_constructorId p1) (p_constructorId p2)) then false
  else if optStrEq (p_constructorId p1) (p_constructorId p2)
  then forallb (fun ab => patternsCanOverlap (fst ab) (snd ab))
               (combine (p_args p1) (p_args p2))
  else true.
Proof.
  destruct p1 as [c1 m1 a1], p2 as [c2 m2 a2]. simpl.
  destruct (truthy m1 || truthy m2); auto.
  destruct (truthy c1 && truthy c2 && negb (optStrEq c1 c2)); auto.
  destruct (optStrEq c1 c2); auto.
  revert a2. induction a1 as [|x r1 IH]; intros [|y r2]; simpl; auto.
  destruct (patternsCanOverlap x y); simpl; auto.
Qed.

Lemma optStrEq_sym (a b : option string) : optStrEq a b = optStrEq b a.
Proof. destruct a, b; simpl; auto using String.eqb_sym. Qed.

(** X6: [patternsCanOverlap] is symmetric: the order of the two rules of a
    pair does not change whether a position is reported. *)
Theorem patternsCanOverlap_sym (p1 : Pattern) :
  forall p2, patternsCanOverlap p1 p2 = patternsCanOverlap p2 p1.
Proof.
  induction p1 as [c1 m1 a1 IH] using Pattern_ind'. intros [c2 m2 a2].
  rewrite !patternsCanOverlap_unfold. cbn [p_metaVariableId p_constructorId p_args].
  rewrite (orb_comm (truthy m2)), (andb_comm (truthy c2)), (optStrEq_sym c2 c1).
  destruct (truthy m1 || truthy m2); auto.
  destruct (truthy c1 && truthy c2 && negb (optStrEq c1 c2)); auto.
  destruct (optStrEq c1 c2); auto.
  revert a2. induction IH as [|x r Hx _ IHr]; intros [|y r2]; simpl; auto.
  now rewrite Hx, IHr.
Qed.

Lemma matchConclusion_Forall2 (ts : list Term) :
  forall ps acc m,
    length ts = length ps ->
    matchConclusion ts ps acc = Some m ->
    Forall2 (fun t p => exists mb, matchPattern t p = Some mb) ts ps.
Proof.
  induction ts as [|t ts IH]; intros [|p ps] acc m Hlen; simpl in *; try discriminate.
  - constructor.
  - destruct (matchPattern t p) as [mb|] eqn:Emb; [|discriminate].
    destruct (mergeBindings acc mb) as [merged|]; [|discriminate].
    intros H. constructor; eauto.
Qed.

Lemma truthy_orElse (a b : option string) :
  truthy a = true -> truthy b = true -> orElse a "" = orElse b "" -> optStrEq a b = true.
Proof.
  destruct a as [x|], b as [y|]; simpl; try discriminate.
  destruct (String.eqb x "") eqn:Ex; [discriminate|].
  destruct (String.eqb y "") eqn:Ey; [discriminate|].
  intros _ _ ->. apply String.eqb_refl.
Qed.

Lemma patternsCanOverlap_matches (p1 : Pattern) :
  forall p2 t m1 m2,
    matchPattern t p1 = Some m1 -> matchPattern t p2 = Some m2 ->
    patternsCanOverlap p1 p2 = true.
Proof.
  induction p1 as [c1 m1 a1 IH] using Pattern_ind'. intros [c2 m2 a2] t b1 b2.
  rewrite !matchPattern_unfold, patternsCanOverlap_unfold.
  cbn [p_metaVariableId p_constructorId p_args].
  destruct (truthy m1); [reflexivity|]. destruct (truthy m2); [reflexivity|]. simpl.
  destruct (truthy c1) eqn:Ec1; [|discriminate].
  destruct (truthy c2) eqn:Ec2; [|discriminate].
  destruct (flag (t_isVariable t)); [discriminate|].
  destruct (String.eqb (t_constructorId t) (orElse c1 "")) eqn:E1; [|discriminate].
  destruct (String.eqb (t_constructorId t) (orElse c2 "")) eqn:E2; [|discriminate].
  destruct (Nat.eqb (length (t_args t)) (length a1)) eqn:L1; [|discriminate].
  destruct (Nat.eqb (length (t_args t)) (length a2)) eqn:L2; [|discriminate].
  simpl. apply String.eqb_eq in E1, E2. apply Nat.eqb_eq in L1, L2.
  rewrite (truthy_orElse c1 c2) by congruence. simpl.
  intros H1 H2.
  apply matchConclusion_Forall2 in H1; auto. apply matchConclusion_Forall2 in H2; auto.
  clear - IH H1 H2. revert a2 H2.
  induction H1 as [|t0 p ts ps (mb & Hp) _ IHps]; intros [|q qs] H2; simpl; auto.
  inversion IH as [|? ? Hhead Htail]; subst.
  inversion H2 as [|? ? ? ? (mb' & Hq) Hrest]; subst.
  rewrite (Hhead _ _ _ _ Hp Hq). simpl. auto.
Qed.

(** X7: [patternsCanOverlap] errs on the safe side only: two patterns that
    both match some term are always reported as overlapping. *)
Theorem patternsCanOverlap_sound (p1 : Pattern) :
  forall p2 t m1 m2,
    matchPattern t p1 = Some m1 -> matchPattern t p2 = Some m2 ->
    patternsCanOverlap p1 p2 = true.
Proof. exact (patternsCanOverlap_matches p1). Qed.

Lemma patternsCanOverlap_sound_witness :
  patternsCanOverlap (exSuccPat (exMeta "n")) (exSuccPat (exSuccPat (exMeta "m"))) = true.
Proof.
  apply (patternsCanOverlap_sound _ _ (exSucc (exSucc exZero))
           [("n", exSucc exZero)] [("m", exZero)]); reflexivity.
Defined.

Lemma overlapsOfPair_nil (rule1 rule2 : InferenceRule) (args1 : list Pattern) :
  forall pos,
    overlapsOfPair rule1 rule2 pos args1 = Some [] ->
    forall i p1,
      nth_error args1 i = Some p1 ->
      exists p2, nth_error (ji_args (r_conclusion rule2)) (pos + i) = Some p2
                 /\ patternsCanOverlap p1 p2 = false.
Proof.
  induction args1 as [|p rest IH]; intros pos; simpl.
  - intros _ [|i] p1; discriminate.
  - destruct (patternsCanOverlapAt p (nth_error (ji_args (r_conclusion rule2)) pos))
      as [b|] eqn:Eat; [|discriminate].
    destruct (overlapsOfPair rule1 rule2 (S pos) rest) as [more|] eqn:Emore; [|discriminate].
    destruct b; [discriminate|]. intros [= ->] [|i] p1; simpl.
    + intros [= <-]. rewrite Nat.add_0_r. unfold patternsCanOverlapAt in Eat.
      destruct (nth_error (ji_args (r_conclusion rule2)) pos) as [p2|].
      * injection Eat as Eat. eauto.
      * destruct (truthy (p_metaVariableId p)); discriminate.
    + intros Hi. destruct (IH _ Emore _ _ Hi) as (p2 & Hp2 & Hov).
      exists p2. split; auto. now rewrite Nat.add_succ_r.
Qed.

Lemma overlapsWith_nil (rule1 : InferenceRule) (later : list InferenceRule) :
  overlapsWith rule1 later = Some [] ->
  forall rule2, In rule2 later ->
                overlapsOfPair rule1 rule2 0 (ji_args (r_conclusion rule1)) = Some [].
Proof.
  induction later as [|r rs IH]; simpl; [intros _ ? []|].
  destruct (overlapsOfPair rule1 r 0 (ji_args (r_conclusion rule1))) as [here|] eqn:Eh;
    [|discriminate].
  destruct (overlapsWith rule1 rs) as [more|]; [|discriminate].
  intros [= H]. apply app_eq_nil in H as [-> ->]. intros rule2 [<-|Hin]; auto.
Qed.

Lemma overlapsOfRules_nil (relevantRules : list InferenceRule) :
  overlapsOfRules relevantRules = Some [] ->
  forall l1 rule1 l2, relevantRules = l1 ++ rule1 :: l2 -> overlapsWith rule1 l2 = Some [].
Proof.
  induction relevantRules as [|r rs IH]; simpl.
  - intros _ [|? ?] ? ?; discriminate.
  - destruct (overlapsWith r rs) as [here|] eqn:Eh; [|discriminate].
    destruct (overlapsOfRules rs) as [more|]; [|discriminate].
    intros [= H]. apply app_eq_nil in H as [-> ->].
    intros [|x l1] rule1 l2; simpl; intros [= -> ->]; eauto.
Qed.

Lemma matchConclusion_head (t : Term) (ts : list Term) (p : Pattern) (ps : list Pattern)
  (acc m : JsMap.t Term) :
  matchConclusion (t :: ts) (p :: ps) acc = Some m -> exists mb, matchPattern t p = Some mb.
Proof. simpl. destruct (matchPattern t p); [eauto|discriminate]. Qed.

(** X8: a judgment that [analyzesSyntaxDirected] reports as syntax-directed
    has deterministic rule selection: if the conclusion of one of its rules
    matches a non-empty tuple of terms, the conclusion of no later rule of
    the judgment in the list matches that tuple. *)
Theorem analyzesSyntaxDirected_sound (judgment : Judgment) (rules : list InferenceRule)
  (analysis : SyntaxDirectedAnalysis) (l1 l2 l3 : list InferenceRule)
  (rule1 rule2 : InferenceRule) (terms : list Term) (b1 : JsMap.t Term) :
  analyzesSyntaxDirected judgment rules = Some analysis ->
  isSyntaxDirected analysis = true ->
  rules = l1 ++ rule1 :: l2 ++ rule2 :: l3 ->
  ji_judgmentId (r_conclusion rule1) = j_id judgment ->
  ji_judgmentId (r_conclusion rule2) = j_id judgment ->
  terms <> [] ->
  matchConclusion terms (ji_args (r_conclusion rule1)) JsMap.empty = Some b1 ->
  matchConclusion terms (ji_args (r_conclusion rule2)) JsMap.empty = None.
Proof.
  unfold analyzesSyntaxDirected. intros Ha Hsd -> Hj1 Hj2 Hne Hm1.
  destruct (overlapsOfRules _) as [ovs|] eqn:Eov; [|discriminate].
  injection Ha as <-. simpl in Hsd. apply Nat.eqb_eq, length_zero_iff_nil in Hsd. subst ovs.
  set (keep := fun r => String.eqb (ji_judgmentId (r_conclusion r)) (j_id judgment)) in *.
  assert (K1 : keep rule1 = true) by (unfold keep; rewrite Hj1; apply String.eqb_refl).
  assert (K2 : keep rule2 = true) by (unfold keep; rewrite Hj2; apply String.eqb_refl).
  rewrite filter_app in Eov. simpl in Eov. rewrite K1, filter_app in Eov. simpl in Eov.
  rewrite K2 in Eov.
  pose proof (overlapsOfRules_nil _ Eov _ _ _ eq_refl) as Hw.
  pose proof (overlapsWith_nil _ _ Hw rule2) as Hp.
  specialize (Hp ltac:(apply in_or_app; right; now left)).
  destruct terms as [|t ts]; [congruence|].
  destruct (ji_args (r_conclusion rule1)) as [|p1 ps1] eqn:E1; [discriminate|].
  destruct (overlapsOfPair_nil _ _ _ _ Hp 0 p1 eq_refl) as (p2 & Hp2 & Hno).
  destruct (ji_args (r_conclusion rule2)) as [|q qs] eqn:E2; [discriminate|].
  injection Hp2 as ->.
  destruct (matchConclusion (t :: ts) (p2 :: qs) JsMap.empty) as [b2|] eqn:Hm2; auto.
  apply matchConclusion_head in Hm1 as (mb1 & Hmb1).
  apply matchConclusion_head in Hm2 as (mb2 & Hmb2).
  rewrite (patternsCanOverlap_matches _ _ _ _ _ Hmb1 Hmb2) in Hno. discriminate.
Qed.

Lemma analyzesSyntaxDirected_sound_witness :
  matchConclusion [exZero] (ji_args (r_conclusion (peanoESucc "S" "even" "odd" "n" "r2" "c2" "p2")))
                  JsMap.empty = None.
Proof.
  apply (analyzesSyntaxDirected_sound
           (mkJudgment "even" "even" "even" [""; " even"] [("nat", "n")] "#f472b6")
           [peanoEZero "Z" "even" "r1" "c1"; peanoESucc "S" "even" "odd" "n" "r2" "c2" "p2"]
           (mkSyntaxDirectedAnalysis true [])
           [] [] [] (peanoEZero "Z" "even" "r1" "c1")
           (peanoESucc "S" "even" "odd" "n" "r2" "c2" "p2") [exZero] []);
    try reflexivity.
  discriminate.
Defined.

Lemma overlapsOfPair_some (rule1 rule2 : InferenceRule) (args1 : list Pattern) :
  forall pos,
    pos + length args1 <= length (ji_args (r_conclusion rule2)) ->
    exists ovs, overlapsOfPair rule1 rule2 pos args1 = Some ovs.
Proof.
  induction args1 as [|p rest IH]; intros pos Hlen; simpl in *; eauto.
  destruct (nth_error (ji_args (r_conclusion rule2)) pos) as [p2|] eqn:E.
  - simpl. destruct (IH (S pos)) as (more & ->); [lia|]. eauto.
  - apply nth_error_None in E. lia.
Qed.

Lemma overlapsOfPair_throws (rule1 rule2 : InferenceRule) (args1 : list Pattern) :
  forall pos i p1,
    nth_error args1 i = Some p1 ->
    truthy (p_metaVariableId p1) = false ->
    length (ji_args (r_conclusion rule2)) <= pos + i ->
    overlapsOfPair rule1 rule2 pos args1 = None.
Proof.
  induction args1 as [|p rest IH]; intros pos [|i] p1; simpl; try discriminate.
  - intros [= <-] Hm Hlen. rewrite Nat.add_0_r in Hlen.
    apply nth_error_None in Hlen. rewrite Hlen. simpl. now rewrite Hm.
  - intros Hi Hm Hlen. rewrite (IH (S pos) i p1); auto; [|lia].
    now destruct (patternsCanOverlapAt _ _).
Qed.

(** X9: [analyzesSyntaxDirected] returns a result whenever the rules of the
    judgment all have the same number of conclusion arguments; it throws (a
    [TypeError], here [None]) on two rules of the judgment when the first has
    a pattern that is not a meta-variable at the position just past the
    arguments of the second. *)
Theorem analyzesSyntaxDirected_arity (judgment : Judgment) (rules : list InferenceRule) :
  (forall n,
     (forall r, In r rules -> ji_judgmentId (r_conclusion r) = j_id judgment ->
                length (ji_args (r_conclusion r)) = n) ->
     exists analysis, analyzesSyntaxDirected judgment rules = Some analysis)
  /\ (forall rule1 rule2 p1,
        ji_judgmentId (r_conclusion rule1) = j_id judgment ->
        ji_judgmentId (r_conclusion rule2) = j_id judgment ->
        nth_error (ji_args (r_conclusion rule1)) (length (ji_args (r_conclusion rule2)))
        = Some p1 ->
        truthy (p_metaVariableId p1) = false ->
        rules = [rule1; rule2] ->
        analyzesSyntaxDirected judgment rules = None).
Proof.
  unfold analyzesSyntaxDirected. split.
  - intros n Hn.
    set (keep := fun r => String.eqb (ji_judgmentId (r_conclusion r)) (j_id judgment)).
    assert (Hrel : Forall (fun r => length (ji_args (r_conclusion r)) = n) (filter keep rules)).
    { apply Forall_forall. intros r Hr. apply filter_In in Hr as [Hin Hk].
      apply Hn; auto. now apply String.eqb_eq. }
    assert (Hov : exists ovs, overlapsOfRules (filter keep rules) = Some ovs).
    { induction Hrel as [|r rs Hr Hrs IH]; simpl; eauto.
      assert (Hw : exists here, overlapsWith r rs = Some here).
      { clear IH. induction Hrs as [|r2 rs2 Hr2 _ IH2]; simpl; eauto.
        destruct (overlapsOfPair_some r r2 (ji_args (r_conclusion r)) 0) as (h & ->);
          [simpl; lia|].
        destruct IH2 as (m & ->). eauto. }
      destruct Hw as (here & ->). destruct IH as (more & ->). eauto. }
    destruct Hov as (ovs & ->). eauto.
  - intros rule1 rule2 p1 Hj1 Hj2 Hnth Hm ->. simpl.
    rewrite Hj1, Hj2, String.eqb_refl. simpl.
    now rewrite (overlapsOfPair_throws rule1 rule2 _ 0 _ p1 Hnth Hm) by (simpl; lia).
Qed.

Lemma analyzesSyntaxDirected_arity_witness :
  (exists analysis, analyzesSyntaxDirected exJudgment2 [exRuleZ; exRuleS] = Some analysis)
  /\ analyzesSyntaxDirected exJudgment2
       [exRuleZ;
        mkInferenceRule "r2" "R-Short" [] [] (mkJudgmentInstance "c2" "J" []) (0, 0)%Z]
     = None.
Proof.
  split.
  - apply (proj1 (analyzesSyntaxDirected_arity exJudgment2 [exRuleZ; exRuleS]) 2).
    intros r [<-|[<-|[]]] _; reflexivity.
  - apply (proj2 (analyzesSyntaxDirected_arity exJudgment2 _) exRuleZ
             (mkInferenceRule "r2" "R-Short" [] [] (mkJudgmentInstance "c2" "J" []) (0, 0)%Z)
             exZeroPat); reflexivity.
Defined.

(** ** What derivation search reads of a rule *)

Lemma tryRules_map (g : InferenceRule -> InferenceRule)
  (recur : string -> list Term -> option Derivation) (j : string) (ts : list Term) :
  (forall r, r_id (g r) = r_id r /\ r_name (g r) = r_name r
             /\ r_premises (g r) = r_premises r /\ r_conclusion (g r) = r_conclusion r) ->
  forall rs, tryRules recur j ts (map g rs) = tryRules recur j ts rs.
Proof.
  intros Hg. induction rs as [|r rs IH]; simpl; auto.
  destruct (Hg r) as (-> & -> & -> & ->). now rewrite IH.
Qed.

Lemma getRulesForJudgment_map (g : InferenceRule -> InferenceRule)
  (rules : JsMap.t InferenceRule) (j : string) :
  (forall r, r_id (g r) = r_id r /\ r_name (g r) = r_name r
             /\ r_premises (g r) = r_premises r /\ r_conclusion (g r) = r_conclusion r) ->
  getRulesForJudgment (map (fun e => (fst e, g (snd e))) rules) j
  = map g (getRulesForJudgment rules j).
Proof.
  intros Hg. unfold getRulesForJudgment, JsMap.values. rewrite map_map. simpl.
  induction rules as [|[k r] rules IH]; simpl; auto.
  destruct (Hg r) as (_ & _ & Hp & Hc). unfold isRuleComplete at 1. rewrite Hp, Hc.
  fold (isRuleComplete r).
  destruct (String.eqb (ji_judgmentId (r_conclusion r)) j && isRuleComplete r); simpl;
    now rewrite IH.
Qed.

(** X10: [buildDerivation] reads only the id, the name, the premises and
    the conclusion of a rule: changing anything else in the rules of the
    registry, in particular their side conditions, never changes its result,
    so a rule is applied whether or not its side conditions hold. *)
Theorem buildDerivation_ignores_sideConditions (g : InferenceRule -> InferenceRule)
  (rules : JsMap.t InferenceRule) (judgmentId : string) (terms : list Term) :
  (forall r, r_id (g r) = r_id r /\ r_name (g r) = r_name r
             /\ r_premises (g r) = r_premises r /\ r_conclusion (g r) = r_conclusion r) ->
  buildDerivation (map (fun e => (fst e, g (snd e))) rules) judgmentId terms
  = buildDerivation rules judgmentId terms.
Proof.
  intros Hg.
  assert (H : forall fuel j ts depth,
             buildDerivationAux fuel (map (fun e => (fst e, g (snd e))) rules) j ts depth
             = buildDerivationAux fuel rules j ts depth).
  { induction fuel as [|fuel IH]; intros j ts depth; [reflexivity|].
    rewrite !buildDerivationAux_step. destruct (Nat.ltb 10 depth); auto.
    rewrite (getRulesForJudgment_map g) by auto. rewrite (tryRules_map g) by auto.
    apply tryRules_ext. intros j' ts'. apply IH. }
  apply H.
Qed.

Lemma buildDerivation_ignores_sideConditions_witness :
  buildDerivation
    (map (fun e => (fst e,
                    mkInferenceRule (r_id (snd e)) (r_name (snd e)) (r_premises (snd e))
                      [mkSideCondition "s" (RP_isEmpty "f" (exMeta "n"))]
                      (r_conclusion (snd e)) (0, 0)%Z)) exRules)
    "even" [exSucc (exSucc exZero)]
  = buildDerivation exRules "even" [exSucc (exSucc exZero)].
Proof.
  apply (buildDerivation_ignores_sideConditions
           (fun r => mkInferenceRule (r_id r) (r_name r) (r_premises r)
                       [mkSideCondition "s" (RP_isEmpty "f" (exMeta "n"))]
                       (r_conclusion r) (0, 0)%Z)).
  intros r. repeat split.
Defined.

(** ** Evaluation and its fuel *)

Section ExprMono.
Variable cs : JsMap.t Constructor.
Variable fs : JsMap.t RecursiveFunc.
Variables callF1 callF2 : RecursiveFunc -> Term -> Res FuncValue.
Variables callM1 callM2 : RecursiveFunc -> Term -> JsMap.t Term -> Res FuncValue.

Hypothesis callF_mono : forall g u r, callF1 g u = Some r -> callF2 g u = Some r.
Hypothesis callM_mono : forall g u env r, callM1 g u env = Some r -> callM2 g u env = Some r.

Let exprMono (e : FuncExpr) : Prop :=
  forall env r,
    evaluateExpr fs cs callF1 callM1 e env = Some r ->
    evaluateExpr fs cs callF2 callM2 e env = Some r.

Let predMono (p : FuncPredicate) : Prop :=
  forall env r,
    evaluatePredicate fs cs callF1 callM1 p env = Some r ->
    evaluatePredicate fs cs callF2 callM2 p env = Some r.

Ltac step1 :=
  match goal with
  | IH : exprMono ?e |- context [evaluateExpr fs cs callF1 callM1 ?e ?env] =>
      let E := fresh "E" in
      destruct (evaluateExpr fs cs callF1 callM1 e env) eqn:E; [|discriminate];
      rewrite (IH _ _ E)
  | IH : predMono ?e |- context [evaluatePredicate fs cs callF1 callM1 ?e ?env] =>
      let E := fresh "E" in
      destruct (evaluatePredicate fs cs callF1 callM1 e env) eqn:E; [|discriminate];
      rewrite (IH _ _ E)
  end.

Lemma evaluateExpr_mono (e : FuncExpr) : exprMono e.
Proof.
  induction e using FuncExpr_ind' with (Q := predMono); intros env res; simpl;
    unfold bindRes; auto.
  - step1. auto.
  - destruct (JsMap.get f fs); auto. destruct (isVarExpr e); auto.
    destruct (JsMap.get s env); auto.
  - destruct (JsMap.get f fs); auto. destruct args as [|a0 others]; auto.
    destruct (isVarExpr a0); auto. destruct (JsMap.get s env); auto.
  - destruct (JsMap.get c cs); auto.
    match goal with
    | |- match ?L1 args with _ => _ end = _ -> match ?L2 args with _ => _ end = _ =>
        assert (Hloop : forall r, L1 args = Some r -> L2 args = Some r)
    end.
    { induction H as [|a args Ha _ IHargs]; auto.
      intros r. unfold bindRes. step1.
      destruct o as [[z|s|t]|];
        try (destruct (isVarExpr a) as [name|]; [destruct (JsMap.get name env)|]; auto);
        match goal with
        | |- match ?L args with _ => _ end = _ -> _ =>
            destruct (L args) as [more|] eqn:Emore; [|discriminate];
            rewrite (IHargs _ eq_refl); auto
        end. }
    match goal with
    | |- match ?L1 args with _ => _ end = _ -> _ =>
        destruct (L1 args) as [r1|] eqn:E1; [|discriminate]; rewrite (Hloop _ eq_refl); auto
    end.
  - step1. step1. auto.
  - step1. destruct o as [[]|]; auto.
  - destruct k; try (step1; step1; auto); auto.
  - step1. auto.
  - step1. auto.
  - step1. step1. auto.
  - step1. auto.
Qed.
End ExprMono.

Lemma evaluateFuncFuel_S (functions : JsMap.t RecursiveFunc)
  (constructors : JsMap.t Constructor) (fuel : nat) :
  (forall func term r,
     evaluateFuncFuel fuel functions constructors func term = Some r ->
     evaluateFuncFuel (S fuel) functions constructors func term = Some r)
  /\ (forall func term env r,
        evaluateFuncMultiFuel fuel functions constructors func term env = Some r ->
        evaluateFuncMultiFuel (S fuel) functions constructors func term env = Some r).
Proof.
  induction fuel as [|fuel [IHf IHm]]; [split; discriminate|].
  split.
  - intros func term r. rewrite (evaluateFuncFuel_step (S fuel)), (evaluateFuncFuel_step fuel).
    destruct (isAtomOccurrence term); auto. destruct (findCase func term); auto.
    destruct (JsMap.get (t_constructorId term) constructors); auto.
    now apply evaluateExpr_mono.
  - intros func term env r.
    rewrite (evaluateFuncMultiFuel_step (S fuel)), (evaluateFuncMultiFuel_step fuel).
    destruct (isAtomOccurrence term); auto. destruct (findCase func term); auto.
    destruct (JsMap.get (t_constructorId term) constructors); auto.
    now apply evaluateExpr_mono.
Qed.

(** The result of an evaluation does not depend on the nesting of calls
    allowed: once [evaluateFunc] (or [evaluateFuncMulti]) returns with some
    allowance, it returns the same value with every larger one. *)
Lemma evaluateFunc_fuel_independent (functions : JsMap.t RecursiveFunc)
  (constructors : JsMap.t Constructor) (fuel fuel' : nat) :
  fuel <= fuel' ->
  (forall func term r,
     evaluateFuncFuel fuel functions constructors func term = Some r ->
     evaluateFuncFuel fuel' functions constructors func term = Some r)
  /\ (forall func term env r,
        evaluateFuncMultiFuel fuel functions constructors func term env = Some r ->
        evaluateFuncMultiFuel fuel' functions constructors func term env = Some r).
Proof.
  induction 1 as [|fuel' _ [IHf IHm]]; [auto|].
  destruct (evaluateFuncFuel_S functions constructors fuel') as [Hf Hm]. split; auto.
Qed.


Section SingleCallTotal.
Variable cs : JsMap.t Constructor.
Variable fs : JsMap.t RecursiveFunc.
Variable callF : RecursiveFunc -> Term -> Res FuncValue.
Variable callM : RecursiveFunc -> Term -> JsMap.t Term -> Res FuncValue.
Variable n : nat.

Hypothesis callF_total :
  forall k g u, JsMap.get k fs = Some g -> termSize u <= n -> exists r, callF g u = Some r.

Let envSmall (env : JsMap.t Term) : Prop :=
  forall k v, JsMap.get k env = Some v -> termSize v <= n.

Let exprTot (e : FuncExpr) : Prop :=
  forall env, envSmall env -> noCallMulti e = true ->
              exists r, evaluateExpr fs cs callF callM e env = Some r.

Let predTot (p : FuncPredicate) : Prop :=
  forall env, envSmall env -> predNoCallMulti p = true ->
              exists r, evaluatePredicate fs cs callF callM p env = Some r.

Ltac stepTot :=
  match goal with
  | IH : exprTot ?e, Henv : envSmall ?env
    |- exists _, match evaluateExpr fs cs callF callM ?e ?env with _ => _ end = _ =>
      let r := fresh "res" in
      destruct (IH env Henv) as [r ->]; [auto|]
  | IH : predTot ?e, Henv : envSmall ?env
    |- exists _, match evaluatePredicate fs cs callF callM ?e ?env with _ => _ end = _ =>
      let r := fresh "res" in
      destruct (IH env Henv) as [r ->]; [auto|]
  | IH : exprTot ?e, Henv : envSmall ?env
    |- exists _, evaluateExpr fs cs callF callM ?e ?env = _ =>
      exact (IH env Henv ltac:(assumption))
  end.

Ltac splitHyps :=
  repeat match goal with
         | H : _ && _ = true |- _ => apply andb_prop in H as [? ?]
         end.

Lemma evaluateExpr_single_total (e : FuncExpr) : exprTot e.
Proof.
  induction e using FuncExpr_ind' with (Q := predTot); intros env Henv Hno;
    simpl in Hno; splitHyps; simpl; unfold bindRes; eauto.
  - stepTot. destruct (isVarExpr e); eauto. destruct (atomNameOf _); eauto.
  - destruct (JsMap.get f fs) as [func|] eqn:Ef; eauto.
    destruct (isVarExpr e); eauto. destruct (JsMap.get s env) eqn:Es; eauto.
  - discriminate.
  - destruct (JsMap.get c cs); eauto.
    match goal with
    | |- exists r, match ?L args with _ => _ end = _ =>
        assert (Hloop : exists r, L args = Some r)
    end.
    { rewrite forallb_forall in Hno.
      induction H as [|a args Ha _ IHargs]; eauto.
      unfold bindRes. destruct (Ha env Henv) as [ra ->]; [apply Hno; now left|].
      destruct IHargs as [rs Hrs]; [intros x Hx; apply Hno; now right|].
      destruct ra as [[z|s|t]|];
        try (destruct (isVarExpr a) as [name|]; [destruct (JsMap.get name env)|]; eauto);
        rewrite Hrs; eauto. }
    destruct Hloop as [r ->]. eauto.
  - stepTot. stepTot. eauto.
  - stepTot. destruct res as [[]|]; eauto; stepTot.
  - destruct k; try (stepTot; stepTot; eauto); eauto.
  - stepTot. destruct res as [[z|xs|t]|]; eauto.
    destruct (isVarExpr e1); eauto. destruct (atomNameOf _); eauto.
  - stepTot. destruct res as [[z|xs|t]|]; eauto.
  - stepTot. stepTot. destruct res as [a|], res0 as [b|]; eauto.
  - stepTot. eauto.
Qed.
End SingleCallTotal.

(** X11: multi-argument calls are the only source of non-termination: in a
    registry whose function bodies use single-argument calls only,
    [evaluateFunc] returns on every term, whatever [checkTermination] says
    about the functions, and never nests calls deeper than the size of the
    term. *)
Theorem evaluateFunc_single_calls_terminate (functions : JsMap.t RecursiveFunc)
  (constructors : JsMap.t Constructor) (func : RecursiveFunc) (term : Term) (fuel : nat) :
  (forall k g, JsMap.get k functions = Some g -> casesNoCallMulti g = true) ->
  casesNoCallMulti func = true ->
  termSize term <= fuel ->
  exists r, evaluateFuncFuel fuel functions constructors func term = Some r.
Proof.
  intros Hreg. revert func term.
  induction fuel as [|fuel IH]; intros func term Hf Hsize.
  - destruct term; simpl in Hsize; lia.
  - rewrite evaluateFuncFuel_step.
    destruct (isAtomOccurrence term); eauto.
    destruct (findCase func term) as [c|] eqn:Ec; eauto.
    destruct (JsMap.get (t_constructorId term) constructors); eauto.
    apply (evaluateExpr_single_total constructors functions _ _ fuel).
    + intros k g u Hg Hu. apply IH; eauto.
    + intros k v Hk.
      destruct (bindBoundVars_get k (fc_boundVars c) (t_args term) JsMap.empty)
        as [E|(u & Hu & E)].
      * rewrite E in Hk. discriminate.
      * rewrite E in Hk. injection Hk as <-. apply termSize_arg in Hu. lia.
    + unfold findCase in Ec. apply find_some in Ec as [Hin _].
      unfold casesNoCallMulti in Hf. rewrite forallb_forall in Hf. auto.
Qed.

Lemma evaluateFunc_single_calls_terminate_witness :
  exists r,
    evaluateFuncFuel 4 exFunctions exConstructors exSize (exSucc (exSucc (exSucc exZero)))
    = Some r.
Proof.
  apply evaluateFunc_single_calls_terminate; [|reflexivity|simpl; lia].
  intros k g H.
  change (JsMap.get k exFunctions) with (if String.eqb "size" k then Some exSize else None) in H.
  destruct (String.eqb "size" k); [|discriminate]. injection H as <-. reflexivity.
Defined.

(** ** The formula kernel *)

Lemma formulaExprEqual_constructor (c bc : string) (args bargs : list FormulaExpr) :
  formulaExprEqual (X_constructor c args) (X_constructor bc bargs)
  = String.eqb c bc && Nat.eqb (length args) (length bargs) && exprListEqual args bargs.
Proof.
  reflexivity.
Qed.

Lemma exprListEqual_eq (l1 : list FormulaExpr) :
  Forall (fun a => forall b, formulaExprEqual a b = true <-> a = b) l1 ->
  forall l2, length l1 = length l2 -> (exprListEqual l1 l2 = true <-> l1 = l2).
Proof.
  induction 1 as [|x r Hx _ IH]; intros [|y r2] Hlen; simpl in *; try discriminate.
  - tauto.
  - rewrite andb_true_iff, Hx, IH by lia. split.
    + intros [-> ->]. reflexivity.
    + intros [= -> ->]. auto.
Qed.

Lemma formulaExprEqual_eq (a : FormulaExpr) :
  forall b, formulaExprEqual a b = true <-> a = b.
Proof.
  induction a as [n|c args IH|f arg IH|v| |k l r IHl IHr] using FormulaExpr_ind'; intros b.
  - destruct b; simpl; try (split; discriminate).
    rewrite String.eqb_eq. split; congruence.
  - destruct b as [|bc bargs| | | |]; try (simpl; split; discriminate).
    rewrite formulaExprEqual_constructor, !andb_true_iff, String.eqb_eq, Nat.eqb_eq. split.
    + intros [[-> Hlen] Hall]. apply exprListEqual_eq in Hall; auto. now subst.
    + intros [= -> ->]. repeat split. now apply exprListEqual_eq.
  - destruct b; simpl; try (split; discriminate).
    rewrite andb_true_iff, String.eqb_eq, IH. split; [intros [-> ->]|intros [= -> ->]]; auto.
  - destruct b; simpl; try (split; discriminate).
    rewrite Z.eqb_eq. split; congruence.
  - destruct b; simpl; try (split; discriminate). tauto.
  - destruct b as [| | | | |bk bl br]; simpl; try (split; discriminate).
    rewrite !andb_true_iff, IHl, IHr. split.
    + intros (Hk & -> & ->). destruct k, bk; try discriminate; reflexivity.
    + intros [= -> -> ->]. repeat split. now destruct bk.
Qed.

Lemma exprListEqual_eq' (l1 l2 : list FormulaExpr) :
  length l1 = length l2 -> (exprListEqual l1 l2 = true <-> l1 = l2).
Proof.
  apply exprListEqual_eq. apply Forall_forall. intros a _. apply formulaExprEqual_eq.
Qed.

Lemma formulaEqual_eq (a : Formula) : forall b, formulaEqual a b = true <-> a = b.
Proof.
  induction a; intros b; destruct b; simpl; try (split; discriminate); try tauto.
  - rewrite !andb_true_iff, !String.eqb_eq, IHa. split.
    + intros (Hk & (-> & ->) & ->). destruct kind, kind0; try discriminate; reflexivity.
    + intros [= -> -> -> ->]. repeat split. now destruct kind0.
  - rewrite !andb_true_iff, IHa1, IHa2. split.
    + intros (Hk & -> & ->). destruct kind, kind0; try discriminate; reflexivity.
    + intros [= -> -> ->]. repeat split. now destruct kind0.
  - rewrite IHa. split; congruence.
  - rewrite !andb_true_iff, String.eqb_eq, Nat.eqb_eq. split.
    + intros [[-> Hlen] Hall]. apply exprListEqual_eq' in Hall; auto. now subst.
    + intros [= -> ->]. repeat split. now apply exprListEqual_eq'.
  - rewrite !andb_true_iff, !formulaExprEqual_eq. split.
    + intros (Hk & -> & ->). destruct kind, kind0; try discriminate; reflexivity.
    + intros [= -> -> ->]. repeat split. now destruct kind0.
  - rewrite !andb_true_iff, String.eqb_eq, !formulaExprEqual_eq. split.
    + intros (Hk & (-> & ->) & ->). destruct kind, kind0; try discriminate; reflexivity.
    + intros [= -> -> -> ->]. repeat split. now destruct kind0.
  - rewrite !andb_true_iff, !formulaExprEqual_eq. split.
    + intros (Hk & -> & ->). destruct kind, kind0; try discriminate; reflexivity.
    + intros [= -> -> ->]. repeat split. now destruct kind0.
  - rewrite !andb_true_iff, String.eqb_eq, !formulaExprEqual_eq. split.
    + intros (-> & ->). reflexivity.
    + intros [= -> ->]. auto.
  - rewrite !andb_true_iff, String.eqb_eq, !formulaExprEqual_eq. split.
    + intros ((-> & ->) & ->). reflexivity.
    + intros [= -> -> ->]. auto.
Qed.


Lemma substituteFormulaExpr_self (x : string) (e : FormulaExpr) :
  substituteFormulaExpr e x (X_var x) = e.
Proof.
  induction e as [n|c args IH|f arg IH|v| |k l r IHl IHr] using FormulaExpr_ind'; simpl;
    try congruence.
  - destruct (String.eqb n x) eqn:E; auto. apply String.eqb_eq in E. now subst.
  - f_equal. induction IH as [|a args Ha _ IHargs]; simpl; congruence.
Qed.

Lemma substituteFormulaExpr_absent (x : string) (e r : FormulaExpr) :
  occursInExpr x e = false -> substituteFormulaExpr e x r = e.
Proof.
  induction e as [n|c args IH|f arg IH|v| |k l0 r0 IHl IHr] using FormulaExpr_ind'; simpl;
    auto.
  - now intros ->.
  - intros H. f_equal. induction IH as [|a args Ha _ IHargs]; simpl in *; auto.
    apply orb_false_iff in H as [H1 H2]. rewrite Ha, IHargs; auto.
  - intros H. now rewrite IH.
  - intros H. apply orb_false_iff in H as [H1 H2]. now rewrite IHl, IHr.
Qed.

Lemma map_substituteFormulaExpr_self (x : string) (args : list FormulaExpr) :
  map (fun a => substituteFormulaExpr a x (X_var x)) args = args.
Proof. induction args; simpl; auto. now rewrite substituteFormulaExpr_self, IHargs. Qed.

Lemma map_substituteFormulaExpr_absent (x : string) (r : FormulaExpr)
  (args : list FormulaExpr) :
  existsb (occursInExpr x) args = false ->
  map (fun a => substituteFormulaExpr a x r) args = args.
Proof.
  induction args; simpl; auto. intros H. apply orb_false_iff in H as [H1 H2].
  now rewrite substituteFormulaExpr_absent, IHargs.
Qed.

(** X13: [substituteFormula] leaves a formula unchanged when the variable
    is replaced by itself, and when the variable does not occur free in the
    formula (occurrences under a quantifier of the same name are bound and
    never replaced). *)
Theorem substituteFormula_unchanged (f : Formula) (x : string) :
  substituteFormula f x (X_var x) = f
  /\ forall e, occursFree x f = false -> substituteFormula f x e = f.
Proof.
  split.
  - induction f; simpl; rewrite ?substituteFormulaExpr_self, ?map_substituteFormulaExpr_self;
      try congruence.
    destruct (String.eqb varName x); congruence.
  - intros e. induction f; simpl; auto; intros H;
      repeat match goal with
             | H : _ || _ = false |- _ => apply orb_false_iff in H as [? ?]
             end;
      rewrite ?substituteFormulaExpr_absent, ?map_substituteFormulaExpr_absent by auto;
      try congruence.
    + destruct (String.eqb varName x); auto. now rewrite IHf.
    + now rewrite IHf1, IHf2.
    + now rewrite IHf.
Qed.

Lemma substituteFormula_unchanged_witness :
  substituteFormula (F_quant forall_ "n" "nat" (g_goal exSizeGoal)) "n" (X_int 5)
  = F_quant forall_ "n" "nat" (g_goal exSizeGoal).
Proof.
  apply (proj2 (substituteFormula_unchanged
                  (F_quant forall_ "n" "nat" (g_goal exSizeGoal)) "n")).
  reflexivity.
Defined.


(** ** Soundness of the arithmetic *)

Lemma roundDouble_exact (z : Z) : (Z.abs z <= 9007199254740992)%Z -> roundDouble z = z.
Proof.
  intros H. unfold roundDouble.
  destruct (Z.eq_dec (Z.abs z) 9007199254740992) as [E|E].
  - destruct (Z.abs_spec z) as [[_ Ha]|[_ Ha]]; rewrite Ha in E.
    + subst z. reflexivity.
    + assert (Hz : z = (- 9007199254740992)%Z) by lia. subst z. reflexivity.
  - assert (Hlog : (Z.log2 (Z.abs z) - 52 <= 0)%Z).
    { destruct (Z.eq_dec (Z.abs z) 0) as [->|Hz]; [simpl; lia|].
      assert (Z.log2 (Z.abs z) < 53)%Z; [|lia].
      apply Z.log2_lt_pow2; [lia|]. change (2 ^ 53)%Z with 9007199254740992%Z. lia. }
    apply Z.leb_le in Hlog. now rewrite Hlog.
Qed.

Lemma magnitude_nonneg (e : FormulaExpr) : (0 <= magnitude e)%Z.
Proof.
  induction e as [n|c args _|f arg _|w| |k l r IHl IHr] using FormulaExpr_ind'; simpl;
    try lia.
  destruct k; simpl; lia.
Qed.

(** Within the bound the operation of the code is the operation on the
    integers. *)
Lemma arithOp_exact (k : ArithKind) (lv rv ml mr : Z) :
  (Z.abs lv <= ml)%Z -> (Z.abs rv <= mr)%Z ->
  (magnitudeOp k ml mr <= 9007199254740992)%Z ->
  arithOp k lv rv = integerOp k lv rv
  /\ (Z.abs (integerOp k lv rv) <= magnitudeOp k ml mr)%Z.
Proof.
  intros Hl Hr Hm.
  assert (Hb : (Z.abs (integerOp k lv rv) <= magnitudeOp k ml mr)%Z).
  { destruct k; simpl in *; try lia.
    rewrite Z.abs_mul. apply Z.mul_le_mono_nonneg; lia. }
  split; auto.
  destruct k; simpl in *; auto; apply roundDouble_exact; lia.
Qed.

Lemma safeExpr_arith (k : ArithKind) (l r : FormulaExpr) :
  safeExpr (X_arith k l r) = true ->
  safeExpr l = true /\ safeExpr r = true
  /\ (magnitudeOp k (magnitude l) (magnitude r) <= 9007199254740992)%Z.
Proof.
  cbn [safeExpr]. intros H. apply andb_prop in H as [H Hm]. apply andb_prop in H as [Hl Hr].
  apply Z.leb_le in Hm. auto.
Qed.

Lemma evalExprToNumber_denote (I : Interpretation) (e : FormulaExpr) :
  safeExpr e = true ->
  forall v, evalExprToNumber e = Some v ->
            denote I e = v /\ (Z.abs v <= magnitude e)%Z.
Proof.
  induction e as [n|c args IH|f arg IH|w| |k l r IHl IHr] using FormulaExpr_ind';
    intros Hs v; try discriminate.
  - intros [= ->]. simpl. split; auto. lia.
  - apply safeExpr_arith in Hs as (Hsl & Hsr & Hm). cbn [evalExprToNumber].
    destruct (evalExprToNumber l) as [lv|]; [|discriminate].
    destruct (evalExprToNumber r) as [rv|]; [|discriminate].
    intros [= <-]. destruct (IHl Hsl _ eq_refl) as [Dl Bl].
    destruct (IHr Hsr _ eq_refl) as [Dr Br].
    destruct (arithOp_exact k lv rv _ _ Bl Br Hm) as [He Hb].
    cbn [denote magnitude]. rewrite Dl, Dr, He. auto.
Qed.

Lemma isIntLit_eq (e : FormulaExpr) (n : Z) : isIntLit e n = true -> e = X_int n.
Proof. destruct e; simpl; try discriminate. now intros ->%Z.eqb_eq. Qed.

(** A simplified expression that evaluates to a number is that number. *)
Lemma simplifyExpr_literal (e : FormulaExpr) (v : Z) :
  evalExprToNumber (simplifyExpr e) = Some v -> simplifyExpr e = X_int v.
Proof.
  intros H. rewrite <- (simplifyExpr_idempotent e). now apply simplifyExpr_ground.
Qed.

Lemma simplifyArith_denote (I : Interpretation) (k : ArithKind) (l r l' r' : FormulaExpr) :
  l' = simplifyExpr l -> r' = simplifyExpr r ->
  denote I l' = denote I l -> denote I r' = denote I r ->
  (magnitude l' <= magnitude l)%Z -> (magnitude r' <= magnitude r)%Z ->
  (magnitudeOp k (magnitude l) (magnitude r) <= 9007199254740992)%Z ->
  denote I (simplifyArith k l' r') = integerOp k (denote I l) (denote I r)
  /\ (magnitude (simplifyArith k l' r') <= magnitudeOp k (magnitude l) (magnitude r))%Z.
Proof.
  intros El' Er' Dl Dr Ml Mr Hm.
  pose proof (magnitude_nonneg l) as Nl. pose proof (magnitude_nonneg r) as Nr.
  pose proof (magnitude_nonneg l') as Nl'. pose proof (magnitude_nonneg r') as Nr'.
  assert (Hmono : (magnitudeOp k (magnitude l') (magnitude r')
                   <= magnitudeOp k (magnitude l) (magnitude r))%Z).
  { destruct k; simpl; try lia. apply Z.mul_le_mono_nonneg; lia. }
  assert (Hev : denote I
                  match evalExprToNumber l', evalExprToNumber r' with
                  | Some lv, Some rv => X_int (arithOp k lv rv)
                  | _, _ => X_arith k l' r'
                  end
                = integerOp k (denote I l) (denote I r)
                /\ (magnitude
                      match evalExprToNumber l', evalExprToNumber r' with
                      | Some lv, Some rv => X_int (arithOp k lv rv)
                      | _, _ => X_arith k l' r'
                      end
                    <= magnitudeOp k (magnitude l) (magnitude r))%Z).
  { destruct (evalExprToNumber l') as [lv|] eqn:El;
      [|cbn [denote magnitude]; rewrite Dl, Dr; auto].
    destruct (evalExprToNumber r') as [rv|] eqn:Er;
      [|cbn [denote magnitude]; rewrite Dl, Dr; auto].
    rewrite El' in El. apply simplifyExpr_literal in El. rewrite <- El' in El.
    rewrite Er' in Er. apply simplifyExpr_literal in Er. rewrite <- Er' in Er.
    rewrite El in Dl, Ml. rewrite Er in Dr, Mr. cbn [denote magnitude] in Dl, Dr, Ml, Mr.
    destruct (arithOp_exact k lv rv (magnitude l) (magnitude r) Ml Mr Hm) as [He Hb].
    cbn [denote magnitude]. rewrite He, Dl, Dr in *. auto. }
  unfold simplifyArith. destruct k;
    repeat match goal with
           | |- context [isIntLit ?e ?n] =>
               let E := fresh "E" in
               destruct (isIntLit e n) eqn:E;
               [apply isIntLit_eq in E; rewrite E in *;
                cbn [denote magnitude integerOp magnitudeOp] in *;
                split; try lia; try nia|]
           | |- context [formulaExprEqual ?a ?b] =>
               let E := fresh "E" in
               destruct (formulaExprEqual a b) eqn:E;
               [apply formulaExprEqual_eq in E; rewrite E in *;
                cbn [denote magnitude integerOp magnitudeOp] in *;
                split; try lia; try nia|]
           end; exact Hev.
Qed.

Lemma simplifyExpr_denote (I : Interpretation) (e : FormulaExpr) :
  safeExpr e = true ->
  denote I (simplifyExpr e) = denote I e
  /\ (magnitude (simplifyExpr e) <= magnitude e)%Z.
Proof.
  induction e as [n|c args IH|f arg IH|w| |k l r IHl IHr] using FormulaExpr_ind';
    intros Hs; rewrite simplifyExpr_unfold.
  - cbn [evalExprToNumber]. split; [reflexivity|lia].
  - cbn [evalExprToNumber denote magnitude]. split; [|lia]. f_equal. rewrite map_map.
    cbn [safeExpr] in Hs. induction IH as [|a args Ha _ IHargs]; simpl; auto.
    simpl in Hs. apply andb_prop in Hs as [H1 H2].
    now rewrite (proj1 (Ha H1)), (IHargs H2).
  - cbn [evalExprToNumber denote magnitude]. split; [|lia]. cbn [safeExpr] in Hs.
    now rewrite (proj1 (IH Hs)).
  - cbn [evalExprToNumber]. split; [reflexivity|lia].
  - cbn [evalExprToNumber]. split; [reflexivity|lia].
  - destruct (evalExprToNumber (X_arith k l r)) as [v|] eqn:E.
    + destruct (evalExprToNumber_denote I _ Hs v E) as [D B]. cbn [denote magnitude] in *.
      split; auto.
    + apply safeExpr_arith in Hs as (Hsl & Hsr & Hm).
      destruct (IHl Hsl) as [Dl Ml]. destruct (IHr Hsr) as [Dr Mr].
      apply (simplifyArith_denote I k l r); auto.
Qed.

(** X14: [simplifyExpr] preserves the value of an expression, ground or
    not, under every interpretation of its variables, constructors and
    functions by integers, as long as its arithmetic stays within the
    integers that JavaScript numbers represent exactly.  Beyond them it
    does not: [x + (9007199254740992 + 1)] is simplified to
    [x + 9007199254740992]. *)
Theorem simplifyExpr_sound :
  (forall (I : Interpretation) (e : FormulaExpr),
      safeExpr e = true -> denote I (simplifyExpr e) = denote I e)
  /\ simplifyExpr
       (X_arith ak_add (X_var "x") (X_arith ak_add (X_int 9007199254740992) (X_int 1)))
     = X_arith ak_add (X_var "x") (X_int 9007199254740992).
Proof.
  split; [|reflexivity]. intros I e Hs. now apply simplifyExpr_denote.
Qed.

Lemma simplifyExpr_sound_witness :
  denote exInterpretation
    (simplifyExpr (X_arith ak_mul (X_arith ak_sub (X_var "x") (X_var "x")) (X_int 7)))
  = denote exInterpretation
      (X_arith ak_mul (X_arith ak_sub (X_var "x") (X_var "x")) (X_int 7)).
Proof.
  apply (proj1 simplifyExpr_sound exInterpretation). reflexivity.
Defined.

Section LinearArithmetic.
Variable I : Interpretation.
Variable hyps : list ProofHypothesis.
Hypothesis hyps_hold : forall h, In h hyps -> holds I (h_formula h).
Hypothesis hyps_bounds : lowerBoundsNonNegative hyps.
Hypothesis hyps_safe : forall h, In h hyps -> safeFormula (h_formula h) = true.

Lemma evalExprToNumber_value (e : FormulaExpr) (v : Z) :
  safeExpr e = true -> evalExprToNumber e = Some v -> denote I e = v.
Proof. intros Hs He. now apply (evalExprToNumber_denote I e Hs v). Qed.

Lemma hypBound_sound (okGeq okGt : Z -> bool) (e : FormulaExpr) :
  hypBound okGeq okGt e hyps = true ->
  exists c, ((denote I e >= c)%Z /\ okGeq c = true /\ (0 <= c)%Z)
            \/ ((denote I e > c)%Z /\ okGt c = true /\ (-1 <= c)%Z).
Proof.
  unfold hypBound. rewrite existsb_exists. intros (h & Hin & Hh).
  pose proof (hyps_hold h Hin) as Hhold. pose proof (hyps_bounds h Hin) as Hb.
  pose proof (hyps_safe h Hin) as Hs.
  destruct (h_formula h) as [| | | | | |k hl hr| | | |]; try discriminate.
  cbn [safeFormula] in Hs. apply andb_prop in Hs as [_ Hsr].
  destruct k; try discriminate;
    apply andb_prop in Hh as [He Hc]; apply formulaExprEqual_eq in He; subst hl;
    destruct (evalExprToNumber hr) as [rv|] eqn:Er; try discriminate;
    simpl in Hhold; rewrite (evalExprToNumber_value _ _ Hsr Er) in Hhold;
    exists rv; auto.
Qed.

Lemma isNonNegative_unfold (e : FormulaExpr) :
  isNonNegative e hyps =
  match evalExprToNumber e with
  | Some val => Z.geb val 0
  | None =>
      if hypBound (fun rv => Z.leb rv 0) (fun rv => Z.ltb rv 0) e hyps then true
      else
        match e with
        | X_arith ak_add l r => isNonNegative l hyps && isNonNegative r hyps
        | X_arith ak_mul l r => isNonNegative l hyps && isNonNegative r hyps
        | X_arith ak_max l r => isNonNegative l hyps || isNonNegative r hyps
        | X_arith ak_min l r => isNonNegative l hyps && isNonNegative r hyps
        | _ => false
        end
  end.
Proof. destruct e; reflexivity. Qed.

Lemma isNonNegative_sound (e : FormulaExpr) :
  safeExpr e = true -> isNonNegative e hyps = true -> (denote I e >= 0)%Z.
Proof.
  induction e as [n|c args _|f arg _|w| |k l r IHl IHr] using FormulaExpr_ind';
    intros Hs; rewrite isNonNegative_unfold;
    (destruct (evalExprToNumber _) as [v|] eqn:Ev;
     [rewrite (evalExprToNumber_value _ _ Hs Ev); intros H; apply Z.geb_le in H; lia|]);
    (destruct (hypBound _ _ _ hyps) eqn:Eh;
     [intros _; apply hypBound_sound in Eh as (bound & [(H1 & H2 & H3)|(H1 & H2 & H3)]);
      lia|]);
    try discriminate.
  apply safeExpr_arith in Hs as (Hsl & Hsr & _).
  destruct k; try discriminate; intros H;
    [apply andb_prop in H as [H1 H2]|apply andb_prop in H as [H1 H2]
     |apply orb_prop in H as [H1|H1]|apply andb_prop in H as [H1 H2]];
    try (apply (IHl Hsl) in H1); try (apply (IHr Hsr) in H1); try (apply (IHr Hsr) in H2);
    cbn [denote integerOp]; try lia; try nia.
Qed.

Lemma isPositive_unfold (e : FormulaExpr) :
  isPositive e hyps =
  match evalExprToNumber e with
  | Some val => Z.gtb val 0
  | None =>
      if hypBound (fun rv => Z.gtb rv 0) (fun rv => Z.geb rv 0) e hyps then true
      else
        match e with
        | X_arith ak_add l r =>
            (isPositive l hyps && isNonNegative r hyps)
            || (isNonNegative l hyps && isPositive r hyps)
        | _ => false
        end
  end.
Proof. destruct e; reflexivity. Qed.

Lemma isPositive_sound (e : FormulaExpr) :
  safeExpr e = true -> isPositive e hyps = true -> (denote I e > 0)%Z.
Proof.
  induction e as [n|c args _|f arg _|w| |k l r IHl IHr] using FormulaExpr_ind';
    intros Hs; rewrite isPositive_unfold;
    (destruct (evalExprToNumber _) as [v|] eqn:Ev;
     [rewrite (evalExprToNumber_value _ _ Hs Ev); intros H; apply Z.gtb_lt in H; lia|]);
    (destruct (hypBound _ _ _ hyps) eqn:Eh;
     [intros _; apply hypBound_sound in Eh as (bound & [(H1 & H2 & H3)|(H1 & H2 & H3)]);
      [apply Z.gtb_lt in H2|apply Z.geb_le in H2]; lia|]);
    try discriminate.
  apply safeExpr_arith in Hs as (Hsl & Hsr & _).
  destruct k; try discriminate. intros H.
  apply orb_prop in H as [H|H]; apply andb_prop in H as [H1 H2]; cbn [denote integerOp].
  - apply (IHl Hsl) in H1. apply (isNonNegative_sound _ Hsr) in H2. lia.
  - apply (isNonNegative_sound _ Hsl) in H1. apply (IHr Hsr) in H2. lia.
Qed.

Lemma canProveGeq_unfold (lhs rhs : FormulaExpr) :
  canProveGeq lhs rhs hyps =
  if existsb
       (fun h =>
          match h_formula h with
          | F_num numGeq hl hr | F_num numGt hl hr =>
              formulaExprEqual hl lhs && formulaExprEqual hr rhs
          | _ => false
          end) hyps
  then true
  else if formulaExprEqual lhs rhs then true
  else
    match evalExprToNumber lhs, evalExprToNumber rhs with
    | Some lv, Some rv => Z.geb lv rv
    | _, Some 0%Z => isNonNegative lhs hyps
    | _, _ =>
        match lhs with
        | X_arith ak_add ll lr =>
            (canProveGeq ll rhs hyps && isNonNegative lr hyps)
            || (canProveGeq lr rhs hyps && isNonNegative ll hyps)
        | _ => false
        end
    end.
Proof. destruct lhs; reflexivity. Qed.

Lemma canProveGeq_sound (lhs rhs : FormulaExpr) :
  safeExpr lhs = true -> safeExpr rhs = true ->
  canProveGeq lhs rhs hyps = true -> (denote I lhs >= denote I rhs)%Z.
Proof.
  intros Hsl Hsr. revert Hsl.
  induction lhs as [n|c args _|f arg _|w| |k l r IHl IHr] using FormulaExpr_ind';
    intros Hsl; rewrite canProveGeq_unfold;
    (match goal with
     | |- (if existsb ?p hyps then _ else _) = true -> _ =>
         destruct (existsb p hyps) eqn:Ex
     end;
     [intros _; apply existsb_exists in Ex as (h & Hin & Hh);
      pose proof (hyps_hold h Hin) as Hhold;
      destruct (h_formula h) as [| | | | | |hk hl hr| | | |]; try discriminate;
      destruct hk; try discriminate;
      apply andb_prop in Hh as [H1 H2];
      apply formulaExprEqual_eq in H1; apply formulaExprEqual_eq in H2; subst;
      cbn [holds numCmpHolds] in Hhold; lia|]);
    (destruct (formulaExprEqual _ rhs) eqn:Eq;
     [intros _; apply formulaExprEqual_eq in Eq; subst; lia|]);
    (destruct (evalExprToNumber rhs) as [rv|] eqn:Er;
     [match goal with
      | |- context [evalExprToNumber ?e] => destruct (evalExprToNumber e) as [lv|] eqn:El
      end;
      [rewrite (evalExprToNumber_value _ _ Hsl El), (evalExprToNumber_value _ _ Hsr Er);
       intros H; apply Z.geb_le in H; lia
      |destruct rv as [|p|p];
       [rewrite (evalExprToNumber_value _ _ Hsr Er);
        intros H; apply (isNonNegative_sound _ Hsl) in H; exact H| |]]
     |match goal with
      | |- context [evalExprToNumber ?e] => destruct (evalExprToNumber e) as [lv|] eqn:El
      end]);
    try discriminate;
    apply safeExpr_arith in Hsl as (Hs1 & Hs2 & _);
    destruct k; try discriminate;
    intros H; apply orb_prop in H as [H|H]; apply andb_prop in H as [H1 H2];
      first [apply (isNonNegative_sound _ Hs2) in H2
            |apply (isNonNegative_sound _ Hs1) in H2];
      cbn [denote integerOp];
      try (apply (IHl Hs1) in H1; lia); try (apply (IHr Hs2) in H1; lia).
Qed.
End LinearArithmetic.

Lemma tryLinearArithmetic_holds (I : Interpretation) (formula : Formula)
  (hyps : list ProofHypothesis) :
  lowerBoundsNonNegative hyps ->
  safeFormula formula = true ->
  (forall h, In h hyps -> safeFormula (h_formula h) = true) ->
  tryLinearArithmetic formula hyps = true ->
  (forall h, In h hyps -> holds I (h_formula h)) ->
  holds I formula.
Proof.
  intros Hb Hsf Hsh H Hh. destruct formula as [| | | | | |k l r| | | |]; try discriminate.
  cbn [safeFormula] in Hsf. apply andb_prop in Hsf as [Hsl Hsr].
  destruct k; try discriminate; simpl in *.
  - apply (canProveGeq_sound I hyps Hh Hb Hsh _ _ Hsr Hsl) in H. lia.
  - destruct (evalExprToNumber l) as [[|p|p]|] eqn:E; try discriminate.
    rewrite (evalExprToNumber_value I _ _ Hsl E).
    apply (isPositive_sound I hyps Hh Hb Hsh _ Hsr) in H. lia.
  - now apply (canProveGeq_sound I hyps Hh Hb Hsh).
  - destruct (evalExprToNumber r) as [[|p|p]|] eqn:E; try discriminate.
    rewrite (evalExprToNumber_value I _ _ Hsr E).
    now apply (isPositive_sound I hyps Hh Hb Hsh).
Qed.

(** X15: the arithmetic decider is sound when the constant lower bounds
    among the hypotheses are non-negative and the arithmetic of the goal and
    of the hypotheses stays within the integers that JavaScript numbers
    represent exactly: a goal that [tryLinearArithmetic] then reports as
    solved holds under every interpretation over the integers in which the
    hypotheses hold.  Beyond these integers the decider reports
    [9007199254740992 >= 9007199254740992 + 1] as solved. *)
Theorem tryLinearArithmetic_sound :
  (forall (I : Interpretation) (formula : Formula) (hyps : list ProofHypothesis),
      lowerBoundsNonNegative hyps ->
      safeFormula formula = true ->
      (forall h, In h hyps -> safeFormula (h_formula h) = true) ->
      tryLinearArithmetic formula hyps = true ->
      (forall h, In h hyps -> holds I (h_formula h)) ->
      holds I formula)
  /\ tryLinearArithmetic
       (F_num numGeq (X_int 9007199254740992)
              (X_arith ak_add (X_int 9007199254740992) (X_int 1))) [] = true.
Proof.
  split; [|reflexivity]. intros I formula hyps. apply tryLinearArithmetic_holds.
Qed.

Lemma tryLinearArithmetic_sound_witness :
  holds (mkInterpretation (fun _ => 3%Z) (fun _ _ => 0%Z) (fun _ _ => 0%Z) 0%Z (fun _ => True))
        (F_num numGt (X_arith ak_add (X_var "x") (X_int 1)) (X_int 0)).
Proof.
  apply (proj1 tryLinearArithmetic_sound _ _
           [mkProofHypothesis "h" "H" (F_num numGeq (X_var "x") (X_int 0))]).
  - intros h [<-|[]]. simpl. intros c [= <-]. lia.
  - reflexivity.
  - intros h [<-|[]]. reflexivity.
  - reflexivity.
  - intros h [<-|[]]. simpl. lia.
Defined.

Lemma formulaExprEqual_refl (e : FormulaExpr) : formulaExprEqual e e = true.
Proof. now apply formulaExprEqual_eq. Qed.

(** X16: a hypothesis [e >= c] with a constant [c <= 0] is enough for
    [tryLinearArithmetic] to report the goal [e >= 0] as solved, for every
    expression [e] that is not a constant.  For [c < 0] this is not a valid
    inference: with [e] a variable, the interpretation that gives it the
    value [c] satisfies the hypothesis and not the goal. *)
Theorem tryLinearArithmetic_negative_bound (e : FormulaExpr) (c : Z)
  (h : ProofHypothesis) (hyps : list ProofHypothesis) :
  evalExprToNumber e = None ->
  In h hyps ->
  h_formula h = F_num numGeq e (X_int c) ->
  (c <= 0)%Z ->
  tryLinearArithmetic (F_num numGeq e (X_int 0)) hyps = true
  /\ ((c < 0)%Z ->
      forall x I, e = X_var x -> i_var I x = c ->
                  holds I (h_formula h) /\ ~ holds I (F_num numGeq e (X_int 0))).
Proof.
  intros He Hin Hh Hc. split.
  - simpl. rewrite canProveGeq_unfold.
    destruct (existsb _ hyps); auto.
    destruct (formulaExprEqual e (X_int 0)) eqn:E0; auto.
    rewrite He. simpl. rewrite isNonNegative_unfold, He.
    assert (Hb : hypBound (fun rv => Z.leb rv 0) (fun rv => Z.ltb rv 0) e hyps = true).
    { unfold hypBound. apply existsb_exists. exists h. split; auto.
      rewrite Hh. simpl. rewrite formulaExprEqual_refl. simpl. now apply Z.leb_le. }
    now rewrite Hb.
  - intros Hneg x I -> Hx. rewrite Hh. simpl. rewrite Hx. lia.
Qed.

Lemma tryLinearArithmetic_negative_bound_witness :
  tryLinearArithmetic (F_num numGeq (X_var "x") (X_int 0))
    [mkProofHypothesis "h" "H" (F_num numGeq (X_var "x") (X_int (-5)))] = true
  /\ ~ holds (mkInterpretation (fun _ => (-5)%Z) (fun _ _ => 0%Z) (fun _ _ => 0%Z) 0%Z
                               (fun _ => True))
             (F_num numGeq (X_var "x") (X_int 0)).
Proof.
  destruct (tryLinearArithmetic_negative_bound (X_var "x") (-5)
              (mkProofHypothesis "h" "H" (F_num numGeq (X_var "x") (X_int (-5))))
              [mkProofHypothesis "h" "H" (F_num numGeq (X_var "x") (X_int (-5)))])
    as [H1 H2]; [reflexivity|now left|reflexivity|lia|].
  split; [exact H1|].
  apply (H2 ltac:(lia) "x"); reflexivity.
Defined.

Lemma checkTrivialComparison_sound (I : Interpretation) (l0 r0 : FormulaExpr)
  (k : NumCmpKind) (b : bool) :
  checkTrivialComparison (simplifyExpr l0) (simplifyExpr r0) k = Some b ->
  (numCmpHolds k (denote I (simplifyExpr l0)) (denote I (simplifyExpr r0)) <-> b = true).
Proof.
  unfold checkTrivialComparison.
  destruct (evalExprToNumber (simplifyExpr l0)) as [lv|] eqn:El.
  - destruct (evalExprToNumber (simplifyExpr r0)) as [rv|] eqn:Er.
    + rewrite (simplifyExpr_literal _ _ El), (simplifyExpr_literal _ _ Er).
      intros [= <-]. destruct k; simpl.
      * now rewrite Z.eqb_eq.
      * rewrite negb_true_iff, Z.eqb_neq. tauto.
      * rewrite Z.leb_le. tauto.
      * rewrite Z.ltb_lt. tauto.
      * rewrite Z.geb_le. lia.
      * rewrite Z.gtb_lt. lia.
    + destruct (formulaExprEqual (simplifyExpr l0) (simplifyExpr r0)) eqn:E; [|discriminate].
      apply formulaExprEqual_eq in E. rewrite <- E. intros [= <-].
      destruct k; simpl; split; try discriminate; try lia; auto.
  - destruct (formulaExprEqual (simplifyExpr l0) (simplifyExpr r0)) eqn:E.
    + apply formulaExprEqual_eq in E. rewrite <- E.
      intros [= <-]. destruct k; simpl; split; try discriminate; try lia; auto.
    + destruct (evalExprToNumber (simplifyExpr r0)); discriminate.
Qed.

Lemma simplifyFormula_holds (I : Interpretation) (formula : Formula) :
  safeFormula formula = true ->
  (solved (simplifyFormula formula) = true -> holds I formula)
  /\ (forall g, newFormula (simplifyFormula formula) = Some g ->
                (holds I g <-> holds I formula)).
Proof.
  induction formula as [qk v s body _|ck l IHl r IHr|body _|j args
                       |tk l r|fk f arg value|nk l r|f arg|element f arg| |];
    intros Hs;
    try (simpl; split; [discriminate|intros g [= <-]; split; intros Hx; exact Hx]).
  - cbn [safeFormula] in Hs. apply andb_prop in Hs as [Hsl Hsr].
    destruct (IHl Hsl) as [IHl1 IHl2]. destruct (IHr Hsr) as [IHr1 IHr2].
    destruct ck; simpl.
    + destruct (solved (simplifyFormula r)) eqn:Er; simpl.
      * split; [auto|discriminate].
      * split; [discriminate|intros g [= <-]; split; intros Hx; exact Hx].
    + destruct (solved (simplifyFormula l)) eqn:El,
               (solved (simplifyFormula r)) eqn:Er; simpl.
      * split; [auto|discriminate].
      * split; [discriminate|]. intros g [= <-].
        destruct (newFormula (simplifyFormula r)) as [g|] eqn:Eg.
        -- rewrite (IHr2 g eq_refl). tauto.
        -- tauto.
      * split; [discriminate|]. intros g [= <-].
        destruct (newFormula (simplifyFormula l)) as [g|] eqn:Eg.
        -- rewrite (IHl2 g eq_refl). tauto.
        -- tauto.
      * split; [discriminate|intros g [= <-]; split; intros Hx; exact Hx].
    + destruct (solved (simplifyFormula l)) eqn:El,
               (solved (simplifyFormula r)) eqn:Er; simpl;
        (split; [auto|try discriminate]); try discriminate.
      intros g [= <-]. split; intros Hx; exact Hx.
  - cbn [safeFormula] in Hs. apply andb_prop in Hs as [Hsl Hsr].
    pose proof (proj1 (simplifyExpr_denote I l Hsl)) as Dl.
    pose proof (proj1 (simplifyExpr_denote I r Hsr)) as Dr.
    simpl.
    destruct (checkTrivialComparison (simplifyExpr l) (simplifyExpr r) nk) as [[|]|] eqn:E;
      simpl.
    + apply (checkTrivialComparison_sound I) in E. rewrite Dl, Dr in E.
      split; [intros _; now apply E|discriminate].
    + apply (checkTrivialComparison_sound I) in E. rewrite Dl, Dr in E.
      split; [discriminate|]. intros g [= <-]. simpl. split; [tauto|].
      intros H. apply E in H. discriminate.
    + destruct (negb _ || negb _); simpl; split; try discriminate; intros g [= <-]; simpl;
        rewrite ?Dl, ?Dr; tauto.
  - simpl. split; [auto|discriminate].
Qed.

(** X17: [simplifyFormula] is sound under every interpretation over the
    integers for a formula whose arithmetic stays within the integers that
    JavaScript numbers represent exactly: a formula it reports as solved
    holds, and a formula it returns in place of the original one holds
    exactly when the original does.  Beyond these integers it reports
    [9007199254740992 + 1 = 9007199254740992] as solved. *)
Theorem simplifyFormula_sound :
  (forall (I : Interpretation) (formula : Formula),
      safeFormula formula = true ->
      (solved (simplifyFormula formula) = true -> holds I formula)
      /\ (forall g, newFormula (simplifyFormula formula) = Some g ->
                    (holds I g <-> holds I formula)))
  /\ solved (simplifyFormula
               (F_num numEq (X_arith ak_add (X_int 9007199254740992) (X_int 1))
                      (X_int 9007199254740992))) = true.
Proof.
  split; [|reflexivity]. intros I formula. apply simplifyFormula_holds.
Qed.

Lemma simplifyFormula_sound_witness :
  holds exInterpretation (F_num numEq (X_arith ak_add (X_int 1) (X_int 1)) (X_int 2)).
Proof.
  apply (proj1 (proj1 simplifyFormula_sound exInterpretation
                  (F_num numEq (X_arith ak_add (X_int 1) (X_int 1)) (X_int 2))
                  eq_refl)).
  reflexivity.
Defined.

(** ** Soundness of the tactics *)

Lemma findHyp_In (hyps : list ProofHypothesis) (name : string) (hyp : ProofHypothesis) :
  findHyp hyps name = Some hyp -> In hyp hyps.
Proof. unfold findHyp. intros H. now apply find_some in H as [H _]. Qed.

(** The soundness of the tactics on connectives, comparisons and
    hypotheses, for use in the proofs below. *)
Lemma applyTactic_valid (uuid : nat -> string) (I : Interpretation)
  (goal : ProofGoal) (tactic : Tactic)
  (constructors : JsMap.t Constructor) (sorts : JsMap.t Sort)
  (functions : JsMap.t RecursiveFunc) (rules : JsMap.t InferenceRule)
  (n n' : nat) (newGoals : list ProofGoal) :
  isPropositionalTactic tactic = true ->
  (tactic = T_simplify -> lowerBoundsNonNegative (hypotheses (g_context goal))) ->
  (tactic = T_simplify \/ tactic = T_reflexivity -> safeGoal goal) ->
  (forall hypName, tactic = T_discriminate hypName -> constructorsDistinct I) ->
  applyTactic uuid goal tactic constructors sorts functions rules n = (success newGoals, n') ->
  (forall g, In g newGoals -> goalValid I g) ->
  goalValid I goal.
Proof.
  destruct goal as [gid [vars hyps] formula].
  unfold goalValid, safeGoal, applyTactic, sameContextGoal, bindGen, retGen, uuidv4.
  cbn [g_context g_goal hypotheses variables].
  intros Hprop Hbounds Hsafe Hdistinct Happly Hnew Hhyps.
  destruct tactic; try discriminate Hprop.
  - (* intro_hyp *)
    destruct formula as [|[] l r| | | | | | | | |]; try discriminate Happly.
    destruct (existsb _ hyps); [discriminate|]. injection Happly as <- _.
    simpl. intros Hl. apply (Hnew _ (or_introl eq_refl)). simpl.
    intros h Hin. apply in_app_iff in Hin as [Hin|[<-|[]]]; auto.
  - (* split *)
    destruct formula as [|[] l r| | | | | | | | |]; try discriminate Happly.
    injection Happly as <- _. simpl. split.
    + apply (Hnew _ (or_introl eq_refl)). exact Hhyps.
    + apply (Hnew _ (or_intror (or_introl eq_refl))). exact Hhyps.
  - (* left *)
    destruct formula as [|[] l r| | | | | | | | |]; try discriminate Happly.
    injection Happly as <- _. simpl. left. apply (Hnew _ (or_introl eq_refl)). exact Hhyps.
  - (* right *)
    destruct formula as [|[] l r| | | | | | | | |]; try discriminate Happly.
    injection Happly as <- _. simpl. right. apply (Hnew _ (or_introl eq_refl)). exact Hhyps.
  - (* apply *)
    destruct (findHyp hyps hypName) as [hyp|] eqn:Ehyp; [|discriminate].
    apply findHyp_In in Ehyp. specialize (Hhyps hyp Ehyp) as Hhyp.
    destruct (h_formula hyp) as [[] ? ? ?|[] hl hr| | | | | | | | |]; try discriminate Happly.
    destruct (formulaEqual hr formula) eqn:Eq; [|discriminate].
    apply formulaEqual_eq in Eq. subst hr. injection Happly as <- _.
    simpl in Hhyp. apply Hhyp. apply (Hnew _ (or_introl eq_refl)). exact Hhyps.
  - (* reflexivity *)
    destruct (Hsafe (or_intror eq_refl)) as [Hsf _].
    assert (Hcheck : forall l r,
               safeExpr l && safeExpr r = true ->
               (if negb (formulaExprEqual l r)
                then if formulaExprEqual (simplifyExpr l) (simplifyExpr r)
                     then fun n : nat => (success [], n)
                     else fun n : nat => (failure "Terms are not equal", n)
                else fun n : nat => (success [], n)) n = (success newGoals, n') ->
               denote I l = denote I r).
    { intros l r Hs. apply andb_prop in Hs as [Hsl Hsr].
      destruct (formulaExprEqual l r) eqn:E; simpl.
      - intros _. apply formulaExprEqual_eq in E. now subst.
      - destruct (formulaExprEqual (simplifyExpr l) (simplifyExpr r)) eqn:Es; [|discriminate].
        intros _. apply formulaExprEqual_eq in Es.
        now rewrite <- (proj1 (simplifyExpr_denote I l Hsl)),
                    <- (proj1 (simplifyExpr_denote I r Hsr)), Es. }
    destruct formula as [| | | |[] l r| |[] l r| | | |]; try discriminate Happly;
      apply (Hcheck _ _ Hsf) in Happly; simpl; lia.
  - (* discriminate *)
    destruct (findHyp hyps hypName) as [hyp|] eqn:Ehyp; [|discriminate].
    apply findHyp_In in Ehyp. specialize (Hhyps hyp Ehyp) as Hhyp.
    destruct (h_formula hyp) as [| | | |[] hl hr| | | | | |]; try discriminate Happly.
    destruct hl as [|lc largs| | | |]; try discriminate Happly.
    destruct hr as [|rc rargs| | | |]; try discriminate Happly.
    destruct (String.eqb lc rc) eqn:Ec; [discriminate|]. apply String.eqb_neq in Ec.
    simpl in Hhyp. now apply (Hdistinct hypName eq_refl) in Hhyp.
  - (* simplify *)
    destruct (Hsafe (or_introl eq_refl)) as [Hsf Hsh].
    destruct (tryLinearArithmetic formula hyps) eqn:Ela.
    { apply (tryLinearArithmetic_holds I formula hyps); auto. }
    destruct (simplifyFormula_holds I formula Hsf) as [Hsolved Hnewf].
    destruct (solved (simplifyFormula formula)); [auto|].
    destruct (newFormula (simplifyFormula formula)) as [nf|]; [|discriminate].
    destruct (negb (formulaEqual nf formula)); [|discriminate].
    injection Happly as <- _. apply (Hnewf nf eq_refl).
    apply (Hnew _ (or_introl eq_refl)). exact Hhyps.
  - (* trivial *)
    destruct formula; try (
      destruct (find _ hyps) as [hyp|] eqn:Ef; [|discriminate];
      apply find_some in Ef as [Hin Heq]; apply formulaEqual_eq in Heq;
      specialize (Hhyps hyp Hin); now rewrite Heq in Hhyps).
    exact Logic.I.
  - (* exact *)
    destruct (findHyp hyps hypName) as [hyp|] eqn:Ehyp; [|discriminate].
    apply findHyp_In in Ehyp.
    destruct (formulaEqual (h_formula hyp) formula) eqn:Eq; [|discriminate].
    apply formulaEqual_eq in Eq. rewrite <- Eq. auto.
Qed.

(** X18: the tactics on connectives, comparisons and hypotheses are sound:
    when [intro_hyp], [split], [left], [right], [apply], [reflexivity],
    [trivial], [exact], [discriminate] or [simplify] succeeds and every goal
    it produces is valid under an interpretation over the integers, the goal
    it was applied to is valid under that interpretation.  For
    [discriminate] the interpretation must give different constructors
    different values; for [simplify] the constant lower bounds among the
    hypotheses must be non-negative; for [simplify] and [reflexivity] the
    arithmetic of the goal and its hypotheses must stay within the integers
    that JavaScript numbers represent exactly.  Beyond them [reflexivity]
    closes the goal [9007199254740992 + 1 = 9007199254740992]. *)
Theorem applyTactic_sound (uuid : nat -> string) :
  (forall (I : Interpretation) (goal : ProofGoal) (tactic : Tactic)
          (constructors : JsMap.t Constructor) (sorts : JsMap.t Sort)
          (functions : JsMap.t RecursiveFunc) (rules : JsMap.t InferenceRule)
          (n n' : nat) (newGoals : list ProofGoal),
      isPropositionalTactic tactic = true ->
      (tactic = T_simplify -> lowerBoundsNonNegative (hypotheses (g_context goal))) ->
      (tactic = T_simplify \/ tactic = T_reflexivity -> safeGoal goal) ->
      (forall hypName, tactic = T_discriminate hypName -> constructorsDistinct I) ->
      applyTactic uuid goal tactic constructors sorts functions rules n
      = (success newGoals, n') ->
      (forall g, In g newGoals -> goalValid I g) ->
      goalValid I goal)
  /\ applyTactic uuid
       (mkProofGoal "g" (mkProofContext [] [])
          (F_num numEq (X_arith ak_add (X_int 9007199254740992) (X_int 1))
                 (X_int 9007199254740992)))
       T_reflexivity [] [] [] [] 0
     = (success [], 0).
Proof.
  split; [|reflexivity]. intros I goal tactic constructors sorts functions rules n n' newGoals.
  apply applyTactic_valid.
Qed.

Lemma applyTactic_sound_witness :
  goalValid exInterpretation
            (mkProofGoal "g" (mkProofContext [] [])
               (F_num numEq (X_arith ak_add (X_int 1) (X_int 1)) (X_int 2))).
Proof.
  apply (proj1 (applyTactic_sound exUuid) exInterpretation _ T_simplify [] [] [] [] 0 0 []).
  - reflexivity.
  - intros _ h [].
  - intros _. split; [reflexivity|intros h []].
  - discriminate.
  - reflexivity.
  - intros g [].
Defined.

(** ** Case analysis and the context of the produced goals *)

Lemma caseGoal_spec (uuid : nat -> string) (context : ProofContext)
  (formula : Formula) (varName : string) (c : Constructor) (n : nat) :
  exists g n',
    caseGoal uuid context formula varName c n = (g, n')
    /\ caseAnalysisCaseOf context formula varName c g.
Proof.
  unfold caseGoal, bindGen, retGen, uuidv4. eexists _, _. split; [reflexivity|].
  unfold caseAnalysisCaseOf. simpl. auto.
Qed.

(** The variables made for the arguments of a constructor are not compared
    with the variables of the context. *)
Lemma caseAnalysisCaseOf_repeats (context : ProofContext) (formula : Formula)
  (x : string) (c : Constructor) (g : ProofGoal) (y : ProofVariable) :
  caseAnalysisCaseOf context formula x c g ->
  In y (variables context) -> pv_name y <> x ->
  In (pv_name y) (map pv_name (freshVarsOf c)) ->
  ~ NoDup (map pv_name (variables (g_context g))).
Proof.
  intros (Hvars & _ & _) Hy Hyx Hin Hnd. rewrite Hvars, map_app in Hnd.
  assert (Hold : In (pv_name y) (map pv_name (withoutVar (variables context) x))).
  { apply in_map. apply filter_In. split; auto.
    apply negb_true_iff. now apply String.eqb_neq. }
  apply in_split in Hold as (l1 & l2 & Hold). rewrite Hold, <- app_assoc in Hnd.
  apply NoDup_remove_2 in Hnd. apply Hnd. apply in_or_app. right. apply in_or_app. now right.
Qed.

(** X19: [case_analysis(x)] on a variable [x] of an inductive sort always
    succeeds, with exactly one subgoal per constructor of the sort in
    registry order: [x] is removed from the variables, one variable per
    argument of the constructor is appended, named by the label of the
    argument, or [x0], [x1], ... by its position when it has none, the
    hypotheses are kept, and the goal has [x] replaced by the constructor
    applied to these variables.  The names are not compared with the
    context: when another variable of the context has one of them, the
    subgoal has two variables of that name.  Unlike [induction], the tactic
    has no guard for a sort without constructors: there it succeeds with no
    subgoal, and the goal counts as proved.  It fails when [x] is not in the
    context or its sort is not an inductive sort of the registry. *)
Theorem applyTactic_case_analysis
  (uuid : nat -> string) (goal : ProofGoal) (x : string)
  (constructors : JsMap.t Constructor) (sorts : JsMap.t Sort)
  (functions : JsMap.t RecursiveFunc) (rules : JsMap.t InferenceRule) (n : nat) :
  let run := applyTactic uuid goal (T_case_analysis x) constructors sorts functions rules n in
  (findVar (variables (g_context goal)) x = None -> exists error, run = (failure error, n))
  /\ (forall varInfo,
        findVar (variables (g_context goal)) x = Some varInfo ->
        (forall sort, JsMap.get (pv_sortId varInfo) sorts = Some sort ->
                      sort_kind sort <> inductive) ->
        exists error, run = (failure error, n))
  /\ (forall varInfo sort,
        findVar (variables (g_context goal)) x = Some varInfo ->
        JsMap.get (pv_sortId varInfo) sorts = Some sort ->
        sort_kind sort = inductive ->
        (exists newGoals n',
           run = (success newGoals, n')
           /\ Forall2 (caseAnalysisCaseOf (g_context goal) (g_goal goal) x)
                      (constructorsOfSort constructors (pv_sortId varInfo))
                      newGoals
           /\ Forall2 (fun c g =>
                         forall y, In y (variables (g_context goal)) -> pv_name y <> x ->
                                   In (pv_name y) (map pv_name (freshVarsOf c)) ->
                                   ~ NoDup (map pv_name (variables (g_context g))))
                      (constructorsOfSort constructors (pv_sortId varInfo))
                      newGoals)
        /\ (constructorsOfSort constructors (pv_sortId varInfo) = [] ->
            run = (success [], n))).
Proof.
  cbv zeta. unfold applyTactic, retGen. split; [|split].
  - intros ->. eauto.
  - intros varInfo -> Hkind.
    destruct (JsMap.get (pv_sortId varInfo) sorts) as [[? ? [] ? ? ?]|] eqn:E; eauto.
    exfalso. now apply (Hkind _ eq_refl).
  - intros varInfo sort -> -> Hkind.
    destruct sort as [? ? k ? ? ?]. simpl in Hkind. subst k. unfold bindGen. split.
    + destruct (mapGen_Forall2
                  (caseGoal uuid (g_context goal) (g_goal goal) x)
                  (caseAnalysisCaseOf (g_context goal) (g_goal goal) x)
                  (caseGoal_spec uuid (g_context goal) (g_goal goal) x)
                  (constructorsOfSort constructors (pv_sortId varInfo)) n)
        as (gs & n' & Hgs & HF).
      rewrite Hgs. exists gs, n'. repeat split; auto.
      clear Hgs. induction HF as [|c g cs gs' Hcase _ IH]; constructor; auto.
      intros y Hy Hyx Hin. now apply (caseAnalysisCaseOf_repeats _ _ _ _ _ y Hcase).
    + intros ->. reflexivity.
Qed.

Lemma applyTactic_case_analysis_witness :
  exists newGoals n',
    applyTactic exUuid exTwoVarsGoal (T_case_analysis "m") exConstructors exSorts [] [] 0
    = (success newGoals, n')
    /\ map (fun g => map pv_name (variables (g_context g))) newGoals
       = [["n"]; ["n"; "n"]]
    /\ map g_goal newGoals
       = [F_num numGeq (X_funcApp "size" (X_constructor "Z" []))
                (X_funcApp "size" (X_var "n"));
          F_num numGeq (X_funcApp "size" (X_constructor "S" [X_var "n"]))
                (X_funcApp "size" (X_var "n"))].
Proof.
  destruct (applyTactic_case_analysis exUuid exTwoVarsGoal "m" exConstructors exSorts
              [] [] 0) as (_ & _ & H).
  destruct (H (mkProofVariable "m" "nat")
              (mkSort "nat" "N" inductive false "#60a5fa" None)
              eq_refl eq_refl eq_refl) as [(newGoals & n' & Hrun & _ & _) _].
  exists newGoals, n'. split; [exact Hrun|].
  vm_compute in Hrun. injection Hrun as <- <-. split; reflexivity.
Defined.

Lemma mapGen_Forall {A B : Type} (f : A -> Gen B) (P : B -> Prop) :
  (forall a n b n', f a n = (b, n') -> P b) ->
  forall l n bs n', mapGen f l n = (bs, n') -> Forall P bs.
Proof.
  intros Hf. induction l as [|a l IH]; intros n bs n'; simpl.
  - unfold retGen. intros [= <- _]. constructor.
  - unfold bindGen, retGen. destruct (f a n) as [b n1] eqn:Eb.
    destruct (mapGen f l n1) as [bs' n2] eqn:Ebs. intros [= <- _].
    constructor; eauto.
Qed.

(** X20: no tactic ever drops or changes a hypothesis: in every goal that a
    successful tactic produces, the hypotheses of the original goal come
    first, in their order, followed by the hypotheses the tactic added. *)
Theorem applyTactic_keeps_hypotheses (uuid : nat -> string)
  (goal : ProofGoal) (tactic : Tactic)
  (constructors : JsMap.t Constructor) (sorts : JsMap.t Sort)
  (functions : JsMap.t RecursiveFunc) (rules : JsMap.t InferenceRule)
  (n n' : nat) (newGoals : list ProofGoal) :
  applyTactic uuid goal tactic constructors sorts functions rules n = (success newGoals, n') ->
  forall g, In g newGoals ->
            exists added, hypotheses (g_context g) = hypotheses (g_context goal) ++ added.
Proof.
  destruct goal as [gid [vars hyps] formula].
  unfold applyTactic, sameContextGoal, bindGen, retGen, uuidv4.
  cbn [g_context g_goal hypotheses variables].
  assert (Hsame : forall id f g,
             In g [mkProofGoal id (mkProofContext vars hyps) f] ->
             exists added, hypotheses (g_context g) = hyps ++ added).
  { intros id f g [<-|[]]. exists []. simpl. now rewrite app_nil_r. }
  assert (Hnone : forall g : ProofGoal, In g [] ->
             exists added, hypotheses (g_context g) = hyps ++ added) by (intros g []).
  destruct tactic; intros Happly.
  - destruct formula as [[] v s body| | | | | | | | | |]; try discriminate Happly.
    destruct (existsb _ vars); [discriminate|]. injection Happly as <- _.
    intros g [<-|[]]. exists []. simpl. now rewrite app_nil_r.
  - destruct formula as [|[] l r| | | | | | | | |]; try discriminate Happly.
    destruct (existsb _ hyps); [discriminate|]. injection Happly as <- _.
    intros g [<-|[]]. simpl. eauto.
  - destruct formula as [[] v s body| | | | | | | | | |]; try discriminate Happly.
    injection Happly as <- _. eauto.
  - destruct formula as [|[] l r| | | | | | | | |]; try discriminate Happly.
    injection Happly as <- _. intros g [<-|[<-|[]]]; exists []; simpl; now rewrite app_nil_r.
  - destruct formula as [|[] l r| | | | | | | | |]; try discriminate Happly.
    injection Happly as <- _. eauto.
  - destruct formula as [|[] l r| | | | | | | | |]; try discriminate Happly.
    injection Happly as <- _. eauto.
  - destruct (findVar vars varName) as [varInfo|]; [|discriminate].
    destruct (JsMap.get (pv_sortId varInfo) sorts) as [[? ? [] ? ? ?]|]; try discriminate.
    destruct (Nat.eqb _ 0); [discriminate|].
    destruct (mapGen _ _ n) as [gs n1] eqn:Egs. injection Happly as <- _.
    assert (HF : Forall (fun g => exists added,
                           hypotheses (g_context g) = hyps ++ added) gs).
    { refine (mapGen_Forall _ _ _ _ _ _ _ Egs). intros c m g m' Hg.
      destruct (inductionGoal_spec uuid (mkProofContext vars hyps) formula varName
                                   (pv_sortId varInfo) c m) as (g0 & m0 & Hg0 & Hcase).
      rewrite Hg in Hg0. injection Hg0 as <- _.
      destruct Hcase as (_ & _ & ihs & Hh & _). eauto. }
    rewrite Forall_forall in HF. exact HF.
  - discriminate.
  - destruct (findHyp hyps hypName) as [hyp|]; [|discriminate].
    destruct (h_formula hyp) as [[] ? ? ?|[] hl hr| | | | | | | | |]; try discriminate Happly.
    destruct (formulaEqual hr formula); [|discriminate].
    injection Happly as <- _. eauto.
  - discriminate.
  - destruct formula as [| | | |[] l r| |[] l r| | | |]; try discriminate Happly;
      destruct (negb _); try destruct (formulaExprEqual (simplifyExpr l) (simplifyExpr r));
      try discriminate Happly; injection Happly as <- _; exact Hnone.
  - discriminate.
  - discriminate.
  - destruct (findVar vars varName) as [varInfo|]; [|discriminate].
    destruct (JsMap.get (pv_sortId varInfo) sorts) as [[? ? [] ? ? ?]|]; try discriminate.
    destruct (mapGen _ _ n) as [gs n1] eqn:Egs. injection Happly as <- _.
    assert (HF : Forall (fun g => exists added,
                           hypotheses (g_context g) = hyps ++ added) gs).
    { refine (mapGen_Forall _ _ _ _ _ _ _ Egs). intros c m g m'.
      unfold caseGoal, bindGen, retGen, uuidv4. intros [= <- _].
      exists []. simpl. now rewrite app_nil_r. }
    rewrite Forall_forall in HF. exact HF.
  - destruct (findHyp hyps hypName) as [hyp|]; [|discriminate].
    destruct (h_formula hyp) as [| | | |[] hl hr| | | | | |]; try discriminate Happly.
    destruct hl; try discriminate Happly. destruct hr; try discriminate Happly.
    destruct (negb _); [|discriminate]. injection Happly as <- _. exact Hnone.
  - discriminate.
  - destruct (JsMap.get funcId functions) as [func|]; [|discriminate].
    destruct formula; try discriminate Happly;
      destruct side;
      match goal with
      | H : context [unfoldFuncApp ?e func constructors] |- _ =>
          destruct (unfoldFuncApp e func constructors); [|discriminate H]
      end; injection Happly as <- _; eauto.
  - destruct (tryLinearArithmetic formula hyps); [injection Happly as <- _; exact Hnone|].
    destruct (solved (simplifyFormula formula)); [injection Happly as <- _; exact Hnone|].
    destruct (newFormula (simplifyFormula formula)) as [nf|]; [|discriminate].
    destruct (negb (formulaEqual nf formula)); [|discriminate].
    injection Happly as <- _. eauto.
  - destruct formula; try (destruct (find _ hyps); [|discriminate]);
      injection Happly as <- _; exact Hnone.
  - destruct (findHyp hyps hypName) as [hyp|]; [|discriminate].
    destruct (negb _); [discriminate|]. injection Happly as <- _. exact Hnone.
Qed.

Lemma applyTactic_keeps_hypotheses_witness :
  exists added,
    hypotheses (mkProofContext [mkProofVariable "n" "nat"]
                  [mkProofHypothesis "g1" "IH_n"
                     (F_num numGeq (X_funcApp "size" (X_var "n")) (X_int 0))])
    = hypotheses (g_context exSizeGoal) ++ added.
Proof.
  apply (applyTactic_keeps_hypotheses exUuid exSizeGoal (T_induction "n") exConstructors
           exSorts exFunctions [] 0 3 _ eq_refl
           (mkProofGoal "g2"
              (mkProofContext [mkProofVariable "n" "nat"]
                 [mkProofHypothesis "g1" "IH_n"
                    (F_num numGeq (X_funcApp "size" (X_var "n")) (X_int 0))])
              (F_num numGeq (X_funcApp "size" (X_constructor "S" [X_var "n"])) (X_int 0)))).
  right. now left.
Defined.

(** ** Identifiers of the produced goals *)

Lemma drawnBetween_weaken (uuid : nat -> string) (gs : list ProofGoal) :
  forall n m n', m <= n -> drawnBetween uuid n gs n' -> drawnBetween uuid m gs n'.
Proof.
  destruct gs as [|g gs]; simpl; intros n m n' Hm.
  - lia.
  - intros (k & Hk & Hn & Hrest). exists k. repeat split; auto. lia.
Qed.

Lemma drawnBetween_le (uuid : nat -> string) (gs : list ProofGoal) :
  forall n n', drawnBetween uuid n gs n' -> n <= n'.
Proof.
  induction gs as [|g gs IH]; simpl; intros n n'; auto.
  intros (k & _ & Hn & Hrest). apply IH in Hrest. lia.
Qed.

Lemma drawnBetween_ids (uuid : nat -> string) (gs : list ProofGoal) :
  forall n n',
    drawnBetween uuid n gs n' ->
    forall g, In g gs -> exists k, g_id g = uuid k /\ n <= k < n'.
Proof.
  induction gs as [|g0 gs IH]; simpl; intros n n' H g; [intros []|].
  destruct H as (k & Hk & Hn & Hrest). intros [<-|Hin].
  - exists k. apply drawnBetween_le in Hrest. repeat split; auto; lia.
  - destruct (IH _ _ Hrest g Hin) as (k' & Hk' & Hr). exists k'. split; auto. lia.
Qed.

Lemma drawnBetween_NoDup (uuid : nat -> string) (gs : list ProofGoal) :
  (forall i j, uuid i = uuid j -> i = j) ->
  forall n n', drawnBetween uuid n gs n' -> NoDup (map g_id gs).
Proof.
  intros Hinj. induction gs as [|g gs IH]; simpl; intros n n' H; constructor.
  - destruct H as (k & Hk & Hn & Hrest). intros Hin.
    apply in_map_iff in Hin as (g' & Hid & Hin).
    destruct (drawnBetween_ids _ _ _ _ Hrest g' Hin) as (k' & Hk' & Hr).
    assert (k = k') by (apply Hinj; congruence). lia.
  - destruct H as (k & _ & _ & Hrest). eauto.
Qed.

Lemma inductionHypothesesOf_le (uuid : nat -> string) (formula : Formula)
  (varName sortId : string) (args : list ConstructorArg) :
  forall freshVars n ihs n',
    inductionHypothesesOf uuid formula varName sortId args freshVars n = (ihs, n') ->
    n <= n'.
Proof.
  induction args as [|arg args IH]; intros freshVars n ihs n'; simpl.
  - unfold retGen. intros [= _ <-]. lia.
  - destruct freshVars as [|v freshVars]; [unfold retGen; intros [= _ <-]; lia|].
    destruct (String.eqb (arg_sortId arg) sortId).
    + unfold bindGen, retGen, uuidv4.
      destruct (inductionHypothesesOf uuid formula varName sortId args freshVars (S n))
        as [rest m] eqn:E.
      intros [= _ <-]. apply IH in E. lia.
    + apply IH.
Qed.

Lemma mapGen_drawnBetween (uuid : nat -> string) {A : Type} (f : A -> Gen ProofGoal) :
  (forall a m g m', f a m = (g, m') -> exists k, g_id g = uuid k /\ m <= k < m') ->
  forall l n gs n', mapGen f l n = (gs, n') -> drawnBetween uuid n gs n'.
Proof.
  intros Hf. induction l as [|a l IH]; intros n gs n'; simpl.
  - unfold retGen. intros [= <- <-]. simpl. lia.
  - unfold bindGen, retGen. destruct (f a n) as [g n1] eqn:Eg.
    destruct (mapGen f l n1) as [gs' n2] eqn:Egs. intros [= <- <-].
    destruct (Hf _ _ _ _ Eg) as (k & Hk & Hr). simpl. exists k. repeat split; auto; [lia|].
    apply (drawnBetween_weaken uuid gs' n1); [lia|]. eauto.
Qed.

Lemma applyTactic_drawnBetween (uuid : nat -> string)
  (goal : ProofGoal) (tactic : Tactic)
  (constructors : JsMap.t Constructor) (sorts : JsMap.t Sort)
  (functions : JsMap.t RecursiveFunc) (rules : JsMap.t InferenceRule)
  (n n' : nat) (newGoals : list ProofGoal) :
  applyTactic uuid goal tactic constructors sorts functions rules n = (success newGoals, n') ->
  drawnBetween uuid n newGoals n'.
Proof.
  destruct goal as [gid [vars hyps] formula].
  unfold applyTactic, sameContextGoal, bindGen, retGen, uuidv4.
  cbn [g_context g_goal hypotheses variables].
  assert (Hone : forall ctx f, drawnBetween uuid n [mkProofGoal (uuid n) ctx f] (S n)).
  { intros ctx f. simpl. exists n. auto. }
  destruct tactic; intros Happly.
  - destruct formula as [[] v s body| | | | | | | | | |]; try discriminate Happly.
    destruct (existsb _ vars); [discriminate|]. injection Happly as <- <-. apply Hone.
  - destruct formula as [|[] l r| | | | | | | | |]; try discriminate Happly.
    destruct (existsb _ hyps); [discriminate|]. injection Happly as <- <-.
    simpl. exists n. repeat split; auto.
  - destruct formula as [[] v s body| | | | | | | | | |]; try discriminate Happly.
    injection Happly as <- <-. apply Hone.
  - destruct formula as [|[] l r| | | | | | | | |]; try discriminate Happly.
    injection Happly as <- <-. simpl. exists n. repeat split; auto. exists (S n). auto.
  - destruct formula as [|[] l r| | | | | | | | |]; try discriminate Happly.
    injection Happly as <- <-. apply Hone.
  - destruct formula as [|[] l r| | | | | | | | |]; try discriminate Happly.
    injection Happly as <- <-. apply Hone.
  - destruct (findVar vars varName) as [varInfo|]; [|discriminate].
    destruct (JsMap.get (pv_sortId varInfo) sorts) as [[? ? [] ? ? ?]|]; try discriminate.
    destruct (Nat.eqb _ 0); [discriminate|].
    destruct (mapGen _ _ n) as [gs n1] eqn:Egs. injection Happly as <- <-.
    refine (mapGen_drawnBetween uuid _ _ _ _ _ _ Egs).
    intros c m g m'. unfold inductionGoal, bindGen, retGen, uuidv4.
    destruct (inductionHypothesesOf _ _ _ _ _ _ m) as [ihs m1] eqn:Eih.
    intros [= <- <-]. apply inductionHypothesesOf_le in Eih. exists m1. simpl. split; auto; lia.
  - discriminate.
  - destruct (findHyp hyps hypName) as [hyp|]; [|discriminate].
    destruct (h_formula hyp) as [[] ? ? ?|[] hl hr| | | | | | | | |]; try discriminate Happly.
    destruct (formulaEqual hr formula); [|discriminate].
    injection Happly as <- <-. apply Hone.
  - discriminate.
  - destruct formula as [| | | |[] l r| |[] l r| | | |]; try discriminate Happly;
      destruct (negb _); try destruct (formulaExprEqual (simplifyExpr l) (simplifyExpr r));
      try discriminate Happly; injection Happly as <- <-; simpl; lia.
  - discriminate.
  - discriminate.
  - destruct (findVar vars varName) as [varInfo|]; [|discriminate].
    destruct (JsMap.get (pv_sortId varInfo) sorts) as [[? ? [] ? ? ?]|]; try discriminate.
    destruct (mapGen _ _ n) as [gs n1] eqn:Egs. injection Happly as <- <-.
    refine (mapGen_drawnBetween uuid _ _ _ _ _ _ Egs).
    intros c m g m'. unfold caseGoal, bindGen, retGen, uuidv4.
    intros [= <- <-]. exists m. simpl. split; auto; lia.
  - destruct (findHyp hyps hypName) as [hyp|]; [|discriminate].
    destruct (h_formula hyp) as [| | | |[] hl hr| | | | | |]; try discriminate Happly.
    destruct hl; try discriminate Happly. destruct hr; try discriminate Happly.
    destruct (negb _); [|discriminate]. injection Happly as <- <-. simpl. lia.
  - discriminate.
  - destruct (JsMap.get funcId functions) as [func|]; [|discriminate].
    destruct formula; try discriminate Happly;
      destruct side;
      match goal with
      | H : context [unfoldFuncApp ?e func constructors] |- _ =>
          destruct (unfoldFuncApp e func constructors); [|discriminate H]
      end; injection Happly as <- <-; apply Hone.
  - destruct (tryLinearArithmetic formula hyps); [injection Happly as <- <-; simpl; lia|].
    destruct (solved (simplifyFormula formula)); [injection Happly as <- <-; simpl; lia|].
    destruct (newFormula (simplifyFormula formula)) as [nf|]; [|discriminate].
    destruct (negb (formulaEqual nf formula)); [|discriminate].
    injection Happly as <- <-. apply Hone.
  - destruct formula; try (destruct (find _ hyps); [|discriminate]);
      injection Happly as <- <-; simpl; lia.
  - destruct (findHyp hyps hypName) as [hyp|]; [|discriminate].
    destruct (negb _); [discriminate|]. injection Happly as <- <-. simpl. lia.
Qed.

(** X21: with a supply of pairwise distinct identifiers, the goals that a
    successful tactic produces have pairwise distinct ids, and none of them
    is an identifier that was drawn before the tactic ran (such as the id of
    the goal the tactic was applied to). *)
Theorem applyTactic_fresh_ids (uuid : nat -> string)
  (goal : ProofGoal) (tactic : Tactic)
  (constructors : JsMap.t Constructor) (sorts : JsMap.t Sort)
  (functions : JsMap.t RecursiveFunc) (rules : JsMap.t InferenceRule)
  (n n' : nat) (newGoals : list ProofGoal) :
  (forall i j, uuid i = uuid j -> i = j) ->
  applyTactic uuid goal tactic constructors sorts functions rules n = (success newGoals, n') ->
  NoDup (map g_id newGoals)
  /\ forall k, k < n -> ~ In (uuid k) (map g_id newGoals).
Proof.
  intros Hinj Happly. apply applyTactic_drawnBetween in Happly. split.
  - now apply (drawnBetween_NoDup uuid newGoals Hinj n n').
  - intros k Hk Hin. apply in_map_iff in Hin as (g & Hid & Hin).
    destruct (drawnBetween_ids _ _ _ _ Happly g Hin) as (k' & Hk' & Hr).
    assert (k = k') by (apply Hinj; congruence). lia.
Qed.

Lemma applyTactic_fresh_ids_witness :
  NoDup (map g_id
           [mkProofGoal "g0" (mkProofContext [] [])
              (F_num numGeq (X_funcApp "size" (X_constructor "Z" [])) (X_int 0));
            mkProofGoal "g2"
              (mkProofContext [mkProofVariable "n" "nat"]
                 [mkProofHypothesis "g1" "IH_n"
                    (F_num numGeq (X_funcApp "size" (X_var "n")) (X_int 0))])
              (F_num numGeq (X_funcApp "size" (X_constructor "S" [X_var "n"])) (X_int 0))]).
Proof.
  apply (applyTactic_fresh_ids exUuid exSizeGoal (T_induction "n") exConstructors
           exSorts exFunctions [] 0 3 _ exUuid_inj eq_refl).
Defined.

Lemma formula_eq_true (formula : Formula) : formula = F_true \/ formula <> F_true.
Proof. destruct formula; auto; right; discriminate. Qed.

(** ** The hint for goals that can be closed at once *)

Lemma existsb_find {A : Type} (p : A -> bool) (l : list A) :
  existsb p l = match find p l with Some _ => true | None => false end.
Proof.
  induction l as [|a l IH]; simpl; auto. destruct (p a); auto.
Qed.

Lemma checkTrivialComparison_same (a b : FormulaExpr) (kind : NumCmpKind) :
  formulaExprEqual a b = true ->
  kind = numEq \/ kind = numLeq \/ kind = numGeq ->
  checkTrivialComparison a b kind = Some true.
Proof.
  intros Hab Hk. pose proof Hab as Heq. apply formulaExprEqual_eq in Heq. subst b.
  unfold checkTrivialComparison. destruct (evalExprToNumber a) as [v|].
  - f_equal. destruct Hk as [->|[->| ->]].
    + apply Z.eqb_refl.
    + apply Z.leb_refl.
    + rewrite Z.geb_leb. apply Z.leb_refl.
  - rewrite Hab. destruct Hk as [->|[->| ->]]; reflexivity.
Qed.


Lemma trivial_closes (uuid : nat -> string) (goal : ProofGoal) :
  closes uuid goal T_trivial
  <-> g_goal goal = F_true
      \/ existsb (fun h => formulaEqual (h_formula h) (g_goal goal))
                 (hypotheses (g_context goal)) = true.
Proof.
  destruct goal as [gid [vars hyps] formula]. unfold closes, applyTactic, retGen.
  cbn [g_context g_goal hypotheses variables]. rewrite existsb_find. split.
  - intros H. specialize (H [] [] [] [] 0).
    destruct formula; auto; right; destruct (find _ hyps); auto; discriminate H.
  - intros [->|H] cs ss fs rs n; [reflexivity|].
    destruct formula; auto; destruct (find _ hyps); auto; discriminate H.
Qed.

Lemma reflexivity_closes (uuid : nat -> string) (goal : ProofGoal) :
  closes uuid goal T_reflexivity
  <-> exists l r,
        reflexiveSides (g_goal goal) = Some (l, r)
        /\ (formulaExprEqual l r
            || formulaExprEqual (simplifyExpr l) (simplifyExpr r) = true).
Proof.
  destruct goal as [gid [vars hyps] formula]. unfold closes, applyTactic, retGen.
  cbn [g_context g_goal hypotheses variables]. split.
  - intros H. specialize (H [] [] [] [] 0).
    destruct formula as [| | | |[] l r| |[] l r| | | |]; try discriminate H;
      exists l, r; (split; [reflexivity|]);
      destruct (formulaExprEqual l r); auto; simpl in H |- *;
      destruct (formulaExprEqual (simplifyExpr l) (simplifyExpr r)); auto; discriminate H.
  - intros (l & r & Hs & H) cs ss fs rs n.
    destruct formula as [| | | |[] l' r'| |[] l' r'| | | |]; try discriminate Hs;
      injection Hs as -> ->;
      destruct (formulaExprEqual l r); auto; simpl in H |- *; now rewrite H.
Qed.

Lemma simplify_closes (uuid : nat -> string) (goal : ProofGoal) :
  closes uuid goal T_simplify
  <-> tryLinearArithmetic (g_goal goal) (hypotheses (g_context goal))
      || solved (simplifyFormula (g_goal goal)) = true.
Proof.
  destruct goal as [gid [vars hyps] formula].
  unfold closes, applyTactic, sameContextGoal, bindGen, retGen, uuidv4.
  cbn [g_context g_goal hypotheses variables]. split.
  - intros H. specialize (H [] [] [] [] 0).
    destruct (tryLinearArithmetic formula hyps); auto.
    destruct (solved (simplifyFormula formula)); auto.
    destruct (newFormula (simplifyFormula formula)); [|discriminate H].
    destruct (negb _); discriminate H.
  - intros H cs ss fs rs n.
    destruct (tryLinearArithmetic formula hyps); auto.
    simpl in H. now rewrite H.
Qed.

Lemma reflexiveSides_simplify (formula : Formula) (l r : FormulaExpr) :
  reflexiveSides formula = Some (l, r) ->
  formulaExprEqual (simplifyExpr l) (simplifyExpr r) = true ->
  (forall l' r', formula <> F_termCmp termEq l' r') ->
  solved (simplifyFormula formula) = true.
Proof.
  intros Hs He Hnot.
  destruct formula as [| | | |[] l' r'| |[] l' r'| | | |]; try discriminate Hs;
    injection Hs as -> ->; try (now destruct (Hnot l r));
    simpl; rewrite (checkTrivialComparison_same _ _ _ He); auto.
Qed.

(** X22: [isGoalTrivial] marks exactly the goals that one of the tactics
    [trivial], [reflexivity] and [simplify] closes without leaving a
    subgoal. *)
Theorem isGoalTrivial_exact (uuid : nat -> string) (goal : ProofGoal) :
  tr_trivial (isGoalTrivial (g_goal goal) (hypotheses (g_context goal))) = true
  <-> closes uuid goal T_trivial
      \/ closes uuid goal T_reflexivity
      \/ closes uuid goal T_simplify.
Proof.
  rewrite trivial_closes, reflexivity_closes, simplify_closes.
  destruct goal as [gid [vars hyps] formula]. cbn [g_context g_goal hypotheses variables].
  unfold isGoalTrivial.
  set (inHyps := existsb _ hyps).
  assert (Hdecide :
    tr_trivial (if solved (simplifyFormula formula) then mkTrivialResult true (Some "simplify")
                else if tryLinearArithmetic formula hyps
                     then mkTrivialResult true (Some "simplify")
                     else mkTrivialResult false None) = true
    <-> tryLinearArithmetic formula hyps || solved (simplifyFormula formula) = true).
  { destruct (solved (simplifyFormula formula)), (tryLinearArithmetic formula hyps);
      simpl; split; auto; discriminate. }
  split.
  - intros H. destruct (formula_eq_true formula) as [->|Hnt]; auto.
    assert (H' : tr_trivial
      (if inHyps then mkTrivialResult true (Some "trivial")
       else match reflexiveSides formula with
            | Some (l, r) =>
                if formulaExprEqual l r then mkTrivialResult true (Some "reflexivity")
                else if formulaExprEqual (simplifyExpr l) (simplifyExpr r)
                     then mkTrivialResult true (Some "simplify")
                     else if solved (simplifyFormula formula)
                          then mkTrivialResult true (Some "simplify")
                          else if tryLinearArithmetic formula hyps
                               then mkTrivialResult true (Some "simplify")
                               else mkTrivialResult false None
            | None =>
                if solved (simplifyFormula formula) then mkTrivialResult true (Some "simplify")
                else if tryLinearArithmetic formula hyps
                     then mkTrivialResult true (Some "simplify")
                     else mkTrivialResult false None
            end) = true) by (destruct formula; try exact H; now destruct Hnt).
    clear H. destruct inHyps; auto. right.
    destruct (reflexiveSides formula) as [[l r]|] eqn:Hs.
    + destruct (formulaExprEqual l r) eqn:E1;
        [left; exists l, r; rewrite E1; auto|].
      destruct (formulaExprEqual (simplifyExpr l) (simplifyExpr r)) eqn:E2;
        [left; exists l, r; rewrite E1, E2; auto|].
      right. now apply Hdecide.
    + right. now apply Hdecide.
  - intros H. destruct (formula_eq_true formula) as [->|Hnt]; auto.
    destruct inHyps eqn:Ein; [destruct formula; auto|].
    assert (Hgoal : tr_trivial
      (match reflexiveSides formula with
       | Some (l, r) =>
           if formulaExprEqual l r then mkTrivialResult true (Some "reflexivity")
           else if formulaExprEqual (simplifyExpr l) (simplifyExpr r)
                then mkTrivialResult true (Some "simplify")
                else if solved (simplifyFormula formula)
                     then mkTrivialResult true (Some "simplify")
                     else if tryLinearArithmetic formula hyps
                          then mkTrivialResult true (Some "simplify")
                          else mkTrivialResult false None
       | None =>
           if solved (simplifyFormula formula) then mkTrivialResult true (Some "simplify")
           else if tryLinearArithmetic formula hyps
                then mkTrivialResult true (Some "simplify")
                else mkTrivialResult false None
       end) = true).
    { destruct H as [[Ht|Hf]|[(l & r & Hs & Hr)|Hsimp]]; try congruence.
      - rewrite Hs. destruct (formulaExprEqual l r); auto.
        simpl in Hr. now rewrite Hr.
      - apply Hdecide in Hsimp.
        destruct (reflexiveSides formula) as [[l r]|]; auto.
        destruct (formulaExprEqual l r); auto.
        destruct (formulaExprEqual (simplifyExpr l) (simplifyExpr r)); auto. }
    destruct formula; try exact Hgoal; now destruct Hnt.
Qed.

Lemma isGoalTrivial_exact_witness :
  closes exUuid exNumEqGoal T_trivial
  \/ closes exUuid exNumEqGoal T_reflexivity
  \/ closes exUuid exNumEqGoal T_simplify.
Proof.
  apply (proj1 (isGoalTrivial_exact exUuid exNumEqGoal)). reflexivity.
Defined.

(** X23: the tactic named by the hint of [isGoalTrivial] closes the goal:
    whenever a goal is marked trivial, a tactic is named, and the tactic that
    the proof panel builds from the name succeeds without leaving a subgoal,
    unless the name is [simplify] and the goal is an equality between
    terms. *)
Theorem isGoalTrivial_hint_closes (uuid : nat -> string) (goal : ProofGoal) :
  tr_trivial (isGoalTrivial (g_goal goal) (hypotheses (g_context goal))) = true ->
  exists name,
    tr_tactic (isGoalTrivial (g_goal goal) (hypotheses (g_context goal))) = Some name
    /\ ((forall l r, g_goal goal <> F_termCmp termEq l r) \/ name <> "simplify"%string ->
        closes uuid goal (hintTactic name)).
Proof.
  destruct (formula_eq_true (g_goal goal)) as [Ht|Hnt].
  { rewrite Ht. intros _. exists "trivial"%string. split; auto. intros _.
    apply trivial_closes. auto. }
  assert (Hunfold : isGoalTrivial (g_goal goal) (hypotheses (g_context goal))
    = if existsb (fun h => formulaEqual (h_formula h) (g_goal goal))
                 (hypotheses (g_context goal))
      then mkTrivialResult true (Some "trivial"%string)
      else match reflexiveSides (g_goal goal) with
           | Some (l, r) =>
               if formulaExprEqual l r then mkTrivialResult true (Some "reflexivity"%string)
               else if formulaExprEqual (simplifyExpr l) (simplifyExpr r)
                    then mkTrivialResult true (Some "simplify"%string)
                    else if solved (simplifyFormula (g_goal goal))
                         then mkTrivialResult true (Some "simplify"%string)
                         else if tryLinearArithmetic (g_goal goal)
                                   (hypotheses (g_context goal))
                              then mkTrivialResult true (Some "simplify"%string)
                              else mkTrivialResult false None
           | None =>
               if solved (simplifyFormula (g_goal goal))
               then mkTrivialResult true (Some "simplify"%string)
               else if tryLinearArithmetic (g_goal goal) (hypotheses (g_context goal))
                    then mkTrivialResult true (Some "simplify"%string)
                    else mkTrivialResult false None
           end).
  { unfold isGoalTrivial. destruct (g_goal goal); try reflexivity. now destruct Hnt. }
  rewrite Hunfold. clear Hunfold.
  assert (Hdecide :
    tr_trivial (if solved (simplifyFormula (g_goal goal))
                then mkTrivialResult true (Some "simplify"%string)
                else if tryLinearArithmetic (g_goal goal) (hypotheses (g_context goal))
                     then mkTrivialResult true (Some "simplify"%string)
                     else mkTrivialResult false None) = true ->
    exists name,
      tr_tactic (if solved (simplifyFormula (g_goal goal))
                 then mkTrivialResult true (Some "simplify"%string)
                 else if tryLinearArithmetic (g_goal goal) (hypotheses (g_context goal))
                      then mkTrivialResult true (Some "simplify"%string)
                      else mkTrivialResult false None) = Some name
      /\ ((forall l r, g_goal goal <> F_termCmp termEq l r) \/ name <> "simplify"%string ->
          closes uuid goal (hintTactic name))).
  { destruct (solved (simplifyFormula (g_goal goal))) eqn:Es;
      [|destruct (tryLinearArithmetic (g_goal goal) (hypotheses (g_context goal))) eqn:El];
      try discriminate; intros _; exists "simplify"%string; (split; [reflexivity|]);
      intros _; apply simplify_closes; rewrite ?Es, ?El; auto using orb_true_r. }
  destruct (existsb _ (hypotheses (g_context goal))) eqn:Ein.
  { intros _. exists "trivial"%string. split; auto. intros _. apply trivial_closes. auto. }
  destruct (reflexiveSides (g_goal goal)) as [[l r]|] eqn:Hs; auto.
  destruct (formulaExprEqual l r) eqn:E1.
  { intros _. exists "reflexivity"%string. split; auto. intros _.
    apply reflexivity_closes. exists l, r. now rewrite E1. }
  destruct (formulaExprEqual (simplifyExpr l) (simplifyExpr r)) eqn:E2; auto.
  intros _. exists "simplify"%string. split; auto.
  intros [Hnot|Hname]; [|now destruct Hname].
  apply simplify_closes. rewrite (reflexiveSides_simplify _ _ _ Hs E2 Hnot).
  apply orb_true_r.
Qed.

Lemma isGoalTrivial_hint_closes_witness : closes exUuid exNumEqGoal T_simplify.
Proof.
  destruct (isGoalTrivial_hint_closes exUuid exNumEqGoal eq_refl) as (name & Hname & Hcloses).
  injection Hname as <-. apply Hcloses. left. intros l r. discriminate.
Defined.

(** X24: for an equality between terms whose two sides differ but simplify
    to the same expression, and which is not among the hypotheses,
    [isGoalTrivial] names the tactic [simplify], and that tactic fails on
    the goal; [reflexivity] is the tactic that closes it. *)
Theorem isGoalTrivial_termEq_hint_fails (uuid : nat -> string) (goal : ProofGoal)
  (l r : FormulaExpr) :
  g_goal goal = F_termCmp termEq l r ->
  existsb (fun h => formulaEqual (h_formula h) (g_goal goal))
          (hypotheses (g_context goal)) = false ->
  formulaExprEqual l r = false ->
  formulaExprEqual (simplifyExpr l) (simplifyExpr r) = true ->
  isGoalTrivial (g_goal goal) (hypotheses (g_context goal))
  = mkTrivialResult true (Some "simplify"%string)
  /\ (forall constructors sorts functions rules n,
        applyTactic uuid goal (hintTactic "simplify") constructors sorts functions rules n
        = (failure "Cannot simplify further", n))
  /\ closes uuid goal T_reflexivity.
Proof.
  intros Hg Hin E1 E2. split; [|split].
  - unfold isGoalTrivial. rewrite Hin, Hg. simpl. now rewrite E1, E2.
  - intros cs ss fs rs n. destruct goal as [gid [vars hyps] formula]. simpl in Hg. subst formula.
    unfold applyTactic. simpl. rewrite !formulaExprEqual_refl. reflexivity.
  - apply reflexivity_closes. exists l, r. rewrite Hg, E1, E2. auto.
Qed.

Lemma isGoalTrivial_termEq_hint_fails_witness :
  isGoalTrivial (g_goal exTermEqGoal) (hypotheses (g_context exTermEqGoal))
  = mkTrivialResult true (Some "simplify"%string)
  /\ (forall constructors sorts functions rules n,
        applyTactic exUuid exTermEqGoal (hintTactic "simplify")
                    constructors sorts functions rules n
        = (failure "Cannot simplify further", n))
  /\ closes exUuid exTermEqGoal T_reflexivity.
Proof.
  apply (isGoalTrivial_termEq_hint_fails exUuid exTermEqGoal
           (X_arith ak_add (X_int 1) (X_int 1)) (X_int 2));
    reflexivity.
Defined.

(** ** Rules of the registry and the derivation search *)

Lemma values_set_fresh {V : Type} (k : string) (v : V) (m : JsMap.t V) :
  JsMap.get k m = None -> JsMap.values (JsMap.set k v m) = JsMap.values m ++ [v].
Proof.
  unfold JsMap.values. induction m as [|[k' v'] m IH]; simpl; auto.
  destruct (String.eqb k' k); [discriminate|]. intros H. simpl. now rewrite IH.
Qed.

Lemma emptyHoles_run (uuid : nat -> string) (argSorts : list (string * string))
  (s : Store.StoreState) (n : nat) :
  Store.emptyHoles uuid argSorts s n
  = Some (repeat (mkPattern None None []) (length argSorts), s, n + length argSorts).
Proof.
  revert n. unfold Store.emptyHoles.
  induction argSorts as [|a argSorts IH]; intros n; simpl.
  - unfold Store.retAct. now rewrite Nat.add_0_r.
  - unfold Store.bindAct, Store.freshId, Store.retAct in *. rewrite IH.
    now replace (S n + length argSorts) with (n + S (length argSorts)) by lia.
Qed.

Lemma getRulesForJudgment_ext_build (rules1 rules2 : JsMap.t InferenceRule) :
  (forall j, getRulesForJudgment rules1 j = getRulesForJudgment rules2 j) ->
  forall j ts,
    buildDerivation rules1 j ts = buildDerivation rules2 j ts
    /\ canDerive rules1 j ts = canDerive rules2 j ts.
Proof.
  intros Hrules j ts. split.
  - assert (H : forall fuel j ts depth,
               buildDerivationAux fuel rules1 j ts depth
               = buildDerivationAux fuel rules2 j ts depth).
    { induction fuel as [|fuel IH]; intros j' ts' depth; [reflexivity|].
      rewrite !buildDerivationAux_step. destruct (Nat.ltb 10 depth); auto.
      rewrite Hrules. apply tryRules_ext. intros j'' ts''. apply IH. }
    apply H.
  - assert (H : forall fuel j ts depth,
               canDeriveAux fuel rules1 j ts depth = canDeriveAux fuel rules2 j ts depth).
    { induction fuel as [|fuel IH]; intros j' ts' depth; [reflexivity|].
      rewrite !canDeriveAux_step. destruct (Nat.ltb 5 depth); auto.
      rewrite Hrules. apply canDeriveRules_ext. intros j'' ts''. apply IH. }
    apply H.
Qed.

(** X25: [addRule] on a registered judgment with at least one argument
    stores, under a fresh id, a rule without premises whose conclusion has
    one empty hole per argument.  The rule is incomplete, and the derivation
    search ignores it: [buildDerivation] and [canDerive] answer as they did
    before the rule was added. *)
Theorem addRule_ignored_until_complete (uuid : nat -> string) (name judgmentId : string)
  (s : Store.StoreState) (n : nat) (judgment : Judgment) :
  JsMap.get judgmentId (Store.judgments s) = Some judgment ->
  j_argSorts judgment <> [] ->
  JsMap.get (uuid (n + length (j_argSorts judgment))) (Store.rules s) = None ->
  exists rule s',
    Store.addRule uuid name judgmentId s n
    = Some (rule, s', n + length (j_argSorts judgment) + 2)
    /\ JsMap.get (r_id rule) (Store.rules s') = Some rule
    /\ r_name rule = name
    /\ r_premises rule = []
    /\ ji_judgmentId (r_conclusion rule) = judgmentId
    /\ ji_args (r_conclusion rule)
       = repeat (mkPattern None None []) (length (j_argSorts judgment))
    /\ isRuleComplete rule = false
    /\ forall j ts,
         buildDerivation (Store.rules s') j ts = buildDerivation (Store.rules s) j ts
         /\ canDerive (Store.rules s') j ts = canDerive (Store.rules s) j ts.
Proof.
  intros Hj Hargs Hfresh.
  unfold Store.addRule, Store.bindAct at 1, Store.getState at 1. rewrite Hj.
  unfold Store.bindAct at 1. rewrite emptyHoles_run.
  unfold Store.bindAct, Store.getState, Store.freshId, Store.setState, Store.retAct.
  eexists. eexists. split; [do 3 f_equal; lia|].
  cbn [r_id r_name r_premises r_conclusion ji_judgmentId ji_args Store.rules Store.withRules].
  assert (Hinc : forall id cid pos,
    isRuleComplete
      (mkInferenceRule id name [] []
         (mkJudgmentInstance cid judgmentId
            (repeat (mkPattern None None []) (length (j_argSorts judgment)))) pos) = false).
  { intros id cid pos. unfold isRuleComplete, isJudgmentInstanceComplete. simpl.
    destruct (j_argSorts judgment); [now destruct Hargs|reflexivity]. }
  repeat split; auto using JsMapFacts.get_set_eq;
    apply getRulesForJudgment_ext_build; intros j';
    unfold getRulesForJudgment; rewrite (values_set_fresh _ _ _ Hfresh), filter_app;
    simpl; rewrite Hinc, andb_false_r; apply app_nil_r.
Qed.

Lemma addRule_ignored_until_complete_witness :
  exists rule s',
    Store.addRule exUuid "E-New" "even" exStore 0 = Some (rule, s', 0 + 1 + 2)
    /\ JsMap.get (r_id rule) (Store.rules s') = Some rule
    /\ r_name rule = "E-New"%string
    /\ r_premises rule = []
    /\ ji_judgmentId (r_conclusion rule) = "even"%string
    /\ ji_args (r_conclusion rule) = repeat (mkPattern None None []) 1
    /\ isRuleComplete rule = false
    /\ forall j ts,
         buildDerivation (Store.rules s') j ts = buildDerivation (Store.rules exStore) j ts
         /\ canDerive (Store.rules s') j ts = canDerive (Store.rules exStore) j ts.
Proof.
  apply (addRule_ignored_until_complete exUuid "E-New" "even" exStore 0
           (mkJudgment "even" "even" "even" [""; " even"]%string [("nat", "n")] "#f472b6")).
  - reflexivity.
  - discriminate.
  - reflexivity.
Defined.

(** ** Recursive functions of the registry *)

Lemma checkExprTermination_callFree (selfId : string) (structuralVars : list string)
  (allFunctions : JsMap.t RecursiveFunc) (e : FuncExpr) :
  callFree e = true -> checkExprTermination selfId structuralVars allFunctions e = None.
Proof.
  induction e using FuncExpr_ind'
    with (Q := fun p => predCallFree p = true ->
                        checkPredicateTermination selfId structuralVars allFunctions p = None);
    simpl; auto; try discriminate;
    try (intros Hb; apply andb_true_iff in Hb as [H1 H2];
         try apply andb_true_iff in H2 as [H2 H3];
         now rewrite ?IHe, ?IHe0, ?IHe1, ?IHe2, ?IHe3 by assumption).
  intros Hall. induction H as [|a args Ha _ IH]; auto.
  simpl in Hall. apply andb_true_iff in Hall as [H1 H2]. now rewrite (Ha H1), (IH H2).
Qed.

Lemma defaultBodyFor_callFree (s : Store.StoreState) (returnType : FuncReturnType) :
  callFree (Store.defaultBodyFor s returnType) = true.
Proof.
  unfold Store.defaultBodyFor. destruct returnType; auto.
  destruct (find _ _); auto.
  destruct (constructorsOfSort _ _) as [|c cs]; auto.
  simpl. induction (c_args c); simpl; auto.
Qed.

Lemma keyedById_get (constructors : JsMap.t Constructor) (c : Constructor) :
  keyedById constructors -> In c (JsMap.values constructors) ->
  exists c', JsMap.get (c_id c) constructors = Some c'.
Proof.
  intros Hk Hin. apply in_map_iff in Hin as ([k c0] & Hc & Hin). simpl in Hc. subst c0.
  rewrite (Hk _ _ Hin).
  apply JsMapFacts.In_keys_get. apply in_map_iff. now exists (k, c).
Qed.

(** X26: in a registry that stores every constructor under its own id,
    [addRecursiveFunc] never throws and stores, under the identifier it
    draws, a function with exactly one case per constructor of the input
    sort, in registry order, each binding one variable per constructor
    argument; the default bodies contain no call, and the function is stored
    as terminating, without an error. *)
Theorem addRecursiveFunc_default (uuid : nat -> string) (name inputSortId : string)
  (returnType : FuncReturnType) (s : Store.StoreState) (n : nat) :
  keyedById (Store.constructors s) ->
  exists func s',
    Store.addRecursiveFunc uuid name inputSortId returnType s n = Some (func, s', S n)
    /\ f_id func = uuid n
    /\ Store.recursiveFunctions s' = JsMap.set (uuid n) func (Store.recursiveFunctions s)
    /\ map fc_constructorId (f_cases func)
       = map c_id (constructorsOfSort (Store.constructors s) inputSortId)
    /\ map (fun c => length (fc_boundVars c)) (f_cases func)
       = map (fun c => length (c_args c))
             (constructorsOfSort (Store.constructors s) inputSortId)
    /\ Forall (fun c => callFree (fc_body c) = true) (f_cases func)
    /\ f_terminates func = Some true
    /\ f_terminationError func = None.
Proof.
  intros Hk.
  unfold Store.addRecursiveFunc, Store.bindAct, Store.getState, Store.freshId,
    Store.setState, Store.retAct.
  eexists. eexists. split; [reflexivity|].
  cbn [f_id f_cases f_terminates f_terminationError Store.withTermination
       Store.recursiveFunctions Store.withRecursiveFunctions].
  assert (Hlen : forall args i, length (Store.defaultBoundVars i args) = length args).
  { induction args as [|a args IH]; intros i; simpl; auto. }
  assert (Hcheck : forall func cs,
    (forall c, In c cs -> In c (JsMap.values (Store.constructors s))) ->
    checkCases func (Store.constructors s) (Store.recursiveFunctions s)
      (map (fun c => mkFuncCase (c_id c) (Store.defaultBoundVars 0 (c_args c))
                                (Store.defaultBodyFor s returnType)) cs)
    = (true, None)).
  { intros func cs. induction cs as [|c cs IH]; intros Hin; simpl; auto.
    destruct (keyedById_get _ c Hk (Hin c (or_introl eq_refl))) as (c' & ->).
    rewrite checkExprTermination_callFree by apply defaultBodyFor_callFree.
    apply IH. intros c0 H0. apply Hin. now right. }
  unfold checkTermination. cbn [f_cases]. rewrite Hcheck.
  - repeat split; auto.
    + now rewrite map_map.
    + rewrite map_map. apply map_ext. intros c. apply Hlen.
    + apply Forall_forall. intros fc Hfc. apply in_map_iff in Hfc as (c & <- & _).
      apply defaultBodyFor_callFree.
  - intros c Hc. unfold constructorsOfSort in Hc. now apply filter_In in Hc.
Qed.

Lemma addRecursiveFunc_default_witness :
  exists func s',
    Store.addRecursiveFunc exUuid "depth" "nat" RT_int exStore 7 = Some (func, s', 8)
    /\ f_id func = exUuid 7
    /\ Store.recursiveFunctions s'
       = JsMap.set (exUuid 7) func (Store.recursiveFunctions exStore)
    /\ map fc_constructorId (f_cases func)
       = map c_id (constructorsOfSort (Store.constructors exStore) "nat")
    /\ map (fun c => length (fc_boundVars c)) (f_cases func)
       = map (fun c => length (c_args c))
             (constructorsOfSort (Store.constructors exStore) "nat")
    /\ Forall (fun c => callFree (fc_body c) = true) (f_cases func)
    /\ f_terminates func = Some true
    /\ f_terminationError func = None.
Proof.
  apply (addRecursiveFunc_default exUuid "depth" "nat" RT_int exStore 7).
  intros k c Hin. simpl in Hin.
  destruct Hin as [[= <- <-]|[[= <- <-]|[]]]; reflexivity.
Defined.

Lemma has_set_present {V : Type} (k : string) (v : V) (m : JsMap.t V) :
  JsMap.has k m = true -> forall k', JsMap.has k' (JsMap.set k v m) = JsMap.has k' m.
Proof.
  unfold JsMap.has. intros Hk k'. destruct (String.eqb k k') eqn:E.
  - apply String.eqb_eq in E. subst k'. rewrite JsMapFacts.get_set_eq.
    now destruct (JsMap.get k m).
  - apply String.eqb_neq in E. now rewrite JsMapFacts.get_set_neq.
Qed.

(** The termination check reads the registry of functions only to see which
    identifiers are registered. *)
Lemma checkExprTermination_has (selfId : string) (structuralVars : list string)
  (fs1 fs2 : JsMap.t RecursiveFunc) (e : FuncExpr) :
  (forall k, JsMap.has k fs1 = JsMap.has k fs2) ->
  checkExprTermination selfId structuralVars fs1 e
  = checkExprTermination selfId structuralVars fs2 e.
Proof.
  intros Hhas.
  induction e using FuncExpr_ind'
    with (Q := fun p => checkPredicateTermination selfId structuralVars fs1 p
                        = checkPredicateTermination selfId structuralVars fs2 p);
    simpl; auto;
    try (now rewrite ?IHe, ?IHe0, ?IHe1, ?IHe2, ?IHe3).
  - assert (Hall :
      (fix checkAll (l : list FuncExpr) : option string :=
         match l with
         | [] => None
         | a :: r =>
             match checkExprTermination selfId structuralVars fs1 a with
             | Some argErr => Some argErr
             | None => checkAll r
             end
         end) args
      = (fix checkAll (l : list FuncExpr) : option string :=
           match l with
           | [] => None
           | a :: r =>
               match checkExprTermination selfId structuralVars fs2 a with
               | Some argErr => Some argErr
               | None => checkAll r
               end
           end) args
      /\ (fix checkAll (l : list FuncExpr) : option string :=
         match l with
         | [] => None
         | a :: r =>
             match checkExprTermination selfId structuralVars fs1 a with
             | Some argErr => Some argErr
             | None => checkAll r
             end
         end) (tl args)
      = (fix checkAll (l : list FuncExpr) : option string :=
           match l with
           | [] => None
           | a :: r =>
               match checkExprTermination selfId structuralVars fs2 a with
               | Some argErr => Some argErr
               | None => checkAll r
               end
           end) (tl args)).
    { induction H as [|a args Ha _ [IH1 IH2]]; [split; reflexivity|].
      split; [rewrite Ha, IH1; reflexivity|exact IH1]. }
    pose proof (Hhas f) as Hf. unfold JsMap.has in Hf.
    destruct (JsMap.get f fs1), (JsMap.get f fs2); try discriminate Hf; auto.
    destruct (String.eqb f selfId).
    + destruct args as [|principalArg others]; auto.
      destruct (checkPrincipal _ _ _); auto. apply Hall.
    + apply Hall.
  - induction H as [|a args Ha _ IH]; auto. now rewrite Ha, IH.
Qed.

Lemma checkCases_has (func1 func2 : RecursiveFunc) (constructors : JsMap.t Constructor)
  (fs1 fs2 : JsMap.t RecursiveFunc) (cases : list FuncCase) :
  f_id func1 = f_id func2 -> f_inputSortId func1 = f_inputSortId func2 ->
  (forall k, JsMap.has k fs1 = JsMap.has k fs2) ->
  checkCases func1 constructors fs1 cases = checkCases func2 constructors fs2 cases.
Proof.
  intros Hid Hsort Hhas. induction cases as [|c cases IH]; simpl; auto.
  destruct (JsMap.get (fc_constructorId c) constructors); auto.
  rewrite Hid, Hsort, (checkExprTermination_has _ _ fs1 fs2 _ Hhas).
  destruct (checkExprTermination _ _ _ _); auto.
Qed.

(** X27: [updateFuncCase] on a registered function replaces the cases for
    the given constructor and stores the function with a termination flag
    and error that are up to date: they are the verdict of
    [checkTermination] on the function as stored, in the registry as it is
    after the update.  Nothing else in the state changes, and the action
    does nothing when the function is not registered. *)
Theorem updateFuncCase_rechecks (funcId constructorId : string)
  (caseUpdate : Store.FuncCaseUpdates) (s : Store.StoreState) (n : nat) :
  (JsMap.get funcId (Store.recursiveFunctions s) = None ->
   Store.updateFuncCase funcId constructorId caseUpdate s n = Some (tt, s, n))
  /\ forall func,
       JsMap.get funcId (Store.recursiveFunctions s) = Some func ->
       exists func',
         Store.updateFuncCase funcId constructorId caseUpdate s n
         = Some (tt, Store.withRecursiveFunctions s
                       (JsMap.set funcId func' (Store.recursiveFunctions s)), n)
         /\ f_cases func'
            = map (fun c => if String.eqb (fc_constructorId c) constructorId
                            then Store.applyFuncCaseUpdates c caseUpdate else c)
                  (f_cases func)
         /\ (f_id func', f_name func', f_inputSortId func', f_extraArgs func',
             f_returnType func')
            = (f_id func, f_name func, f_inputSortId func, f_extraArgs func,
               f_returnType func)
         /\ (f_terminates func', f_terminationError func')
            = (Some (fst (checkTermination func' (Store.constructors s)
                            (JsMap.set funcId func' (Store.recursiveFunctions s)))),
               snd (checkTermination func' (Store.constructors s)
                      (JsMap.set funcId func' (Store.recursiveFunctions s)))).
Proof.
  unfold Store.updateFuncCase, Store.setState. split.
  - intros ->. destruct s; reflexivity.
  - intros func Hget. rewrite Hget. eexists. split; [reflexivity|].
    cbn [f_cases f_id f_name f_inputSortId f_extraArgs f_returnType f_terminates
         f_terminationError Store.withTermination Store.withCases].
    repeat split. f_equal; [f_equal; f_equal|f_equal];
      unfold checkTermination; cbn [f_cases];
      apply checkCases_has; auto; intros k; symmetry; apply has_set_present;
      unfold JsMap.has; now rewrite Hget.
Qed.

Lemma updateFuncCase_rechecks_witness :
  exists func',
    Store.updateFuncCase "size" "S"
      (Store.mkFuncCaseUpdates None None (Some (FE_call "size" (FE_int 0)))) exStore 0
    = Some (tt, Store.withRecursiveFunctions exStore
                  (JsMap.set "size" func' (Store.recursiveFunctions exStore)), 0)
    /\ f_terminates func' = Some false.
Proof.
  destruct (updateFuncCase_rechecks "size" "S"
              (Store.mkFuncCaseUpdates None None (Some (FE_call "size" (FE_int 0))))
              exStore 0) as [_ H].
  destruct (H exSize eq_refl) as (func' & Hrun & Hcases & Hkeep & Hflag).
  exists func'. split; [exact Hrun|].
  injection Hrun as <-. reflexivity.
Defined.

(** ** Completed proofs *)

Lemma applyTactic_supply_le (uuid : nat -> string)
  (goal : ProofGoal) (tactic : Tactic)
  (constructors : JsMap.t Constructor) (sorts : JsMap.t Sort)
  (functions : JsMap.t RecursiveFunc) (rules : JsMap.t InferenceRule)
  (n n' : nat) (result : TacticResult) :
  isPropositionalTactic tactic = true ->
  applyTactic uuid goal tactic constructors sorts functions rules n = (result, n') ->
  n <= n'.
Proof.
  intros Hprop. destruct result as [newGoals|error].
  { intros H. apply applyTactic_drawnBetween in H. now apply drawnBetween_le in H. }
  destruct goal as [gid [vars hyps] formula].
  unfold applyTactic, sameContextGoal, bindGen, retGen, uuidv4.
  cbn [g_context g_goal hypotheses variables].
  destruct tactic; try discriminate Hprop; clear Hprop;
    repeat match goal with
           | |- context [match ?x with _ => _ end] => destruct x
           end;
    intros [= _ <-]; lia.
Qed.

Section CompletedProofs.
Variable uuid : nat -> string.
Variable I : Interpretation.
Variable property : Property.
Hypothesis uuid_inj : forall i j, uuid i = uuid j -> i = j.

Lemma propositionalRun_invariant (proof : Proof) (n : nat) :
  propositionalRun uuid I property proof n -> runInvariant uuid I property proof n.
Proof.
  induction 1 as [n|proof n m _ IH Hle
                 |proof n goalId tactic cs ss fs rs _ IH Hprop Hsimp Hsafe Hdisc].
  - unfold runInvariant. simpl. rewrite String.eqb_refl. repeat split.
    + intros k [<-|[]]. exists n. split; auto.
    + eexists. repeat split.
    + discriminate.
    + discriminate.
    + intros Hvalid.
      apply (Hvalid (uuid n)
               (mkProofGoal (uuid n) (mkProofContext [] []) (prop_formula property))
               (or_introl eq_refl)); [now rewrite String.eqb_refl|].
      intros h [].
  - destruct IH as (Hkeys & Hroot & Hstatus & Hvalid). repeat split; auto; try apply Hstatus.
    intros k Hk. destruct (Hkeys k Hk) as (i & -> & Hi). exists i. split; auto. lia.
  - destruct IH as (Hkeys & (root & Hroot & Hrh & Hrf) & Hstatus & Hvalid).
    destruct (applyTacticToProof uuid proof goalId tactic cs ss fs rs n)
      as [[proof' result] n'] eqn:E.
    pose proof E as Hsupply. unfold applyTacticToProof, bindGen, retGen in Hsupply.
    assert (Hle : n <= n').
    { destruct (JsMap.get goalId (pf_goals proof)) as [goal|];
        [|injection Hsupply as _ _ <-; lia].
      destruct (negb _); [injection Hsupply as _ _ <-; lia|].
      destruct (applyTactic uuid goal tactic cs ss fs rs n) as [r n1] eqn:Etac.
      apply applyTactic_supply_le in Etac; auto.
      destruct r; injection Hsupply as _ _ <-; lia. }
    clear Hsupply.
    destruct (applyTacticToProof_cases _ _ _ _ _ _ _ _ _ _ _ _ E) as [Hstep _].
    simpl. destruct Hstep as [(error & _ & ->)|(goal & newGoals & Hstep)].
    { repeat split; auto; try apply Hstatus; [|now exists root].
      intros k Hk. destruct (Hkeys k Hk) as (i & -> & Hi). exists i. split; auto. lia. }
    destruct Hstep as (_ & Hin & Hget & Happly & Hopen' & _ & Hold & _ & Hnew & _ & Hst
                       & _ & _ & _ & Hr).
    pose proof (applyTactic_drawnBetween _ _ _ _ _ _ _ _ _ _ Happly) as Hdrawn.
    assert (Hfresh : forall k, In k (JsMap.keys (pf_goals proof)) ->
                               ~ In k (map g_id newGoals)).
    { intros k Hk Hnewk. destruct (Hkeys k Hk) as (i & -> & Hi).
      apply in_map_iff in Hnewk as (g & Hid & Hg).
      destruct (drawnBetween_ids _ _ _ _ Hdrawn g Hg) as (j & Hj & Hrange).
      assert (i = j) by (apply uuid_inj; congruence). lia. }
    assert (Hkey : forall k v, JsMap.get k (pf_goals proof) = Some v ->
                               In k (JsMap.keys (pf_goals proof))).
    { intros k v Hv. apply JsMapFacts.get_In in Hv. apply in_map_iff. now exists (k, v). }
    specialize (Hnew (drawnBetween_NoDup uuid newGoals uuid_inj _ _ Hdrawn)).
    repeat split; try apply Hst.
    + intros k Hk. destruct (in_dec string_dec k (map g_id newGoals)) as [Hnewk|Hnot].
      * apply in_map_iff in Hnewk as (g & <- & Hg).
        destruct (drawnBetween_ids _ _ _ _ Hdrawn g Hg) as (j & Hj & Hrange).
        exists j. split; auto. lia.
      * apply JsMapFacts.In_keys_get in Hk as [v Hv]. rewrite (Hold k Hnot) in Hv.
        destruct (Hkeys k (Hkey _ _ Hv)) as (i & -> & Hi). exists i. split; auto. lia.
    + exists root. rewrite Hr. split; auto.
      rewrite Hold; auto. apply Hfresh. eapply Hkey; eauto.
    + intros Hvalid'. apply Hvalid. intros gid g Hopen Hg.
      destruct (String.eqb gid goalId) eqn:Eid.
      * apply String.eqb_eq in Eid. subst gid. rewrite Hget in Hg. injection Hg as <-.
        apply (applyTactic_valid uuid I goal tactic cs ss fs rs n n' newGoals); auto.
        intros g' Hg'. apply (Hvalid' (g_id g')); auto.
        rewrite Hopen'. apply in_app_iff. right. now apply in_map.
      * apply (Hvalid' gid).
        -- rewrite Hopen'. apply in_app_iff. left. apply filter_In. now rewrite Eid.
        -- rewrite Hold; auto. apply Hfresh. eapply Hkey; eauto.
Qed.
End CompletedProofs.

(** X28: a completed proof proves its property.  If a proof is built by
    [createProof] and [applyTacticToProof] with the tactics [intro_hyp],
    [split], [left], [right], [apply], [reflexivity], [trivial], [exact],
    [discriminate] and [simplify], drawing pairwise distinct identifiers,
    with [simplify] and [reflexivity] used only on goals whose arithmetic
    stays within the integers that JavaScript numbers represent exactly
    (and [simplify] only with non-negative constant lower bounds), and its
    status is [complete], then the formula of the property holds under the
    interpretation over the integers. *)
Theorem completed_proof_sound (uuid : nat -> string) (I : Interpretation)
  (property : Property) (proof : Proof) (n : nat) :
  (forall i j, uuid i = uuid j -> i = j) ->
  propositionalRun uuid I property proof n ->
  pf_status proof = complete ->
  holds I (prop_formula property).
Proof.
  intros Hinj Hrun Hcomplete.
  destruct (propositionalRun_invariant uuid I property Hinj proof n Hrun)
    as (_ & _ & Hstatus & Hvalid).
  apply Hvalid. apply Hstatus in Hcomplete. rewrite Hcomplete. intros gid g [].
Qed.

Lemma completed_proof_sound_witness : holds exInterpretation (prop_formula exConjProperty).
Proof.
  eapply (completed_proof_sound exUuid exInterpretation exConjProperty _ _ exUuid_inj).
  - eapply (run_step _ _ _ _ _ "g3" T_trivial [] [] [] []);
      [|reflexivity|intros H; discriminate H|intros [H|H]; discriminate H
       |intros h H; discriminate H].
    eapply (run_step _ _ _ _ _ "g2" T_simplify [] [] [] []);
      [|reflexivity| | |intros h H; discriminate H].
    + eapply (run_step _ _ _ _ _ "g0" T_split [] [] [] []);
        [|reflexivity|intros H; discriminate H|intros [H|H]; discriminate H
         |intros h H; discriminate H].
      apply (run_create exUuid exInterpretation exConjProperty 0).
    + intros _ goal Hget. vm_compute in Hget. injection Hget as <-. intros h [].
    + intros _ goal Hget. vm_compute in Hget. injection Hget as <-.
      split; [reflexivity|intros h []].
  - reflexivity.
Defined.

(** ** Introduction of a variable under a name of its own *)

Lemma substituteFormulaExpr_removes (x y : string) (e : FormulaExpr) :
  x <> y -> occursInExpr x (substituteFormulaExpr e x (X_var y)) = false.
Proof.
  intros Hxy.
  induction e as [n|c args IH|f arg IH|v| |k l r IHl IHr] using FormulaExpr_ind'; simpl;
    auto.
  - destruct (String.eqb n x) eqn:E; simpl; [|exact E].
    apply String.eqb_neq. congruence.
  - induction IH as [|a args Ha _ IHargs]; simpl; auto. now rewrite Ha, IHargs.
  - now rewrite IHl, IHr.
Qed.

Lemma substituteFormula_removes (x y : string) (f : Formula) :
  x <> y -> occursFree x (substituteFormula f x (X_var y)) = false.
Proof.
  intros Hxy. induction f; simpl; auto;
    rewrite ?substituteFormulaExpr_removes by assumption; auto.
  - destruct (String.eqb varName x) eqn:E; simpl; rewrite E; auto.
  - now rewrite IHf1, IHf2.
  - induction args as [|a args IH]; simpl; auto.
    now rewrite substituteFormulaExpr_removes, IH.
Qed.

(** X29: [intro] under a name of its own does not avoid capture.  On a goal
    [forall x. Q y. B] with [x] different from [y], the tactic [intro(y)]
    succeeds when [y] is not a variable of the context, and the goal it
    produces is [Q y. B[x := y]]: the variable [y] that was introduced for
    [x] does not occur free in it, every occurrence of [x] in [B] now being
    bound by the inner quantifier. *)
Theorem intro_captures (uuid : nat -> string) (goal : ProofGoal)
  (x y sortX sortY : string) (k : QuantKind) (body : Formula)
  (constructors : JsMap.t Constructor) (sorts : JsMap.t Sort)
  (functions : JsMap.t RecursiveFunc) (rules : JsMap.t InferenceRule) (n : nat) :
  g_goal goal = F_quant forall_ x sortX (F_quant k y sortY body) ->
  y <> ""%string -> x <> y ->
  existsb (fun v => String.eqb (pv_name v) y) (variables (g_context goal)) = false ->
  exists g,
    applyTactic uuid goal (T_intro (Some y)) constructors sorts functions rules n
    = (success [g], S n)
    /\ variables (g_context g) = variables (g_context goal) ++ [mkProofVariable y sortX]
    /\ g_goal g = F_quant k y sortY (substituteFormula body x (X_var y))
    /\ occursFree y (g_goal g) = false
    /\ occursFree x (g_goal g) = false.
Proof.
  intros Hgoal Hy Hxy Hctx. destruct goal as [gid [vars hyps] formula].
  simpl in Hgoal, Hctx. subst formula.
  unfold applyTactic, bindGen, retGen, uuidv4. cbn [g_context g_goal hypotheses variables].
  assert (Hor : orElse (Some y) x = y).
  { simpl. destruct (String.eqb y "") eqn:E; auto. apply String.eqb_eq in E. contradiction. }
  rewrite Hor, Hctx.
  assert (Hyx : String.eqb y x = false) by (apply String.eqb_neq; congruence).
  rewrite Hyx. simpl. rewrite Hyx. eexists. split; [reflexivity|].
  simpl. rewrite String.eqb_refl. repeat split.
  destruct (String.eqb y x); auto. now apply substituteFormula_removes.
Qed.

Lemma intro_captures_witness :
  exists g,
    applyTactic exUuid exAllEqualGoal (T_intro (Some "y"%string)) [] [] [] [] 1
    = (success [g], 2)
    /\ variables (g_context g) = [mkProofVariable "y" "nat"]
    /\ g_goal g = F_quant forall_ "y" "nat" (F_num numEq (X_var "y") (X_var "y"))
    /\ occursFree "y" (g_goal g) = false
    /\ occursFree "x" (g_goal g) = false.
Proof.
  apply (intro_captures exUuid exAllEqualGoal "x" "y" "nat" "nat" forall_
           (F_num numEq (X_var "x") (X_var "y")) [] [] [] [] 1).
  - reflexivity.
  - discriminate.
  - discriminate.
  - reflexivity.
Defined.

(** ** Identifiers *)

Lemma byte_cases (P : Z -> bool) :
  forallb P (map Z.of_nat (seq 0 256)) = true ->
  forall b, (0 <= b < 256)%Z -> P b = true.
Proof.
  intros Hall b Hb. rewrite forallb_forall in Hall. apply Hall.
  apply in_map_iff. exists (Z.to_nat b). split; [lia|]. apply in_seq. lia.
Qed.

Lemma byteHex_pair (b : Z) :
  (0 <= b < 256)%Z -> Uuid.hexPair Uuid.isHexDigit (Uuid.byteHex b) = true.
Proof.
  apply (byte_cases (fun b => Uuid.hexPair Uuid.isHexDigit (Uuid.byteHex b))).
  vm_compute. reflexivity.
Qed.

Lemma byteHex_version (b : Z) :
  (0 <= b < 256)%Z ->
  Uuid.hexPair (String.eqb "4") (Uuid.byteHex ((Z.lor (Z.land b 15) 64) mod 256)) = true.
Proof.
  apply (byte_cases
           (fun b => Uuid.hexPair (String.eqb "4")
                       (Uuid.byteHex ((Z.lor (Z.land b 15) 64) mod 256)))).
  vm_compute. reflexivity.
Qed.

Lemma byteHex_variant (b : Z) :
  (0 <= b < 256)%Z ->
  Uuid.hexPair Uuid.isVariantDigit (Uuid.byteHex ((Z.lor (Z.land b 63) 128) mod 256)) = true.
Proof.
  apply (byte_cases
           (fun b => Uuid.hexPair Uuid.isVariantDigit
                       (Uuid.byteHex ((Z.lor (Z.land b 63) 128) mod 256)))).
  vm_compute. reflexivity.
Qed.

Ltac hex_pair H :=
  match type of H with
  | Uuid.hexPair _ ?s = true =>
      destruct s as [|? [|? [|? ?]]]; try discriminate H;
      cbn [Uuid.hexPair] in H; apply andb_true_iff in H; destruct H
  end.

(** X30: what [uuidv4] returns.  With [crypto.randomUUID] it returns the
    result of that function; without it but with [crypto.getRandomValues],
    whatever 16 bytes that function writes, the result is a version 4 UUID
    in the textual form of RFC 4122; without [crypto], or with neither
    function, the result starts with [id-] and is not of that form. *)
Theorem uuidv4_format (env : Uuid.Env) :
  (forall c id, Uuid.crypto env = Some c -> Uuid.randomUUID c = Some id ->
                Uuid.uuidv4 env = id)
  /\ (forall c bytes,
        Uuid.crypto env = Some c -> Uuid.randomUUID c = None ->
        Uuid.getRandomValues c = Some bytes ->
        length bytes = 16 -> (forall b, In b bytes -> (0 <= b < 256)%Z) ->
        Uuid.isUuidV4 (Uuid.uuidv4 env) = true)
  /\ ((Uuid.crypto env = None
       \/ exists c, Uuid.crypto env = Some c /\ Uuid.randomUUID c = None
                    /\ Uuid.getRandomValues c = None) ->
      substring 0 3 (Uuid.uuidv4 env) = "id-"
      /\ Uuid.isUuidV4 (Uuid.uuidv4 env) = false).
Proof.
  unfold Uuid.uuidv4. split; [|split].
  - intros c id -> ->. reflexivity.
  - intros c bytes -> -> -> Hlen Hrange.
    do 16 (destruct bytes as [|? bytes]; [discriminate Hlen|]).
    destruct bytes; [clear Hlen|discriminate Hlen].
    cbn [Uuid.setByte nth map].
    repeat match goal with
           | |- context [Uuid.byteHex (Z.lor (Z.land ?b 15) 64 mod 256)] =>
               let H := fresh "H" in
               assert (H := byteHex_version b (Hrange b ltac:(simpl; tauto)));
               hex_pair H
           | |- context [Uuid.byteHex (Z.lor (Z.land ?b 63) 128 mod 256)] =>
               let H := fresh "H" in
               assert (H := byteHex_variant b (Hrange b ltac:(simpl; tauto)));
               hex_pair H
           | |- context [Uuid.byteHex ?b] =>
               let H := fresh "H" in
               assert (H := byteHex_pair b (Hrange b ltac:(simpl; tauto)));
               hex_pair H
           end.
    match goal with
    | H : String.eqb "4" (String ?a "") = true |- _ =>
        apply String.eqb_eq in H; injection H as <-
    end.
    unfold Uuid.isUuidV4. cbn -[Uuid.isHexDigit Uuid.isVariantDigit String.eqb].
    repeat match goal with
           | H : _ = true |- _ => rewrite H; clear H
           end.
    reflexivity.
  - intros Hnone.
    assert (Hid : forall rest, substring 0 3 ("id-" ++ rest) = "id-"
                               /\ Uuid.isUuidV4 ("id-" ++ rest) = false).
    { intros rest. split; [destruct rest; reflexivity|]. unfold Uuid.isUuidV4.
      apply andb_false_iff. right. reflexivity. }
    destruct Hnone as [->|(c & -> & -> & ->)]; apply Hid.
Qed.

Lemma uuidv4_format_witness :
  Uuid.isUuidV4 (Uuid.uuidv4 exEnv) = true
  /\ Uuid.uuidv4 exEnv = "ffffffff-ffff-4fff-bfff-ffffffffffff".
Proof.
  split; [|reflexivity].
  apply (proj1 (proj2 (uuidv4_format exEnv))
           (Uuid.mkCrypto None (Some (repeat 255%Z 16))) (repeat 255%Z 16));
    try reflexivity.
  intros b Hin. simpl in Hin.
  repeat (destruct Hin as [<-|Hin]; [lia|]). contradiction.
Defined.
